(** * rmw_dds_common: QoS negotiation and graph cache, embedded in Rocq

    A shallow embedding of [rmw_dds_common/src/qos.cpp],
    [rmw_dds_common/src/gid_utils.cpp],
    [rmw_dds_common/src/graph_cache.cpp],
    [rmw_dds_common/src/time_utils.cpp] and
    [rmw_dds_common/src/security.cpp], followed by the properties of
    the specification that concern them and by further properties of
    the code.

    Conventions of the embedding:
    - a pointer argument is an [option] ([None] is [nullptr]); an output
      parameter is returned next to the status;
    - [uint64_t] and [size_t] values that are only compared or counted
      are [N] and [nat]; where the code does arithmetic on [uint64_t]
      the wrap-around modulo 2^64 is written out;
    - a [std::map] with comparator [Compare_rmw_gid_t] is a list of
      key/value pairs kept in key order, iterated from its head;
    - a [std::string] is a [string] that may hold NUL octets; where the
      code hands [c_str()] to a C function, that function sees the text
      up to its first NUL ([c_str]). *)

From Stdlib Require Import NArith ZArith List String Ascii Bool Lia Permutation.
Import ListNotations.

Set Implicit Arguments.
Local Open Scope string_scope.

(* ===================================================================== *)
(** * Part I.  Types of the rmw interface used by the library            *)
(* ===================================================================== *)

(** Status taxonomy ([rmw/ret_types.h]). *)
Inductive rmw_ret_t : Type :=
| RMW_RET_OK
| RMW_RET_ERROR
| RMW_RET_BAD_ALLOC
| RMW_RET_INVALID_ARGUMENT
| RMW_RET_NODE_NAME_NON_EXISTENT.

(** Modelled from the spec: the policy enumerations of the QoS profile
    ([rmw/types.h] is not part of the sources).  Reliability ranges over
    BEST_EFFORT / RELIABLE / SYSTEM_DEFAULT / UNKNOWN / BEST_AVAILABLE. *)
Inductive rmw_qos_reliability_policy_t : Type :=
| RMW_QOS_POLICY_RELIABILITY_SYSTEM_DEFAULT
| RMW_QOS_POLICY_RELIABILITY_RELIABLE
| RMW_QOS_POLICY_RELIABILITY_BEST_EFFORT
| RMW_QOS_POLICY_RELIABILITY_UNKNOWN
| RMW_QOS_POLICY_RELIABILITY_BEST_AVAILABLE.

(** Modelled from the spec: durability ranges over VOLATILE /
    TRANSIENT_LOCAL / SYSTEM_DEFAULT / UNKNOWN / BEST_AVAILABLE. *)
Inductive rmw_qos_durability_policy_t : Type :=
| RMW_QOS_POLICY_DURABILITY_SYSTEM_DEFAULT
| RMW_QOS_POLICY_DURABILITY_TRANSIENT_LOCAL
| RMW_QOS_POLICY_DURABILITY_VOLATILE
| RMW_QOS_POLICY_DURABILITY_UNKNOWN
| RMW_QOS_POLICY_DURABILITY_BEST_AVAILABLE.

(** Modelled from the spec: liveliness ranges over AUTOMATIC /
    MANUAL_BY_TOPIC / SYSTEM_DEFAULT / UNKNOWN / BEST_AVAILABLE. *)
Inductive rmw_qos_liveliness_policy_t : Type :=
| RMW_QOS_POLICY_LIVELINESS_SYSTEM_DEFAULT
| RMW_QOS_POLICY_LIVELINESS_AUTOMATIC
| RMW_QOS_POLICY_LIVELINESS_MANUAL_BY_TOPIC
| RMW_QOS_POLICY_LIVELINESS_UNKNOWN
| RMW_QOS_POLICY_LIVELINESS_BEST_AVAILABLE.

(** Modelled from the spec: the history kind, which no operation of the
    library inspects. *)
Inductive rmw_qos_history_policy_t : Type :=
| RMW_QOS_POLICY_HISTORY_SYSTEM_DEFAULT
| RMW_QOS_POLICY_HISTORY_KEEP_LAST
| RMW_QOS_POLICY_HISTORY_KEEP_ALL
| RMW_QOS_POLICY_HISTORY_UNKNOWN.

(** A duration: two [uint64_t] fields. *)
Record rmw_time_t : Type := mk_time { sec : N; nsec : N }.

(** Modelled from the spec: the QoS profile, "a fixed-shape bundle of
    policy fields". *)
Record rmw_qos_profile_t : Type := mk_qos {
  history : rmw_qos_history_policy_t;
  depth : nat;
  reliability : rmw_qos_reliability_policy_t;
  durability : rmw_qos_durability_policy_t;
  deadline : rmw_time_t;
  lifespan : rmw_time_t;
  liveliness : rmw_qos_liveliness_policy_t;
  liveliness_lease_duration : rmw_time_t;
  avoid_ros_namespace_conventions : bool
}.

Inductive rmw_qos_compatibility_type_t : Type :=
| RMW_QOS_COMPATIBILITY_OK
| RMW_QOS_COMPATIBILITY_WARNING
| RMW_QOS_COMPATIBILITY_ERROR.

(** Modelled from the spec: the structured type hash, "fixed-size
    structured hash; may be the zero value meaning unknown"
    ([rosidl_runtime_c/type_hash.h] is not part of the sources): a
    version octet and the hash octets. *)
Record rosidl_type_hash_t : Type := mk_type_hash {
  version : N;
  value : list Byte.byte
}.

Definition ROSIDL_TYPE_HASH_VERSION_UNSET : N := 0.
Definition ROSIDL_TYPE_HASH_SIZE : nat := 32.

Definition rosidl_get_zero_initialized_type_hash : rosidl_type_hash_t :=
  {| version := 0; value := repeat Byte.x00 ROSIDL_TYPE_HASH_SIZE |}.

Inductive rmw_endpoint_type_t : Type :=
| RMW_ENDPOINT_INVALID
| RMW_ENDPOINT_PUBLISHER
| RMW_ENDPOINT_SUBSCRIPTION.

(** Modelled from the spec: the endpoint-info entry handed to callers,
    holding "node name/namespace, demangled type, type hash, endpoint
    kind tag, endpoint Gid, and QoS" ([rmw/topic_endpoint_info.h] is not
    part of the sources).  The three texts are owned C strings, null
    until set. *)
Module endpoint.
Record rmw_topic_endpoint_info_t : Type := mk {
  node_name : option string;
  node_namespace : option string;
  topic_type : option string;
  topic_type_hash : rosidl_type_hash_t;
  endpoint_type : rmw_endpoint_type_t;
  endpoint_gid : list Byte.byte;
  qos_profile : rmw_qos_profile_t
}.
End endpoint.
Abbreviation rmw_topic_endpoint_info_t := endpoint.rmw_topic_endpoint_info_t.

(** [rmw_topic_endpoint_info_array_t]: [size] is the length of
    [info_array]; the zero-initialised array is the empty one. *)
Definition rmw_topic_endpoint_info_array_t : Type := list rmw_topic_endpoint_info_t.

(** What [qos.cpp] takes from outside the library: the duration
    sentinels of [rmw/types.h], the policy printers of
    [rmw/qos_string_conversions.h] (a null result is [None]) and
    [rcutils_vsnprintf].  The formatter receives the space left and the
    expanded message; it answers its return code and the characters it
    stored. *)
Class rmw_externals : Type := {
  RMW_QOS_DEADLINE_DEFAULT : rmw_time_t;
  RMW_QOS_DEADLINE_BEST_AVAILABLE : rmw_time_t;
  RMW_QOS_LIVELINESS_LEASE_DURATION_DEFAULT : rmw_time_t;
  RMW_QOS_LIVELINESS_LEASE_DURATION_BEST_AVAILABLE : rmw_time_t;
  RMW_DURATION_INFINITE : rmw_time_t;
  rmw_qos_reliability_policy_to_str : rmw_qos_reliability_policy_t -> option string;
  rmw_qos_durability_policy_to_str : rmw_qos_durability_policy_t -> option string;
  rmw_qos_liveliness_policy_to_str : rmw_qos_liveliness_policy_t -> option string;
  rcutils_vsnprintf : nat -> string -> Z * string
}.

(** Decidable equality on the enumerations, as the [==] of the source. *)
Definition reliability_eqb (a b : rmw_qos_reliability_policy_t) : bool :=
  match a, b with
  | RMW_QOS_POLICY_RELIABILITY_SYSTEM_DEFAULT, RMW_QOS_POLICY_RELIABILITY_SYSTEM_DEFAULT
  | RMW_QOS_POLICY_RELIABILITY_RELIABLE, RMW_QOS_POLICY_RELIABILITY_RELIABLE
  | RMW_QOS_POLICY_RELIABILITY_BEST_EFFORT, RMW_QOS_POLICY_RELIABILITY_BEST_EFFORT
  | RMW_QOS_POLICY_RELIABILITY_UNKNOWN, RMW_QOS_POLICY_RELIABILITY_UNKNOWN
  | RMW_QOS_POLICY_RELIABILITY_BEST_AVAILABLE, RMW_QOS_POLICY_RELIABILITY_BEST_AVAILABLE => true
  | _, _ => false
  end.

Definition durability_eqb (a b : rmw_qos_durability_policy_t) : bool :=
  match a, b with
  | RMW_QOS_POLICY_DURABILITY_SYSTEM_DEFAULT, RMW_QOS_POLICY_DURABILITY_SYSTEM_DEFAULT
  | RMW_QOS_POLICY_DURABILITY_TRANSIENT_LOCAL, RMW_QOS_POLICY_DURABILITY_TRANSIENT_LOCAL
  | RMW_QOS_POLICY_DURABILITY_VOLATILE, RMW_QOS_POLICY_DURABILITY_VOLATILE
  | RMW_QOS_POLICY_DURABILITY_UNKNOWN, RMW_QOS_POLICY_DURABILITY_UNKNOWN
  | RMW_QOS_POLICY_DURABILITY_BEST_AVAILABLE, RMW_QOS_POLICY_DURABILITY_BEST_AVAILABLE => true
  | _, _ => false
  end.

Definition liveliness_eqb (a b : rmw_qos_liveliness_policy_t) : bool :=
  match a, b with
  | RMW_QOS_POLICY_LIVELINESS_SYSTEM_DEFAULT, RMW_QOS_POLICY_LIVELINESS_SYSTEM_DEFAULT
  | RMW_QOS_POLICY_LIVELINESS_AUTOMATIC, RMW_QOS_POLICY_LIVELINESS_AUTOMATIC
  | RMW_QOS_POLICY_LIVELINESS_MANUAL_BY_TOPIC, RMW_QOS_POLICY_LIVELINESS_MANUAL_BY_TOPIC
  | RMW_QOS_POLICY_LIVELINESS_UNKNOWN, RMW_QOS_POLICY_LIVELINESS_UNKNOWN
  | RMW_QOS_POLICY_LIVELINESS_BEST_AVAILABLE, RMW_QOS_POLICY_LIVELINESS_BEST_AVAILABLE => true
  | _, _ => false
  end.

Definition compatibility_eqb (a b : rmw_qos_compatibility_type_t) : bool :=
  match a, b with
  | RMW_QOS_COMPATIBILITY_OK, RMW_QOS_COMPATIBILITY_OK
  | RMW_QOS_COMPATIBILITY_WARNING, RMW_QOS_COMPATIBILITY_WARNING
  | RMW_QOS_COMPATIBILITY_ERROR, RMW_QOS_COMPATIBILITY_ERROR => true
  | _, _ => false
  end.

(* ===================================================================== *)
(** * Part II.  qos.cpp                                                   *)
(* ===================================================================== *)

(** ** Comparison of durations *)

(** [operator==(rmw_time_t, rmw_time_t)] *)
Definition time_eq (t1 t2 : rmw_time_t) : bool :=
  (sec t1 =? sec t2)%N && (nsec t1 =? nsec t2)%N.

(** [operator!=(rmw_time_t, rmw_time_t)] *)
Definition time_ne (t1 t2 : rmw_time_t) : bool := negb (time_eq t1 t2).

(** [operator<(rmw_time_t, rmw_time_t)] *)
Definition time_lt (t1 t2 : rmw_time_t) : bool :=
  if (sec t1 <? sec t2)%N then true
  else if (sec t1 =? sec t2)%N && (nsec t1 <? nsec t2)%N then true
  else false.

(** ** Early return *)

(** A statement of a function that may [return] before its end: it
    either falls through with a value or leaves with a status.  The
    state threaded through carries what the function has written so far,
    which the caller keeps in both cases. *)
Inductive flow (A : Type) : Type :=
| Next (a : A)
| Leave (r : rmw_ret_t).
Arguments Leave {A} r.

Definition stmt (S A : Type) : Type := S -> flow A * S.

Definition skip {S : Type} : stmt S unit := fun s => (Next tt, s).

Definition seq {S A B : Type} (c : stmt S A) (k : A -> stmt S B) : stmt S B :=
  fun s => match c s with
           | (Next a, s') => k a s'
           | (Leave r, s') => (Leave r, s')
           end.

Definition when {S : Type} (b : bool) (c : stmt S unit) : stmt S unit :=
  if b then c else skip.

Declare Scope stmt_scope.
Delimit Scope stmt_scope with stmt.
Notation "c1 ;; c2" := (seq c1 (fun _ => c2))
  (at level 61, right associativity) : stmt_scope.

(** The status a function body ends with, [fallthrough] being the
    [return] on its last line. *)
Definition status_of {A : Type} (fallthrough : rmw_ret_t) (f : flow A) : rmw_ret_t :=
  match f with
  | Next _ => fallthrough
  | Leave r => r
  end.

Section Qos.
Context {E : rmw_externals}.

Definition deadline_default : rmw_time_t := RMW_QOS_DEADLINE_DEFAULT.
Definition deadline_best_available : rmw_time_t := RMW_QOS_DEADLINE_BEST_AVAILABLE.
Definition liveliness_lease_duration_default : rmw_time_t :=
  RMW_QOS_LIVELINESS_LEASE_DURATION_DEFAULT.
Definition liveliness_lease_duration_best_available : rmw_time_t :=
  RMW_QOS_LIVELINESS_LEASE_DURATION_BEST_AVAILABLE.

(** ** [_append_to_buffer]

    [buffer] is the text held by the caller's array ([None] for a null
    pointer), [message] the format with its arguments expanded. *)
Definition _append_to_buffer (buffer : option string) (buffer_size : nat)
    (message : string) : rmw_ret_t * option string :=
  match buffer with
  | None => (RMW_RET_OK, buffer)
  | Some text =>
    if Nat.eqb buffer_size 0 then (RMW_RET_OK, buffer)
    else
      let offset := Nat.min (String.length text) buffer_size in
      let write_size := buffer_size - offset in
      let '(snprintf_ret, stored) := rcutils_vsnprintf write_size message in
      if (snprintf_ret <? 0)%Z then (RMW_RET_ERROR, Some (text ++ stored))
      else (RMW_RET_OK, Some (text ++ stored))
  end.

(** What [qos_profile_check_compatible] writes through its two output
    pointers. *)
Record check_out : Type := mk_check_out {
  compatibility : rmw_qos_compatibility_type_t;
  reason : option string
}.

Definition set_compatibility (c : rmw_qos_compatibility_type_t) : stmt check_out unit :=
  fun s => (Next tt, {| compatibility := c; reason := reason s |}).

(** A call of [_append_to_buffer] followed by
    [if (RMW_RET_OK != append_ret) return append_ret;]. *)
Definition append_or_return (reason_size : nat) (message : string) : stmt check_out unit :=
  fun s =>
    let '(append_ret, text) := _append_to_buffer (reason s) reason_size message in
    let s' := {| compatibility := compatibility s; reason := text |} in
    match append_ret with
    | RMW_RET_OK => (Next tt, s')
    | _ => (Leave append_ret, s')
    end.

Definition str_or_unknown (s : option string) : string :=
  match s with
  | Some text => text
  | None => "unknown"
  end.

Definition reliability_unknown (r : rmw_qos_reliability_policy_t) : bool :=
  reliability_eqb r RMW_QOS_POLICY_RELIABILITY_SYSTEM_DEFAULT
  || reliability_eqb r RMW_QOS_POLICY_RELIABILITY_UNKNOWN.

Definition durability_unknown (d : rmw_qos_durability_policy_t) : bool :=
  durability_eqb d RMW_QOS_POLICY_DURABILITY_SYSTEM_DEFAULT
  || durability_eqb d RMW_QOS_POLICY_DURABILITY_UNKNOWN.

Definition liveliness_unknown (l : rmw_qos_liveliness_policy_t) : bool :=
  liveliness_eqb l RMW_QOS_POLICY_LIVELINESS_SYSTEM_DEFAULT
  || liveliness_eqb l RMW_QOS_POLICY_LIVELINESS_UNKNOWN.

(** ** [qos_profile_check_compatible] *)

Definition get_compatibility : stmt check_out rmw_qos_compatibility_type_t :=
  fun s => (Next (compatibility s), s).

(** The statements after the argument checks and the two
    initialisations. *)
Definition check_compatible_body (publisher_qos subscription_qos : rmw_qos_profile_t)
    (reason_size : nat) : stmt check_out unit :=
  let append := append_or_return reason_size in
  let pub_deadline := deadline publisher_qos in
  let sub_deadline := deadline subscription_qos in
  let pub_lease := liveliness_lease_duration publisher_qos in
  let sub_lease := liveliness_lease_duration subscription_qos in
  ( (* Best effort publisher and reliable subscription *)
    when (reliability_eqb (reliability publisher_qos) RMW_QOS_POLICY_RELIABILITY_BEST_EFFORT
          && reliability_eqb (reliability subscription_qos) RMW_QOS_POLICY_RELIABILITY_RELIABLE)
      (set_compatibility RMW_QOS_COMPATIBILITY_ERROR ;;
       append "ERROR: Best effort publisher and reliable subscription;") ;;
    (* Volatile publisher and transient local subscription *)
    when (durability_eqb (durability publisher_qos) RMW_QOS_POLICY_DURABILITY_VOLATILE
          && durability_eqb (durability subscription_qos) RMW_QOS_POLICY_DURABILITY_TRANSIENT_LOCAL)
      (set_compatibility RMW_QOS_COMPATIBILITY_ERROR ;;
       append "ERROR: Volatile publisher and transient local subscription;") ;;
    (* No deadline for publisher and deadline for subscription *)
    when (time_eq pub_deadline deadline_default && time_ne sub_deadline deadline_default)
      (set_compatibility RMW_QOS_COMPATIBILITY_ERROR ;;
       append "ERROR: Subscription has a deadline, but publisher does not;") ;;
    (* Subscription deadline is less than publisher deadline *)
    when (time_ne pub_deadline deadline_default && time_ne sub_deadline deadline_default)
      (when (time_lt sub_deadline pub_deadline)
         (set_compatibility RMW_QOS_COMPATIBILITY_ERROR ;;
          append "ERROR: Subscription deadline is less than publisher deadline;")) ;;
    (* Automatic liveliness for publisher and manual by topic for subscription *)
    when (liveliness_eqb (liveliness publisher_qos) RMW_QOS_POLICY_LIVELINESS_AUTOMATIC
          && liveliness_eqb (liveliness subscription_qos) RMW_QOS_POLICY_LIVELINESS_MANUAL_BY_TOPIC)
      (set_compatibility RMW_QOS_COMPATIBILITY_ERROR ;;
       append "ERROR: Publisher's liveliness is automatic and subscription's is manual by topic;") ;;
    (* No lease duration for publisher and lease duration for subscription *)
    when (time_eq pub_lease liveliness_lease_duration_default
          && time_ne sub_lease liveliness_lease_duration_default)
      (set_compatibility RMW_QOS_COMPATIBILITY_ERROR ;;
       append "ERROR: Subscription has a liveliness lease duration, but publisher does not;") ;;
    (* Subscription lease duration is less than publisher lease duration *)
    when (time_ne pub_lease liveliness_lease_duration_default
          && time_ne sub_lease liveliness_lease_duration_default)
      (when (time_lt sub_lease pub_lease)
         (set_compatibility RMW_QOS_COMPATIBILITY_ERROR ;;
          append "ERROR: Subscription liveliness lease duration is less than publisher;")) ;;
    (* Only check for warnings if there are no errors *)
    seq get_compatibility (fun current =>
    when (compatibility_eqb RMW_QOS_COMPATIBILITY_OK current)
      (let pub_reliability_unknown := reliability_unknown (reliability publisher_qos) in
       let sub_reliability_unknown := reliability_unknown (reliability subscription_qos) in
       let pub_durability_unknown := durability_unknown (durability publisher_qos) in
       let sub_durability_unknown := durability_unknown (durability subscription_qos) in
       let pub_liveliness_unknown := liveliness_unknown (liveliness publisher_qos) in
       let sub_liveliness_unknown := liveliness_unknown (liveliness subscription_qos) in
       let pub_reliability_str :=
         str_or_unknown (rmw_qos_reliability_policy_to_str (reliability publisher_qos)) in
       let sub_reliability_str :=
         str_or_unknown (rmw_qos_reliability_policy_to_str (reliability subscription_qos)) in
       let pub_durability_str :=
         str_or_unknown (rmw_qos_durability_policy_to_str (durability publisher_qos)) in
       let sub_durability_str :=
         str_or_unknown (rmw_qos_durability_policy_to_str (durability subscription_qos)) in
       let pub_liveliness_str :=
         str_or_unknown (rmw_qos_liveliness_policy_to_str (liveliness publisher_qos)) in
       let sub_liveliness_str :=
         str_or_unknown (rmw_qos_liveliness_policy_to_str (liveliness subscription_qos)) in
       (* Reliability warnings *)
       (if pub_reliability_unknown && sub_reliability_unknown then
          set_compatibility RMW_QOS_COMPATIBILITY_WARNING ;;
          append ("WARNING: Publisher reliability is " ++ pub_reliability_str
                  ++ " and subscription reliability is " ++ sub_reliability_str ++ ";")
        else if pub_reliability_unknown
                && reliability_eqb (reliability subscription_qos)
                     RMW_QOS_POLICY_RELIABILITY_RELIABLE then
          set_compatibility RMW_QOS_COMPATIBILITY_WARNING ;;
          append ("WARNING: Reliable subscription, but publisher is "
                  ++ pub_reliability_str ++ ";")
        else if reliability_eqb (reliability publisher_qos)
                  RMW_QOS_POLICY_RELIABILITY_BEST_EFFORT
                && sub_reliability_unknown then
          set_compatibility RMW_QOS_COMPATIBILITY_WARNING ;;
          append ("WARNING: Best effort publisher, but subscription is "
                  ++ sub_reliability_str ++ ";")
        else skip) ;;
       (* Durability warnings *)
       (if pub_durability_unknown && sub_durability_unknown then
          set_compatibility RMW_QOS_COMPATIBILITY_WARNING ;;
          append ("WARNING: Publisher durabilty is " ++ pub_durability_str
                  ++ " and subscription durability is " ++ sub_durability_str ++ ";")
        else if pub_durability_unknown
                && durability_eqb (durability subscription_qos)
                     RMW_QOS_POLICY_DURABILITY_TRANSIENT_LOCAL then
          set_compatibility RMW_QOS_COMPATIBILITY_WARNING ;;
          append ("WARNING: Transient local subscription, but publisher is "
                  ++ pub_durability_str ++ ";")
        else if durability_eqb (durability publisher_qos) RMW_QOS_POLICY_DURABILITY_VOLATILE
                && sub_durability_unknown then
          set_compatibility RMW_QOS_COMPATIBILITY_WARNING ;;
          append ("WARNING: Volatile publisher, but subscription is "
                  ++ sub_durability_str ++ ";")
        else skip) ;;
       (* Liveliness warnings *)
       (if pub_liveliness_unknown && sub_liveliness_unknown then
          set_compatibility RMW_QOS_COMPATIBILITY_WARNING ;;
          append ("WARNING: Publisher liveliness is " ++ pub_liveliness_str
                  ++ " and subscription liveliness is " ++ sub_liveliness_str ++ ";")
        else if pub_liveliness_unknown
                && liveliness_eqb (liveliness subscription_qos)
                     RMW_QOS_POLICY_LIVELINESS_MANUAL_BY_TOPIC then
          set_compatibility RMW_QOS_COMPATIBILITY_WARNING ;;
          append ("WARNING: Subscription's liveliness is manual by topic, but publisher's is "
                  ++ pub_liveliness_str ++ ";")
        else if liveliness_eqb (liveliness publisher_qos) RMW_QOS_POLICY_LIVELINESS_AUTOMATIC
                && sub_liveliness_unknown then
          set_compatibility RMW_QOS_COMPATIBILITY_WARNING ;;
          append ("WARNING: Publisher's liveliness is automatic, but subscription's is "
                  ++ sub_liveliness_str ++ ";")
        else skip)))
  )%stmt.

(** The whole function.  [compatibility_ptr] and [reason_ptr] give what
    the two output pointers refer to on entry; the result is the status
    with what they refer to on exit. *)
Definition qos_profile_check_compatible
    (publisher_qos subscription_qos : rmw_qos_profile_t)
    (compatibility_ptr : option rmw_qos_compatibility_type_t)
    (reason_ptr : option string) (reason_size : nat)
  : rmw_ret_t * option rmw_qos_compatibility_type_t * option string :=
  match compatibility_ptr with
  | None => (RMW_RET_INVALID_ARGUMENT, None, reason_ptr)
  | Some _ =>
    match reason_ptr, reason_size with
    | None, S _ => (RMW_RET_INVALID_ARGUMENT, compatibility_ptr, None)
    | _, _ =>
      (* Presume profiles are compatible until proven otherwise *)
      let entry :=
        {| compatibility := RMW_QOS_COMPATIBILITY_OK;
           reason := match reason_ptr, reason_size with
                     | Some _, S _ => Some ""
                     | _, _ => reason_ptr
                     end |} in
      let '(f, out) := check_compatible_body publisher_qos subscription_qos reason_size entry in
      (status_of RMW_RET_OK f, Some (compatibility out), reason out)
    end
  end.

(** ** [qos_profile_get_best_available_for_subscription] *)

(** The locals the loop over the publishers updates. *)
Record subscription_tally : Type := mk_sub_tally {
  number_of_reliable : nat;
  number_of_transient_local : nat;
  number_of_manual_by_topic : nat;
  sub_use_default_deadline : bool;
  largest_deadline : rmw_time_t;
  sub_use_default_liveliness_lease_duration : bool;
  largest_liveliness_lease_duration : rmw_time_t
}.

Definition subscription_tally_init : subscription_tally :=
  {| number_of_reliable := 0;
     number_of_transient_local := 0;
     number_of_manual_by_topic := 0;
     sub_use_default_deadline := true;
     largest_deadline := mk_time 0 0;
     sub_use_default_liveliness_lease_duration := true;
     largest_liveliness_lease_duration := mk_time 0 0 |}.

(** One iteration of the loop, on the profile of [info_array[i]]. *)
Definition subscription_tally_step (t : subscription_tally) (info : rmw_topic_endpoint_info_t)
  : subscription_tally :=
  let profile := endpoint.qos_profile info in
  {| number_of_reliable :=
       if reliability_eqb RMW_QOS_POLICY_RELIABILITY_RELIABLE (reliability profile)
       then S (number_of_reliable t) else number_of_reliable t;
     number_of_transient_local :=
       if durability_eqb RMW_QOS_POLICY_DURABILITY_TRANSIENT_LOCAL (durability profile)
       then S (number_of_transient_local t) else number_of_transient_local t;
     number_of_manual_by_topic :=
       if liveliness_eqb RMW_QOS_POLICY_LIVELINESS_MANUAL_BY_TOPIC (liveliness profile)
       then S (number_of_manual_by_topic t) else number_of_manual_by_topic t;
     sub_use_default_deadline :=
       if time_ne (deadline profile) deadline_default then false
       else sub_use_default_deadline t;
     largest_deadline :=
       if time_ne (deadline profile) deadline_default then
         if time_lt (largest_deadline t) (deadline profile) then deadline profile
         else largest_deadline t
       else largest_deadline t;
     sub_use_default_liveliness_lease_duration :=
       if time_ne (liveliness_lease_duration profile) liveliness_lease_duration_default
       then false else sub_use_default_liveliness_lease_duration t;
     largest_liveliness_lease_duration :=
       if time_ne (liveliness_lease_duration profile) liveliness_lease_duration_default then
         if time_lt (largest_liveliness_lease_duration t) (liveliness_lease_duration profile)
         then liveliness_lease_duration profile
         else largest_liveliness_lease_duration t
       else largest_liveliness_lease_duration t |}.

Definition set_reliability (p : rmw_qos_profile_t) (r : rmw_qos_reliability_policy_t) :=
  mk_qos (history p) (depth p) r (durability p) (deadline p) (lifespan p)
         (liveliness p) (liveliness_lease_duration p) (avoid_ros_namespace_conventions p).

Definition set_durability (p : rmw_qos_profile_t) (d : rmw_qos_durability_policy_t) :=
  mk_qos (history p) (depth p) (reliability p) d (deadline p) (lifespan p)
         (liveliness p) (liveliness_lease_duration p) (avoid_ros_namespace_conventions p).

Definition set_liveliness (p : rmw_qos_profile_t) (l : rmw_qos_liveliness_policy_t) :=
  mk_qos (history p) (depth p) (reliability p) (durability p) (deadline p) (lifespan p)
         l (liveliness_lease_duration p) (avoid_ros_namespace_conventions p).

Definition set_deadline (p : rmw_qos_profile_t) (t : rmw_time_t) :=
  mk_qos (history p) (depth p) (reliability p) (durability p) t (lifespan p)
         (liveliness p) (liveliness_lease_duration p) (avoid_ros_namespace_conventions p).

Definition set_liveliness_lease_duration (p : rmw_qos_profile_t) (t : rmw_time_t) :=
  mk_qos (history p) (depth p) (reliability p) (durability p) (deadline p) (lifespan p)
         (liveliness p) t (avoid_ros_namespace_conventions p).

Definition qos_profile_get_best_available_for_subscription
    (publishers_info : option rmw_topic_endpoint_info_array_t)
    (subscription_profile : option rmw_qos_profile_t)
  : rmw_ret_t * option rmw_qos_profile_t :=
  match publishers_info, subscription_profile with
  | None, _ => (RMW_RET_INVALID_ARGUMENT, subscription_profile)
  | Some _, None => (RMW_RET_INVALID_ARGUMENT, None)
  | Some info_array, Some p0 =>
    let size := List.length info_array in
    let t := fold_left subscription_tally_step info_array subscription_tally_init in
    let p1 :=
      if reliability_eqb RMW_QOS_POLICY_RELIABILITY_BEST_AVAILABLE (reliability p0) then
        if Nat.eqb (number_of_reliable t) size
        then set_reliability p0 RMW_QOS_POLICY_RELIABILITY_RELIABLE
        else set_reliability p0 RMW_QOS_POLICY_RELIABILITY_BEST_EFFORT
      else p0 in
    let p2 :=
      if durability_eqb RMW_QOS_POLICY_DURABILITY_BEST_AVAILABLE (durability p1) then
        if Nat.eqb (number_of_transient_local t) size
        then set_durability p1 RMW_QOS_POLICY_DURABILITY_TRANSIENT_LOCAL
        else set_durability p1 RMW_QOS_POLICY_DURABILITY_VOLATILE
      else p1 in
    let p3 :=
      if liveliness_eqb RMW_QOS_POLICY_LIVELINESS_BEST_AVAILABLE (liveliness p2) then
        if Nat.eqb (number_of_manual_by_topic t) size
        then set_liveliness p2 RMW_QOS_POLICY_LIVELINESS_MANUAL_BY_TOPIC
        else set_liveliness p2 RMW_QOS_POLICY_LIVELINESS_AUTOMATIC
      else p2 in
    let p4 :=
      if time_eq deadline_best_available (deadline p3) then
        if sub_use_default_deadline t
        then set_deadline p3 RMW_QOS_DEADLINE_DEFAULT
        else set_deadline p3 (largest_deadline t)
      else p3 in
    let p5 :=
      if time_eq liveliness_lease_duration_best_available (liveliness_lease_duration p4) then
        if sub_use_default_liveliness_lease_duration t
        then set_liveliness_lease_duration p4 RMW_QOS_LIVELINESS_LEASE_DURATION_DEFAULT
        else set_liveliness_lease_duration p4 (largest_liveliness_lease_duration t)
      else p4 in
    (RMW_RET_OK, Some p5)
  end.

(** ** [qos_profile_get_best_available_for_publisher] *)

Record publisher_tally : Type := mk_pub_tally {
  use_manual_by_topic : bool;
  pub_use_default_deadline : bool;
  smallest_deadline : rmw_time_t;
  pub_use_default_liveliness_lease_duration : bool;
  smallest_liveliness_lease_duration : rmw_time_t
}.

Definition publisher_tally_init : publisher_tally :=
  {| use_manual_by_topic := false;
     pub_use_default_deadline := true;
     smallest_deadline := RMW_DURATION_INFINITE;
     pub_use_default_liveliness_lease_duration := true;
     smallest_liveliness_lease_duration := RMW_DURATION_INFINITE |}.

Definition publisher_tally_step (t : publisher_tally) (info : rmw_topic_endpoint_info_t)
  : publisher_tally :=
  let profile := endpoint.qos_profile info in
  {| use_manual_by_topic :=
       if liveliness_eqb RMW_QOS_POLICY_LIVELINESS_MANUAL_BY_TOPIC (liveliness profile)
       then true else use_manual_by_topic t;
     pub_use_default_deadline :=
       if time_ne (deadline profile) deadline_default then false
       else pub_use_default_deadline t;
     smallest_deadline :=
       if time_ne (deadline profile) deadline_default then
         if time_lt (deadline profile) (smallest_deadline t) then deadline profile
         else smallest_deadline t
       else smallest_deadline t;
     pub_use_default_liveliness_lease_duration :=
       if time_ne (liveliness_lease_duration profile) liveliness_lease_duration_default
       then false else pub_use_default_liveliness_lease_duration t;
     smallest_liveliness_lease_duration :=
       if time_ne (liveliness_lease_duration profile) liveliness_lease_duration_default then
         if time_lt (liveliness_lease_duration profile) (smallest_liveliness_lease_duration t)
         then liveliness_lease_duration profile
         else smallest_liveliness_lease_duration t
       else smallest_liveliness_lease_duration t |}.

Definition qos_profile_get_best_available_for_publisher
    (subscriptions_info : option rmw_topic_endpoint_info_array_t)
    (publisher_profile : option rmw_qos_profile_t)
  : rmw_ret_t * option rmw_qos_profile_t :=
  match subscriptions_info, publisher_profile with
  | None, _ => (RMW_RET_INVALID_ARGUMENT, publisher_profile)
  | Some _, None => (RMW_RET_INVALID_ARGUMENT, None)
  | Some info_array, Some p0 =>
    let p1 :=
      if reliability_eqb RMW_QOS_POLICY_RELIABILITY_BEST_AVAILABLE (reliability p0)
      then set_reliability p0 RMW_QOS_POLICY_RELIABILITY_RELIABLE else p0 in
    let p2 :=
      if durability_eqb RMW_QOS_POLICY_DURABILITY_BEST_AVAILABLE (durability p1)
      then set_durability p1 RMW_QOS_POLICY_DURABILITY_TRANSIENT_LOCAL else p1 in
    let t := fold_left publisher_tally_step info_array publisher_tally_init in
    let p3 :=
      if liveliness_eqb RMW_QOS_POLICY_LIVELINESS_BEST_AVAILABLE (liveliness p2) then
        if use_manual_by_topic t
        then set_liveliness p2 RMW_QOS_POLICY_LIVELINESS_MANUAL_BY_TOPIC
        else set_liveliness p2 RMW_QOS_POLICY_LIVELINESS_AUTOMATIC
      else p2 in
    let p4 :=
      if time_eq deadline_best_available (deadline p3) then
        if pub_use_default_deadline t
        then set_deadline p3 RMW_QOS_DEADLINE_DEFAULT
        else set_deadline p3 (smallest_deadline t)
      else p3 in
    let p5 :=
      if time_eq liveliness_lease_duration_best_available (liveliness_lease_duration p4) then
        if pub_use_default_liveliness_lease_duration t
        then set_liveliness_lease_duration p4 RMW_QOS_LIVELINESS_LEASE_DURATION_DEFAULT
        else set_liveliness_lease_duration p4 (smallest_liveliness_lease_duration t)
      else p4 in
    (RMW_RET_OK, Some p5)
  end.

End Qos.

(** The values these externals take in rmw: [RMW_DURATION_UNSPECIFIED]
    is [{0, 0}], the best-available sentinel is one nanosecond short of
    [RMW_DURATION_INFINITE], which is [{9223372036, 854775807}]; the
    printers have no text for UNKNOWN; the formatter stores what fits
    before the terminator and answers the length asked for. *)
Definition rmw_defaults : rmw_externals :=
  {| RMW_QOS_DEADLINE_DEFAULT := mk_time 0 0;
     RMW_QOS_DEADLINE_BEST_AVAILABLE := mk_time 9223372036 854775806;
     RMW_QOS_LIVELINESS_LEASE_DURATION_DEFAULT := mk_time 0 0;
     RMW_QOS_LIVELINESS_LEASE_DURATION_BEST_AVAILABLE := mk_time 9223372036 854775806;
     RMW_DURATION_INFINITE := mk_time 9223372036 854775807;
     rmw_qos_reliability_policy_to_str := fun r =>
       match r with
       | RMW_QOS_POLICY_RELIABILITY_SYSTEM_DEFAULT => Some "system_default"
       | RMW_QOS_POLICY_RELIABILITY_RELIABLE => Some "reliable"
       | RMW_QOS_POLICY_RELIABILITY_BEST_EFFORT => Some "best_effort"
       | RMW_QOS_POLICY_RELIABILITY_BEST_AVAILABLE => Some "best_available"
       | RMW_QOS_POLICY_RELIABILITY_UNKNOWN => None
       end;
     rmw_qos_durability_policy_to_str := fun d =>
       match d with
       | RMW_QOS_POLICY_DURABILITY_SYSTEM_DEFAULT => Some "system_default"
       | RMW_QOS_POLICY_DURABILITY_TRANSIENT_LOCAL => Some "transient_local"
       | RMW_QOS_POLICY_DURABILITY_VOLATILE => Some "volatile"
       | RMW_QOS_POLICY_DURABILITY_BEST_AVAILABLE => Some "best_available"
       | RMW_QOS_POLICY_DURABILITY_UNKNOWN => None
       end;
     rmw_qos_liveliness_policy_to_str := fun l =>
       match l with
       | RMW_QOS_POLICY_LIVELINESS_SYSTEM_DEFAULT => Some "system_default"
       | RMW_QOS_POLICY_LIVELINESS_AUTOMATIC => Some "automatic"
       | RMW_QOS_POLICY_LIVELINESS_MANUAL_BY_TOPIC => Some "manual_by_topic"
       | RMW_QOS_POLICY_LIVELINESS_BEST_AVAILABLE => Some "best_available"
       | RMW_QOS_POLICY_LIVELINESS_UNKNOWN => None
       end;
     rcutils_vsnprintf := fun write_size message =>
       (Z.of_nat (String.length message), substring 0 (write_size - 1) message) |}.

(* ===================================================================== *)
(** * Part III.  gid_utils.cpp                                            *)
(* ===================================================================== *)

(** [rmw_gid_t]: the [RMW_GID_STORAGE_SIZE] octets of [data]. *)
Record rmw_gid_t : Type := mk_gid { data : list Byte.byte }.

(** The discovery messages ([rmw_dds_common::msg]). *)
Module msg.
Record Gid : Type := mk_Gid { data : list Byte.byte }.

Record NodeEntitiesInfo : Type := mk_NodeEntitiesInfo {
  node_namespace : string;
  node_name : string;
  reader_gid_seq : list Gid;
  writer_gid_seq : list Gid
}.

Record ParticipantEntitiesInfo : Type := mk_ParticipantEntitiesInfo {
  gid : Gid;
  node_entities_info_seq : list NodeEntitiesInfo
}.
End msg.

(** [std::lexicographical_compare] on octets. *)
Fixpoint lexicographical_compare (a b : list Byte.byte) : bool :=
  match a, b with
  | _, [] => false
  | [], _ :: _ => true
  | x :: a', y :: b' =>
    if (Byte.to_N x <? Byte.to_N y)%N then true
    else if (Byte.to_N y <? Byte.to_N x)%N then false
    else lexicographical_compare a' b'
  end.

(** [0 == std::memcmp(a, b, RMW_GID_STORAGE_SIZE)] *)
Fixpoint memcmp_is_zero (a b : list Byte.byte) : bool :=
  match a, b with
  | [], [] => true
  | x :: a', y :: b' => Byte.eqb x y && memcmp_is_zero a' b'
  | _, _ => false
  end.

(** [Compare_rmw_gid_t::operator()] *)
Definition Compare_rmw_gid_t (lhs rhs : rmw_gid_t) : bool :=
  lexicographical_compare (data lhs) (data rhs).

(** [operator==(const rmw_gid_t &, const rmw_gid_t &)] *)
Definition gid_eq (lhs rhs : rmw_gid_t) : bool :=
  memcmp_is_zero (data lhs) (data rhs).

(** [operator==] of the generated message type [msg::Gid] *)
Definition msg_gid_eq (a b : msg.Gid) : bool :=
  memcmp_is_zero (msg.data a) (msg.data b).

(** [convert_gid_to_msg]: a [memcpy] of the octets. *)
Definition convert_gid_to_msg (gid : rmw_gid_t) : msg.Gid :=
  msg.mk_Gid (data gid).

(** [convert_msg_to_gid]: a [memcpy] of the octets. *)
Definition convert_msg_to_gid (msg_gid : msg.Gid) : rmw_gid_t :=
  mk_gid (msg.data msg_gid).

(* ===================================================================== *)
(** * Part IV.  The containers of the standard library                    *)
(* ===================================================================== *)

(** [std::map<K, V, Compare>]: the pairs in key order.  Two keys are the
    same key when neither is less than the other. *)
Section StdMap.
Variables K V : Type.
Variable less : K -> K -> bool.

Definition std_map : Type := list (K * V).

Definition equivalent (a b : K) : bool := negb (less a b) && negb (less b a).

(** [m.find(k)], [None] for [m.end()] *)
Fixpoint map_find (k : K) (m : std_map) : option V :=
  match m with
  | [] => None
  | (k', v) :: m' => if equivalent k k' then Some v else map_find k m'
  end.

(** Where a new key goes. *)
Fixpoint map_insert (k : K) (v : V) (m : std_map) : std_map :=
  match m with
  | [] => [(k, v)]
  | (k', v') :: m' =>
    if less k k' then (k, v) :: m else (k', v') :: map_insert k v m'
  end.

(** [m.emplace(k, v)]: the map and the [second] of the pair returned. *)
Definition map_emplace (k : K) (v : V) (m : std_map) : std_map * bool :=
  match map_find k m with
  | Some _ => (m, false)
  | None => (map_insert k v m, true)
  end.

(** [m.erase(k)]: the map without the entries whose key is [k], and
    their number. *)
Fixpoint map_erase (k : K) (m : std_map) : std_map * nat :=
  match m with
  | [] => ([], 0)
  | (k', v) :: m' =>
    let '(rest, n) := map_erase k m' in
    if equivalent k k' then (rest, S n) else ((k', v) :: rest, n)
  end.

(** A write [it->second = f(it->second)] through [it = m.find(k)]. *)
Fixpoint map_update (k : K) (f : V -> V) (m : std_map) : std_map :=
  match m with
  | [] => []
  | (k', v) :: m' =>
    if equivalent k k' then (k', f v) :: m' else (k', v) :: map_update k f m'
  end.

End StdMap.

(** [std::set<std::string>]: the elements in order, without repeats. *)
Fixpoint set_insert (x : string) (s : list string) : list string :=
  match s with
  | [] => [x]
  | y :: s' =>
    if (x <? y)%string then x :: s
    else if (y <? x)%string then y :: set_insert x s'
    else s
  end.

(** [std::find_if] followed by a write to the element found; [None]
    when the iterator is [end()]. *)
Fixpoint modify_first {A : Type} (p : A -> bool) (f : A -> A) (l : list A)
  : option (list A) :=
  match l with
  | [] => None
  | x :: l' =>
    if p x then Some (f x :: l')
    else match modify_first p f l' with
         | Some r => Some (x :: r)
         | None => None
         end
  end.

(** [std::find_if] followed by [erase] of the element found; [None]
    when the iterator is [end()]. *)
Fixpoint erase_first {A : Type} (p : A -> bool) (l : list A) : option (list A) :=
  match l with
  | [] => None
  | x :: l' =>
    if p x then Some l'
    else match erase_first p l' with
         | Some r => Some (x :: r)
         | None => None
         end
  end.

(* ===================================================================== *)
(** * Part V.  graph_cache.hpp and graph_cache.cpp                        *)
(* ===================================================================== *)

(** Discovery data of an endpoint (data reader or writer). *)
Record EntityInfo : Type := mk_EntityInfo {
  topic_name : string;
  topic_type : string;
  topic_type_hash : rosidl_type_hash_t;
  participant_gid : rmw_gid_t;
  qos : rmw_qos_profile_t
}.

(** Discovery data of a participant.  Its default constructor leaves
    both members empty. *)
Record ParticipantInfo : Type := mk_ParticipantInfo {
  node_entities_info_seq : list msg.NodeEntitiesInfo;
  enclave : string
}.

Definition ParticipantInfo_default : ParticipantInfo :=
  {| node_entities_info_seq := []; enclave := "" |}.

Definition NodeEntitiesInfoSeq : Type := list msg.NodeEntitiesInfo.
Definition EntityGidToInfo : Type := std_map rmw_gid_t EntityInfo.
Definition ParticipantToNodesMap : Type := std_map rmw_gid_t ParticipantInfo.
Definition GidSeq : Type := list msg.Gid.

(** A registered [std::function<void()>] is known by a name; calling it
    leaves that name in the list of calls a method made. *)
Definition callback : Type := nat.

(** The members of [GraphCache].  The mutex is not modelled: every
    method holds it from entry to exit, so methods run one at a time. *)
Record GraphCache : Type := mk_GraphCache {
  data_writers_ : EntityGidToInfo;
  data_readers_ : EntityGidToInfo;
  participants_ : ParticipantToNodesMap;
  on_change_callback_ : option callback
}.

Definition GraphCache_empty : GraphCache :=
  {| data_writers_ := []; data_readers_ := []; participants_ := [];
     on_change_callback_ := None |}.

Definition with_data_writers (gc : GraphCache) (m : EntityGidToInfo) : GraphCache :=
  mk_GraphCache m (data_readers_ gc) (participants_ gc) (on_change_callback_ gc).

Definition with_data_readers (gc : GraphCache) (m : EntityGidToInfo) : GraphCache :=
  mk_GraphCache (data_writers_ gc) m (participants_ gc) (on_change_callback_ gc).

Definition with_participants (gc : GraphCache) (m : ParticipantToNodesMap) : GraphCache :=
  mk_GraphCache (data_writers_ gc) (data_readers_ gc) m (on_change_callback_ gc).

(** What a method leaves behind: the value returned, the cache, and the
    calls of the change callback it made, in order. *)
Record outcome (A : Type) : Type := mk_outcome {
  returned : A;
  cache : GraphCache;
  calls : list callback
}.

(** [GRAPH_CACHE_CALL_ON_CHANGE_CALLBACK_IF(graph_cache_ptr, condition)] *)
Definition GRAPH_CACHE_CALL_ON_CHANGE_CALLBACK_IF (gc : GraphCache) (condition : bool)
  : list callback :=
  match on_change_callback_ gc with
  | Some f => if condition then [f] else []
  | None => []
  end.

(** [GRAPH_CACHE_CALL_ON_CHANGE_CALLBACK(graph_cache_ptr)] *)
Definition GRAPH_CACHE_CALL_ON_CHANGE_CALLBACK (gc : GraphCache) : list callback :=
  GRAPH_CACHE_CALL_ON_CHANGE_CALLBACK_IF gc true.

Definition set_on_change_callback (f : callback) (gc : GraphCache) : GraphCache :=
  mk_GraphCache (data_writers_ gc) (data_readers_ gc) (participants_ gc) (Some f).

Definition clear_on_change_callback (gc : GraphCache) : GraphCache :=
  mk_GraphCache (data_writers_ gc) (data_readers_ gc) (participants_ gc) None.

(** ** The discovery plane *)

Definition add_writer (gid : rmw_gid_t) (topic_name type_name : string)
    (type_hash : rosidl_type_hash_t) (participant_gid : rmw_gid_t)
    (qos : rmw_qos_profile_t) (gc : GraphCache) : outcome bool :=
  let pair := map_emplace Compare_rmw_gid_t gid
                (mk_EntityInfo topic_name type_name type_hash participant_gid qos)
                (data_writers_ gc) in
  {| returned := snd pair;
     cache := with_data_writers gc (fst pair);
     calls := GRAPH_CACHE_CALL_ON_CHANGE_CALLBACK_IF gc (snd pair) |}.

Definition add_reader (gid : rmw_gid_t) (topic_name type_name : string)
    (type_hash : rosidl_type_hash_t) (participant_gid : rmw_gid_t)
    (qos : rmw_qos_profile_t) (gc : GraphCache) : outcome bool :=
  let pair := map_emplace Compare_rmw_gid_t gid
                (mk_EntityInfo topic_name type_name type_hash participant_gid qos)
                (data_readers_ gc) in
  {| returned := snd pair;
     cache := with_data_readers gc (fst pair);
     calls := GRAPH_CACHE_CALL_ON_CHANGE_CALLBACK_IF gc (snd pair) |}.

Definition add_entity (gid : rmw_gid_t) (topic_name type_name : string)
    (type_hash : rosidl_type_hash_t) (participant_gid : rmw_gid_t)
    (qos : rmw_qos_profile_t) (is_reader : bool) (gc : GraphCache) : outcome bool :=
  if is_reader
  then add_reader gid topic_name type_name type_hash participant_gid qos gc
  else add_writer gid topic_name type_name type_hash participant_gid qos gc.

Definition remove_writer (gid : rmw_gid_t) (gc : GraphCache) : outcome bool :=
  let erased := map_erase Compare_rmw_gid_t gid (data_writers_ gc) in
  let ret := Nat.ltb 0 (snd erased) in
  {| returned := ret;
     cache := with_data_writers gc (fst erased);
     calls := GRAPH_CACHE_CALL_ON_CHANGE_CALLBACK_IF gc ret |}.

Definition remove_reader (gid : rmw_gid_t) (gc : GraphCache) : outcome bool :=
  let erased := map_erase Compare_rmw_gid_t gid (data_readers_ gc) in
  let ret := Nat.ltb 0 (snd erased) in
  {| returned := ret;
     cache := with_data_readers gc (fst erased);
     calls := GRAPH_CACHE_CALL_ON_CHANGE_CALLBACK_IF gc ret |}.

Definition remove_entity (gid : rmw_gid_t) (is_reader : bool) (gc : GraphCache)
  : outcome bool :=
  if is_reader then remove_reader gid gc else remove_writer gid gc.

(** ** The participant and peer-discovery planes *)

(** [participants_.find(gid)], then [emplace] of a default
    [ParticipantInfo] when the key is missing.  The [assert(ret.second)]
    after the [emplace] cannot fail, [find] having just missed. *)
Definition find_or_emplace_participant (gid : rmw_gid_t) (m : ParticipantToNodesMap)
  : ParticipantToNodesMap :=
  match map_find Compare_rmw_gid_t gid m with
  | Some _ => m
  | None => fst (map_emplace Compare_rmw_gid_t gid ParticipantInfo_default m)
  end.

Definition update_participant_entities (m : msg.ParticipantEntitiesInfo) (gc : GraphCache)
  : outcome unit :=
  let gid := convert_msg_to_gid (msg.gid m) in
  let participants := find_or_emplace_participant gid (participants_ gc) in
  let participants' :=
    map_update Compare_rmw_gid_t gid
      (fun info => mk_ParticipantInfo (msg.node_entities_info_seq m) (enclave info))
      participants in
  {| returned := tt;
     cache := with_participants gc participants';
     calls := GRAPH_CACHE_CALL_ON_CHANGE_CALLBACK gc |}.

Definition remove_participant (participant_gid : rmw_gid_t) (gc : GraphCache)
  : outcome bool :=
  let erased := map_erase Compare_rmw_gid_t participant_gid (participants_ gc) in
  let ret := Nat.ltb 0 (snd erased) in
  {| returned := ret;
     cache := with_participants gc (fst erased);
     calls := GRAPH_CACHE_CALL_ON_CHANGE_CALLBACK_IF gc ret |}.

Definition __create_participant_info_message (gid : rmw_gid_t) (info : NodeEntitiesInfoSeq)
  : msg.ParticipantEntitiesInfo :=
  msg.mk_ParticipantEntitiesInfo (convert_gid_to_msg gid) info.

Definition add_participant (participant_gid : rmw_gid_t) (enclave_name : string)
    (gc : GraphCache) : outcome unit :=
  let participants := find_or_emplace_participant participant_gid (participants_ gc) in
  let participants' :=
    map_update Compare_rmw_gid_t participant_gid
      (fun info => mk_ParticipantInfo (node_entities_info_seq info) enclave_name)
      participants in
  {| returned := tt;
     cache := with_participants gc participants';
     calls := GRAPH_CACHE_CALL_ON_CHANGE_CALLBACK gc |}.

(** ** The local-node plane

    A method whose [assert] fails has no outcome: [None]. *)

(** The predicate of the [std::find_if] that looks a node up by name. *)
Definition node_matches (name namespace_ : string) (node_info : msg.NodeEntitiesInfo) : bool :=
  (msg.node_name node_info =? name)%string
  && (msg.node_namespace node_info =? namespace_)%string.

Definition add_node (participant_gid : rmw_gid_t) (name namespace_ : string)
    (gc : GraphCache) : option (outcome msg.ParticipantEntitiesInfo) :=
  match map_find Compare_rmw_gid_t participant_gid (participants_ gc) with
  | None => None
  | Some info =>
    let node_info := msg.mk_NodeEntitiesInfo namespace_ name [] [] in
    let nodes := (node_entities_info_seq info ++ [node_info])%list in
    let participants' :=
      map_update Compare_rmw_gid_t participant_gid
        (fun i => mk_ParticipantInfo nodes (enclave i)) (participants_ gc) in
    Some {| returned := __create_participant_info_message participant_gid nodes;
            cache := with_participants gc participants';
            calls := GRAPH_CACHE_CALL_ON_CHANGE_CALLBACK gc |}
  end.

Definition remove_node (participant_gid : rmw_gid_t) (name namespace_ : string)
    (gc : GraphCache) : option (outcome msg.ParticipantEntitiesInfo) :=
  match map_find Compare_rmw_gid_t participant_gid (participants_ gc) with
  | None => None
  | Some info =>
    match erase_first (node_matches name namespace_) (node_entities_info_seq info) with
    | None => None
    | Some nodes =>
      let participants' :=
        map_update Compare_rmw_gid_t participant_gid
          (fun i => mk_ParticipantInfo nodes (enclave i)) (participants_ gc) in
      Some {| returned := __create_participant_info_message participant_gid nodes;
              cache := with_participants gc participants';
              calls := GRAPH_CACHE_CALL_ON_CHANGE_CALLBACK gc |}
    end
  end.

(** [__modify_node_info]: the message and the map after [func] ran on
    the node found. *)
Definition __modify_node_info (participant_gid : rmw_gid_t) (name namespace_ : string)
    (func : msg.NodeEntitiesInfo -> msg.NodeEntitiesInfo)
    (participant_map : ParticipantToNodesMap)
  : option (msg.ParticipantEntitiesInfo * ParticipantToNodesMap) :=
  match map_find Compare_rmw_gid_t participant_gid participant_map with
  | None => None
  | Some participant_info =>
    match modify_first (node_matches name namespace_) func
            (node_entities_info_seq participant_info) with
    | None => None
    | Some nodes =>
      Some (__create_participant_info_message participant_gid nodes,
            map_update Compare_rmw_gid_t participant_gid
              (fun i => mk_ParticipantInfo nodes (enclave i)) participant_map)
    end
  end.

(** The body shared by the four association methods: [func] through
    [__modify_node_info], then the callback. *)
Definition modify_and_notify (participant_gid : rmw_gid_t) (name namespace_ : string)
    (func : msg.NodeEntitiesInfo -> msg.NodeEntitiesInfo) (gc : GraphCache)
  : option (outcome msg.ParticipantEntitiesInfo) :=
  match __modify_node_info participant_gid name namespace_ func (participants_ gc) with
  | None => None
  | Some (m, participants') =>
    Some {| returned := m;
            cache := with_participants gc participants';
            calls := GRAPH_CACHE_CALL_ON_CHANGE_CALLBACK gc |}
  end.

(** [std::find_if] for an equal gid, and [erase] if one is found. *)
Definition erase_gid (g : msg.Gid) (gids : GidSeq) : GidSeq :=
  match erase_first (fun gid => msg_gid_eq gid g) gids with
  | Some rest => rest
  | None => gids
  end.

Definition add_writer_gid (writer_gid : rmw_gid_t) (info : msg.NodeEntitiesInfo)
  : msg.NodeEntitiesInfo :=
  msg.mk_NodeEntitiesInfo (msg.node_namespace info) (msg.node_name info)
    (msg.reader_gid_seq info) (msg.writer_gid_seq info ++ [convert_gid_to_msg writer_gid])%list.

Definition delete_writer_gid (writer_gid : rmw_gid_t) (info : msg.NodeEntitiesInfo)
  : msg.NodeEntitiesInfo :=
  msg.mk_NodeEntitiesInfo (msg.node_namespace info) (msg.node_name info)
    (msg.reader_gid_seq info) (erase_gid (convert_gid_to_msg writer_gid) (msg.writer_gid_seq info)).

Definition add_reader_gid (reader_gid : rmw_gid_t) (info : msg.NodeEntitiesInfo)
  : msg.NodeEntitiesInfo :=
  msg.mk_NodeEntitiesInfo (msg.node_namespace info) (msg.node_name info)
    (msg.reader_gid_seq info ++ [convert_gid_to_msg reader_gid])%list (msg.writer_gid_seq info).

Definition delete_reader_gid (reader_gid : rmw_gid_t) (info : msg.NodeEntitiesInfo)
  : msg.NodeEntitiesInfo :=
  msg.mk_NodeEntitiesInfo (msg.node_namespace info) (msg.node_name info)
    (erase_gid (convert_gid_to_msg reader_gid) (msg.reader_gid_seq info)) (msg.writer_gid_seq info).

Definition associate_writer (writer_gid participant_gid : rmw_gid_t)
    (name namespace_ : string) (gc : GraphCache) :=
  modify_and_notify participant_gid name namespace_ (add_writer_gid writer_gid) gc.

Definition dissociate_writer (writer_gid participant_gid : rmw_gid_t)
    (name namespace_ : string) (gc : GraphCache) :=
  modify_and_notify participant_gid name namespace_ (delete_writer_gid writer_gid) gc.

Definition associate_reader (reader_gid participant_gid : rmw_gid_t)
    (name namespace_ : string) (gc : GraphCache) :=
  modify_and_notify participant_gid name namespace_ (add_reader_gid reader_gid) gc.

Definition dissociate_reader (reader_gid participant_gid : rmw_gid_t)
    (name namespace_ : string) (gc : GraphCache) :=
  modify_and_notify participant_gid name namespace_ (delete_reader_gid reader_gid) gc.

(** ** The mutating methods as data

    One constructor per method that changes the cache (the overloads
    without a type hash and [add_entity] / [remove_entity] dispatch to
    these), and what running one leaves: the cache and the calls of the
    change callback, or nothing when an [assert] fails. *)
Inductive operation : Type :=
| op_add_writer (gid : rmw_gid_t) (topic_name type_name : string)
    (type_hash : rosidl_type_hash_t) (participant_gid : rmw_gid_t) (qos : rmw_qos_profile_t)
| op_add_reader (gid : rmw_gid_t) (topic_name type_name : string)
    (type_hash : rosidl_type_hash_t) (participant_gid : rmw_gid_t) (qos : rmw_qos_profile_t)
| op_remove_writer (gid : rmw_gid_t)
| op_remove_reader (gid : rmw_gid_t)
| op_add_participant (participant_gid : rmw_gid_t) (enclave_name : string)
| op_remove_participant (participant_gid : rmw_gid_t)
| op_update_participant_entities (m : msg.ParticipantEntitiesInfo)
| op_add_node (participant_gid : rmw_gid_t) (name namespace_ : string)
| op_remove_node (participant_gid : rmw_gid_t) (name namespace_ : string)
| op_associate_writer (writer_gid participant_gid : rmw_gid_t) (name namespace_ : string)
| op_dissociate_writer (writer_gid participant_gid : rmw_gid_t) (name namespace_ : string)
| op_associate_reader (reader_gid participant_gid : rmw_gid_t) (name namespace_ : string)
| op_dissociate_reader (reader_gid participant_gid : rmw_gid_t) (name namespace_ : string).

Definition effect {A : Type} (o : outcome A) : GraphCache * list callback :=
  (cache o, calls o).

Definition run (op : operation) (gc : GraphCache) : option (GraphCache * list callback) :=
  match op with
  | op_add_writer g t ty h p q => Some (effect (add_writer g t ty h p q gc))
  | op_add_reader g t ty h p q => Some (effect (add_reader g t ty h p q gc))
  | op_remove_writer g => Some (effect (remove_writer g gc))
  | op_remove_reader g => Some (effect (remove_reader g gc))
  | op_add_participant p e => Some (effect (add_participant p e gc))
  | op_remove_participant p => Some (effect (remove_participant p gc))
  | op_update_participant_entities m => Some (effect (update_participant_entities m gc))
  | op_add_node p n ns => option_map effect (add_node p n ns gc)
  | op_remove_node p n ns => option_map effect (remove_node p n ns gc)
  | op_associate_writer w p n ns => option_map effect (associate_writer w p n ns gc)
  | op_dissociate_writer w p n ns => option_map effect (dissociate_writer w p n ns gc)
  | op_associate_reader r p n ns => option_map effect (associate_reader r p n ns gc)
  | op_dissociate_reader r p n ns => option_map effect (dissociate_reader r p n ns gc)
  end.

(** The flag a method returns to say whether it changed the cache, for
    the methods that return one. *)
Definition change_flag (op : operation) (gc : GraphCache) : option bool :=
  match op with
  | op_add_writer g t ty h p q => Some (returned (add_writer g t ty h p q gc))
  | op_add_reader g t ty h p q => Some (returned (add_reader g t ty h p q gc))
  | op_remove_writer g => Some (returned (remove_writer g gc))
  | op_remove_reader g => Some (returned (remove_reader g gc))
  | op_remove_participant p => Some (returned (remove_participant p gc))
  | _ => None
  end.

(** ** Allocation

    Modelled from the spec: the caller-supplied allocator through which
    introspection builds its output ([rcutils/allocator.h] and the
    array helpers of rmw are not part of the sources).  An allocator is
    valid or not, and answers each request in turn from [requests]
    ([false] is a null result); past the end of the list every request
    is served. *)
Record rcutils_allocator_t : Type := mk_allocator {
  is_valid : bool;
  requests : list bool
}.

Definition rcutils_get_default_allocator : rcutils_allocator_t :=
  {| is_valid := true; requests := [] |}.

Definition pure {S A : Type} (a : A) : stmt S A := fun s => (Next a, s).

(** One request to the allocator, leaving with [RMW_RET_BAD_ALLOC] on a
    null result. *)
Definition allocate_or_return : stmt rcutils_allocator_t unit :=
  fun a =>
    match requests a with
    | [] => (Next tt, a)
    | true :: rest => (Next tt, mk_allocator (is_valid a) rest)
    | false :: rest => (Leave RMW_RET_BAD_ALLOC, mk_allocator (is_valid a) rest)
    end.

(** What a [const char *] shows of a text: the characters before the
    first NUL.  This is [std::string::c_str] as its readers see it. *)
Fixpoint c_str (s : string) : string :=
  match s with
  | EmptyString => EmptyString
  | String c s' => if Ascii.eqb c zero then EmptyString else String c (c_str s')
  end.

(** [rcutils_strdup], with the null check that follows each call.  The
    argument is a [const char *]: the copy ends where the text has its
    first NUL.  The text setters of [rmw_topic_endpoint_info_t] copy
    their [const char *] argument in the same way. *)
Definition strdup_or_return (text : string) : stmt rcutils_allocator_t string :=
  seq allocate_or_return (fun _ => pure (c_str text)).

(** Modelled from the spec: "Gid.  A fixed-width opaque byte array
    (storage size is an ABI constant, 24 bytes in practice)". *)
Definition RMW_GID_STORAGE_SIZE : nat := 24.

Definition rmw_qos_profile_zero : rmw_qos_profile_t :=
  {| history := RMW_QOS_POLICY_HISTORY_SYSTEM_DEFAULT;
     depth := 0;
     reliability := RMW_QOS_POLICY_RELIABILITY_SYSTEM_DEFAULT;
     durability := RMW_QOS_POLICY_DURABILITY_SYSTEM_DEFAULT;
     deadline := mk_time 0 0;
     lifespan := mk_time 0 0;
     liveliness := RMW_QOS_POLICY_LIVELINESS_SYSTEM_DEFAULT;
     liveliness_lease_duration := mk_time 0 0;
     avoid_ros_namespace_conventions := false |}.

Definition rmw_get_zero_initialized_topic_endpoint_info : rmw_topic_endpoint_info_t :=
  {| endpoint.node_name := None;
     endpoint.node_namespace := None;
     endpoint.topic_type := None;
     endpoint.topic_type_hash := rosidl_get_zero_initialized_type_hash;
     endpoint.endpoint_type := RMW_ENDPOINT_INVALID;
     endpoint.endpoint_gid := repeat Byte.x00 RMW_GID_STORAGE_SIZE;
     endpoint.qos_profile := rmw_qos_profile_zero |}.

(** ** Endpoints of a topic *)

Definition __get_count (entities : EntityGidToInfo) (name : string) : nat :=
  List.length (filter (fun elem => (topic_name (snd elem) =? name)%string) entities).

Inductive EndpointCreator : Type :=
| ROS_NODE
| UNDISCOVERED_ROS_NODE
| BARE_DDS_PARTICIPANT.

Definition __find_name_and_namespace_from_entity_gid
    (participant_map : ParticipantToNodesMap)
    (participant_gid entity_gid : rmw_gid_t) (is_reader : bool)
  : string * string * EndpointCreator :=
  match map_find Compare_rmw_gid_t participant_gid participant_map with
  | None => ("", "", BARE_DDS_PARTICIPANT)
  | Some info =>
    let claims (node_info : msg.NodeEntitiesInfo) :=
      let gid_seq :=
        if is_reader then msg.reader_gid_seq node_info else msg.writer_gid_seq node_info in
      existsb (fun gid => memcmp_is_zero (msg.data gid) (data entity_gid)) gid_seq in
    match find claims (node_entities_info_seq info) with
    | Some node_info =>
      (msg.node_name node_info, msg.node_namespace node_info, ROS_NODE)
    | None => ("", "", UNDISCOVERED_ROS_NODE)
    end
  end.

(** The [switch] on the creator found. *)
Definition endpoint_names (result : string * string * EndpointCreator) : string * string :=
  match result with
  | (name, namespace_, ROS_NODE) => (name, namespace_)
  | (_, _, UNDISCOVERED_ROS_NODE) => ("_NODE_NAME_UNKNOWN_", "_NODE_NAMESPACE_UNKNOWN_")
  | (_, _, BARE_DDS_PARTICIPANT) => ("_CREATED_BY_BARE_DDS_APP_", "_CREATED_BY_BARE_DDS_APP_")
  end.

(** The body of the loop for one entity of the topic: the entry built
    for it, or the status of the setter that failed.  The three text
    setters copy through the allocator; the other setters cannot fail
    on these arguments. *)
Definition fill_endpoint_info (participant_map : ParticipantToNodesMap)
    (demangle_type : string -> string) (is_reader : bool)
    (entity_pair : rmw_gid_t * EntityInfo)
  : stmt rcutils_allocator_t rmw_topic_endpoint_info_t :=
  let result :=
    __find_name_and_namespace_from_entity_gid participant_map
      (participant_gid (snd entity_pair)) (fst entity_pair) is_reader in
  let '(name, namespace_) := endpoint_names result in
  seq (strdup_or_return (c_str name)) (fun name' =>
  seq (strdup_or_return (c_str namespace_)) (fun namespace' =>
  seq (strdup_or_return (c_str (demangle_type (topic_type (snd entity_pair)))))
    (fun type' =>
  pure {| endpoint.node_name := Some name';
          endpoint.node_namespace := Some namespace';
          endpoint.topic_type := Some type';
          endpoint.topic_type_hash := topic_type_hash (snd entity_pair);
          endpoint.endpoint_type :=
            if is_reader then RMW_ENDPOINT_SUBSCRIPTION else RMW_ENDPOINT_PUBLISHER;
          endpoint.endpoint_gid := data (fst entity_pair);
          endpoint.qos_profile := qos (snd entity_pair) |}))).

(** The loop over the entities, skipping those of other topics. *)
Fixpoint fill_endpoints_info (participant_map : ParticipantToNodesMap)
    (name : string) (demangle_type : string -> string) (is_reader : bool)
    (entities : EntityGidToInfo)
  : stmt rcutils_allocator_t (list rmw_topic_endpoint_info_t) :=
  match entities with
  | [] => pure []
  | entity_pair :: rest =>
    if negb (topic_name (snd entity_pair) =? name)%string then
      fill_endpoints_info participant_map name demangle_type is_reader rest
    else
      seq (fill_endpoint_info participant_map demangle_type is_reader entity_pair)
        (fun info =>
      seq (fill_endpoints_info participant_map name demangle_type is_reader rest)
        (fun infos => pure (info :: infos)))
  end.

(** [__get_entities_info_by_topic]: the status, the allocator and what
    [endpoints_info] holds on exit.  A failure after the array was
    allocated runs [rmw_topic_endpoint_info_array_fini], which leaves
    the zero-initialised array. *)
Definition __get_entities_info_by_topic
    (entities : EntityGidToInfo) (participant_map : ParticipantToNodesMap)
    (name : string) (demangle_type : string -> string) (is_reader : bool)
    (allocator : rcutils_allocator_t) (endpoints_info : rmw_topic_endpoint_info_array_t)
  : rmw_ret_t * rcutils_allocator_t * rmw_topic_endpoint_info_array_t :=
  if Nat.eqb (List.length entities) 0 then (RMW_RET_OK, allocator, endpoints_info)
  else
    let size := __get_count entities name in
    if Nat.eqb size 0 then (RMW_RET_OK, allocator, endpoints_info)
    else
      match allocate_or_return allocator with
      | (Leave ret, allocator') => (ret, allocator', endpoints_info)
      | (Next _, allocator') =>
        match fill_endpoints_info participant_map name demangle_type is_reader entities
                allocator' with
        | (Leave ret, allocator'') => (ret, allocator'', [])
        | (Next infos, allocator'') => (RMW_RET_OK, allocator'', infos)
        end
      end.

Definition get_writers_info_by_topic (name : string) (demangle_type : string -> string)
    (allocator : rcutils_allocator_t) (endpoints_info : rmw_topic_endpoint_info_array_t)
    (gc : GraphCache) :=
  __get_entities_info_by_topic (data_writers_ gc) (participants_ gc) name demangle_type
    false allocator endpoints_info.

Definition get_readers_info_by_topic (name : string) (demangle_type : string -> string)
    (allocator : rcutils_allocator_t) (endpoints_info : rmw_topic_endpoint_info_array_t)
    (gc : GraphCache) :=
  __get_entities_info_by_topic (data_readers_ gc) (participants_ gc) name demangle_type
    true allocator endpoints_info.

(** ** Names and types of a node *)

(** [std::map<std::string, std::set<std::string>>] *)
Definition NamesAndTypes : Type := std_map string (list string).

(** [topics[name].insert(type)] *)
Definition names_and_types_insert (name type : string) (topics : NamesAndTypes)
  : NamesAndTypes :=
  match map_find String.ltb name topics with
  | Some _ => map_update String.ltb name (set_insert type) topics
  | None => map_insert String.ltb name [type] topics
  end.

(** Modelled from the spec: the caller's output structure, "a mapping
    topic -> set<type>" laid out as an array of names and an array of
    type arrays ([rmw/names_and_types.h] is not part of the sources).
    The zero-initialised structure has neither. *)
Record rmw_names_and_types_t : Type := mk_names_and_types {
  names : list string;
  types : list (list string)
}.

Definition rmw_get_zero_initialized_names_and_types : rmw_names_and_types_t :=
  {| names := []; types := [] |}.

(** [RMW_RET_OK == rmw_names_and_types_check_zero(p)] *)
Definition names_and_types_is_zero (p : option rmw_names_and_types_t) : bool :=
  match p with
  | Some {| names := []; types := [] |} => true
  | _ => false
  end.

Fixpoint __find_node (participant_map : ParticipantToNodesMap) (name namespace_ : string)
  : option msg.NodeEntitiesInfo :=
  match participant_map with
  | [] => None
  | participant :: rest =>
    match find (node_matches name namespace_) (node_entities_info_seq (snd participant)) with
    | Some node => Some node
    | None => __find_node rest name namespace_
    end
  end.

(** One iteration of the loop of [__get_names_and_types_from_gids]. *)
Definition names_and_types_from_gid (entities_map : EntityGidToInfo)
    (demangle_topic demangle_type : string -> string)
    (topics : NamesAndTypes) (gid_msg : msg.Gid) : NamesAndTypes :=
  match map_find Compare_rmw_gid_t (convert_msg_to_gid gid_msg) entities_map with
  | None => topics
  | Some info =>
    let demangled_topic_name := demangle_topic (topic_name info) in
    if (demangled_topic_name =? "")%string then topics
    else names_and_types_insert demangled_topic_name (demangle_type (topic_type info)) topics
  end.

Definition __get_names_and_types_from_gids (entities_map : EntityGidToInfo)
    (gids : GidSeq) (demangle_topic demangle_type : string -> string) : NamesAndTypes :=
  fold_left (names_and_types_from_gid entities_map demangle_topic demangle_type) gids [].

Fixpoint copy_strings (l : list string) : stmt rcutils_allocator_t (list string) :=
  match l with
  | [] => pure []
  | x :: l' =>
    seq (strdup_or_return (c_str x)) (fun y =>
    seq (copy_strings l') (fun ys => pure (y :: ys)))
  end.

(** The loop of [__populate_rmw_names_and_types]: per topic a copy of
    the name, the array of its types, and a copy of each type. *)
Fixpoint populate_items (topics : NamesAndTypes)
  : stmt rcutils_allocator_t (list (string * list string)) :=
  match topics with
  | [] => pure []
  | item :: rest =>
    seq (strdup_or_return (c_str (fst item))) (fun name =>
    seq allocate_or_return (fun _ =>
    seq (copy_strings (snd item)) (fun item_types =>
    seq (populate_items rest) (fun items => pure ((name, item_types) :: items)))))
  end.

(** [__populate_rmw_names_and_types]: [rmw_names_and_types_init] asks
    for the two arrays; every later failure goes through [cleanup],
    where [rmw_names_and_types_fini] leaves the zero structure. *)
Definition __populate_rmw_names_and_types (topics : NamesAndTypes)
    (allocator : rcutils_allocator_t) (topic_names_and_types : rmw_names_and_types_t)
  : rmw_ret_t * rcutils_allocator_t * rmw_names_and_types_t :=
  match topics with
  | [] => (RMW_RET_OK, allocator, topic_names_and_types)
  | _ :: _ =>
    match seq allocate_or_return (fun _ => allocate_or_return) allocator with
    | (Leave rmw_ret, allocator') => (rmw_ret, allocator', topic_names_and_types)
    | (Next _, allocator') =>
      match populate_items topics allocator' with
      | (Leave rmw_ret, allocator'') =>
        (rmw_ret, allocator'', rmw_get_zero_initialized_names_and_types)
      | (Next items, allocator'') =>
        (RMW_RET_OK, allocator'',
         {| names := map fst items; types := map snd items |})
      end
    end
  end.

(** [__get_names_and_types_by_node].  The two pointers are options; what
    they refer to on exit comes back with the status. *)
Definition __get_names_and_types_by_node
    (participants_map : ParticipantToNodesMap) (entities_map : EntityGidToInfo)
    (name namespace_ : string) (demangle_topic demangle_type : string -> string)
    (get_entities_gids : msg.NodeEntitiesInfo -> GidSeq)
    (allocator : option rcutils_allocator_t)
    (topic_names_and_types : option rmw_names_and_types_t)
  : rmw_ret_t * option rcutils_allocator_t * option rmw_names_and_types_t :=
  match allocator with
  | None => (RMW_RET_INVALID_ARGUMENT, allocator, topic_names_and_types)
  | Some a =>
    if negb (is_valid a) then (RMW_RET_INVALID_ARGUMENT, allocator, topic_names_and_types)
    else
      match topic_names_and_types with
      | None => (RMW_RET_INVALID_ARGUMENT, allocator, topic_names_and_types)
      | Some out =>
        if negb (names_and_types_is_zero topic_names_and_types)
        then (RMW_RET_INVALID_ARGUMENT, allocator, topic_names_and_types)
        else
          match __find_node participants_map name namespace_ with
          | None => (RMW_RET_NODE_NAME_NON_EXISTENT, allocator, topic_names_and_types)
          | Some node_info =>
            let topics :=
              __get_names_and_types_from_gids entities_map (get_entities_gids node_info)
                demangle_topic demangle_type in
            let '(ret, a', out') := __populate_rmw_names_and_types topics a out in
            (ret, Some a', Some out')
          end
      end
  end.

Definition __get_writers_gids (node_info : msg.NodeEntitiesInfo) : GidSeq :=
  msg.writer_gid_seq node_info.

Definition __get_readers_gids (node_info : msg.NodeEntitiesInfo) : GidSeq :=
  msg.reader_gid_seq node_info.

Definition get_writer_names_and_types_by_node (name namespace_ : string)
    (demangle_topic demangle_type : string -> string)
    (allocator : option rcutils_allocator_t)
    (topic_names_and_types : option rmw_names_and_types_t) (gc : GraphCache) :=
  __get_names_and_types_by_node (participants_ gc) (data_writers_ gc) name namespace_
    demangle_topic demangle_type __get_writers_gids allocator topic_names_and_types.

Definition get_reader_names_and_types_by_node (name namespace_ : string)
    (demangle_topic demangle_type : string -> string)
    (allocator : option rcutils_allocator_t)
    (topic_names_and_types : option rmw_names_and_types_t) (gc : GraphCache) :=
  __get_names_and_types_by_node (participants_ gc) (data_readers_ gc) name namespace_
    demangle_topic demangle_type __get_readers_gids allocator topic_names_and_types.

(** ** Counts *)

(** [get_writer_count]; [count] is what the pointer refers to on entry,
    and what it refers to on exit comes back with the status. *)
Definition get_writer_count (topic_name : string) (count : option nat) (gc : GraphCache)
  : rmw_ret_t * option nat :=
  match count with
  | None => (RMW_RET_INVALID_ARGUMENT, None)
  | Some _ => (RMW_RET_OK, Some (__get_count (data_writers_ gc) topic_name))
  end.

Definition get_reader_count (topic_name : string) (count : option nat) (gc : GraphCache)
  : rmw_ret_t * option nat :=
  match count with
  | None => (RMW_RET_INVALID_ARGUMENT, None)
  | Some _ => (RMW_RET_OK, Some (__get_count (data_readers_ gc) topic_name))
  end.

(** ** Names and types of the whole graph *)

(** [__get_names_and_types]: the entities of one map added to [topics]. *)
Definition __get_names_and_types (entities : EntityGidToInfo)
    (demangle_topic demangle_type : string -> string) (topics : NamesAndTypes)
  : NamesAndTypes :=
  fold_left
    (fun topics item =>
       let demangled_topic_name := demangle_topic (topic_name (snd item)) in
       if negb (demangled_topic_name =? "")%string
       then names_and_types_insert demangled_topic_name
              (demangle_type (topic_type (snd item))) topics
       else topics)
    entities topics.

Definition get_names_and_types (demangle_topic demangle_type : string -> string)
    (allocator : option rcutils_allocator_t)
    (topic_names_and_types : option rmw_names_and_types_t) (gc : GraphCache)
  : rmw_ret_t * option rcutils_allocator_t * option rmw_names_and_types_t :=
  match allocator with
  | None => (RMW_RET_INVALID_ARGUMENT, allocator, topic_names_and_types)
  | Some a =>
    if negb (is_valid a) then (RMW_RET_INVALID_ARGUMENT, allocator, topic_names_and_types)
    else
      match topic_names_and_types with
      | None => (RMW_RET_INVALID_ARGUMENT, allocator, topic_names_and_types)
      | Some out =>
        if negb (names_and_types_is_zero topic_names_and_types)
        then (RMW_RET_INVALID_ARGUMENT, allocator, topic_names_and_types)
        else
          let topics :=
            __get_names_and_types (data_writers_ gc) demangle_topic demangle_type
              (__get_names_and_types (data_readers_ gc) demangle_topic demangle_type [])
          in
          let '(ret, a', out') := __populate_rmw_names_and_types topics a out in
          (ret, Some a', Some out')
      end
  end.

(** ** Nodes *)

Definition __get_number_of_nodes (participants_map : ParticipantToNodesMap) : nat :=
  fold_left
    (fun nodes_number elem =>
       nodes_number + List.length (node_entities_info_seq (snd elem)))
    participants_map 0.

Definition get_number_of_nodes (gc : GraphCache) : nat :=
  __get_number_of_nodes (participants_ gc).

(** Modelled from the spec: [rcutils_string_array_t], "three parallel
    arrays" of strings ([rcutils/types/string_array.h] is not part of
    the sources): the strings it holds, none when zero-initialised. *)
Definition rcutils_string_array_t : Type := list string.

Definition rcutils_get_zero_initialized_string_array : rcutils_string_array_t := [].

(** [RMW_RET_OK == rmw_check_zero_rmw_string_array(p)] *)
Definition string_array_is_zero (p : option rcutils_string_array_t) : bool :=
  match p with
  | Some [] => true
  | _ => false
  end.

(** What [get_node_names] copies for one node. *)
Record node_row : Type := mk_node_row {
  row_name : string;
  row_namespace : string;
  row_enclave : option string
}.

(** The inner loop of [get_node_names], over the nodes of one
    participant; [with_enclaves] says whether [enclaves] is non-null. *)
Fixpoint copy_nodes (with_enclaves : bool) (enclave_name : string)
    (nodes : list msg.NodeEntitiesInfo) : stmt rcutils_allocator_t (list node_row) :=
  match nodes with
  | [] => pure []
  | node_info :: rest =>
    seq (strdup_or_return (c_str (msg.node_name node_info))) (fun name =>
    seq (strdup_or_return (c_str (msg.node_namespace node_info))) (fun namespace_ =>
    seq (if with_enclaves
         then seq (strdup_or_return (c_str enclave_name)) (fun e => pure (Some e))
         else pure None) (fun e =>
    seq (copy_nodes with_enclaves enclave_name rest) (fun rows =>
    pure (mk_node_row name namespace_ e :: rows)))))
  end.

(** The outer loop, over the participants. *)
Fixpoint copy_participants (with_enclaves : bool) (participants_map : ParticipantToNodesMap)
  : stmt rcutils_allocator_t (list node_row) :=
  match participants_map with
  | [] => pure []
  | elem :: rest =>
    seq (copy_nodes with_enclaves (enclave (snd elem))
           (node_entities_info_seq (snd elem))) (fun rows =>
    seq (copy_participants with_enclaves rest) (fun rows' =>
    pure (rows ++ rows')%list))
  end.

(** The output of [get_node_names]: status, allocator, and what the
    three array pointers refer to. *)
Record node_names_result : Type := mk_node_names_result {
  node_names_ret : rmw_ret_t;
  node_names_allocator : option rcutils_allocator_t;
  node_names_out : option rcutils_string_array_t;
  node_namespaces_out : option rcutils_string_array_t;
  enclaves_out : option rcutils_string_array_t
}.

(** [get_node_names].  [enclaves] is optional: [None] is a null pointer.
    Each [rcutils_string_array_init] is one request to the allocator;
    every failure goes through [fail], where the arrays are finalised
    and the status is [RMW_RET_BAD_ALLOC]. *)
Definition get_node_names (node_names node_namespaces enclaves : option rcutils_string_array_t)
    (allocator : option rcutils_allocator_t) (gc : GraphCache) : node_names_result :=
  let invalid :=
    mk_node_names_result RMW_RET_INVALID_ARGUMENT allocator node_names node_namespaces
      enclaves in
  if negb (string_array_is_zero node_names) then invalid
  else if negb (string_array_is_zero node_namespaces) then invalid
  else if match enclaves with
          | Some _ => negb (string_array_is_zero enclaves)
          | None => false
          end then invalid
  else
    match allocator with
    | None => invalid
    | Some a =>
      if negb (is_valid a) then invalid
      else
        let with_enclaves := match enclaves with Some _ => true | None => false end in
        let body :=
          seq allocate_or_return (fun _ =>
          seq allocate_or_return (fun _ =>
          seq (if with_enclaves then allocate_or_return else pure tt) (fun _ =>
          copy_participants with_enclaves (participants_ gc)))) in
        match body a with
        | (Next rows, a') =>
          mk_node_names_result RMW_RET_OK (Some a')
            (Some (map row_name rows)) (Some (map row_namespace rows))
            (if with_enclaves
             then Some (map (fun r => match row_enclave r with
                                      | Some e => e
                                      | None => ""
                                      end) rows)
             else None)
        | (Leave _, a') =>
          mk_node_names_result RMW_RET_BAD_ALLOC (Some a')
            (Some rcutils_get_zero_initialized_string_array)
            (Some rcutils_get_zero_initialized_string_array)
            (if with_enclaves then Some rcutils_get_zero_initialized_string_array
             else None)
        end
    end.

(* ===================================================================== *)
(** * Part VI.  qos.cpp: the type hash in the user-data field             *)
(* ===================================================================== *)

Inductive rcutils_ret_t : Type :=
| RCUTILS_RET_OK
| RCUTILS_RET_ERROR
| RCUTILS_RET_BAD_ALLOC
| RCUTILS_RET_INVALID_ARGUMENT.

(** The text form of a type hash belongs to rosidl_runtime_c.
    [rosidl_stringify_type_hash] answers its status and the C string it
    allocated; [rosidl_parse_type_hash_string] receives the text and
    what the output hash held, and answers its status and what the
    output holds afterwards. *)
Class rosidl_externals : Type := {
  rosidl_stringify_type_hash : rosidl_type_hash_t -> rcutils_ret_t * string;
  rosidl_parse_type_hash_string :
    string -> rosidl_type_hash_t -> rcutils_ret_t * rosidl_type_hash_t
}.

(** The pieces of [l] between occurrences of [sep]; [current] holds the
    piece being read, last octet first. *)
Fixpoint segments (sep : Byte.byte) (l current : list Byte.byte) : list (list Byte.byte) :=
  match l with
  | [] => [rev current]
  | x :: l' =>
    if Byte.eqb x sep then rev current :: segments sep l' []
    else segments sep l' (x :: current)
  end.

(** [l] cut at the first [sep]. *)
Fixpoint split_at_first (sep : Byte.byte) (l : list Byte.byte)
  : option (list Byte.byte * list Byte.byte) :=
  match l with
  | [] => None
  | x :: l' =>
    if Byte.eqb x sep then Some ([], l')
    else match split_at_first sep l' with
         | Some (before, after) => Some (x :: before, after)
         | None => None
         end
  end.

(** [m[key] = value] *)
Definition key_value_assign (key : string) (value : list Byte.byte)
    (m : std_map string (list Byte.byte)) : std_map string (list Byte.byte) :=
  match map_find String.ltb key m with
  | Some _ => map_update String.ltb key (fun _ => value) m
  | None => map_insert String.ltb key value m
  end.

(** Modelled from the spec: [rmw::impl::cpp::parse_key_value], which is
    not part of the sources.  "A byte string parsed as key=value; pairs
    separated by ;": each piece between semicolons that holds an equals
    sign binds the text before the first one to the octets after it. *)
Definition parse_key_value (kv : list Byte.byte) : std_map string (list Byte.byte) :=
  fold_left
    (fun m piece =>
       match split_at_first Byte.x3d piece with
       | Some (key, value) => key_value_assign (string_of_list_byte key) value m
       | None => m
       end)
    (segments Byte.x3b kv []) [].

Section TypeHash.
Context {R : rosidl_externals}.

(** [parse_type_hash_from_user_data]; [user_data_size] is the length of
    the octets, [type_hash_out] what the output held on entry. *)
Definition parse_type_hash_from_user_data (user_data : option (list Byte.byte))
    (type_hash_out : rosidl_type_hash_t) : rmw_ret_t * rosidl_type_hash_t :=
  match user_data with
  | None => (RMW_RET_INVALID_ARGUMENT, type_hash_out)
  | Some udvec =>
    let key_value := parse_key_value udvec in
    match map_find String.ltb "typehash" key_value with
    | None => (RMW_RET_OK, rosidl_get_zero_initialized_type_hash)
    | Some found =>
      let type_hash_str := string_of_list_byte found in
      match rosidl_parse_type_hash_string (c_str type_hash_str) type_hash_out with
      | (RCUTILS_RET_OK, parsed) => (RMW_RET_OK, parsed)
      | (_, parsed) => (RMW_RET_ERROR, parsed)
      end
    end
  end.

(** [encode_type_hash_for_user_data_qos]; [string_out] is what the
    output string held on entry. *)
Definition encode_type_hash_for_user_data_qos (type_hash : rosidl_type_hash_t)
    (string_out : string) : rmw_ret_t * string :=
  if (version type_hash =? ROSIDL_TYPE_HASH_VERSION_UNSET)%N then (RMW_RET_OK, "")
  else
    match rosidl_stringify_type_hash type_hash with
    | (RCUTILS_RET_BAD_ALLOC, _) => (RMW_RET_BAD_ALLOC, string_out)
    | (RCUTILS_RET_OK, type_hash_c_str) =>
      (RMW_RET_OK, "typehash=" ++ c_str type_hash_c_str ++ ";")
    | (_, _) => (RMW_RET_ERROR, string_out)
    end.

End TypeHash.

(** Modelled from the spec: the canonical string form of a type hash.
    [rosidl_stringify_type_hash] and [rosidl_parse_type_hash_string]
    belong to rosidl_runtime_c and are not part of the sources.  The
    form is that of the scenario "typehash=RIHS01_abc...;", which parses
    to version 1 and the decoded value: the prefix [RIHS01_] followed by
    two lower-case hexadecimal digits per octet of the value.  The
    writer produces this one form.  The reader wants RIHS and a version
    of two hexadecimal digits, knows version 01 only, and wants all the
    [ROSIDL_TYPE_HASH_SIZE] octets; where it fails the output keeps its
    value and holds the version read so far. *)
Definition hex_digit (n : N) : ascii :=
  nth (N.to_nat n) (list_ascii_of_string "0123456789abcdef") "0"%char.

Definition hex_value (c : ascii) : option N :=
  let n := N_of_ascii c in
  if ((48 <=? n) && (n <=? 57))%N then Some (n - 48)%N
  else if ((65 <=? n) && (n <=? 70))%N then Some (n - 55)%N
  else if ((97 <=? n) && (n <=? 102))%N then Some (n - 87)%N
  else None.

Fixpoint hex_of_bytes (l : list Byte.byte) : string :=
  match l with
  | [] => ""
  | b :: l' =>
    String (hex_digit (Byte.to_N b / 16)) (String (hex_digit (Byte.to_N b mod 16))
      (hex_of_bytes l'))
  end.

Fixpoint bytes_of_hex (s : string) : option (list Byte.byte) :=
  match s with
  | EmptyString => Some []
  | String hi (String lo s') =>
    match hex_value hi, hex_value lo, bytes_of_hex s' with
    | Some h, Some l, Some rest =>
      match Byte.of_N (16 * h + l) with
      | Some b => Some (b :: rest)
      | None => None
      end
    | _, _, _ => None
    end
  | String _ EmptyString => None
  end.

Definition rihs01 : rosidl_externals :=
  {| rosidl_stringify_type_hash := fun h =>
       (RCUTILS_RET_OK, "RIHS01_" ++ hex_of_bytes (value h));
     rosidl_parse_type_hash_string := fun text out =>
       let invalid v := (RCUTILS_RET_INVALID_ARGUMENT, mk_type_hash v (value out)) in
       if (String.length text <? 7)%nat then invalid 0%N
       else if negb (substring 0 4 text =? "RIHS")%string then invalid 0%N
       else
         match bytes_of_hex (substring 4 2 text) with
         | Some [v] =>
           if negb (Byte.to_N v =? 1)%N then invalid (Byte.to_N v)
           else if negb (String.length text =? 7 + 2 * ROSIDL_TYPE_HASH_SIZE)%nat
           then invalid 1%N
           else
             match bytes_of_hex (substring 7 (2 * ROSIDL_TYPE_HASH_SIZE) text) with
             | Some octets => (RCUTILS_RET_OK, mk_type_hash 1 octets)
             | None => invalid 1%N
             end
         | _ => invalid 0%N
         end |}.

(* ===================================================================== *)
(** * Part VI-a.  time_utils.cpp                                          *)
(* ===================================================================== *)

(** Arithmetic of [uint64_t]: results are taken modulo 2^64. *)
Definition UINT64_MODULUS : N := 2 ^ 64.

Definition uint64_add (a b : N) : N := ((a + b) mod UINT64_MODULUS)%N.

Definition uint64_sub (a b : N) : N :=
  ((a mod UINT64_MODULUS + (UINT64_MODULUS - b mod UINT64_MODULUS)) mod UINT64_MODULUS)%N.

Definition uint64_mul (a b : N) : N := ((a * b) mod UINT64_MODULUS)%N.

(** [INT_MAX] of [<climits>], for a 32-bit [int]; in the comparisons and
    the subtraction below it is converted to [uint64_t]. *)
Definition INT_MAX : N := 2147483647.

(** [clamp_rmw_time_to_dds_time]; the debug log is not modelled. *)
Definition clamp_rmw_time_to_dds_time (time : rmw_time_t) : rmw_time_t :=
  let t := time in
  let sec_to_ns := 1000000000%N in
  let ns_sec_adjust := (nsec t / sec_to_ns)%N in
  let overflow_nsec := (INT_MAX <? ns_sec_adjust)%N in
  let ns_sec_adjust := if overflow_nsec then INT_MAX else ns_sec_adjust in
  let overflow_sec := (uint64_sub INT_MAX ns_sec_adjust <? sec t)%N in
  let t_sec := if overflow_sec then INT_MAX else uint64_add (sec t) ns_sec_adjust in
  if overflow_nsec || overflow_sec
  then {| sec := t_sec; nsec := uint64_sub sec_to_ns 1 |}
  else {| sec := t_sec; nsec := uint64_sub (nsec t) (uint64_mul ns_sec_adjust sec_to_ns) |}.

(** The length of a duration in nanoseconds. *)
Definition total_nanoseconds (t : rmw_time_t) : N := (sec t * 1000000000 + nsec t)%N.

(** What the fields of an [rmw_time_t] can hold. *)
Definition is_uint64 (n : N) : Prop := (n < UINT64_MODULUS)%N.


(** The longest duration of DDS: [INT_MAX] seconds and 10^9 - 1
    nanoseconds. *)
Definition dds_time_max : rmw_time_t := {| sec := INT_MAX; nsec := 999999999 |}.

(* ===================================================================== *)
(** * Part VI-b.  security.cpp                                            *)
(* ===================================================================== *)

(** [rcpputils::fs::path] belongs to rcpputils and reads the file
    system: [path_append root name] is the text of [path(root) /= name],
    and [is_regular_file] what the file system answers for a path. *)
Class rcpputils_fs : Type := {
  path_append : string -> string -> string;
  is_regular_file : string -> bool
}.

(** [std::unordered_map<std::string, std::string>]: its bindings, one
    per key. *)
Definition unordered_map : Type := list (string * string).

(** [m.find(key)] *)
Fixpoint unordered_find (key : string) (m : unordered_map) : option string :=
  match m with
  | [] => None
  | (k, v) :: m' => if (k =? key)%string then Some v else unordered_find key m'
  end.

(** [m[key] = value] *)
Fixpoint unordered_assign (key value : string) (m : unordered_map) : unordered_map :=
  match m with
  | [] => [(key, value)]
  | (k, v) :: m' =>
    if (k =? key)%string then (k, value) :: m'
    else (k, v) :: unordered_assign key value m'
  end.

Definition required_files : list (string * string) :=
  [ ("IDENTITY_CA", "identity_ca.cert.pem");
    ("CERTIFICATE", "cert.pem");
    ("PRIVATE_KEY", "key.pem");
    ("PERMISSIONS_CA", "permissions_ca.cert.pem");
    ("GOVERNANCE", "governance.p7s");
    ("PERMISSIONS", "permissions.p7s") ].

Definition optional_files : list (string * string) :=
  [ ("CRL", "crl.pem") ].

Section Security.
Context {F : rcpputils_fs}.
Variables prefix secure_root : string.

(** The loop over the required files: [false] and the cleared map at
    the first file that is missing. *)
Fixpoint required_loop (files : list (string * string)) (result : unordered_map)
  : bool * unordered_map :=
  match files with
  | [] => (true, result)
  | el :: rest =>
    let full_path := path_append secure_root (snd el) in
    if negb (is_regular_file full_path) then (false, [])
    else required_loop rest (unordered_assign (fst el) (prefix ++ full_path) result)
  end.

(** The loop over the optional files. *)
Fixpoint optional_loop (files : list (string * string)) (result : unordered_map)
  : unordered_map :=
  match files with
  | [] => result
  | el :: rest =>
    let full_path := path_append secure_root (snd el) in
    if is_regular_file full_path
    then optional_loop rest (unordered_assign (fst el) (prefix ++ full_path) result)
    else optional_loop rest result
  end.

(** [get_security_files].  The two constant maps are unordered, so the
    order in which the loops meet their entries is not fixed by the
    code: [required_order] and [optional_order] are those orders. *)
Definition get_security_files (required_order optional_order : list (string * string))
    (result : unordered_map) : bool * unordered_map :=
  match required_loop required_order result with
  | (false, result') => (false, result')
  | (true, result') => (true, optional_loop optional_order result')
  end.

End Security.


(** A file system to evaluate [get_security_files] on: every path names
    a regular file except a revocation list. *)
Definition sample_fs : rcpputils_fs :=
  {| path_append := fun root name => root ++ "/" ++ name;
     is_regular_file := fun path => negb (path =? "/enclave/crl.pem")%string |}.

(* ===================================================================== *)
(** * Part VI-c.  qos.cpp: topic-driven resolution and services           *)
(* ===================================================================== *)

(** [rmw_qos_profile_services_default] and
    [rmw_topic_endpoint_info_array_fini] belong to rmw; the latter
    answers its status and what it leaves of the allocator. *)
Class rmw_profile_externals : Type := {
  rmw_qos_profile_services_default : rmw_qos_profile_t;
  rmw_topic_endpoint_info_array_fini :
    rmw_topic_endpoint_info_array_t -> rcutils_allocator_t ->
    rmw_ret_t * rcutils_allocator_t
}.

(** Modelled from the spec: the "node handle" ([rmw_node_t] of
    [rmw/types.h] is not part of the sources).  The code reads one thing
    of it: [node->context->options.allocator]. *)
Record rmw_node_t : Type := mk_node { node_allocator : rcutils_allocator_t }.

(** [GetEndpointInfoByTopicFunction]: node, allocator, topic name,
    [no_mangle] and the array on entry; status, allocator and array on
    exit. *)
Definition GetEndpointInfoByTopicFunction : Type :=
  rmw_node_t -> rcutils_allocator_t -> string -> bool ->
  rmw_topic_endpoint_info_array_t ->
  rmw_ret_t * rcutils_allocator_t * rmw_topic_endpoint_info_array_t.

Definition rmw_get_zero_initialized_topic_endpoint_info_array
  : rmw_topic_endpoint_info_array_t := [].

(** [RMW_RET_OK != ret] *)
Definition ret_not_ok (ret : rmw_ret_t) : bool :=
  match ret with
  | RMW_RET_OK => false
  | _ => true
  end.

Section QosTopic.
Context {E : rmw_externals} {P : rmw_profile_externals}.

Definition _qos_profile_has_best_available_policy (qos_profile : rmw_qos_profile_t) : bool :=
  if reliability_eqb RMW_QOS_POLICY_RELIABILITY_BEST_AVAILABLE (reliability qos_profile)
  then true
  else if durability_eqb RMW_QOS_POLICY_DURABILITY_BEST_AVAILABLE (durability qos_profile)
  then true
  else if liveliness_eqb RMW_QOS_POLICY_LIVELINESS_BEST_AVAILABLE (liveliness qos_profile)
  then true
  else if time_eq deadline_best_available (deadline qos_profile) then true
  else if time_eq liveliness_lease_duration_best_available
            (liveliness_lease_duration qos_profile)
  then true
  else false.

(** [qos_profile_get_best_available_for_topic_subscription]; the status
    comes back with what [qos_profile] refers to on exit. *)
Definition qos_profile_get_best_available_for_topic_subscription
    (node : option rmw_node_t) (topic_name : option string)
    (qos_profile : option rmw_qos_profile_t)
    (get_endpoint_info : GetEndpointInfoByTopicFunction)
  : rmw_ret_t * option rmw_qos_profile_t :=
  match node, topic_name, qos_profile with
  | Some n, Some t, Some p =>
    if _qos_profile_has_best_available_policy p then
      let allocator := node_allocator n in
      let publishers_info := rmw_get_zero_initialized_topic_endpoint_info_array in
      let '(ret, allocator, publishers_info) :=
        get_endpoint_info n allocator t false publishers_info in
      if ret_not_ok ret then (ret, qos_profile)
      else
        let '(ret, qos_profile') := qos_profile_get_best_available_for_subscription (Some publishers_info) qos_profile in
        let '(fini_ret, _) := rmw_topic_endpoint_info_array_fini publishers_info allocator in
        if ret_not_ok fini_ret then (fini_ret, qos_profile')
        else if ret_not_ok ret then (ret, qos_profile')
        else (RMW_RET_OK, qos_profile')
    else (RMW_RET_OK, qos_profile)
  | _, _, _ => (RMW_RET_INVALID_ARGUMENT, qos_profile)
  end.

Definition qos_profile_get_best_available_for_topic_publisher
    (node : option rmw_node_t) (topic_name : option string)
    (qos_profile : option rmw_qos_profile_t)
    (get_endpoint_info : GetEndpointInfoByTopicFunction)
  : rmw_ret_t * option rmw_qos_profile_t :=
  match node, topic_name, qos_profile with
  | Some n, Some t, Some p =>
    if _qos_profile_has_best_available_policy p then
      let allocator := node_allocator n in
      let subscriptions_info := rmw_get_zero_initialized_topic_endpoint_info_array in
      let '(ret, allocator, subscriptions_info) :=
        get_endpoint_info n allocator t false subscriptions_info in
      if ret_not_ok ret then (ret, qos_profile)
      else
        let '(ret, qos_profile') := qos_profile_get_best_available_for_publisher (Some subscriptions_info) qos_profile in
        let '(fini_ret, _) := rmw_topic_endpoint_info_array_fini subscriptions_info allocator in
        if ret_not_ok fini_ret then (fini_ret, qos_profile')
        else if ret_not_ok ret then (ret, qos_profile')
        else (RMW_RET_OK, qos_profile')
    else (RMW_RET_OK, qos_profile)
  | _, _, _ => (RMW_RET_INVALID_ARGUMENT, qos_profile)
  end.

Definition qos_profile_update_best_available_for_services (qos_profile : rmw_qos_profile_t)
  : rmw_qos_profile_t :=
  let result := qos_profile in
  let result :=
    if reliability_eqb RMW_QOS_POLICY_RELIABILITY_BEST_AVAILABLE (reliability result)
    then set_reliability result (reliability rmw_qos_profile_services_default)
    else result in
  let result :=
    if durability_eqb RMW_QOS_POLICY_DURABILITY_BEST_AVAILABLE (durability result)
    then set_durability result (durability rmw_qos_profile_services_default)
    else result in
  let result :=
    if liveliness_eqb RMW_QOS_POLICY_LIVELINESS_BEST_AVAILABLE (liveliness result)
    then set_liveliness result (liveliness rmw_qos_profile_services_default)
    else result in
  let result :=
    if time_eq deadline_best_available (deadline result)
    then set_deadline result (deadline rmw_qos_profile_services_default)
    else result in
  let result :=
    if time_eq liveliness_lease_duration_best_available (liveliness_lease_duration result)
    then set_liveliness_lease_duration result
           (liveliness_lease_duration rmw_qos_profile_services_default)
    else result in
  result.

End QosTopic.

(* ===================================================================== *)
(** * Part VII.  The decision table and the resolution rules, as stated   *)
(* ===================================================================== *)

Section QosTables.
Context {E : rmw_externals}.

(** The seven ERROR rows of the compatibility table, in the order the
    specification lists them. *)
Definition error_rows (pub sub : rmw_qos_profile_t) : list bool :=
  [ reliability_eqb (reliability pub) RMW_QOS_POLICY_RELIABILITY_BEST_EFFORT
    && reliability_eqb (reliability sub) RMW_QOS_POLICY_RELIABILITY_RELIABLE;
    durability_eqb (durability pub) RMW_QOS_POLICY_DURABILITY_VOLATILE
    && durability_eqb (durability sub) RMW_QOS_POLICY_DURABILITY_TRANSIENT_LOCAL;
    time_eq (deadline pub) RMW_QOS_DEADLINE_DEFAULT
    && negb (time_eq (deadline sub) RMW_QOS_DEADLINE_DEFAULT);
    (negb (time_eq (deadline pub) RMW_QOS_DEADLINE_DEFAULT)
     && negb (time_eq (deadline sub) RMW_QOS_DEADLINE_DEFAULT))
    && time_lt (deadline sub) (deadline pub);
    liveliness_eqb (liveliness pub) RMW_QOS_POLICY_LIVELINESS_AUTOMATIC
    && liveliness_eqb (liveliness sub) RMW_QOS_POLICY_LIVELINESS_MANUAL_BY_TOPIC;
    time_eq (liveliness_lease_duration pub) RMW_QOS_LIVELINESS_LEASE_DURATION_DEFAULT
    && negb (time_eq (liveliness_lease_duration sub) RMW_QOS_LIVELINESS_LEASE_DURATION_DEFAULT);
    (negb (time_eq (liveliness_lease_duration pub) RMW_QOS_LIVELINESS_LEASE_DURATION_DEFAULT)
     && negb (time_eq (liveliness_lease_duration sub) RMW_QOS_LIVELINESS_LEASE_DURATION_DEFAULT))
    && time_lt (liveliness_lease_duration sub) (liveliness_lease_duration pub) ].

Definition table_yields_error (pub sub : rmw_qos_profile_t) : bool :=
  existsb (fun row => row) (error_rows pub sub).

(** The WARNING rows: one side unknown (SYSTEM_DEFAULT or UNKNOWN) and
    the other unknown too, or holding the value whose match depends on
    how the unknown resolves. *)
Definition warning_rows (pub sub : rmw_qos_profile_t) : list bool :=
  [ reliability_unknown (reliability pub)
    && (reliability_unknown (reliability sub)
        || reliability_eqb (reliability sub) RMW_QOS_POLICY_RELIABILITY_RELIABLE);
    reliability_eqb (reliability pub) RMW_QOS_POLICY_RELIABILITY_BEST_EFFORT
    && reliability_unknown (reliability sub);
    durability_unknown (durability pub)
    && (durability_unknown (durability sub)
        || durability_eqb (durability sub) RMW_QOS_POLICY_DURABILITY_TRANSIENT_LOCAL);
    durability_eqb (durability pub) RMW_QOS_POLICY_DURABILITY_VOLATILE
    && durability_unknown (durability sub);
    liveliness_unknown (liveliness pub)
    && (liveliness_unknown (liveliness sub)
        || liveliness_eqb (liveliness sub) RMW_QOS_POLICY_LIVELINESS_MANUAL_BY_TOPIC);
    liveliness_eqb (liveliness pub) RMW_QOS_POLICY_LIVELINESS_AUTOMATIC
    && liveliness_unknown (liveliness sub) ].

Definition table_yields_warning (pub sub : rmw_qos_profile_t) : bool :=
  existsb (fun row => row) (warning_rows pub sub).

(** The verdict the table gives: ERROR when an ERROR row holds, else
    WARNING when a WARNING row holds, else OK. *)
Definition table_verdict (pub sub : rmw_qos_profile_t) : rmw_qos_compatibility_type_t :=
  if table_yields_error pub sub then RMW_QOS_COMPATIBILITY_ERROR
  else if table_yields_warning pub sub then RMW_QOS_COMPATIBILITY_WARNING
  else RMW_QOS_COMPATIBILITY_OK.

(** The deadlines, and the lease durations, of the endpoints that set
    one. *)
Definition observed_deadlines (infos : rmw_topic_endpoint_info_array_t) : list rmw_time_t :=
  filter (fun t => time_ne t deadline_default)
         (map (fun info => deadline (endpoint.qos_profile info)) infos).

Definition observed_leases (infos : rmw_topic_endpoint_info_array_t) : list rmw_time_t :=
  filter (fun t => time_ne t liveliness_lease_duration_default)
         (map (fun info => liveliness_lease_duration (endpoint.qos_profile info)) infos).

(** [m] is a least element of [l] for [operator<]. *)
Definition least_of (l : list rmw_time_t) (m : rmw_time_t) : Prop :=
  In m l /\ forall t, In t l -> time_lt t m = false.

End QosTables.

(** ** Statements that can only raise the verdict to one value

    [raises c b v]: run from any state, [c] ends with verdict [v] when
    [b] holds and with the verdict it started from otherwise, and it
    leaves early only when [b] holds. *)
Section Verdicts.
Context {E : rmw_externals}.

Definition raises (c : stmt check_out unit) (b : bool) (v : rmw_qos_compatibility_type_t)
  : Prop :=
  forall s,
    compatibility (snd (c s)) = (if b then v else compatibility s)
    /\ (forall r, fst (c s) = Leave r -> b = true).

(** The verdict a statement ends with. *)
Definition verdict_after (c : stmt check_out unit) (s : check_out)
  : rmw_qos_compatibility_type_t :=
  compatibility (snd (c s)).

(** The warning block: nothing unless the verdict is still OK. *)
Definition after_warnings (pub sub : rmw_qos_profile_t)
    (v : rmw_qos_compatibility_type_t) : rmw_qos_compatibility_type_t :=
  match v with
  | RMW_QOS_COMPATIBILITY_OK =>
    if table_yields_warning pub sub then RMW_QOS_COMPATIBILITY_WARNING
    else RMW_QOS_COMPATIBILITY_OK
  | _ => v
  end.

(** The verdict after a run of ERROR rows followed by a tail that is a
    function of the verdict reached. *)
Definition after_rows (rows : list bool)
    (tail : rmw_qos_compatibility_type_t -> rmw_qos_compatibility_type_t)
    (v : rmw_qos_compatibility_type_t) : rmw_qos_compatibility_type_t :=
  tail (if existsb (fun row => row) rows then RMW_QOS_COMPATIBILITY_ERROR else v).

End Verdicts.

(** ** The assignments of a resolution, one per policy

    Each replaces the policy when it is BEST_AVAILABLE and leaves the
    profile alone otherwise. *)
Section Resolutions.
Context {E : rmw_externals}.

Definition resolve_reliability (v : rmw_qos_reliability_policy_t) (p : rmw_qos_profile_t) :=
  if reliability_eqb RMW_QOS_POLICY_RELIABILITY_BEST_AVAILABLE (reliability p)
  then set_reliability p v else p.

Definition resolve_durability (v : rmw_qos_durability_policy_t) (p : rmw_qos_profile_t) :=
  if durability_eqb RMW_QOS_POLICY_DURABILITY_BEST_AVAILABLE (durability p)
  then set_durability p v else p.

Definition resolve_liveliness (v : rmw_qos_liveliness_policy_t) (p : rmw_qos_profile_t) :=
  if liveliness_eqb RMW_QOS_POLICY_LIVELINESS_BEST_AVAILABLE (liveliness p)
  then set_liveliness p v else p.

Definition resolve_deadline (v : rmw_time_t) (p : rmw_qos_profile_t) :=
  if time_eq deadline_best_available (deadline p) then set_deadline p v else p.

Definition resolve_lease (v : rmw_time_t) (p : rmw_qos_profile_t) :=
  if time_eq liveliness_lease_duration_best_available (liveliness_lease_duration p)
  then set_liveliness_lease_duration p v else p.

(** Two profiles that differ at most in the five negotiated policies. *)
Definition same_fixed_fields (p q : rmw_qos_profile_t) : Prop :=
  history q = history p /\ depth q = depth p /\ lifespan q = lifespan p
  /\ avoid_ros_namespace_conventions q = avoid_ros_namespace_conventions p.

End Resolutions.

(** ** Profiles and endpoints to evaluate the engine on *)

(** The profile whose five negotiated policies are all BEST_AVAILABLE
    (the [rmw_qos_profile_best_available] of rmw). *)
Definition rmw_qos_profile_best_available : rmw_qos_profile_t :=
  {| history := RMW_QOS_POLICY_HISTORY_KEEP_LAST;
     depth := 10;
     reliability := RMW_QOS_POLICY_RELIABILITY_BEST_AVAILABLE;
     durability := RMW_QOS_POLICY_DURABILITY_BEST_AVAILABLE;
     deadline := mk_time 9223372036 854775806;
     lifespan := mk_time 0 0;
     liveliness := RMW_QOS_POLICY_LIVELINESS_BEST_AVAILABLE;
     liveliness_lease_duration := mk_time 9223372036 854775806;
     avoid_ros_namespace_conventions := false |}.

(** An endpoint entry that carries the profile [q]. *)
Definition endpoint_with_qos (q : rmw_qos_profile_t) : rmw_topic_endpoint_info_t :=
  {| endpoint.node_name := None;
     endpoint.node_namespace := None;
     endpoint.topic_type := None;
     endpoint.topic_type_hash := rosidl_get_zero_initialized_type_hash;
     endpoint.endpoint_type := RMW_ENDPOINT_INVALID;
     endpoint.endpoint_gid := repeat Byte.x00 RMW_GID_STORAGE_SIZE;
     endpoint.qos_profile := q |}.

(** A concrete profile with the given policies and durations. *)
Definition profile_of (r : rmw_qos_reliability_policy_t) (d : rmw_qos_durability_policy_t)
    (l : rmw_qos_liveliness_policy_t) (dl ld : rmw_time_t) : rmw_qos_profile_t :=
  {| history := RMW_QOS_POLICY_HISTORY_KEEP_LAST;
     depth := 10;
     reliability := r;
     durability := d;
     deadline := dl;
     lifespan := mk_time 0 0;
     liveliness := l;
     liveliness_lease_duration := ld;
     avoid_ros_namespace_conventions := false |}.

(** ** Caches and gids to evaluate the graph cache on *)

Definition gid_of (first : Byte.byte) : rmw_gid_t :=
  mk_gid (first :: repeat Byte.x00 (RMW_GID_STORAGE_SIZE - 1)).

Definition G1 : rmw_gid_t := gid_of Byte.x01.
Definition G2 : rmw_gid_t := gid_of Byte.x02.
Definition W1 : rmw_gid_t := gid_of Byte.x11.
Definition W2 : rmw_gid_t := gid_of Byte.x12.
Definition R1 : rmw_gid_t := gid_of Byte.x21.

(** A reliable, volatile profile. *)
Definition QOS_R_V : rmw_qos_profile_t :=
  profile_of RMW_QOS_POLICY_RELIABILITY_RELIABLE RMW_QOS_POLICY_DURABILITY_VOLATILE
    RMW_QOS_POLICY_LIVELINESS_AUTOMATIC (mk_time 0 0) (mk_time 0 0).

(** The cache of the first scenario of the specification, with a change
    callback registered: participant [G1] in enclave "encA", writer [W1]
    on "/chatter", and the peer's report that node "talker" owns [W1]. *)
Definition talker_cache : GraphCache :=
  cache (update_participant_entities
           (msg.mk_ParticipantEntitiesInfo (convert_gid_to_msg G1)
              [msg.mk_NodeEntitiesInfo "" "talker" [] [convert_gid_to_msg W1]])
    (cache (add_writer W1 "/chatter" "std/String" rosidl_get_zero_initialized_type_hash
              G1 QOS_R_V
    (cache (add_participant G1 "encA"
    (set_on_change_callback 7 GraphCache_empty)))))).

(** ** The reverse lookup, as the specification words it

    [reverse_lookup participant_map participant_gid entity_gid is_reader
    name namespace_]: the three outcomes of looking for the node that
    owns an endpoint. *)
Definition lists_gid (is_reader : bool) (entity_gid : rmw_gid_t)
    (node : msg.NodeEntitiesInfo) : Prop :=
  In (convert_gid_to_msg entity_gid)
     (if is_reader then msg.reader_gid_seq node else msg.writer_gid_seq node).

Inductive reverse_lookup (participant_map : ParticipantToNodesMap)
    (participant_gid entity_gid : rmw_gid_t) (is_reader : bool)
  : string -> string -> Prop :=
| lookup_ros_node (info : ParticipantInfo) (node : msg.NodeEntitiesInfo) :
    map_find Compare_rmw_gid_t participant_gid participant_map = Some info ->
    In node (node_entities_info_seq info) ->
    lists_gid is_reader entity_gid node ->
    reverse_lookup participant_map participant_gid entity_gid is_reader
      (msg.node_name node) (msg.node_namespace node)
| lookup_undiscovered_ros_node (info : ParticipantInfo) :
    map_find Compare_rmw_gid_t participant_gid participant_map = Some info ->
    (forall node, In node (node_entities_info_seq info) ->
                  ~ lists_gid is_reader entity_gid node) ->
    reverse_lookup participant_map participant_gid entity_gid is_reader
      "_NODE_NAME_UNKNOWN_" "_NODE_NAMESPACE_UNKNOWN_"
| lookup_bare_dds_participant :
    map_find Compare_rmw_gid_t participant_gid participant_map = None ->
    reverse_lookup participant_map participant_gid entity_gid is_reader
      "_CREATED_BY_BARE_DDS_APP_" "_CREATED_BY_BARE_DDS_APP_".

(** The entry the loop of [__get_entities_info_by_topic] builds for one
    entity when no copy fails; the three texts are C strings. *)
Definition endpoint_of (participant_map : ParticipantToNodesMap)
    (demangle_type : string -> string) (is_reader : bool)
    (entity_pair : rmw_gid_t * EntityInfo) : rmw_topic_endpoint_info_t :=
  let names :=
    endpoint_names
      (__find_name_and_namespace_from_entity_gid participant_map
         (participant_gid (snd entity_pair)) (fst entity_pair) is_reader) in
  {| endpoint.node_name := Some (c_str (fst names));
     endpoint.node_namespace := Some (c_str (snd names));
     endpoint.topic_type := Some (c_str (demangle_type (topic_type (snd entity_pair))));
     endpoint.topic_type_hash := topic_type_hash (snd entity_pair);
     endpoint.endpoint_type :=
       if is_reader then RMW_ENDPOINT_SUBSCRIPTION else RMW_ENDPOINT_PUBLISHER;
     endpoint.endpoint_gid := data (fst entity_pair);
     endpoint.qos_profile := qos (snd entity_pair) |}.

(** The entities of a topic, in the order of the map. *)
Definition on_topic (name : string) (entities : EntityGidToInfo) : EntityGidToInfo :=
  filter (fun elem => (topic_name (snd elem) =? name)%string) entities.

(** The two by-topic queries under one name. *)
Definition get_entities_info_by_topic (is_reader : bool) :=
  if is_reader then get_readers_info_by_topic else get_writers_info_by_topic.

Definition entities_of (is_reader : bool) (gc : GraphCache) : EntityGidToInfo :=
  if is_reader then data_readers_ gc else data_writers_ gc.


(** ** Names and types of a node, for stating *)

(** The two by-node queries under one name. *)
Definition get_names_and_types_by_node (is_reader : bool) :=
  if is_reader then get_reader_names_and_types_by_node
  else get_writer_names_and_types_by_node.

Definition node_gids (is_reader : bool) (node : msg.NodeEntitiesInfo) : GidSeq :=
  if is_reader then msg.reader_gid_seq node else msg.writer_gid_seq node.

(** The topic/types pairs an output structure holds. *)
Definition entries (out : rmw_names_and_types_t) : list (string * list string) :=
  combine (names out) (types out).

(** [type] is listed under [topic]. *)
Definition listed (items : list (string * list string)) (topic type : string) : Prop :=
  exists item_types, In (topic, item_types) items /\ In type item_types.

(** The items as the output arrays hold them: each name and each type
    as a C string. *)
Definition c_items (topics : list (string * list string)) : list (string * list string) :=
  map (fun item => (c_str (fst item), map c_str (snd item))) topics.

(** [found] is the first node that matches the name and the namespace,
    in the order of the participants map and, within a participant, of
    its list of nodes. *)
Definition first_matching_node (participants_map : ParticipantToNodesMap)
    (name namespace_ : string) (found : msg.NodeEntitiesInfo) : Prop :=
  exists earlier participant later before after,
    participants_map = (earlier ++ participant :: later)%list
    /\ (forall other node,
          In other earlier -> In node (node_entities_info_seq (snd other)) ->
          node_matches name namespace_ node = false)
    /\ node_entities_info_seq (snd participant) = (before ++ found :: after)%list
    /\ (forall node, In node before -> node_matches name namespace_ node = false)
    /\ node_matches name namespace_ found = true.

(** The pair [topic], [type] comes from an endpoint of the entity map
    whose gid is in [gids] and whose demangled topic name is not empty. *)
Definition from_gid_list (entities_map : EntityGidToInfo)
    (demangle_topic demangle_type : string -> string) (gids : GidSeq)
    (topic type : string) : Prop :=
  exists gid info,
    In gid gids
    /\ map_find Compare_rmw_gid_t (convert_msg_to_gid gid) entities_map = Some info
    /\ demangle_topic (topic_name info) = topic
    /\ topic <> ""%string
    /\ demangle_type (topic_type info) = type.


(** ** The type-hash codec, for stating *)

(** No octet of the text is [sep]. *)
Definition free_of (sep : Byte.byte) (text : string) : bool :=
  negb (existsb (Byte.eqb sep) (list_byte_of_string text)).



(** A hash of version 1 to evaluate the codec on. *)
Definition sample_type_hash : rosidl_type_hash_t :=
  mk_type_hash 1 (Byte.xab :: Byte.xcd :: repeat Byte.x01 30).


(** ** The order of the maps, for stating *)

(** Every key is less than each key after it. *)
Fixpoint keys_ascending {K : Type} (less : K -> K -> bool) (keys : list K) : bool :=
  match keys with
  | [] => true
  | k :: rest => forallb (less k) rest && keys_ascending less rest
  end.

Definition map_ordered {K V : Type} (less : K -> K -> bool) (m : std_map K V) : bool :=
  keys_ascending less (map fst m).

(** The three maps of a cache are in strictly ascending gid order. *)
Definition cache_ordered (gc : GraphCache) : bool :=
  map_ordered Compare_rmw_gid_t (data_writers_ gc)
  && map_ordered Compare_rmw_gid_t (data_readers_ gc)
  && map_ordered Compare_rmw_gid_t (participants_ gc).

(** [gc'] is what some sequence of mutating methods makes of [gc]. *)
Inductive reaches (gc : GraphCache) : GraphCache -> Prop :=
| reaches_here : reaches gc gc
| reaches_step (op : operation) (gc' gc'' : GraphCache) (calls' : list callback) :
    reaches gc gc' -> run op gc' = Some (gc'', calls') -> reaches gc gc''.


(** The two counting queries under one name, and the two adding and
    removing methods. *)
Definition get_entity_count (is_reader : bool) :=
  if is_reader then get_reader_count else get_writer_count.


(** The number [get_writer_count] / [get_reader_count] reports. *)
Definition count_of (is_reader : bool) (topic : string) (gc : GraphCache) : nat :=
  __get_count (entities_of is_reader gc) topic.

Definition on_this_topic (topic name : string) : nat :=
  if (name =? topic)%string then 1 else 0.


(** ** Nodes, for stating *)

(** Name, namespace and enclave of every node as C strings, by
    participant in map order and within a participant in the order of
    its list. *)
Definition node_rows (participants_map : ParticipantToNodesMap)
  : list (string * string * string) :=
  flat_map
    (fun elem =>
       map (fun node => (c_str (msg.node_name node), c_str (msg.node_namespace node),
                         c_str (enclave (snd elem))))
           (node_entities_info_seq (snd elem)))
    participants_map.

(** The number of nodes the cache holds for a participant. *)
Definition nodes_of_participant (p : rmw_gid_t) (gc : GraphCache) : nat :=
  match map_find Compare_rmw_gid_t p (participants_ gc) with
  | Some info => List.length (node_entities_info_seq info)
  | None => 0
  end.


(** The arguments [get_node_names] accepts: zero-initialised arrays for
    names and namespaces, a zero-initialised array or a null pointer for
    the enclaves, and a valid allocator. *)
Definition node_names_arguments_valid
    (node_names node_namespaces enclaves : option rcutils_string_array_t)
    (allocator : option rcutils_allocator_t) : bool :=
  string_array_is_zero node_names
  && string_array_is_zero node_namespaces
  && match enclaves with
     | Some _ => string_array_is_zero enclaves
     | None => true
     end
  && match allocator with
     | Some a => is_valid a
     | None => false
     end.


(** The pair [topic], [type] comes from an endpoint of the map whose
    demangled topic name is not empty. *)
Definition from_entities (entities_map : EntityGidToInfo)
    (demangle_topic demangle_type : string -> string) (topic type : string) : Prop :=
  exists gid info,
    In (gid, info) entities_map
    /\ demangle_topic (topic_name info) = topic
    /\ topic <> ""%string
    /\ demangle_type (topic_type info) = type.


(** ** Resolution against the peers, for stating *)

Section PeerTables.
Context {E : rmw_externals}.

(** [m] is a greatest element of [l] for [operator<]. *)
Definition greatest_of (l : list rmw_time_t) (m : rmw_time_t) : Prop :=
  In m l /\ forall t, In t l -> time_lt m t = false.

(** All five negotiated policies of a profile are BEST_AVAILABLE. *)
Definition fully_best_available (p : rmw_qos_profile_t) : bool :=
  reliability_eqb RMW_QOS_POLICY_RELIABILITY_BEST_AVAILABLE (reliability p)
  && durability_eqb RMW_QOS_POLICY_DURABILITY_BEST_AVAILABLE (durability p)
  && liveliness_eqb RMW_QOS_POLICY_LIVELINESS_BEST_AVAILABLE (liveliness p)
  && time_eq RMW_QOS_DEADLINE_BEST_AVAILABLE (deadline p)
  && time_eq RMW_QOS_LIVELINESS_LEASE_DURATION_BEST_AVAILABLE (liveliness_lease_duration p).

(** The endpoints agree on having a deadline (a lease duration): all
    set one or none does. *)
Definition uniform_deadlines (infos : rmw_topic_endpoint_info_array_t) : bool :=
  forallb (fun info => time_eq (deadline (endpoint.qos_profile info))
                               RMW_QOS_DEADLINE_DEFAULT) infos
  || forallb (fun info => time_ne (deadline (endpoint.qos_profile info))
                                  RMW_QOS_DEADLINE_DEFAULT) infos.

Definition uniform_leases (infos : rmw_topic_endpoint_info_array_t) : bool :=
  forallb (fun info => time_eq (liveliness_lease_duration (endpoint.qos_profile info))
                               RMW_QOS_LIVELINESS_LEASE_DURATION_DEFAULT) infos
  || forallb (fun info => time_ne (liveliness_lease_duration (endpoint.qos_profile info))
                                  RMW_QOS_LIVELINESS_LEASE_DURATION_DEFAULT) infos.

(** The policy holds for every endpoint. *)
Definition all_reliable (infos : rmw_topic_endpoint_info_array_t) : bool :=
  forallb (fun info => reliability_eqb RMW_QOS_POLICY_RELIABILITY_RELIABLE
                         (reliability (endpoint.qos_profile info))) infos.

Definition all_transient_local (infos : rmw_topic_endpoint_info_array_t) : bool :=
  forallb (fun info => durability_eqb RMW_QOS_POLICY_DURABILITY_TRANSIENT_LOCAL
                         (durability (endpoint.qos_profile info))) infos.

Definition all_manual_by_topic (infos : rmw_topic_endpoint_info_array_t) : bool :=
  forallb (fun info => liveliness_eqb RMW_QOS_POLICY_LIVELINESS_MANUAL_BY_TOPIC
                         (liveliness (endpoint.qos_profile info))) infos.

End PeerTables.


(** The values these externals take in rmw: services are RELIABLE and
    VOLATILE with ten samples of history, and finalising an array
    succeeds. *)
Definition rmw_profile_defaults : rmw_profile_externals :=
  {| rmw_qos_profile_services_default :=
       {| history := RMW_QOS_POLICY_HISTORY_KEEP_LAST;
          depth := 10;
          reliability := RMW_QOS_POLICY_RELIABILITY_RELIABLE;
          durability := RMW_QOS_POLICY_DURABILITY_VOLATILE;
          deadline := mk_time 0 0;
          lifespan := mk_time 0 0;
          liveliness := RMW_QOS_POLICY_LIVELINESS_SYSTEM_DEFAULT;
          liveliness_lease_duration := mk_time 0 0;
          avoid_ros_namespace_conventions := false |};
     rmw_topic_endpoint_info_array_fini := fun _ allocator => (RMW_RET_OK, allocator) |}.

Section Sentinels.
Context {E : rmw_externals}.

(** No endpoint advertises the BEST_AVAILABLE sentinel as its deadline
    or lease duration, and the sentinel is neither DEFAULT nor
    RMW_DURATION_INFINITE. *)
Definition sentinels_apart (infos : rmw_topic_endpoint_info_array_t) : bool :=
  negb (time_eq RMW_QOS_DEADLINE_BEST_AVAILABLE RMW_QOS_DEADLINE_DEFAULT)
  && negb (time_eq RMW_QOS_DEADLINE_BEST_AVAILABLE RMW_DURATION_INFINITE)
  && negb (time_eq RMW_QOS_LIVELINESS_LEASE_DURATION_BEST_AVAILABLE
             RMW_QOS_LIVELINESS_LEASE_DURATION_DEFAULT)
  && negb (time_eq RMW_QOS_LIVELINESS_LEASE_DURATION_BEST_AVAILABLE RMW_DURATION_INFINITE)
  && forallb (fun info =>
                negb (time_eq RMW_QOS_DEADLINE_BEST_AVAILABLE
                        (deadline (endpoint.qos_profile info)))
                && negb (time_eq RMW_QOS_LIVELINESS_LEASE_DURATION_BEST_AVAILABLE
                           (liveliness_lease_duration (endpoint.qos_profile info))))
       infos.

End Sentinels.


(** ** Statements that do nothing unless a condition holds, for stating

    [idle c b]: when [b] is false, [c] falls through and leaves the
    state as it was.  [quiet c]: when there is no reason buffer or the
    formatter never fails, [c] falls through, and without a buffer it
    leaves none. *)
Section Idle.
Context {E : rmw_externals}.

Definition idle (c : stmt check_out unit) (b : bool) : Prop :=
  b = false -> forall s, c s = (Next tt, s).

(** [rcutils_vsnprintf] never answers a negative number. *)
Definition formatter_never_fails : Prop :=
  forall write_size message, (0 <= fst (rcutils_vsnprintf write_size message))%Z.

Definition quiet (c : stmt check_out unit) : Prop :=
  forall s,
    reason s = None \/ formatter_never_fails ->
    exists s', c s = (Next tt, s') /\ (reason s = None -> reason s' = None).

End Idle.


(** Some policy of the profile is SYSTEM_DEFAULT or UNKNOWN. *)
Definition has_unknown_policy (p : rmw_qos_profile_t) : bool :=
  reliability_unknown (reliability p)
  || durability_unknown (durability p)
  || liveliness_unknown (liveliness p).

(** Both fields of the duration are in range for a normalised time. *)
Definition normalised (t : rmw_time_t) : Prop := (nsec t < 1000000000)%N.

(* ===================================================================== *)
(** * Part VIII.  Properties of the QoS engine                            *)
(* ===================================================================== *)

(** ** The order on durations *)

Lemma time_eq_true_iff (a b : rmw_time_t) : time_eq a b = true <-> a = b.
Proof.
  unfold time_eq. rewrite andb_true_iff, !N.eqb_eq.
  destruct a, b; simpl; split.
  - intros [-> ->]; reflexivity.
  - intros H; inversion H; auto.
Qed.

Lemma time_lt_irrefl (a : rmw_time_t) : time_lt a a = false.
Proof.
  unfold time_lt. rewrite !N.ltb_irrefl, andb_false_r. reflexivity.
Qed.

Lemma time_lt_spec (a b : rmw_time_t) :
  time_lt a b = true <->
  (sec a < sec b)%N \/ (sec a = sec b /\ (nsec a < nsec b)%N).
Proof.
  unfold time_lt.
  destruct (sec a <? sec b)%N eqn:Hs.
  - apply N.ltb_lt in Hs. intuition.
  - apply N.ltb_ge in Hs.
    destruct (sec a =? sec b)%N eqn:He; simpl.
    + apply N.eqb_eq in He.
      destruct (nsec a <? nsec b)%N eqn:Hn.
      * apply N.ltb_lt in Hn. intuition.
      * apply N.ltb_ge in Hn. split; [discriminate | lia].
    + apply N.eqb_neq in He. split; [discriminate | lia].
Qed.

Lemma time_lt_false_spec (a b : rmw_time_t) :
  time_lt a b = false <->
  (sec b < sec a)%N \/ (sec a = sec b /\ (nsec b <= nsec a)%N).
Proof.
  destruct (time_lt a b) eqn:H.
  - apply time_lt_spec in H. split; [discriminate | lia].
  - split; [intros _ | reflexivity].
    assert (N : ~ ((sec a < sec b)%N \/ (sec a = sec b /\ (nsec a < nsec b)%N))).
    { intro C. apply time_lt_spec in C. congruence. }
    lia.
Qed.

Lemma time_lt_false_trans (a b c : rmw_time_t) :
  time_lt b a = false -> time_lt c b = false -> time_lt c a = false.
Proof.
  rewrite !time_lt_false_spec. lia.
Qed.

Lemma time_lt_asym (a b : rmw_time_t) : time_lt a b = true -> time_lt b a = false.
Proof.
  rewrite time_lt_spec, time_lt_false_spec. lia.
Qed.

(** ** The verdict of [qos_profile_check_compatible] *)

Section CheckCompatible.
Context {E : rmw_externals}.

Lemma append_or_return_keeps_verdict (n : nat) (message : string) (s : check_out) :
  compatibility (snd (append_or_return n message s)) = compatibility s.
Proof.
  unfold append_or_return.
  destruct (_append_to_buffer (reason s) n message) as [ret text].
  destruct ret; reflexivity.
Qed.

Lemma raises_set_append (v : rmw_qos_compatibility_type_t) (n : nat) (message : string) :
  raises (set_compatibility v ;; append_or_return n message)%stmt true v.
Proof.
  intros s. split; [| reflexivity].
  unfold seq, set_compatibility.
  apply (append_or_return_keeps_verdict n message
           {| compatibility := v; reason := reason s |}).
Qed.

Lemma raises_skip (v : rmw_qos_compatibility_type_t) : raises skip false v.
Proof. intros s. split; [reflexivity | discriminate]. Qed.

Lemma raises_when (c : stmt check_out unit) (b b' : bool)
    (v : rmw_qos_compatibility_type_t) :
  raises c b' v -> raises (when b c) (b && b') v.
Proof.
  intros H. destruct b; simpl; [exact H | apply raises_skip].
Qed.

Lemma raises_if (c1 c2 : stmt check_out unit) (b b1 b2 : bool)
    (v : rmw_qos_compatibility_type_t) :
  raises c1 b1 v -> raises c2 b2 v ->
  raises (if b then c1 else c2) (if b then b1 else b2) v.
Proof. destruct b; auto. Qed.

Lemma raises_seq (c1 c2 : stmt check_out unit) (b1 b2 : bool)
    (v : rmw_qos_compatibility_type_t) :
  raises c1 b1 v -> raises c2 b2 v -> raises (c1 ;; c2)%stmt (b1 || b2) v.
Proof.
  intros H1 H2 s. unfold seq.
  destruct (H1 s) as [V1 L1].
  destruct (c1 s) as [[[] | r] s1] eqn:R1; simpl in *.
  - destruct (H2 s1) as [V2 L2]. split.
    + rewrite V2, V1. destruct b1, b2; reflexivity.
    + intros r Hr. rewrite (L2 r Hr). apply orb_true_r.
  - rewrite (L1 r eq_refl) in *. split; [exact V1 | reflexivity].
Qed.

(** An ERROR row in front of a tail already understood. *)
Lemma verdict_after_cons (c k : stmt check_out unit) (b b' : bool) (rest : list bool)
    (tail : rmw_qos_compatibility_type_t -> rmw_qos_compatibility_type_t) :
  raises c b' RMW_QOS_COMPATIBILITY_ERROR ->
  b' = b ->
  tail RMW_QOS_COMPATIBILITY_ERROR = RMW_QOS_COMPATIBILITY_ERROR ->
  (forall s, verdict_after k s = after_rows rest tail (compatibility s)) ->
  forall s, verdict_after (c ;; k)%stmt s = after_rows (b :: rest) tail (compatibility s).
Proof.
  intros Hc <- HE Hk s. unfold verdict_after, seq.
  destruct (Hc s) as [V L].
  destruct (c s) as [[[] | r] s1] eqn:R1; simpl in *.
  - fold (verdict_after k s1). rewrite Hk, V. unfold after_rows. simpl.
    destruct b', (existsb (fun row => row) rest); reflexivity.
  - rewrite (L r eq_refl) in *. rewrite V. unfold after_rows. simpl.
    symmetry. exact HE.
Qed.

Lemma warnings_verdict (pub sub : rmw_qos_profile_t) (n : nat) (k : stmt check_out unit) :
  raises k (table_yields_warning pub sub) RMW_QOS_COMPATIBILITY_WARNING ->
  forall s,
    verdict_after
      (seq get_compatibility
         (fun current => when (compatibility_eqb RMW_QOS_COMPATIBILITY_OK current) k)) s
    = after_rows [] (after_warnings pub sub) (compatibility s).
Proof.
  intros W s. unfold verdict_after, seq, get_compatibility, after_rows. simpl.
  destruct (compatibility s) eqn:Hc; simpl; rewrite ?Hc; try reflexivity.
  destruct (W s) as [V _]. rewrite V, Hc. reflexivity.
Qed.

Lemma warning_chain (u1 u2 a b : bool) :
  (if u1 && u2 then true else if u1 && a then true else if b && u2 then true else false)
  = u1 && (u2 || a) || b && u2.
Proof. destruct u1, u2, a, b; reflexivity. Qed.

Lemma check_compatible_body_verdict (pub sub : rmw_qos_profile_t) (n : nat) (s : check_out) :
  verdict_after (check_compatible_body pub sub n) s
  = after_rows (error_rows pub sub) (after_warnings pub sub) (compatibility s).
Proof.
  revert s. unfold check_compatible_body, error_rows.
  repeat (eapply verdict_after_cons;
          [ first [ apply raises_when, raises_when, raises_set_append
                  | apply raises_when, raises_set_append ]
          | rewrite ?andb_true_r; reflexivity
          | reflexivity
          | ]).
  apply warnings_verdict; [exact n |].
  match goal with
  | |- raises ?c ?b ?v =>
    let b' := fresh "b" in
    evar (b' : bool);
    assert (W : raises c b' v);
    [ subst b';
      repeat first [ apply raises_set_append | apply raises_skip
                   | apply raises_if | apply raises_seq ]
    | subst b' ]
  end.
  replace (table_yields_warning pub sub) with
    ((if reliability_unknown (reliability pub) && reliability_unknown (reliability sub)
      then true
      else if reliability_unknown (reliability pub)
              && reliability_eqb (reliability sub) RMW_QOS_POLICY_RELIABILITY_RELIABLE
      then true
      else if reliability_eqb (reliability pub) RMW_QOS_POLICY_RELIABILITY_BEST_EFFORT
              && reliability_unknown (reliability sub)
      then true else false)
     || ((if durability_unknown (durability pub) && durability_unknown (durability sub)
          then true
          else if durability_unknown (durability pub)
                  && durability_eqb (durability sub) RMW_QOS_POLICY_DURABILITY_TRANSIENT_LOCAL
          then true
          else if durability_eqb (durability pub) RMW_QOS_POLICY_DURABILITY_VOLATILE
                  && durability_unknown (durability sub)
          then true else false)
         || (if liveliness_unknown (liveliness pub) && liveliness_unknown (liveliness sub)
             then true
             else if liveliness_unknown (liveliness pub)
                     && liveliness_eqb (liveliness sub)
                          RMW_QOS_POLICY_LIVELINESS_MANUAL_BY_TOPIC
             then true
             else if liveliness_eqb (liveliness pub) RMW_QOS_POLICY_LIVELINESS_AUTOMATIC
                     && liveliness_unknown (liveliness sub)
             then true else false))).
  - exact W.
  - rewrite !warning_chain. unfold table_yields_warning, warning_rows. simpl existsb.
    rewrite orb_false_r, !orb_assoc. reflexivity.
Qed.

End CheckCompatible.

Section CheckCompatibleClaims.
Context {E : rmw_externals}.

(** C1 (amended).  With valid output arguments, the verdict of
    [qos_profile_check_compatible] is the one the decision table gives:
    ERROR if and only if one of the seven ERROR rows holds; OK if and
    only if no ERROR row and no WARNING row holds; and WARNING only when
    no ERROR row holds. *)
Theorem check_compatible_verdict
    (pub sub : rmw_qos_profile_t) (c0 : rmw_qos_compatibility_type_t)
    (reason_ptr : option string) (reason_size : nat)
    (valid : reason_ptr = None -> reason_size = 0) :
  let verdict :=
    snd (fst (qos_profile_check_compatible pub sub (Some c0) reason_ptr reason_size)) in
  verdict = Some (table_verdict pub sub)
  /\ (verdict = Some RMW_QOS_COMPATIBILITY_ERROR <-> table_yields_error pub sub = true)
  /\ (verdict = Some RMW_QOS_COMPATIBILITY_WARNING -> table_yields_error pub sub = false)
  /\ (verdict = Some RMW_QOS_COMPATIBILITY_OK <->
      table_yields_error pub sub = false /\ table_yields_warning pub sub = false).
Proof.
  assert (V : snd (fst (qos_profile_check_compatible pub sub (Some c0) reason_ptr reason_size))
              = Some (table_verdict pub sub)).
  { unfold qos_profile_check_compatible.
    assert (B : forall s, compatibility s = RMW_QOS_COMPATIBILITY_OK ->
                compatibility (snd (check_compatible_body pub sub reason_size s))
                = table_verdict pub sub).
    { intros s Hs. fold (verdict_after (check_compatible_body pub sub reason_size) s).
      rewrite check_compatible_body_verdict, Hs.
      unfold after_rows, table_verdict, table_yields_error.
      destruct (existsb (fun row => row) (error_rows pub sub)); reflexivity. }
    destruct reason_ptr as [text |], reason_size as [| n];
      try (specialize (valid eq_refl); discriminate);
      match goal with
      | |- context [check_compatible_body pub sub ?n ?s] =>
        specialize (B s eq_refl);
        destruct (check_compatible_body pub sub n s) as [f out]
      end; simpl in *; rewrite B; reflexivity. }
  cbv zeta. rewrite V. unfold table_verdict.
  destruct (table_yields_error pub sub), (table_yields_warning pub sub);
    repeat split; intros; try discriminate; try reflexivity;
    match goal with
    | H : _ /\ _ |- _ => destruct H; discriminate
    | _ => idtac
    end.
Qed.

End CheckCompatibleClaims.

Lemma check_compatible_verdict_witness :
  (@None string = None -> 0 = 0)
  /\ snd (fst (@qos_profile_check_compatible rmw_defaults
                 (set_reliability rmw_qos_profile_zero RMW_QOS_POLICY_RELIABILITY_BEST_EFFORT)
                 (set_reliability rmw_qos_profile_zero RMW_QOS_POLICY_RELIABILITY_RELIABLE)
                 (Some RMW_QOS_COMPATIBILITY_OK) None 0))
     = Some RMW_QOS_COMPATIBILITY_ERROR.
Proof.
  split; [reflexivity |].
  exact (proj1 (@check_compatible_verdict rmw_defaults
                  (set_reliability rmw_qos_profile_zero RMW_QOS_POLICY_RELIABILITY_BEST_EFFORT)
                  (set_reliability rmw_qos_profile_zero RMW_QOS_POLICY_RELIABILITY_RELIABLE)
                  RMW_QOS_COMPATIBILITY_OK None 0 (fun _ => eq_refl))).
Defined.

(** C1, as stated, fails: a publisher and a subscription whose policies
    are all SYSTEM_DEFAULT meet no ERROR row, and the verdict is
    WARNING, not OK. *)
Lemma check_compatible_not_ok_without_error_row :
  @table_yields_error rmw_defaults rmw_qos_profile_zero rmw_qos_profile_zero = false
  /\ snd (fst (@qos_profile_check_compatible rmw_defaults
                 rmw_qos_profile_zero rmw_qos_profile_zero
                 (Some RMW_QOS_COMPATIBILITY_OK) (Some "") 256))
     = Some RMW_QOS_COMPATIBILITY_WARNING
  /\ ~ (snd (fst (@qos_profile_check_compatible rmw_defaults
                    rmw_qos_profile_zero rmw_qos_profile_zero
                    (Some RMW_QOS_COMPATIBILITY_OK) (Some "") 256))
        = Some RMW_QOS_COMPATIBILITY_OK
        <-> @table_yields_error rmw_defaults rmw_qos_profile_zero rmw_qos_profile_zero
            = false).
Proof.
  split; [reflexivity |]. split; [vm_compute; reflexivity |].
  intros [_ H]. specialize (H eq_refl). vm_compute in H. discriminate.
Qed.

(** ** Best-available resolution *)

Section BestAvailable.
Context {E : rmw_externals}.

(** What each assignment does to each field. *)
Lemma resolve_reliability_fields (v : rmw_qos_reliability_policy_t) (p : rmw_qos_profile_t) :
  reliability (resolve_reliability v p)
  = (if reliability_eqb RMW_QOS_POLICY_RELIABILITY_BEST_AVAILABLE (reliability p)
     then v else reliability p)
  /\ durability (resolve_reliability v p) = durability p
  /\ liveliness (resolve_reliability v p) = liveliness p
  /\ deadline (resolve_reliability v p) = deadline p
  /\ liveliness_lease_duration (resolve_reliability v p) = liveliness_lease_duration p
  /\ same_fixed_fields p (resolve_reliability v p).
Proof.
  unfold resolve_reliability, same_fixed_fields.
  destruct (reliability_eqb _ _); repeat split; reflexivity.
Qed.

Lemma resolve_durability_fields (v : rmw_qos_durability_policy_t) (p : rmw_qos_profile_t) :
  reliability (resolve_durability v p) = reliability p
  /\ durability (resolve_durability v p)
     = (if durability_eqb RMW_QOS_POLICY_DURABILITY_BEST_AVAILABLE (durability p)
        then v else durability p)
  /\ liveliness (resolve_durability v p) = liveliness p
  /\ deadline (resolve_durability v p) = deadline p
  /\ liveliness_lease_duration (resolve_durability v p) = liveliness_lease_duration p
  /\ same_fixed_fields p (resolve_durability v p).
Proof.
  unfold resolve_durability, same_fixed_fields.
  destruct (durability_eqb _ _); repeat split; reflexivity.
Qed.

Lemma resolve_liveliness_fields (v : rmw_qos_liveliness_policy_t) (p : rmw_qos_profile_t) :
  reliability (resolve_liveliness v p) = reliability p
  /\ durability (resolve_liveliness v p) = durability p
  /\ liveliness (resolve_liveliness v p)
     = (if liveliness_eqb RMW_QOS_POLICY_LIVELINESS_BEST_AVAILABLE (liveliness p)
        then v else liveliness p)
  /\ deadline (resolve_liveliness v p) = deadline p
  /\ liveliness_lease_duration (resolve_liveliness v p) = liveliness_lease_duration p
  /\ same_fixed_fields p (resolve_liveliness v p).
Proof.
  unfold resolve_liveliness, same_fixed_fields.
  destruct (liveliness_eqb _ _); repeat split; reflexivity.
Qed.

Lemma resolve_deadline_fields (v : rmw_time_t) (p : rmw_qos_profile_t) :
  reliability (resolve_deadline v p) = reliability p
  /\ durability (resolve_deadline v p) = durability p
  /\ liveliness (resolve_deadline v p) = liveliness p
  /\ deadline (resolve_deadline v p)
     = (if time_eq RMW_QOS_DEADLINE_BEST_AVAILABLE (deadline p) then v else deadline p)
  /\ liveliness_lease_duration (resolve_deadline v p) = liveliness_lease_duration p
  /\ same_fixed_fields p (resolve_deadline v p).
Proof.
  unfold resolve_deadline, same_fixed_fields, deadline_best_available.
  destruct (time_eq _ _); repeat split; reflexivity.
Qed.

Lemma resolve_lease_fields (v : rmw_time_t) (p : rmw_qos_profile_t) :
  reliability (resolve_lease v p) = reliability p
  /\ durability (resolve_lease v p) = durability p
  /\ liveliness (resolve_lease v p) = liveliness p
  /\ deadline (resolve_lease v p) = deadline p
  /\ liveliness_lease_duration (resolve_lease v p)
     = (if time_eq RMW_QOS_LIVELINESS_LEASE_DURATION_BEST_AVAILABLE
                   (liveliness_lease_duration p)
        then v else liveliness_lease_duration p)
  /\ same_fixed_fields p (resolve_lease v p).
Proof.
  unfold resolve_lease, same_fixed_fields, liveliness_lease_duration_best_available.
  destruct (time_eq _ _); repeat split; reflexivity.
Qed.

(** The fields of a profile after the five assignments in a row. *)
Lemma resolve_all_fields
    (r : rmw_qos_reliability_policy_t) (d : rmw_qos_durability_policy_t)
    (l : rmw_qos_liveliness_policy_t) (dl ld : rmw_time_t) (p : rmw_qos_profile_t) :
  let p' :=
    resolve_lease ld (resolve_deadline dl (resolve_liveliness l
      (resolve_durability d (resolve_reliability r p)))) in
  reliability p'
  = (if reliability_eqb RMW_QOS_POLICY_RELIABILITY_BEST_AVAILABLE (reliability p)
     then r else reliability p)
  /\ durability p'
     = (if durability_eqb RMW_QOS_POLICY_DURABILITY_BEST_AVAILABLE (durability p)
        then d else durability p)
  /\ liveliness p'
     = (if liveliness_eqb RMW_QOS_POLICY_LIVELINESS_BEST_AVAILABLE (liveliness p)
        then l else liveliness p)
  /\ deadline p'
     = (if time_eq RMW_QOS_DEADLINE_BEST_AVAILABLE (deadline p) then dl else deadline p)
  /\ liveliness_lease_duration p'
     = (if time_eq RMW_QOS_LIVELINESS_LEASE_DURATION_BEST_AVAILABLE
                   (liveliness_lease_duration p)
        then ld else liveliness_lease_duration p)
  /\ same_fixed_fields p p'.
Proof.
  intros p'. subst p'.
  set (p1 := resolve_reliability r p).
  set (p2 := resolve_durability d p1).
  set (p3 := resolve_liveliness l p2).
  set (p4 := resolve_deadline dl p3).
  destruct (resolve_reliability_fields r p) as (A1 & A2 & A3 & A4 & A5 & A6 & A7 & A8 & A9).
  destruct (resolve_durability_fields d p1) as (B1 & B2 & B3 & B4 & B5 & B6 & B7 & B8 & B9).
  destruct (resolve_liveliness_fields l p2) as (C1 & C2 & C3 & C4 & C5 & C6 & C7 & C8 & C9).
  destruct (resolve_deadline_fields dl p3) as (D1 & D2 & D3 & D4 & D5 & D6 & D7 & D8 & D9).
  destruct (resolve_lease_fields ld p4) as (F1 & F2 & F3 & F4 & F5 & F6 & F7 & F8 & F9).
  fold p1 in A1, A2, A3, A4, A5, A6, A7, A8, A9.
  fold p2 in B1, B2, B3, B4, B5, B6, B7, B8, B9.
  fold p3 in C1, C2, C3, C4, C5, C6, C7, C8, C9.
  fold p4 in D1, D2, D3, D4, D5, D6, D7, D8, D9.
  clearbody p1 p2 p3 p4. unfold same_fixed_fields.
  repeat split.
  - rewrite F1, D1, C1, B1. exact A1.
  - rewrite F2, D2, C2, B2, A2. reflexivity.
  - rewrite F3, D3, C3, B3, A3. reflexivity.
  - rewrite F4, D4, C4, B4, A4. reflexivity.
  - rewrite F5, D5, C5, B5, A5. reflexivity.
  - rewrite F6, D6, C6, B6. exact A6.
  - rewrite F7, D7, C7, B7. exact A7.
  - rewrite F8, D8, C8, B8. exact A8.
  - rewrite F9, D9, C9, B9. exact A9.
Qed.

Lemma best_available_for_subscription_unfold
    (infos : rmw_topic_endpoint_info_array_t) (p : rmw_qos_profile_t) :
  let t := fold_left subscription_tally_step infos subscription_tally_init in
  let size := List.length infos in
  qos_profile_get_best_available_for_subscription (Some infos) (Some p)
  = (RMW_RET_OK,
     Some (resolve_lease
             (if sub_use_default_liveliness_lease_duration t
              then RMW_QOS_LIVELINESS_LEASE_DURATION_DEFAULT
              else largest_liveliness_lease_duration t)
          (resolve_deadline
             (if sub_use_default_deadline t then RMW_QOS_DEADLINE_DEFAULT
              else largest_deadline t)
          (resolve_liveliness
             (if Nat.eqb (number_of_manual_by_topic t) size
              then RMW_QOS_POLICY_LIVELINESS_MANUAL_BY_TOPIC
              else RMW_QOS_POLICY_LIVELINESS_AUTOMATIC)
          (resolve_durability
             (if Nat.eqb (number_of_transient_local t) size
              then RMW_QOS_POLICY_DURABILITY_TRANSIENT_LOCAL
              else RMW_QOS_POLICY_DURABILITY_VOLATILE)
          (resolve_reliability
             (if Nat.eqb (number_of_reliable t) size
              then RMW_QOS_POLICY_RELIABILITY_RELIABLE
              else RMW_QOS_POLICY_RELIABILITY_BEST_EFFORT) p)))))).
Proof.
  intros t size. unfold qos_profile_get_best_available_for_subscription.
  fold t. fold size.
  destruct (Nat.eqb (number_of_reliable t) size),
           (Nat.eqb (number_of_transient_local t) size),
           (Nat.eqb (number_of_manual_by_topic t) size),
           (sub_use_default_deadline t),
           (sub_use_default_liveliness_lease_duration t); reflexivity.
Qed.

Lemma best_available_for_publisher_unfold
    (infos : rmw_topic_endpoint_info_array_t) (p : rmw_qos_profile_t) :
  let t := fold_left publisher_tally_step infos publisher_tally_init in
  qos_profile_get_best_available_for_publisher (Some infos) (Some p)
  = (RMW_RET_OK,
     Some (resolve_lease
             (if pub_use_default_liveliness_lease_duration t
              then RMW_QOS_LIVELINESS_LEASE_DURATION_DEFAULT
              else smallest_liveliness_lease_duration t)
          (resolve_deadline
             (if pub_use_default_deadline t then RMW_QOS_DEADLINE_DEFAULT
              else smallest_deadline t)
          (resolve_liveliness
             (if use_manual_by_topic t
              then RMW_QOS_POLICY_LIVELINESS_MANUAL_BY_TOPIC
              else RMW_QOS_POLICY_LIVELINESS_AUTOMATIC)
          (resolve_durability RMW_QOS_POLICY_DURABILITY_TRANSIENT_LOCAL
          (resolve_reliability RMW_QOS_POLICY_RELIABILITY_RELIABLE p)))))).
Proof.
  intros t. unfold qos_profile_get_best_available_for_publisher.
  fold t.
  destruct (use_manual_by_topic t),
           (pub_use_default_deadline t),
           (pub_use_default_liveliness_lease_duration t); reflexivity.
Qed.

(** C2 (amended).  For an empty publisher array,
    [qos_profile_get_best_available_for_subscription] succeeds and
    resolves every BEST_AVAILABLE policy of the subscription profile to
    the branch taken when all publishers agree: reliability becomes
    RELIABLE, durability TRANSIENT_LOCAL, liveliness MANUAL_BY_TOPIC,
    and deadline and liveliness lease duration become DEFAULT; every
    other field keeps its value. *)
Theorem best_available_for_subscription_no_publishers (p : rmw_qos_profile_t) :
  exists p',
    qos_profile_get_best_available_for_subscription (Some []) (Some p)
    = (RMW_RET_OK, Some p')
    /\ reliability p'
       = (if reliability_eqb RMW_QOS_POLICY_RELIABILITY_BEST_AVAILABLE (reliability p)
          then RMW_QOS_POLICY_RELIABILITY_RELIABLE else reliability p)
    /\ durability p'
       = (if durability_eqb RMW_QOS_POLICY_DURABILITY_BEST_AVAILABLE (durability p)
          then RMW_QOS_POLICY_DURABILITY_TRANSIENT_LOCAL else durability p)
    /\ liveliness p'
       = (if liveliness_eqb RMW_QOS_POLICY_LIVELINESS_BEST_AVAILABLE (liveliness p)
          then RMW_QOS_POLICY_LIVELINESS_MANUAL_BY_TOPIC else liveliness p)
    /\ deadline p'
       = (if time_eq RMW_QOS_DEADLINE_BEST_AVAILABLE (deadline p)
          then RMW_QOS_DEADLINE_DEFAULT else deadline p)
    /\ liveliness_lease_duration p'
       = (if time_eq RMW_QOS_LIVELINESS_LEASE_DURATION_BEST_AVAILABLE
                     (liveliness_lease_duration p)
          then RMW_QOS_LIVELINESS_LEASE_DURATION_DEFAULT else liveliness_lease_duration p)
    /\ history p' = history p /\ depth p' = depth p /\ lifespan p' = lifespan p
    /\ avoid_ros_namespace_conventions p' = avoid_ros_namespace_conventions p.
Proof.
  eexists. split; [apply best_available_for_subscription_unfold |].
  unfold same_fixed_fields in *.
  apply (resolve_all_fields _ _ _ _ _ p).
Qed.

(** The loop of the publisher resolution, member by member. *)
Lemma publisher_tally_manual_by_topic (infos : rmw_topic_endpoint_info_array_t)
    (t : publisher_tally) :
  use_manual_by_topic (fold_left publisher_tally_step infos t)
  = use_manual_by_topic t
    || existsb (fun info => liveliness_eqb RMW_QOS_POLICY_LIVELINESS_MANUAL_BY_TOPIC
                              (liveliness (endpoint.qos_profile info))) infos.
Proof.
  revert t. induction infos as [| info infos IH]; intros t; cbn [fold_left existsb].
  - rewrite orb_false_r. reflexivity.
  - rewrite IH. unfold publisher_tally_step at 1. cbn [use_manual_by_topic].
    destruct (liveliness_eqb RMW_QOS_POLICY_LIVELINESS_MANUAL_BY_TOPIC
                (liveliness (endpoint.qos_profile info))),
             (use_manual_by_topic t); reflexivity.
Qed.

Lemma publisher_tally_use_default_deadline (infos : rmw_topic_endpoint_info_array_t)
    (t : publisher_tally) :
  pub_use_default_deadline (fold_left publisher_tally_step infos t)
  = pub_use_default_deadline t
    && match observed_deadlines infos with [] => true | _ :: _ => false end.
Proof.
  revert t. induction infos as [| info infos IH]; intros t; simpl.
  - rewrite andb_true_r. reflexivity.
  - rewrite IH. unfold observed_deadlines. simpl.
    destruct (time_ne (deadline (endpoint.qos_profile info)) deadline_default); simpl.
    + rewrite andb_false_r. reflexivity.
    + reflexivity.
Qed.

Lemma publisher_tally_use_default_lease (infos : rmw_topic_endpoint_info_array_t)
    (t : publisher_tally) :
  pub_use_default_liveliness_lease_duration (fold_left publisher_tally_step infos t)
  = pub_use_default_liveliness_lease_duration t
    && match observed_leases infos with [] => true | _ :: _ => false end.
Proof.
  revert t. induction infos as [| info infos IH]; intros t; simpl.
  - rewrite andb_true_r. reflexivity.
  - rewrite IH. unfold observed_leases. simpl.
    destruct (time_ne (liveliness_lease_duration (endpoint.qos_profile info))
                      liveliness_lease_duration_default); simpl.
    + rewrite andb_false_r. reflexivity.
    + reflexivity.
Qed.

Lemma least_of_skip (m0 d r : rmw_time_t) (l : list rmw_time_t) :
  least_of (m0 :: l) r -> time_lt d m0 = false -> least_of (m0 :: d :: l) r.
Proof.
  intros [Hin Hle] Hd. split.
  - destruct Hin as [-> | Hin]; [left; reflexivity | right; right; exact Hin].
  - intros t [<- | [<- | Ht]].
    + apply Hle. left; reflexivity.
    + apply (time_lt_false_trans r m0 d); [apply Hle; left; reflexivity | exact Hd].
    + apply Hle. right; exact Ht.
Qed.

Lemma least_of_take (m0 d r : rmw_time_t) (l : list rmw_time_t) :
  least_of (d :: l) r -> time_lt d m0 = true -> least_of (m0 :: d :: l) r.
Proof.
  intros [Hin Hle] Hd. split.
  - right; exact Hin.
  - intros t [<- | Ht].
    + apply (time_lt_false_trans r d m0);
        [apply Hle; left; reflexivity | apply time_lt_asym; exact Hd].
    + apply Hle; exact Ht.
Qed.

Lemma publisher_tally_smallest_deadline (infos : rmw_topic_endpoint_info_array_t)
    (t : publisher_tally) :
  least_of (smallest_deadline t :: observed_deadlines infos)
           (smallest_deadline (fold_left publisher_tally_step infos t)).
Proof.
  revert t. induction infos as [| info infos IH]; intros t.
  - simpl. split; [left; reflexivity |].
    intros x [<- | []]. apply time_lt_irrefl.
  - simpl fold_left. specialize (IH (publisher_tally_step t info)).
    unfold observed_deadlines in *. simpl in *.
    destruct (time_ne (deadline (endpoint.qos_profile info)) deadline_default); simpl.
    + destruct (time_lt (deadline (endpoint.qos_profile info)) (smallest_deadline t)) eqn:L.
      * apply least_of_take; assumption.
      * apply least_of_skip; assumption.
    + exact IH.
Qed.

Lemma publisher_tally_smallest_lease (infos : rmw_topic_endpoint_info_array_t)
    (t : publisher_tally) :
  least_of (smallest_liveliness_lease_duration t :: observed_leases infos)
           (smallest_liveliness_lease_duration (fold_left publisher_tally_step infos t)).
Proof.
  revert t. induction infos as [| info infos IH]; intros t.
  - simpl. split; [left; reflexivity |].
    intros x [<- | []]. apply time_lt_irrefl.
  - simpl fold_left. specialize (IH (publisher_tally_step t info)).
    unfold observed_leases in *. simpl in *.
    destruct (time_ne (liveliness_lease_duration (endpoint.qos_profile info))
                      liveliness_lease_duration_default); simpl.
    + destruct (time_lt (liveliness_lease_duration (endpoint.qos_profile info))
                        (smallest_liveliness_lease_duration t)) eqn:L.
      * apply least_of_take; assumption.
      * apply least_of_skip; assumption.
    + exact IH.
Qed.

End BestAvailable.

(** C2, as stated, fails: with no publisher the counts of reliable,
    transient-local and manual-by-topic publishers all equal the size of
    the array, so the three policies take the other branch. *)
Lemma best_available_for_subscription_no_publishers_not_conservative :
  @qos_profile_get_best_available_for_subscription rmw_defaults
    (Some []) (Some rmw_qos_profile_best_available)
  = (RMW_RET_OK,
     Some (profile_of RMW_QOS_POLICY_RELIABILITY_RELIABLE
             RMW_QOS_POLICY_DURABILITY_TRANSIENT_LOCAL
             RMW_QOS_POLICY_LIVELINESS_MANUAL_BY_TOPIC (mk_time 0 0) (mk_time 0 0)))
  /\ ~ (exists q,
          @qos_profile_get_best_available_for_subscription rmw_defaults
            (Some []) (Some rmw_qos_profile_best_available) = (RMW_RET_OK, Some q)
          /\ reliability q = RMW_QOS_POLICY_RELIABILITY_BEST_EFFORT
          /\ durability q = RMW_QOS_POLICY_DURABILITY_VOLATILE
          /\ liveliness q = RMW_QOS_POLICY_LIVELINESS_AUTOMATIC).
Proof.
  split; [vm_compute; reflexivity |].
  intros (q & Hq & Hr & _). vm_compute in Hq. inversion Hq; subst q.
  discriminate Hr.
Qed.

(** The fourth scenario of the specification: two publishers, both
    RELIABLE and TRANSIENT_LOCAL, with deadlines of 5 s and 7 s. *)
Example best_available_subscription_scenario :
  @qos_profile_get_best_available_for_subscription rmw_defaults
    (Some [ endpoint_with_qos
              (profile_of RMW_QOS_POLICY_RELIABILITY_RELIABLE
                 RMW_QOS_POLICY_DURABILITY_TRANSIENT_LOCAL
                 RMW_QOS_POLICY_LIVELINESS_AUTOMATIC (mk_time 5 0) (mk_time 0 0));
            endpoint_with_qos
              (profile_of RMW_QOS_POLICY_RELIABILITY_RELIABLE
                 RMW_QOS_POLICY_DURABILITY_TRANSIENT_LOCAL
                 RMW_QOS_POLICY_LIVELINESS_AUTOMATIC (mk_time 7 0) (mk_time 0 0)) ])
    (Some rmw_qos_profile_best_available)
  = (RMW_RET_OK,
     Some (profile_of RMW_QOS_POLICY_RELIABILITY_RELIABLE
             RMW_QOS_POLICY_DURABILITY_TRANSIENT_LOCAL
             RMW_QOS_POLICY_LIVELINESS_AUTOMATIC (mk_time 7 0) (mk_time 0 0))).
Proof. vm_compute. reflexivity. Qed.

(** The fifth scenario: two subscriptions with deadlines of 5 s and
    7 s and AUTOMATIC liveliness. *)
Example best_available_publisher_scenario :
  @qos_profile_get_best_available_for_publisher rmw_defaults
    (Some [ endpoint_with_qos
              (profile_of RMW_QOS_POLICY_RELIABILITY_BEST_EFFORT
                 RMW_QOS_POLICY_DURABILITY_VOLATILE
                 RMW_QOS_POLICY_LIVELINESS_AUTOMATIC (mk_time 5 0) (mk_time 0 0));
            endpoint_with_qos
              (profile_of RMW_QOS_POLICY_RELIABILITY_BEST_EFFORT
                 RMW_QOS_POLICY_DURABILITY_VOLATILE
                 RMW_QOS_POLICY_LIVELINESS_AUTOMATIC (mk_time 7 0) (mk_time 0 0)) ])
    (Some rmw_qos_profile_best_available)
  = (RMW_RET_OK,
     Some (profile_of RMW_QOS_POLICY_RELIABILITY_RELIABLE
             RMW_QOS_POLICY_DURABILITY_TRANSIENT_LOCAL
             RMW_QOS_POLICY_LIVELINESS_AUTOMATIC (mk_time 5 0) (mk_time 0 0))).
Proof. vm_compute. reflexivity. Qed.

(** C8.  The code at a lone subscription whose deadline and lease
    duration lie above [RMW_DURATION_INFINITE]: the search for the
    smallest value starts at [RMW_DURATION_INFINITE] and only moves to
    smaller values, so the fully BEST_AVAILABLE publisher profile gets
    [RMW_DURATION_INFINITE] for both, a value no subscription has and
    one below the only value observed, not the minimum observed.  The
    sibling search of [qos_profile_get_best_available_for_subscription],
    which starts at zero, returns the observed value on the same
    array. *)
Theorem best_available_for_publisher_not_an_observed_deadline :
  let subscriptions :=
    [ endpoint_with_qos
        (profile_of RMW_QOS_POLICY_RELIABILITY_RELIABLE
           RMW_QOS_POLICY_DURABILITY_VOLATILE
           RMW_QOS_POLICY_LIVELINESS_AUTOMATIC
           (mk_time 9223372037 0) (mk_time 9223372037 0)) ] in
  @observed_deadlines rmw_defaults subscriptions = [ mk_time 9223372037 0 ]
  /\ @observed_leases rmw_defaults subscriptions = [ mk_time 9223372037 0 ]
  /\ @qos_profile_get_best_available_for_publisher rmw_defaults
       (Some subscriptions) (Some rmw_qos_profile_best_available)
     = (RMW_RET_OK,
        Some (profile_of RMW_QOS_POLICY_RELIABILITY_RELIABLE
                RMW_QOS_POLICY_DURABILITY_TRANSIENT_LOCAL
                RMW_QOS_POLICY_LIVELINESS_AUTOMATIC
                (mk_time 9223372036 854775807) (mk_time 9223372036 854775807)))
  /\ @RMW_DURATION_INFINITE rmw_defaults = mk_time 9223372036 854775807
  /\ mk_time 9223372036 854775807 <> mk_time 9223372037 0
  /\ time_lt (mk_time 9223372036 854775807) (mk_time 9223372037 0) = true
  /\ @qos_profile_get_best_available_for_subscription rmw_defaults
       (Some subscriptions) (Some rmw_qos_profile_best_available)
     = (RMW_RET_OK,
        Some (profile_of RMW_QOS_POLICY_RELIABILITY_RELIABLE
                RMW_QOS_POLICY_DURABILITY_VOLATILE
                RMW_QOS_POLICY_LIVELINESS_AUTOMATIC
                (mk_time 9223372037 0) (mk_time 9223372037 0))).
Proof.
  cbv zeta.
  split; [vm_compute; reflexivity |].
  split; [vm_compute; reflexivity |].
  split; [vm_compute; reflexivity |].
  split; [reflexivity |].
  split; [discriminate |].
  split; vm_compute; reflexivity.
Qed.

(* ===================================================================== *)
(** * Part IX.  Properties of the containers and of the gid order         *)
(* ===================================================================== *)

Section StdMapFacts.
Variables K V : Type.
Variable less : K -> K -> bool.
Hypothesis equivalent_eq : forall a b : K, equivalent less a b = true <-> a = b.

Let equivalent_refl (k : K) : equivalent less k k = true.
Proof. apply equivalent_eq. reflexivity. Qed.

Let equivalent_neq (a b : K) : a <> b -> equivalent less a b = false.
Proof.
  intros H. destruct (equivalent less a b) eqn:Heq; [| reflexivity].
  apply equivalent_eq in Heq. contradiction.
Qed.

Lemma map_find_insert_same (k : K) (v : V) (m : std_map K V) :
  map_find less k m = None -> map_find less k (map_insert less k v m) = Some v.
Proof.
  induction m as [| [k' v'] m IH]; simpl; intros H.
  - rewrite equivalent_refl. reflexivity.
  - destruct (equivalent less k k') eqn:Hk; [discriminate |].
    destruct (less k k'); simpl.
    + rewrite equivalent_refl. reflexivity.
    + rewrite Hk. apply IH. exact H.
Qed.

Lemma map_find_insert_other (k k' : K) (v : V) (m : std_map K V) :
  k' <> k -> map_find less k' (map_insert less k v m) = map_find less k' m.
Proof.
  intros Hne. induction m as [| [k0 v0] m IH]; simpl.
  - rewrite (equivalent_neq Hne). reflexivity.
  - destruct (less k k0); simpl.
    + rewrite (equivalent_neq Hne). reflexivity.
    + rewrite IH. reflexivity.
Qed.

Lemma map_find_update_same (k : K) (f : V -> V) (m : std_map K V) :
  map_find less k (map_update less k f m) = option_map f (map_find less k m).
Proof.
  induction m as [| [k' v'] m IH]; simpl; [reflexivity |].
  destruct (equivalent less k k') eqn:Hk; simpl; rewrite Hk; [reflexivity | exact IH].
Qed.

Lemma map_find_update_other (k k' : K) (f : V -> V) (m : std_map K V) :
  k' <> k -> map_find less k' (map_update less k f m) = map_find less k' m.
Proof.
  intros Hne. induction m as [| [k0 v0] m IH]; simpl; [reflexivity |].
  destruct (equivalent less k k0) eqn:Hk; simpl.
  - apply equivalent_eq in Hk. subst k0. rewrite (equivalent_neq Hne). reflexivity.
  - rewrite IH. reflexivity.
Qed.

Lemma map_update_update (k : K) (f g : V -> V) (m : std_map K V) :
  map_update less k f (map_update less k g m) = map_update less k (fun v => f (g v)) m.
Proof.
  induction m as [| [k' v'] m IH]; simpl; [reflexivity |].
  destruct (equivalent less k k') eqn:Hk; simpl; rewrite Hk; [reflexivity |].
  rewrite IH. reflexivity.
Qed.

Lemma map_update_ext (k : K) (f g : V -> V) (m : std_map K V) :
  (forall v, f v = g v) -> map_update less k f m = map_update less k g m.
Proof.
  intros H. induction m as [| [k' v'] m IH]; simpl; [reflexivity |].
  destruct (equivalent less k k'); [rewrite H | rewrite IH]; reflexivity.
Qed.

Lemma map_update_fixed (k : K) (f : V -> V) (m : std_map K V) :
  (forall v, map_find less k m = Some v -> f v = v) -> map_update less k f m = m.
Proof.
  induction m as [| [k' v'] m IH]; simpl; intros H; [reflexivity |].
  destruct (equivalent less k k') eqn:Hk.
  - rewrite (H v' eq_refl). reflexivity.
  - rewrite (IH H). reflexivity.
Qed.

Lemma map_find_erase_same (k : K) (m : std_map K V) :
  map_find less k (fst (map_erase less k m)) = None.
Proof.
  induction m as [| [k' v'] m IH]; simpl; [reflexivity |].
  destruct (map_erase less k m) as [rest n]. simpl in IH.
  destruct (equivalent less k k') eqn:Hk; simpl; [exact IH |].
  rewrite Hk. exact IH.
Qed.

Lemma map_find_erase_other (k k' : K) (m : std_map K V) :
  k' <> k -> map_find less k' (fst (map_erase less k m)) = map_find less k' m.
Proof.
  intros Hne. induction m as [| [k0 v0] m IH]; simpl; [reflexivity |].
  destruct (map_erase less k m) as [rest n]. simpl in IH.
  destruct (equivalent less k k0) eqn:Hk; simpl.
  - apply equivalent_eq in Hk. subst k0. rewrite (equivalent_neq Hne). exact IH.
  - rewrite IH. reflexivity.
Qed.

Lemma map_erase_absent (k : K) (m : std_map K V) :
  map_find less k m = None -> map_erase less k m = (m, 0).
Proof.
  induction m as [| [k' v'] m IH]; simpl; intros H; [reflexivity |].
  destruct (equivalent less k k') eqn:Hk; [discriminate |].
  rewrite (IH H). reflexivity.
Qed.

Lemma map_erase_present (k : K) (v : V) (m : std_map K V) :
  map_find less k m = Some v -> 0 < snd (map_erase less k m).
Proof.
  induction m as [| [k' v'] m IH]; simpl; intros H; [discriminate |].
  destruct (map_erase less k m) as [rest n].
  destruct (equivalent less k k') eqn:Hk; simpl in *; [lia | apply IH; exact H].
Qed.

Lemma map_erase_count_zero (k : K) (m : std_map K V) :
  snd (map_erase less k m) = 0 -> fst (map_erase less k m) = m.
Proof.
  intros H. destruct (map_find less k m) as [v |] eqn:Hf.
  - apply map_erase_present in Hf. lia.
  - rewrite map_erase_absent by exact Hf. reflexivity.
Qed.

End StdMapFacts.

(** ** The order on gids *)

Lemma byte_to_N_inj (x y : Byte.byte) : Byte.to_N x = Byte.to_N y -> x = y.
Proof.
  intros H. pose proof (Byte.of_to_N x) as Hx. rewrite H, Byte.of_to_N in Hx.
  congruence.
Qed.

Lemma lexicographical_compare_irrefl (a : list Byte.byte) :
  lexicographical_compare a a = false.
Proof.
  induction a as [| x a IH]; simpl; [reflexivity |].
  rewrite N.ltb_irrefl. exact IH.
Qed.

Lemma lexicographical_compare_antisym (a b : list Byte.byte) :
  lexicographical_compare a b = false -> lexicographical_compare b a = false -> a = b.
Proof.
  revert b. induction a as [| x a IH]; intros [| y b]; simpl; try discriminate; auto.
  destruct (Byte.to_N x <? Byte.to_N y)%N eqn:Hxy; [discriminate |].
  destruct (Byte.to_N y <? Byte.to_N x)%N eqn:Hyx; [discriminate |].
  intros H1 H2. apply N.ltb_ge in Hxy, Hyx.
  assert (x = y) by (apply byte_to_N_inj; lia). subst y.
  f_equal. apply IH; assumption.
Qed.

Lemma Compare_rmw_gid_t_equivalent (a b : rmw_gid_t) :
  equivalent Compare_rmw_gid_t a b = true <-> a = b.
Proof.
  unfold equivalent, Compare_rmw_gid_t. rewrite andb_true_iff, !negb_true_iff. split.
  - intros [H1 H2]. destruct a as [da], b as [db]. simpl in *.
    f_equal. apply lexicographical_compare_antisym; assumption.
  - intros ->. rewrite lexicographical_compare_irrefl. auto.
Qed.

Lemma string_ltb_equivalent (a b : string) :
  equivalent String.ltb a b = true <-> a = b.
Proof.
  unfold equivalent, String.ltb. split.
  - rewrite (String.compare_antisym b a).
    destruct (String.compare a b) eqn:Hc; simpl; try discriminate.
    intros _. apply String.compare_eq_iff. exact Hc.
  - intros ->.
    assert (H : String.compare b b = Eq).
    { pose proof (String.compare_antisym b b) as H.
      destruct (String.compare b b); simpl in H; congruence. }
    rewrite H. reflexivity.
Qed.

Lemma memcmp_is_zero_eq (a b : list Byte.byte) : memcmp_is_zero a b = true <-> a = b.
Proof.
  revert b. induction a as [| x a IH]; intros [| y b]; simpl;
    try (split; [discriminate | discriminate]); [tauto |].
  rewrite andb_true_iff, IH. split.
  - intros [Hxy ->]. f_equal. apply Byte.byte_dec_bl. exact Hxy.
  - intros H. inversion H; subst. split; [| reflexivity].
    apply Byte.byte_dec_lb. reflexivity.
Qed.

(* ===================================================================== *)
(** * Part X.  Properties of the graph cache                              *)
(* ===================================================================== *)

(** Lookups by gid in the three maps. *)
Abbreviation find_gid := (map_find Compare_rmw_gid_t).

Lemma with_data_writers_same (gc : GraphCache) :
  with_data_writers gc (data_writers_ gc) = gc.
Proof. destruct gc; reflexivity. Qed.

Lemma with_data_readers_same (gc : GraphCache) :
  with_data_readers gc (data_readers_ gc) = gc.
Proof. destruct gc; reflexivity. Qed.

Lemma with_participants_same (gc : GraphCache) :
  with_participants gc (participants_ gc) = gc.
Proof. destruct gc; reflexivity. Qed.

(** ** Adding and removing endpoints *)

Section EndpointPlane.
Variables (K V : Type) (less : K -> K -> bool).
Hypothesis equivalent_eq : forall a b : K, equivalent less a b = true <-> a = b.

(** [emplace] on a missing key, then [emplace], [erase] and [erase]
    again on the same key. *)
Lemma emplace_then_repeat (k : K) (v v' : V) (m : std_map K V) :
  map_find less k m = None ->
  let first := map_emplace less k v m in
  let removed := map_erase less k (fst first) in
  snd first = true
  /\ map_find less k (fst first) = Some v
  /\ map_emplace less k v' (fst first) = (fst first, false)
  /\ Nat.ltb 0 (snd removed) = true
  /\ Nat.ltb 0 (snd (map_erase less k (fst removed))) = false
  /\ map_erase less k m = (m, 0).
Proof.
  intros H. unfold map_emplace. rewrite H. simpl.
  pose proof (@map_find_insert_same _ _ less equivalent_eq k v m H) as F.
  repeat split.
  - exact F.
  - rewrite F. reflexivity.
  - apply Nat.ltb_lt. eapply map_erase_present. exact F.
  - rewrite map_erase_absent by apply map_find_erase_same.
    reflexivity.
  - apply map_erase_absent. exact H.
Qed.

End EndpointPlane.

(** C5.  For a gid that is not a key of [data_writers_], whatever
    [data_readers_] holds, [add_writer] returns true and an immediate
    repeat with the same gid, whatever its other arguments, returns
    false, calls no callback and leaves the cache, hence the stored
    EntityInfo, as the first call left it; after the add,
    [remove_writer] returns true once and false on the repeat; and
    [remove_writer] of a gid that is absent returns false and changes
    nothing.  For a gid that is a key of [data_writers_], [add_writer]
    returns false, calls no callback and changes nothing, and
    [remove_writer] returns true.  The same holds of [add_reader] and
    [remove_reader] with [data_readers_], whatever [data_writers_]
    holds. *)
Theorem add_remove_endpoint_flags
    (gid : rmw_gid_t) (topic type_ topic' type' : string)
    (hash hash' : rosidl_type_hash_t) (participant participant' : rmw_gid_t)
    (q q' : rmw_qos_profile_t) (gc : GraphCache) :
  (find_gid gid (data_writers_ gc) = None ->
   let first := add_writer gid topic type_ hash participant q gc in
   let second := add_writer gid topic' type' hash' participant' q' (cache first) in
   let removed := remove_writer gid (cache first) in
   returned first = true
   /\ returned second = false /\ cache second = cache first /\ calls second = []
   /\ find_gid gid (data_writers_ (cache second))
      = Some (mk_EntityInfo topic type_ hash participant q)
   /\ returned removed = true
   /\ returned (remove_writer gid (cache removed)) = false
   /\ returned (remove_writer gid gc) = false /\ cache (remove_writer gid gc) = gc)
  /\
  (find_gid gid (data_readers_ gc) = None ->
   let first := add_reader gid topic type_ hash participant q gc in
   let second := add_reader gid topic' type' hash' participant' q' (cache first) in
   let removed := remove_reader gid (cache first) in
   returned first = true
   /\ returned second = false /\ cache second = cache first /\ calls second = []
   /\ find_gid gid (data_readers_ (cache second))
      = Some (mk_EntityInfo topic type_ hash participant q)
   /\ returned removed = true
   /\ returned (remove_reader gid (cache removed)) = false
   /\ returned (remove_reader gid gc) = false /\ cache (remove_reader gid gc) = gc)
  /\
  (forall info,
     find_gid gid (data_writers_ gc) = Some info ->
     let again := add_writer gid topic type_ hash participant q gc in
     returned again = false /\ cache again = gc /\ calls again = []
     /\ returned (remove_writer gid gc) = true)
  /\
  (forall info,
     find_gid gid (data_readers_ gc) = Some info ->
     let again := add_reader gid topic type_ hash participant q gc in
     returned again = false /\ cache again = gc /\ calls again = []
     /\ returned (remove_reader gid gc) = true).
Proof.
  split; [| split; [| split]].
  3: { intros info P. cbv zeta. unfold add_writer, remove_writer, map_emplace.
       rewrite P. cbn [fst snd returned cache calls].
       rewrite with_data_writers_same. unfold GRAPH_CACHE_CALL_ON_CHANGE_CALLBACK_IF.
       split; [reflexivity |]. split; [reflexivity |].
       split; [destruct (on_change_callback_ gc); reflexivity |].
       apply Nat.ltb_lt. eapply map_erase_present. exact P. }
  3: { intros info P. cbv zeta. unfold add_reader, remove_reader, map_emplace.
       rewrite P. cbn [fst snd returned cache calls].
       rewrite with_data_readers_same. unfold GRAPH_CACHE_CALL_ON_CHANGE_CALLBACK_IF.
       split; [reflexivity |]. split; [reflexivity |].
       split; [destruct (on_change_callback_ gc); reflexivity |].
       apply Nat.ltb_lt. eapply map_erase_present. exact P. }
  - intros fresh_writer.
    destruct (@emplace_then_repeat _ _ _ Compare_rmw_gid_t_equivalent gid
                (mk_EntityInfo topic type_ hash participant q)
                (mk_EntityInfo topic' type' hash' participant' q')
                (data_writers_ gc) fresh_writer) as (E1 & E2 & E3 & E4 & E5 & E6).
    cbv zeta. unfold add_writer, remove_writer. simpl.
    rewrite E1, E3, E4, E5, E6. simpl. rewrite E2.
    unfold GRAPH_CACHE_CALL_ON_CHANGE_CALLBACK_IF.
    destruct gc as [w r p cb]; simpl; destruct cb; repeat split; reflexivity.
  - intros fresh_reader.
    destruct (@emplace_then_repeat _ _ _ Compare_rmw_gid_t_equivalent gid
                (mk_EntityInfo topic type_ hash participant q)
                (mk_EntityInfo topic' type' hash' participant' q')
                (data_readers_ gc) fresh_reader) as (E1 & E2 & E3 & E4 & E5 & E6).
    cbv zeta. unfold add_reader, remove_reader. simpl.
    rewrite E1, E3, E4, E5, E6. simpl. rewrite E2.
    unfold GRAPH_CACHE_CALL_ON_CHANGE_CALLBACK_IF.
    destruct gc as [w r p cb]; simpl; destruct cb; repeat split; reflexivity.
Qed.

Lemma add_remove_endpoint_flags_witness :
  find_gid W2 (data_writers_ talker_cache) = None
  /\ returned (add_writer W2 "/t" "T" rosidl_get_zero_initialized_type_hash G1 QOS_R_V
                 talker_cache) = true
  /\ returned (add_writer W2 "/u" "U" rosidl_get_zero_initialized_type_hash G2 QOS_R_V
                 (cache (add_writer W2 "/t" "T" rosidl_get_zero_initialized_type_hash G1
                           QOS_R_V talker_cache))) = false
  /\ find_gid W1 (data_writers_ talker_cache) <> None
  /\ find_gid W1 (data_readers_ talker_cache) = None
  /\ returned (add_reader W1 "/t" "T" rosidl_get_zero_initialized_type_hash G1 QOS_R_V
                 talker_cache) = true
  /\ returned (remove_reader W1 talker_cache) = false.
Proof.
  split; [reflexivity |].
  pose proof (proj1 (@add_remove_endpoint_flags W2 "/t" "T" "/u" "U"
                rosidl_get_zero_initialized_type_hash rosidl_get_zero_initialized_type_hash
                G1 G2 QOS_R_V QOS_R_V talker_cache) eq_refl) as Hw.
  pose proof (proj1 (proj2 (@add_remove_endpoint_flags W1 "/t" "T" "/u" "U"
                rosidl_get_zero_initialized_type_hash rosidl_get_zero_initialized_type_hash
                G1 G2 QOS_R_V QOS_R_V talker_cache)) eq_refl) as Hr.
  cbv zeta in Hw, Hr.
  destruct Hw as (H1 & H2 & _).
  destruct Hr as (R1 & _ & _ & _ & _ & _ & _ & R2 & _).
  split; [exact H1 |]. split; [exact H2 |].
  split; [vm_compute; discriminate |]. split; [reflexivity |].
  split; [exact R1 | exact R2].
Defined.

(** ** Peer reports *)

Lemma find_or_emplace_participant_same (gid : rmw_gid_t) (m : ParticipantToNodesMap) :
  find_gid gid (find_or_emplace_participant gid m)
  = Some match find_gid gid m with
         | Some info => info
         | None => ParticipantInfo_default
         end.
Proof.
  unfold find_or_emplace_participant, map_emplace.
  destruct (find_gid gid m) as [info |] eqn:F; simpl.
  - exact F.
  - apply (@map_find_insert_same _ _ _ Compare_rmw_gid_t_equivalent). exact F.
Qed.

Lemma find_or_emplace_participant_other (gid g : rmw_gid_t) (m : ParticipantToNodesMap) :
  g <> gid -> find_gid g (find_or_emplace_participant gid m) = find_gid g m.
Proof.
  intros Hne. unfold find_or_emplace_participant, map_emplace.
  destruct (find_gid gid m) as [info |] eqn:F; simpl; [reflexivity |].
  apply (@map_find_insert_other _ _ _ Compare_rmw_gid_t_equivalent). exact Hne.
Qed.

Lemma find_or_emplace_participant_idem (gid : rmw_gid_t) (m : ParticipantToNodesMap) :
  forall info, find_gid gid m = Some info -> find_or_emplace_participant gid m = m.
Proof.
  intros info F. unfold find_or_emplace_participant. rewrite F. reflexivity.
Qed.

(** C4.  [update_participant_entities(msg)] leaves an entry for
    [msg.gid] whose node list is exactly the list of the message, and
    whose enclave is the one the entry had, or the empty string if there
    was no entry; it touches no other participant and no endpoint map;
    and applying the same message again leaves the cache as it is. *)
Theorem update_participant_entities_replaces
    (m : msg.ParticipantEntitiesInfo) (gc : GraphCache) :
  let gid := convert_msg_to_gid (msg.gid m) in
  let gc' := cache (update_participant_entities m gc) in
  find_gid gid (participants_ gc')
  = Some {| node_entities_info_seq := msg.node_entities_info_seq m;
            enclave := match find_gid gid (participants_ gc) with
                       | Some info => enclave info
                       | None => ""
                       end |}
  /\ (forall g, g <> gid -> find_gid g (participants_ gc') = find_gid g (participants_ gc))
  /\ data_writers_ gc' = data_writers_ gc
  /\ data_readers_ gc' = data_readers_ gc
  /\ on_change_callback_ gc' = on_change_callback_ gc
  /\ cache (update_participant_entities m gc') = gc'.
Proof.
  cbv zeta. unfold update_participant_entities. simpl.
  set (gid := convert_msg_to_gid (msg.gid m)).
  set (put := fun info : ParticipantInfo =>
                {| node_entities_info_seq := msg.node_entities_info_seq m;
                   enclave := enclave info |}).
  assert (F : find_gid gid
                (map_update Compare_rmw_gid_t gid put
                   (find_or_emplace_participant gid (participants_ gc)))
              = Some {| node_entities_info_seq := msg.node_entities_info_seq m;
                        enclave := match find_gid gid (participants_ gc) with
                                   | Some info => enclave info
                                   | None => ""
                                   end |}).
  { rewrite (@map_find_update_same _ _ _ gid put), find_or_emplace_participant_same.
    destruct (find_gid gid (participants_ gc)); reflexivity. }
  repeat match goal with |- _ /\ _ => split end; try reflexivity.
  - exact F.
  - intros g Hne.
    rewrite (@map_find_update_other _ _ _ Compare_rmw_gid_t_equivalent) by exact Hne.
    apply find_or_emplace_participant_other. exact Hne.
  - rewrite (find_or_emplace_participant_idem _ _ F), map_update_update.
    reflexivity.
Qed.

(** ** The change callback *)

Lemma map_insert_length (K V : Type) (less : K -> K -> bool) (k : K) (v : V)
    (m : std_map K V) :
  List.length (map_insert less k v m) = S (List.length m).
Proof.
  induction m as [| [k' v'] m IH]; simpl; [reflexivity |].
  destruct (less k k'); simpl; [reflexivity | rewrite IH; reflexivity].
Qed.

Lemma map_erase_length (K V : Type) (less : K -> K -> bool) (k : K) (m : std_map K V) :
  List.length (fst (map_erase less k m)) + snd (map_erase less k m) = List.length m.
Proof.
  induction m as [| [k' v'] m IH]; simpl; [reflexivity |].
  destruct (map_erase less k m) as [rest n]. simpl in IH.
  destruct (equivalent less k k'); simpl; lia.
Qed.

Lemma map_emplace_flag (K V : Type) (less : K -> K -> bool) (k : K) (v : V)
    (m : std_map K V) :
  (snd (map_emplace less k v m) = false -> fst (map_emplace less k v m) = m)
  /\ (snd (map_emplace less k v m) = true -> fst (map_emplace less k v m) <> m).
Proof.
  unfold map_emplace. destruct (map_find less k m); simpl; split;
    try discriminate; try reflexivity.
  intros _ H. apply (f_equal (@List.length _)) in H.
  rewrite map_insert_length in H. lia.
Qed.

Lemma map_erase_flag (K V : Type) (less : K -> K -> bool) (k : K) (m : std_map K V) :
  (Nat.ltb 0 (snd (map_erase less k m)) = false -> fst (map_erase less k m) = m)
  /\ (Nat.ltb 0 (snd (map_erase less k m)) = true -> fst (map_erase less k m) <> m).
Proof.
  pose proof (map_erase_length less k m) as L. split.
  - intros H. apply Nat.ltb_ge in H. apply map_erase_count_zero. lia.
  - intros H E. apply Nat.ltb_lt in H. rewrite E in L. lia.
Qed.

Lemma calls_of_flag (gc : GraphCache) (flag : bool) :
  GRAPH_CACHE_CALL_ON_CHANGE_CALLBACK_IF gc flag
  = match on_change_callback_ gc with
    | Some f => if flag then [f] else []
    | None => []
    end.
Proof. reflexivity. Qed.

Lemma calls_of_add_node (p : rmw_gid_t) (n ns : string) (gc : GraphCache)
    (o : outcome msg.ParticipantEntitiesInfo) :
  add_node p n ns gc = Some o -> calls o = GRAPH_CACHE_CALL_ON_CHANGE_CALLBACK gc.
Proof.
  unfold add_node. destruct (find_gid p (participants_ gc)); [| discriminate].
  intros H. inversion H. reflexivity.
Qed.

Lemma calls_of_remove_node (p : rmw_gid_t) (n ns : string) (gc : GraphCache)
    (o : outcome msg.ParticipantEntitiesInfo) :
  remove_node p n ns gc = Some o -> calls o = GRAPH_CACHE_CALL_ON_CHANGE_CALLBACK gc.
Proof.
  unfold remove_node. destruct (find_gid p (participants_ gc)); [| discriminate].
  destruct (erase_first _ _); [| discriminate].
  intros H. inversion H. reflexivity.
Qed.

Lemma calls_of_modify_and_notify (p : rmw_gid_t) (n ns : string)
    (func : msg.NodeEntitiesInfo -> msg.NodeEntitiesInfo) (gc : GraphCache)
    (o : outcome msg.ParticipantEntitiesInfo) :
  modify_and_notify p n ns func gc = Some o ->
  calls o = GRAPH_CACHE_CALL_ON_CHANGE_CALLBACK gc.
Proof.
  unfold modify_and_notify.
  destruct (__modify_node_info p n ns func (participants_ gc)) as [[m ps] |];
    [| discriminate].
  intros H. inversion H. reflexivity.
Qed.

Lemma with_data_writers_changed (gc : GraphCache) (m : EntityGidToInfo) :
  m <> data_writers_ gc -> with_data_writers gc m <> gc.
Proof. intros H E. apply H. rewrite <- E. reflexivity. Qed.

Lemma with_data_readers_changed (gc : GraphCache) (m : EntityGidToInfo) :
  m <> data_readers_ gc -> with_data_readers gc m <> gc.
Proof. intros H E. apply H. rewrite <- E. reflexivity. Qed.

Lemma with_participants_changed (gc : GraphCache) (m : ParticipantToNodesMap) :
  m <> participants_ gc -> with_participants gc m <> gc.
Proof. intros H E. apply H. rewrite <- E. reflexivity. Qed.

Lemma flagged_calls (gc gc' : GraphCache) (flag : bool) :
  (flag = false -> gc' = gc) ->
  (flag = true -> gc' <> gc) ->
  GRAPH_CACHE_CALL_ON_CHANGE_CALLBACK_IF gc flag
  = match on_change_callback_ gc, Some flag with
    | Some f, Some false => []
    | Some f, _ => [f]
    | None, _ => []
    end
  /\ (Some flag = Some false -> gc' = gc)
  /\ (Some flag = Some true -> gc' <> gc).
Proof.
  intros F T. rewrite calls_of_flag. split; [| split].
  - destruct (on_change_callback_ gc), flag; reflexivity.
  - intros H. inversion H. auto.
  - intros H. inversion H. auto.
Qed.

Lemma unflagged_calls (gc gc' : GraphCache) :
  GRAPH_CACHE_CALL_ON_CHANGE_CALLBACK gc
  = match on_change_callback_ gc, @None bool with
    | Some f, Some false => []
    | Some f, _ => [f]
    | None, _ => []
    end
  /\ (@None bool = Some false -> gc' = gc)
  /\ (@None bool = Some true -> gc' <> gc).
Proof.
  unfold GRAPH_CACHE_CALL_ON_CHANGE_CALLBACK. rewrite calls_of_flag.
  split; [| split]; try discriminate.
  destruct (on_change_callback_ gc); reflexivity.
Qed.

(** How often one method calls the callback, and what its flag says
    about the cache. *)
Lemma run_calls_and_flag (op : operation) (gc gc' : GraphCache) (calls' : list callback) :
  run op gc = Some (gc', calls') ->
  calls' = match on_change_callback_ gc, change_flag op gc with
           | Some f, Some false => []
           | Some f, _ => [f]
           | None, _ => []
           end
  /\ (change_flag op gc = Some false -> gc' = gc)
  /\ (change_flag op gc = Some true -> gc' <> gc).
Proof.
  destruct op as [g t ty h p q | g t ty h p q | g | g | p e | p | m
                 | p n ns | p n ns | w p n ns | w p n ns | r p n ns | r p n ns];
    simpl; intros H.
  - inversion H; subst; clear H. unfold add_writer; simpl.
    destruct (map_emplace_flag Compare_rmw_gid_t g (mk_EntityInfo t ty h p q)
                (data_writers_ gc)) as [F T].
    apply flagged_calls.
    + intros E. rewrite (F E). apply with_data_writers_same.
    + intros E. apply with_data_writers_changed, T, E.
  - inversion H; subst; clear H. unfold add_reader; simpl.
    destruct (map_emplace_flag Compare_rmw_gid_t g (mk_EntityInfo t ty h p q)
                (data_readers_ gc)) as [F T].
    apply flagged_calls.
    + intros E. rewrite (F E). apply with_data_readers_same.
    + intros E. apply with_data_readers_changed, T, E.
  - inversion H; subst; clear H. unfold remove_writer; simpl.
    destruct (map_erase_flag Compare_rmw_gid_t g (data_writers_ gc)) as [F T].
    apply flagged_calls.
    + intros E. rewrite (F E). apply with_data_writers_same.
    + intros E. apply with_data_writers_changed, T, E.
  - inversion H; subst; clear H. unfold remove_reader; simpl.
    destruct (map_erase_flag Compare_rmw_gid_t g (data_readers_ gc)) as [F T].
    apply flagged_calls.
    + intros E. rewrite (F E). apply with_data_readers_same.
    + intros E. apply with_data_readers_changed, T, E.
  - inversion H; subst; clear H. apply unflagged_calls.
  - inversion H; subst; clear H. unfold remove_participant; simpl.
    destruct (map_erase_flag Compare_rmw_gid_t p (participants_ gc)) as [F T].
    apply flagged_calls.
    + intros E. rewrite (F E). apply with_participants_same.
    + intros E. apply with_participants_changed, T, E.
  - inversion H; subst; clear H. apply unflagged_calls.
  - destruct (add_node p n ns gc) as [o |] eqn:R; [| discriminate].
    inversion H; subst. rewrite (calls_of_add_node _ _ _ _ R). apply unflagged_calls.
  - destruct (remove_node p n ns gc) as [o |] eqn:R; [| discriminate].
    inversion H; subst. rewrite (calls_of_remove_node _ _ _ _ R). apply unflagged_calls.
  - destruct (associate_writer w p n ns gc) as [o |] eqn:R; [| discriminate].
    inversion H; subst. rewrite (calls_of_modify_and_notify _ _ _ _ _ R).
    apply unflagged_calls.
  - destruct (dissociate_writer w p n ns gc) as [o |] eqn:R; [| discriminate].
    inversion H; subst. rewrite (calls_of_modify_and_notify _ _ _ _ _ R).
    apply unflagged_calls.
  - destruct (associate_reader r p n ns gc) as [o |] eqn:R; [| discriminate].
    inversion H; subst. rewrite (calls_of_modify_and_notify _ _ _ _ _ R).
    apply unflagged_calls.
  - destruct (dissociate_reader r p n ns gc) as [o |] eqn:R; [| discriminate].
    inversion H; subst. rewrite (calls_of_modify_and_notify _ _ _ _ _ R).
    apply unflagged_calls.
Qed.

(** C3 (amended).  For every GraphCache operation that completes and
    every registered change callback, the callback is called at most
    once, and exactly once when the operation changes the cache.  The
    operations that report a change flag (add and remove of writers and
    readers, remove of a participant) call it if and only if they
    changed the cache; add_participant, update_participant_entities,
    add_node, remove_node and the four association operations call it on
    every call, whether or not the cache changed.  Without a registered
    callback nothing is called. *)
Theorem change_callback_calls
    (op : operation) (gc gc' : GraphCache) (calls' : list callback)
    (completed : run op gc = Some (gc', calls')) :
  (on_change_callback_ gc = None -> calls' = [])
  /\ forall f, on_change_callback_ gc = Some f ->
       (calls' = [f] \/ calls' = [])
       /\ (gc' <> gc -> calls' = [f])
       /\ (forall flag, change_flag op gc = Some flag ->
             (flag = true <-> gc' <> gc) /\ (flag = true <-> calls' = [f]))
       /\ (change_flag op gc = None -> calls' = [f]).
Proof.
  destruct (run_calls_and_flag op gc completed) as (C & F & T).
  split.
  - intros N. rewrite N in C. exact C.
  - intros f S. rewrite S in C.
    destruct (change_flag op gc) as [[|] |] eqn:Flag.
    + specialize (T eq_refl).
      split; [left; exact C |]. split; [intros _; exact C |].
      split; [| intros _; exact C].
      intros flag Hf. inversion Hf; subst. split; split; auto.
    + specialize (F eq_refl). subst gc' calls'.
      split; [right; reflexivity |].
      split; [intros N; contradiction N; reflexivity |].
      split; [| discriminate].
      intros flag Hf. inversion Hf; subst.
      split; split; try discriminate. intros N. contradiction N. reflexivity.
    + split; [left; exact C |]. split; [intros _; exact C |].
      split; [discriminate | intros _; exact C].
Qed.

Lemma change_callback_calls_witness :
  run (op_add_writer W2 "/t" "T" rosidl_get_zero_initialized_type_hash G1 QOS_R_V)
      talker_cache
  = Some (cache (add_writer W2 "/t" "T" rosidl_get_zero_initialized_type_hash G1 QOS_R_V
                   talker_cache), [7])
  /\ ([7] = [7] \/ [7] = @nil callback).
Proof.
  split; [reflexivity |].
  exact (proj1 (proj2 (@change_callback_calls
                         (op_add_writer W2 "/t" "T" rosidl_get_zero_initialized_type_hash
                            G1 QOS_R_V)
                         talker_cache _ [7] eq_refl) 7 eq_refl)).
Defined.

(** C3, as stated, fails: [add_participant] with the enclave the
    participant already has, and [dissociate_writer] and
    [dissociate_reader] of a gid the node does not list, leave the cache
    as it was and still call the callback once. *)
Lemma noop_mutations_call_the_callback :
  on_change_callback_ talker_cache = Some 7
  /\ option_map enclave (find_gid G1 (participants_ talker_cache)) = Some "encA"
  /\ run (op_add_participant G1 "encA") talker_cache = Some (talker_cache, [7])
  /\ run (op_dissociate_writer W2 G1 "talker" "") talker_cache = Some (talker_cache, [7])
  /\ run (op_dissociate_reader R1 G1 "talker" "") talker_cache = Some (talker_cache, [7]).
Proof. repeat split; vm_compute; reflexivity. Qed.

(** ** The local-node plane *)

Lemma modify_first_defined (A : Type) (p : A -> bool) (f : A -> A) (l : list A) :
  modify_first p f l <> None <-> existsb p l = true.
Proof.
  induction l as [| x l IH]; simpl.
  - split; [intros H; contradiction H; reflexivity | discriminate].
  - destruct (p x); simpl.
    + split; [reflexivity | discriminate].
    + rewrite <- IH. destruct (modify_first p f l); split; intros H; try discriminate;
        try (contradiction H; reflexivity).
Qed.

Lemma erase_first_defined (A : Type) (p : A -> bool) (l : list A) :
  erase_first p l <> None <-> existsb p l = true.
Proof.
  induction l as [| x l IH]; simpl.
  - split; [intros H; contradiction H; reflexivity | discriminate].
  - destruct (p x); simpl.
    + split; [reflexivity | discriminate].
    + rewrite <- IH. destruct (erase_first p l); split; intros H; try discriminate;
        try (contradiction H; reflexivity).
Qed.

Lemma modify_and_notify_defined (p : rmw_gid_t) (n ns : string)
    (func : msg.NodeEntitiesInfo -> msg.NodeEntitiesInfo) (gc : GraphCache) :
  modify_and_notify p n ns func gc <> None <->
  match find_gid p (participants_ gc) with
  | Some info => existsb (node_matches n ns) (node_entities_info_seq info)
  | None => false
  end = true.
Proof.
  unfold modify_and_notify, __modify_node_info.
  destruct (find_gid p (participants_ gc)) as [info |].
  - rewrite <- (modify_first_defined (node_matches n ns) func).
    destruct (modify_first _ _ _); split; intros H; try discriminate;
      try (contradiction H; reflexivity).
  - split; [intros H; contradiction H; reflexivity | discriminate].
Qed.

Lemma find_gid_update_absent (k p : rmw_gid_t) (f : ParticipantInfo -> ParticipantInfo)
    (m : ParticipantToNodesMap) :
  find_gid k m = None -> find_gid k (map_update Compare_rmw_gid_t p f m) = None.
Proof.
  intros H. destruct (equivalent Compare_rmw_gid_t k p) eqn:Ekp.
  - apply Compare_rmw_gid_t_equivalent in Ekp. subst p.
    rewrite map_find_update_same, H. reflexivity.
  - rewrite (@map_find_update_other _ _ _ Compare_rmw_gid_t_equivalent); [exact H |].
    intros ->. rewrite (proj2 (Compare_rmw_gid_t_equivalent p p) eq_refl) in Ekp.
    discriminate.
Qed.

Lemma find_gid_put_absent (k p : rmw_gid_t) (f : ParticipantInfo -> ParticipantInfo)
    (m : ParticipantToNodesMap) :
  find_gid k m = None ->
  find_gid k (map_update Compare_rmw_gid_t p f (find_or_emplace_participant p m)) <> None ->
  p = k.
Proof.
  intros H N. destruct (equivalent Compare_rmw_gid_t k p) eqn:Ekp.
  - apply Compare_rmw_gid_t_equivalent in Ekp. auto.
  - assert (Hne : k <> p).
    { intros ->. rewrite (proj2 (Compare_rmw_gid_t_equivalent p p) eq_refl) in Ekp.
      discriminate. }
    contradiction N.
    rewrite (@map_find_update_other _ _ _ Compare_rmw_gid_t_equivalent) by exact Hne.
    rewrite find_or_emplace_participant_other by exact Hne. exact H.
Qed.

(** The participants after a local-node method are those before it. *)
Lemma local_node_keeps_absent (k : rmw_gid_t) (gc : GraphCache)
    (o : outcome msg.ParticipantEntitiesInfo) :
  find_gid k (participants_ gc) = None ->
  (exists p n ns, add_node p n ns gc = Some o)
  \/ (exists p n ns, remove_node p n ns gc = Some o)
  \/ (exists p n ns func, modify_and_notify p n ns func gc = Some o) ->
  find_gid k (participants_ (cache o)) = None.
Proof.
  intros H [(p & n & ns & R) | [(p & n & ns & R) | (p & n & ns & func & R)]].
  - unfold add_node in R. destruct (find_gid p (participants_ gc)); [| discriminate].
    inversion R; subst; simpl. apply find_gid_update_absent. exact H.
  - unfold remove_node in R. destruct (find_gid p (participants_ gc)); [| discriminate].
    destruct (erase_first _ _); [| discriminate].
    inversion R; subst; simpl. apply find_gid_update_absent. exact H.
  - unfold modify_and_notify, __modify_node_info in R.
    destruct (find_gid p (participants_ gc)); [| discriminate].
    destruct (modify_first _ _ _); [| discriminate].
    inversion R; subst; simpl. apply find_gid_update_absent. exact H.
Qed.

(** C10.  A local-node method completes (no [assert] fails) exactly
    when its precondition holds: for [add_node], that the participant
    gid is a key of the participants map; for [remove_node] and the four
    association methods, that moreover the participant lists a node with
    the given name and namespace.  No method other than
    [add_participant] and [update_participant_entities] makes a missing
    participant gid a key of the map, and these two always do. *)
Theorem local_node_plane_preconditions
    (gc : GraphCache) (p g : rmw_gid_t) (n ns : string) :
  let known := find_gid p (participants_ gc) in
  let has_node :=
    match known with
    | Some info => existsb (node_matches n ns) (node_entities_info_seq info)
    | None => false
    end in
  (add_node p n ns gc <> None <-> known <> None)
  /\ (remove_node p n ns gc <> None <-> has_node = true)
  /\ (associate_writer g p n ns gc <> None <-> has_node = true)
  /\ (dissociate_writer g p n ns gc <> None <-> has_node = true)
  /\ (associate_reader g p n ns gc <> None <-> has_node = true)
  /\ (dissociate_reader g p n ns gc <> None <-> has_node = true)
  /\ (forall op gc' calls' k,
        run op gc = Some (gc', calls') ->
        find_gid k (participants_ gc) = None ->
        find_gid k (participants_ gc') <> None ->
        (exists e, op = op_add_participant k e)
        \/ (exists m, op = op_update_participant_entities m
                      /\ convert_msg_to_gid (msg.gid m) = k))
  /\ (forall e, find_gid p (participants_ (cache (add_participant p e gc))) <> None)
  /\ (forall m, find_gid (convert_msg_to_gid (msg.gid m))
                  (participants_ (cache (update_participant_entities m gc))) <> None).
Proof.
  cbv zeta.
  split; [| split; [| split; [| split; [| split; [| split; [| split; [| split]]]]]]].
  - unfold add_node. destruct (find_gid p (participants_ gc)); split; intros H;
      try discriminate; try (contradiction H; reflexivity).
  - unfold remove_node. destruct (find_gid p (participants_ gc)) as [info |].
    + rewrite <- (erase_first_defined (node_matches n ns)).
      destruct (erase_first _ _); split; intros H; try discriminate;
        try (contradiction H; reflexivity).
    + split; [intros H; contradiction H; reflexivity | discriminate].
  - apply modify_and_notify_defined.
  - apply modify_and_notify_defined.
  - apply modify_and_notify_defined.
  - apply modify_and_notify_defined.
  - intros op gc' calls' k R Habsent Hpresent.
    destruct op as [g0 t ty h p0 q | g0 t ty h p0 q | g0 | g0 | p0 e | p0 | m
                   | p0 n0 ns0 | p0 n0 ns0 | w p0 n0 ns0 | w p0 n0 ns0
                   | r p0 n0 ns0 | r p0 n0 ns0];
      simpl in R;
      try (inversion R; subst; clear R; simpl in Hpresent; contradiction).
    + inversion R; subst; clear R. simpl in Hpresent.
      left. exists e. f_equal. eapply find_gid_put_absent; eassumption.
    + inversion R; subst; clear R. simpl in Hpresent. contradiction Hpresent.
      destruct (equivalent Compare_rmw_gid_t k p0) eqn:Ekp.
      * apply Compare_rmw_gid_t_equivalent in Ekp. subst p0.
        apply map_find_erase_same.
      * rewrite (@map_find_erase_other _ _ _ Compare_rmw_gid_t_equivalent);
          [exact Habsent |].
        intros ->. rewrite (proj2 (Compare_rmw_gid_t_equivalent p0 p0) eq_refl) in Ekp.
        discriminate.
    + inversion R; subst; clear R. simpl in Hpresent.
      right. exists m. split; [reflexivity |].
      eapply find_gid_put_absent; eassumption.
    + destruct (add_node p0 n0 ns0 gc) as [o |] eqn:Ro; [| discriminate].
      inversion R; subst; clear R. contradiction Hpresent.
      apply (@local_node_keeps_absent k gc o Habsent). left. eauto.
    + destruct (remove_node p0 n0 ns0 gc) as [o |] eqn:Ro; [| discriminate].
      inversion R; subst; clear R. contradiction Hpresent.
      apply (@local_node_keeps_absent k gc o Habsent). right; left. eauto.
    + destruct (associate_writer w p0 n0 ns0 gc) as [o |] eqn:Ro; [| discriminate].
      inversion R; subst; clear R. contradiction Hpresent.
      apply (@local_node_keeps_absent k gc o Habsent). right; right. eauto.
    + destruct (dissociate_writer w p0 n0 ns0 gc) as [o |] eqn:Ro; [| discriminate].
      inversion R; subst; clear R. contradiction Hpresent.
      apply (@local_node_keeps_absent k gc o Habsent). right; right. eauto.
    + destruct (associate_reader r p0 n0 ns0 gc) as [o |] eqn:Ro; [| discriminate].
      inversion R; subst; clear R. contradiction Hpresent.
      apply (@local_node_keeps_absent k gc o Habsent). right; right. eauto.
    + destruct (dissociate_reader r p0 n0 ns0 gc) as [o |] eqn:Ro; [| discriminate].
      inversion R; subst; clear R. contradiction Hpresent.
      apply (@local_node_keeps_absent k gc o Habsent). right; right. eauto.
  - intros e. unfold add_participant. simpl.
    rewrite map_find_update_same, find_or_emplace_participant_same. discriminate.
  - intros m. unfold update_participant_entities. simpl.
    rewrite map_find_update_same, find_or_emplace_participant_same. discriminate.
Qed.

(** ** Endpoints of a topic *)

Lemma seq_next (S A B : Type) (c : stmt S A) (k : A -> stmt S B) (s s'' : S) (b : B) :
  seq c k s = (Next b, s'') ->
  exists a s', c s = (Next a, s') /\ k a s' = (Next b, s'').
Proof.
  unfold seq. destruct (c s) as [[a | r] s']; [| discriminate].
  intros H. exists a, s'. auto.
Qed.

Lemma c_str_idempotent (s : string) : c_str (c_str s) = c_str s.
Proof.
  induction s as [| c s IH]; simpl; [reflexivity |].
  destruct (Ascii.eqb c zero) eqn:Z; simpl; [reflexivity |].
  rewrite Z, IH. reflexivity.
Qed.

Lemma ascii_is_zero (c : ascii) :
  Byte.eqb Byte.x00 (byte_of_ascii c) = Ascii.eqb c zero.
Proof.
  destruct c as [[] [] [] [] [] [] [] []]; reflexivity.
Qed.

Lemma c_str_without_nul (s : string) : free_of Byte.x00 s = true -> c_str s = s.
Proof.
  unfold free_of. induction s as [| c s IH]; simpl; [reflexivity |].
  rewrite ascii_is_zero. destruct (Ascii.eqb c zero); simpl; [discriminate |].
  intros F. rewrite (IH F). reflexivity.
Qed.

Lemma strdup_next (text copy : string) (a a' : rcutils_allocator_t) :
  strdup_or_return text a = (Next copy, a') -> copy = c_str text.
Proof.
  intros H. apply seq_next in H. destruct H as (u & s' & _ & H).
  inversion H. reflexivity.
Qed.

Lemma allocate_unlimited (a : rcutils_allocator_t) :
  requests a = [] -> allocate_or_return a = (Next tt, a).
Proof. unfold allocate_or_return. intros ->. reflexivity. Qed.

Lemma strdup_unlimited (text : string) (a : rcutils_allocator_t) :
  requests a = [] -> strdup_or_return text a = (Next (c_str text), a).
Proof.
  intros H. unfold strdup_or_return, seq. rewrite (allocate_unlimited a H). reflexivity.
Qed.

Lemma allocate_leaves (a a' : rcutils_allocator_t) (r : rmw_ret_t) :
  allocate_or_return a = (Leave r, a') -> r = RMW_RET_BAD_ALLOC.
Proof.
  unfold allocate_or_return. destruct (requests a) as [| [|] rest]; intros H;
    inversion H; reflexivity.
Qed.

Lemma fill_endpoint_info_next (pm : ParticipantToNodesMap) (dt : string -> string)
    (is_reader : bool) (pair : rmw_gid_t * EntityInfo)
    (a a' : rcutils_allocator_t) (e : rmw_topic_endpoint_info_t) :
  fill_endpoint_info pm dt is_reader pair a = (Next e, a') ->
  e = endpoint_of pm dt is_reader pair.
Proof.
  unfold fill_endpoint_info, endpoint_of.
  destruct (endpoint_names _) as [name namespace_]. simpl.
  intros H.
  apply seq_next in H. destruct H as (n1 & s1 & H1 & H).
  apply seq_next in H. destruct H as (n2 & s2 & H2 & H).
  apply seq_next in H. destruct H as (n3 & s3 & H3 & H).
  apply strdup_next in H1, H2, H3. subst. inversion H.
  rewrite !c_str_idempotent. reflexivity.
Qed.

Lemma fill_endpoint_info_unlimited (pm : ParticipantToNodesMap) (dt : string -> string)
    (is_reader : bool) (pair : rmw_gid_t * EntityInfo) (a : rcutils_allocator_t) :
  requests a = [] ->
  fill_endpoint_info pm dt is_reader pair a = (Next (endpoint_of pm dt is_reader pair), a).
Proof.
  intros H. unfold fill_endpoint_info, endpoint_of.
  destruct (endpoint_names _) as [name namespace_]. simpl.
  unfold seq. rewrite !(strdup_unlimited _ a H), !c_str_idempotent. reflexivity.
Qed.

Lemma fill_endpoints_info_next (pm : ParticipantToNodesMap) (name : string)
    (dt : string -> string) (is_reader : bool) (entities : EntityGidToInfo) :
  forall a a' infos,
    fill_endpoints_info pm name dt is_reader entities a = (Next infos, a') ->
    infos = map (endpoint_of pm dt is_reader) (on_topic name entities).
Proof.
  induction entities as [| pair rest IH]; simpl; intros a a' infos H.
  - inversion H. reflexivity.
  - destruct (topic_name (snd pair) =? name)%string; simpl in *.
    + apply seq_next in H. destruct H as (e & s1 & H1 & H).
      apply seq_next in H. destruct H as (es & s2 & H2 & H).
      inversion H; subst. apply fill_endpoint_info_next in H1.
      rewrite (IH _ _ _ H2), H1. reflexivity.
    + eapply IH. exact H.
Qed.

Lemma fill_endpoints_info_unlimited (pm : ParticipantToNodesMap) (name : string)
    (dt : string -> string) (is_reader : bool) (entities : EntityGidToInfo)
    (a : rcutils_allocator_t) :
  requests a = [] ->
  fill_endpoints_info pm name dt is_reader entities a
  = (Next (map (endpoint_of pm dt is_reader) (on_topic name entities)), a).
Proof.
  intros Ha. induction entities as [| pair rest IH]; simpl; [reflexivity |].
  destruct (topic_name (snd pair) =? name)%string; simpl; [| exact IH].
  unfold seq. rewrite (fill_endpoint_info_unlimited pm dt is_reader pair a Ha), IH.
  reflexivity.
Qed.

(** The lookup of the code finds what the specification describes. *)
Lemma find_name_and_namespace_is_reverse_lookup (pm : ParticipantToNodesMap)
    (participant entity : rmw_gid_t) (is_reader : bool) :
  let names :=
    endpoint_names
      (__find_name_and_namespace_from_entity_gid pm participant entity is_reader) in
  reverse_lookup pm participant entity is_reader (fst names) (snd names).
Proof.
  cbv zeta. unfold __find_name_and_namespace_from_entity_gid.
  destruct (find_gid participant pm) as [info |] eqn:F;
    [| apply lookup_bare_dds_participant; exact F].
  match goal with
  | |- context [find ?claims (node_entities_info_seq info)] =>
    destruct (find claims (node_entities_info_seq info)) as [node |] eqn:C
  end; simpl.
  - apply find_some in C. destruct C as [Hin Hc].
    apply (lookup_ros_node _ _ _ _ _ F Hin).
    apply existsb_exists in Hc. destruct Hc as (gid & Hg & Hm).
    apply memcmp_is_zero_eq in Hm. unfold lists_gid.
    replace (convert_gid_to_msg entity) with gid; [exact Hg |].
    destruct gid; unfold convert_gid_to_msg; simpl in *. congruence.
  - apply (lookup_undiscovered_ros_node _ _ _ _ F).
    intros node Hin L. pose proof (find_none _ _ C node Hin) as N. simpl in N.
    assert (T : existsb (fun gid => memcmp_is_zero (msg.data gid) (data entity))
                  (if is_reader then msg.reader_gid_seq node
                   else msg.writer_gid_seq node) = true).
    { apply existsb_exists. exists (convert_gid_to_msg entity). split; [exact L |].
      apply memcmp_is_zero_eq. reflexivity. }
    congruence.
Qed.

Lemma fill_endpoint_info_leaves (pm : ParticipantToNodesMap) (dt : string -> string)
    (is_reader : bool) (pair : rmw_gid_t * EntityInfo)
    (a a' : rcutils_allocator_t) (r : rmw_ret_t) :
  fill_endpoint_info pm dt is_reader pair a = (Leave r, a') -> r = RMW_RET_BAD_ALLOC.
Proof.
  unfold fill_endpoint_info. destruct (endpoint_names _) as [name namespace_].
  unfold strdup_or_return, seq, pure.
  destruct (allocate_or_return a) as [[[] | r1] a1] eqn:Q1;
    [| intros H; inversion H; subst; eapply allocate_leaves; eassumption].
  destruct (allocate_or_return a1) as [[[] | r2] a2] eqn:Q2;
    [| intros H; inversion H; subst; eapply allocate_leaves; eassumption].
  destruct (allocate_or_return a2) as [[[] | r3] a3] eqn:Q3;
    [| intros H; inversion H; subst; eapply allocate_leaves; eassumption].
  discriminate.
Qed.

Lemma fill_endpoints_info_leaves (pm : ParticipantToNodesMap) (name : string)
    (dt : string -> string) (is_reader : bool) (entities : EntityGidToInfo) :
  forall a a' r,
    fill_endpoints_info pm name dt is_reader entities a = (Leave r, a') ->
    r = RMW_RET_BAD_ALLOC.
Proof.
  induction entities as [| pair rest IH]; simpl; intros a a' r H; [discriminate |].
  destruct (topic_name (snd pair) =? name)%string; simpl in H; [| eauto].
  unfold seq in H.
  destruct (fill_endpoint_info pm dt is_reader pair a) as [[e | r1] s1] eqn:F1.
  - destruct (fill_endpoints_info pm name dt is_reader rest s1) as [[es | r2] s2] eqn:F2;
      [discriminate |].
    inversion H; subst. eauto.
  - inversion H; subst. eapply fill_endpoint_info_leaves. exact F1.
Qed.

(** The result of the by-topic query in terms of [endpoint_of]. *)
Lemma get_entities_info_by_topic_result
    (entities : EntityGidToInfo) (pm : ParticipantToNodesMap) (topic : string)
    (dt : string -> string) (is_reader : bool) (a a' : rcutils_allocator_t)
    (out infos : rmw_topic_endpoint_info_array_t) (ret : rmw_ret_t) :
  __get_entities_info_by_topic entities pm topic dt is_reader a out = (ret, a', infos) ->
  (on_topic topic entities = [] -> ret = RMW_RET_OK /\ infos = out)
  /\ (on_topic topic entities <> [] -> ret = RMW_RET_OK ->
      infos = map (endpoint_of pm dt is_reader) (on_topic topic entities))
  /\ (ret = RMW_RET_OK \/ ret = RMW_RET_BAD_ALLOC)
  /\ (requests a = [] -> ret = RMW_RET_OK).
Proof.
  unfold __get_entities_info_by_topic.
  assert (Z : __get_count entities topic = List.length (on_topic topic entities))
    by reflexivity.
  destruct (Nat.eqb (List.length entities) 0) eqn:E0.
  { intros G. inversion G; subst.
    apply Nat.eqb_eq in E0. destruct entities; [| discriminate].
    repeat split; auto. intros N. contradiction N. reflexivity. }
  cbv zeta. rewrite Z.
  destruct (on_topic topic entities) as [| m0 ms] eqn:M.
  { simpl. intros G. inversion G; subst.
    repeat split; auto. intros N. contradiction N. reflexivity. }
  simpl Nat.eqb. cbv iota.
  destruct (allocate_or_return a) as [[[] | r] a1] eqn:A.
  - destruct (fill_endpoints_info pm topic dt is_reader entities a1)
      as [[es | r] a2] eqn:F; intros G; inversion G; subst.
    + apply fill_endpoints_info_next in F. rewrite M in F.
      split; [discriminate |]. split; [intros _ _; exact F |].
      split; [left; reflexivity | reflexivity].
    + assert (B := F). apply fill_endpoints_info_leaves in B. subst ret.
      split; [discriminate |]. split; [intros _ C; discriminate C |].
      split; [right; reflexivity |].
      intros R. rewrite (allocate_unlimited a R) in A. inversion A; subst a1.
      rewrite (fill_endpoints_info_unlimited pm topic dt is_reader entities a R) in F.
      discriminate F.
  - intros G. inversion G; subst. assert (B := A). apply allocate_leaves in B. subst ret.
    split; [discriminate |]. split; [intros _ C; discriminate C |].
    split; [right; reflexivity |].
    intros R. apply allocate_unlimited in R. congruence.
Qed.

(** C6.  When some entity is on the topic, a successful
    [get_writers_info_by_topic] / [get_readers_info_by_topic] returns
    one entry per such entity, in map order, carrying the gid of the
    entity and the node name and namespace given by the three-valued
    reverse lookup: those of a node of the entity's participant that
    lists the gid; the placeholders _NODE_NAME_UNKNOWN_ and
    _NODE_NAMESPACE_UNKNOWN_ if the participant is in the cache and none
    of its nodes lists the gid; _CREATED_BY_BARE_DDS_APP_ for both if
    the participant gid is not a key of the participants map.  The entry
    holds them as C strings, that is up to their first NUL octet: it
    holds the name itself when the name has no NUL, as every placeholder
    does.  When no entity is on the topic the caller's array is left
    alone; a call fails only with RMW_RET_BAD_ALLOC, and not at all when
    the allocator serves every request. *)
Theorem endpoints_info_names
    (is_reader : bool) (gc : GraphCache) (topic : string) (demangle_type : string -> string)
    (allocator allocator' : rcutils_allocator_t)
    (endpoints_info infos : rmw_topic_endpoint_info_array_t) (ret : rmw_ret_t)
    (result : get_entities_info_by_topic is_reader topic demangle_type allocator
                endpoints_info gc = (ret, allocator', infos)) :
  let matching := on_topic topic (entities_of is_reader gc) in
  (matching = [] -> ret = RMW_RET_OK /\ infos = endpoints_info)
  /\ (matching <> [] -> ret = RMW_RET_OK ->
      Forall2 (fun entity info =>
                 endpoint.endpoint_gid info = data (fst entity)
                 /\ exists name namespace_,
                      reverse_lookup (participants_ gc)
                        (participant_gid (snd entity)) (fst entity) is_reader
                        name namespace_
                      /\ endpoint.node_name info = Some (c_str name)
                      /\ endpoint.node_namespace info = Some (c_str namespace_)
                      /\ (free_of Byte.x00 name = true ->
                          endpoint.node_name info = Some name)
                      /\ (free_of Byte.x00 namespace_ = true ->
                          endpoint.node_namespace info = Some namespace_))
              matching infos)
  /\ (ret = RMW_RET_OK \/ ret = RMW_RET_BAD_ALLOC)
  /\ (requests allocator = [] -> ret = RMW_RET_OK).
Proof.
  cbv zeta.
  assert (G : __get_entities_info_by_topic (entities_of is_reader gc) (participants_ gc)
                topic demangle_type is_reader allocator endpoints_info
              = (ret, allocator', infos)).
  { destruct is_reader; exact result. }
  apply get_entities_info_by_topic_result in G.
  destruct G as (G1 & G2 & G3 & G4).
  split; [exact G1 |]. split; [| split; assumption].
  intros N O. rewrite (G2 N O). clear.
  induction (on_topic topic (entities_of is_reader gc)) as [| e l IH]; simpl;
    constructor; auto.
  split; [reflexivity |].
  eexists. eexists.
  split; [apply find_name_and_namespace_is_reverse_lookup |]. cbv zeta.
  split; [reflexivity |]. split; [reflexivity |].
  split; intros F; unfold endpoint_of;
    cbn [endpoint.node_name endpoint.node_namespace];
    rewrite (c_str_without_nul _ F); reflexivity.
Qed.

Lemma endpoints_info_names_witness :
  get_entities_info_by_topic false "/chatter" (fun t => t)
    rcutils_get_default_allocator [] talker_cache
  = (RMW_RET_OK, rcutils_get_default_allocator,
     [endpoint_of (participants_ talker_cache) (fun t => t) false
        (W1, mk_EntityInfo "/chatter" "std/String"
               rosidl_get_zero_initialized_type_hash G1 QOS_R_V)])
  /\ Forall2 (fun entity info =>
                endpoint.endpoint_gid info = data (fst entity)
                /\ exists name namespace_,
                     reverse_lookup (participants_ talker_cache)
                       (participant_gid (snd entity)) (fst entity) false
                       name namespace_
                     /\ endpoint.node_name info = Some (c_str name)
                     /\ endpoint.node_namespace info = Some (c_str namespace_)
                     /\ (free_of Byte.x00 name = true ->
                         endpoint.node_name info = Some name)
                     /\ (free_of Byte.x00 namespace_ = true ->
                         endpoint.node_namespace info = Some namespace_))
       (on_topic "/chatter" (entities_of false talker_cache))
       [endpoint_of (participants_ talker_cache) (fun t => t) false
          (W1, mk_EntityInfo "/chatter" "std/String"
                 rosidl_get_zero_initialized_type_hash G1 QOS_R_V)].
Proof.
  split; [reflexivity |].
  refine (proj1 (proj2
    (@endpoints_info_names false talker_cache "/chatter" (fun t => t)
       rcutils_get_default_allocator rcutils_get_default_allocator [] _
       RMW_RET_OK eq_refl)) _ eq_refl).
  vm_compute. discriminate.
Defined.

(** A node whose name holds a NUL octet: the entry carries the name up
    to that octet. *)
Example endpoints_info_name_with_nul :
  let name := String "t" (String "a" (String "l" (String zero "ker"))) in
  let gc :=
    cache (update_participant_entities
             (msg.mk_ParticipantEntitiesInfo (convert_gid_to_msg G1)
                [msg.mk_NodeEntitiesInfo "" name [] [convert_gid_to_msg W1]])
             talker_cache) in
  let '(ret, _, infos) :=
    get_writers_info_by_topic "/chatter" (fun t => t)
      rcutils_get_default_allocator [] gc in
  String.length name = 7
  /\ ret = RMW_RET_OK
  /\ map (fun info => (endpoint.node_name info, endpoint.node_namespace info)) infos
     = [(Some "tal", Some "")].
Proof. vm_compute. repeat split; reflexivity. Qed.

(** The three outcomes side by side: [W1] is listed by the node talker,
    [W2] belongs to the same participant and is listed by no node, and
    [gid_of x13] belongs to a participant the cache never saw. *)
Example endpoints_info_three_outcomes :
  let gc :=
    cache (add_writer (gid_of Byte.x13) "/chatter" "std/String"
             rosidl_get_zero_initialized_type_hash G2 QOS_R_V
             (cache (add_writer W2 "/chatter" "std/String"
                       rosidl_get_zero_initialized_type_hash G1 QOS_R_V
                       talker_cache))) in
  let '(ret, _, infos) :=
    get_writers_info_by_topic "/chatter" (fun t => t)
      rcutils_get_default_allocator [] gc in
  ret = RMW_RET_OK
  /\ map (fun info => (endpoint.node_name info, endpoint.node_namespace info)) infos
     = [(Some "talker", Some "");
        (Some "_NODE_NAME_UNKNOWN_", Some "_NODE_NAMESPACE_UNKNOWN_");
        (Some "_CREATED_BY_BARE_DDS_APP_", Some "_CREATED_BY_BARE_DDS_APP_")].
Proof. vm_compute. split; reflexivity. Qed.

(** ** Names and types of a node *)

Lemma set_insert_In (x y : string) (s : list string) :
  In y (set_insert x s) <-> y = x \/ In y s.
Proof.
  induction s as [| a s IH]; simpl.
  - split; [intros [H | []]; left; congruence | intros [H | []]; left; congruence].
  - destruct (x <? a)%string eqn:L1; simpl.
    + split; [intros [H | H]; [left; congruence | right; exact H]
             | intros [H | H]; [left; congruence | right; exact H]].
    + destruct (a <? x)%string eqn:L2; simpl.
      * rewrite IH. tauto.
      * assert (E : x = a).
        { apply string_ltb_equivalent. unfold equivalent. rewrite L1, L2. reflexivity. }
        subst a. split; [intros H; right; exact H |].
        intros [H | H]; [left; congruence | exact H].
Qed.

Section StdMapEntries.
Variables K V : Type.
Variable less : K -> K -> bool.

Lemma In_map_insert (k : K) (v : V) (m : std_map K V) (e : K * V) :
  In e (map_insert less k v m) <-> e = (k, v) \/ In e m.
Proof.
  induction m as [| [k' v'] m IH]; simpl.
  - split; [intros [H | []]; left; congruence | intros [H | []]; left; congruence].
  - destruct (less k k'); simpl.
    + split; [intros [H | H]; [left; congruence | right; exact H]
             | intros [H | H]; [left; congruence | right; exact H]].
    + rewrite IH. tauto.
Qed.

Lemma In_map_update (k : K) (f : V -> V) (m : std_map K V) (k' : K) (v' : V) :
  In (k', v') (map_update less k f m) ->
  In (k', v') m
  \/ (equivalent less k k' = true /\ exists v0, In (k', v0) m /\ v' = f v0).
Proof.
  induction m as [| [k0 v0] m IH]; simpl; [tauto |].
  destruct (equivalent less k k0) eqn:E; simpl.
  - intros [H | H]; [| left; right; exact H].
    inversion H; subst. right. split; [exact E |]. exists v0. auto.
  - intros [H | H]; [left; left; exact H |].
    destruct (IH H) as [H1 | (H1 & v1 & H2 & H3)]; [left; right; exact H1 |].
    right. split; [exact H1 |]. exists v1. auto.
Qed.

Lemma map_update_keeps (k : K) (f : V -> V) (m : std_map K V) (k' : K) (v : V) :
  In (k', v) m ->
  exists v', In (k', v') (map_update less k f m) /\ (v' = v \/ v' = f v).
Proof.
  induction m as [| [k0 v0] m IH]; simpl; [tauto |].
  destruct (equivalent less k k0) eqn:E; simpl.
  - intros [H | H].
    + inversion H; subst. exists (f v). auto.
    + exists v. auto.
  - intros [H | H].
    + exists v. auto.
    + destruct (IH H) as (v' & H1 & H2). exists v'. auto.
Qed.

Lemma map_update_hits (k : K) (f : V -> V) (m : std_map K V) (v : V) :
  map_find less k m = Some v ->
  exists k', equivalent less k k' = true /\ In (k', f v) (map_update less k f m).
Proof.
  induction m as [| [k0 v0] m IH]; simpl; [discriminate |].
  destruct (equivalent less k k0) eqn:E; simpl.
  - intros H. inversion H; subst. exists k0. auto.
  - intros H. destruct (IH H) as (k' & H1 & H2). exists k'. auto.
Qed.

End StdMapEntries.

Lemma names_and_types_insert_listed (name type : string) (topics : NamesAndTypes)
    (topic y : string) :
  listed (names_and_types_insert name type topics) topic y
  <-> (topic = name /\ y = type) \/ listed topics topic y.
Proof.
  unfold names_and_types_insert, listed.
  destruct (map_find String.ltb name topics) as [v |] eqn:F; split.
  - intros (tys & H1 & H2). apply In_map_update in H1.
    destruct H1 as [H1 | (E & v0 & H1 & H3)]; [right; exists tys; auto |].
    apply string_ltb_equivalent in E. subst.
    apply set_insert_In in H2. destruct H2 as [H2 | H2]; [left; auto |].
    right. exists v0. auto.
  - intros [[-> ->] | (tys & H1 & H2)].
    + destruct (map_update_hits String.ltb name (set_insert type) topics F)
        as (k' & E & H).
      apply string_ltb_equivalent in E. subst k'.
      exists (set_insert type v). split; [exact H |]. apply set_insert_In. auto.
    + destruct (map_update_keeps String.ltb name (set_insert type) topics _ _ H1)
        as (v' & H3 & [-> | ->]).
      * exists tys. auto.
      * exists (set_insert type tys). split; [exact H3 |]. apply set_insert_In. auto.
  - intros (tys & H1 & H2). apply In_map_insert in H1.
    destruct H1 as [H1 | H1]; [| right; exists tys; auto].
    inversion H1; subst. destruct H2 as [H2 | []]. left. auto.
  - intros [[-> ->] | (tys & H1 & H2)].
    + exists [type]. split; [apply In_map_insert; auto | left; reflexivity].
    + exists tys. split; [apply In_map_insert; auto | exact H2].
Qed.

Lemma names_and_types_from_gids_listed (entities_map : EntityGidToInfo)
    (dt dty : string -> string) (gids : GidSeq) :
  forall (topics : NamesAndTypes) (topic y : string),
    listed (fold_left (names_and_types_from_gid entities_map dt dty) gids topics) topic y
    <-> listed topics topic y \/ from_gid_list entities_map dt dty gids topic y.
Proof.
  induction gids as [| gid gids IH]; simpl; intros topics topic y.
  - split; [auto |]. intros [H | (g & i & [] & _)]. exact H.
  - rewrite IH. unfold names_and_types_from_gid at 1.
    destruct (find_gid (convert_msg_to_gid gid) entities_map) as [info |] eqn:F.
    + cbv zeta. destruct (dt (topic_name info) =? "")%string eqn:Z.
      * apply String.eqb_eq in Z. split.
        -- intros [H | (g & i & H1 & H2)]; [auto |]. right. exists g, i. simpl. tauto.
        -- intros [H | (g & i & [H1 | H1] & H2 & H3 & H4 & H5)]; [auto | |].
           ++ subst g. rewrite F in H2. inversion H2; subst i. congruence.
           ++ right. exists g, i. auto.
      * apply String.eqb_neq in Z. rewrite names_and_types_insert_listed. split.
        -- intros [[[-> ->] | H] | (g & i & H1 & H2)]; [| auto |].
           ++ right. exists gid, info. simpl. auto.
           ++ right. exists g, i. simpl. tauto.
        -- intros [H | (g & i & [H1 | H1] & H2 & H3 & H4 & H5)]; [auto | |].
           ++ subst g. rewrite F in H2. inversion H2; subst i. left. left. auto.
           ++ right. exists g, i. auto.
    + split.
      * intros [H | (g & i & H1 & H2)]; [auto |]. right. exists g, i. simpl. tauto.
      * intros [H | (g & i & [H1 | H1] & H2 & H3)]; [auto | |].
        -- subst g. rewrite F in H2. discriminate.
        -- right. exists g, i. auto.
Qed.

Lemma seq_leaves (S A B : Type) (c : stmt S A) (k : A -> stmt S B) (s s'' : S)
    (r : rmw_ret_t) :
  seq c k s = (Leave r, s'') ->
  c s = (Leave r, s'') \/ exists a s', c s = (Next a, s') /\ k a s' = (Leave r, s'').
Proof.
  unfold seq. destruct (c s) as [[a | r'] s']; intros H.
  - right. exists a, s'. auto.
  - left. inversion H. reflexivity.
Qed.

Lemma strdup_leaves (text : string) (a a' : rcutils_allocator_t) (r : rmw_ret_t) :
  strdup_or_return text a = (Leave r, a') -> r = RMW_RET_BAD_ALLOC.
Proof.
  intros H. apply seq_leaves in H. destruct H as [H | (u & s' & _ & H)].
  - eapply allocate_leaves. exact H.
  - discriminate H.
Qed.

Lemma copy_strings_next (l : list string) :
  forall a a' copies, copy_strings l a = (Next copies, a') -> copies = map c_str l.
Proof.
  induction l as [| x l IH]; simpl; intros a a' copies H.
  - inversion H. reflexivity.
  - apply seq_next in H. destruct H as (y & s1 & H1 & H).
    apply seq_next in H. destruct H as (ys & s2 & H2 & H).
    apply strdup_next in H1. apply IH in H2. inversion H.
    rewrite c_str_idempotent in H1. congruence.
Qed.

Lemma copy_strings_leaves (l : list string) :
  forall a a' r, copy_strings l a = (Leave r, a') -> r = RMW_RET_BAD_ALLOC.
Proof.
  induction l as [| x l IH]; simpl; intros a a' r H; [discriminate |].
  apply seq_leaves in H. destruct H as [H | (y & s1 & _ & H)];
    [eapply strdup_leaves; exact H |].
  apply seq_leaves in H. destruct H as [H | (ys & s2 & _ & H)]; [eauto | discriminate].
Qed.

Lemma copy_strings_unlimited (l : list string) (a : rcutils_allocator_t) :
  requests a = [] -> copy_strings l a = (Next (map c_str l), a).
Proof.
  intros R. induction l as [| x l IH]; simpl; [reflexivity |].
  unfold seq. rewrite (strdup_unlimited (c_str x) a R), IH, c_str_idempotent.
  reflexivity.
Qed.

Lemma populate_items_next (topics : NamesAndTypes) :
  forall a a' items,
    populate_items topics a = (Next items, a') -> items = c_items topics.
Proof.
  induction topics as [| [name tys] topics IH]; simpl; intros a a' items H.
  - inversion H. reflexivity.
  - apply seq_next in H. destruct H as (n & s1 & H1 & H).
    apply seq_next in H. destruct H as (u & s2 & H2 & H).
    apply seq_next in H. destruct H as (ts & s3 & H3 & H).
    apply seq_next in H. destruct H as (is_ & s4 & H4 & H).
    apply strdup_next in H1. apply copy_strings_next in H3. apply IH in H4.
    inversion H. rewrite c_str_idempotent in H1. subst. reflexivity.
Qed.

Lemma populate_items_leaves (topics : NamesAndTypes) :
  forall a a' r, populate_items topics a = (Leave r, a') -> r = RMW_RET_BAD_ALLOC.
Proof.
  induction topics as [| [name tys] topics IH]; simpl; intros a a' r H; [discriminate |].
  apply seq_leaves in H. destruct H as [H | (n & s1 & _ & H)];
    [eapply strdup_leaves; exact H |].
  apply seq_leaves in H. destruct H as [H | (u & s2 & _ & H)];
    [eapply allocate_leaves; exact H |].
  apply seq_leaves in H. destruct H as [H | (ts & s3 & _ & H)];
    [eapply copy_strings_leaves; exact H |].
  apply seq_leaves in H. destruct H as [H | (is_ & s4 & _ & H)]; [eauto | discriminate].
Qed.

Lemma populate_items_unlimited (topics : NamesAndTypes) (a : rcutils_allocator_t) :
  requests a = [] -> populate_items topics a = (Next (c_items topics), a).
Proof.
  intros R. induction topics as [| [name tys] topics IH]; simpl; [reflexivity |].
  unfold seq.
  rewrite (strdup_unlimited (c_str name) a R), (allocate_unlimited a R),
    (copy_strings_unlimited tys a R), IH, c_str_idempotent.
  reflexivity.
Qed.

Lemma listed_c_items (topics : list (string * list string)) (topic type : string) :
  listed (c_items topics) topic type
  <-> exists t ty, listed topics t ty /\ c_str t = topic /\ c_str ty = type.
Proof.
  unfold listed, c_items. split.
  - intros (tys & H1 & H2). apply in_map_iff in H1. destruct H1 as ([t l] & E & H1).
    simpl in E. inversion E; subst. apply in_map_iff in H2. destruct H2 as (ty & E2 & H2).
    exists t, ty. split; [exists l; auto | auto].
  - intros (t & ty & (l & H1 & H2) & <- & <-). exists (map c_str l). split.
    + apply in_map_iff. exists (t, l). auto.
    + apply in_map. exact H2.
Qed.

Lemma combine_fst_snd (A B : Type) (l : list (A * B)) :
  combine (map fst l) (map snd l) = l.
Proof. induction l as [| [x y] l IH]; simpl; congruence. Qed.

(** What [__populate_rmw_names_and_types] leaves in a zero-initialised
    structure. *)
Lemma populate_rmw_names_and_types_result (topics : NamesAndTypes)
    (a a' : rcutils_allocator_t) (out' : rmw_names_and_types_t) (ret : rmw_ret_t) :
  __populate_rmw_names_and_types topics a rmw_get_zero_initialized_names_and_types
  = (ret, a', out') ->
  (ret = RMW_RET_OK \/ ret = RMW_RET_BAD_ALLOC)
  /\ (requests a = [] -> ret = RMW_RET_OK)
  /\ (ret = RMW_RET_OK -> entries out' = c_items topics)
  /\ (ret <> RMW_RET_OK -> out' = rmw_get_zero_initialized_names_and_types).
Proof.
  unfold __populate_rmw_names_and_types.
  destruct topics as [| item topics].
  { intros H. inversion H; subst. repeat split; auto. }
  set (l := item :: topics).
  destruct (seq allocate_or_return (fun _ => allocate_or_return) a)
    as [[[] | r] a1] eqn:A.
  - destruct (populate_items l a1) as [[items | r] a2] eqn:P; intros H;
      inversion H; subst.
    + apply populate_items_next in P. subst items.
      split; [left; reflexivity |]. split; [reflexivity |].
      split; [intros _; apply combine_fst_snd |]. intros N. contradiction N. reflexivity.
    + assert (B := P). apply populate_items_leaves in B. subst ret.
      split; [right; reflexivity |]. split; [| split; [discriminate | reflexivity]].
      intros R. unfold seq in A. rewrite !(allocate_unlimited a R) in A.
      inversion A; subst a1. rewrite (populate_items_unlimited l a R) in P. discriminate P.
  - intros H. inversion H; subst.
    assert (B : ret = RMW_RET_BAD_ALLOC).
    { apply seq_leaves in A. destruct A as [A | (u & s1 & _ & A)];
        eapply allocate_leaves; exact A. }
    subst ret.
    split; [right; reflexivity |]. split; [| split; [discriminate | reflexivity]].
    intros R. unfold seq in A. rewrite !(allocate_unlimited a R) in A. discriminate A.
Qed.

Lemma find_node_none (pm : ParticipantToNodesMap) (name namespace_ : string) :
  __find_node pm name namespace_ = None
  <-> (forall participant node,
         In participant pm -> In node (node_entities_info_seq (snd participant)) ->
         node_matches name namespace_ node = false).
Proof.
  induction pm as [| p pm IH]; simpl.
  - split; [intros _ ? ? [] | reflexivity].
  - destruct (find (node_matches name namespace_) (node_entities_info_seq (snd p)))
      as [node |] eqn:F.
    + split; [discriminate |]. intros H. apply find_some in F. destruct F as [F1 F2].
      rewrite (H p node (or_introl eq_refl) F1) in F2. discriminate.
    + rewrite IH. split.
      * intros H q node [<- | Hq] Hn; [exact (find_none _ _ F node Hn) | eauto].
      * intros H q node Hq Hn. apply (H q node); auto.
Qed.

Lemma find_node_some (pm : ParticipantToNodesMap) (name namespace_ : string)
    (node : msg.NodeEntitiesInfo) :
  __find_node pm name namespace_ = Some node ->
  node_matches name namespace_ node = true
  /\ exists participant,
       In participant pm /\ In node (node_entities_info_seq (snd participant)).
Proof.
  induction pm as [| p pm IH]; simpl; [discriminate |].
  destruct (find (node_matches name namespace_) (node_entities_info_seq (snd p)))
    as [n |] eqn:F.
  - intros H. inversion H; subst n. apply find_some in F. destruct F as [F1 F2].
    split; [exact F2 |]. exists p. auto.
  - intros H. destruct (IH H) as (H1 & q & H2 & H3). split; [exact H1 |]. exists q. auto.
Qed.

Lemma map_find_In (K V : Type) (less : K -> K -> bool) (k : K) (v : V) (m : std_map K V) :
  map_find less k m = Some v -> exists k', In (k', v) m.
Proof.
  induction m as [| [k0 v0] m IH]; simpl; [discriminate |].
  destruct (equivalent less k k0).
  - intros H. inversion H; subst. exists k0. left. reflexivity.
  - intros H. destruct (IH H) as (k' & I). exists k'. right. exact I.
Qed.

Lemma find_first (A : Type) (f : A -> bool) (l : list A) (x : A) :
  find f l = Some x ->
  exists before after,
    l = (before ++ x :: after)%list
    /\ (forall y, In y before -> f y = false)
    /\ f x = true.
Proof.
  induction l as [| y l IH]; simpl; [discriminate |].
  destruct (f y) eqn:F.
  - intros H. inversion H; subst y. exists [], l. repeat split; [intros ? [] | exact F].
  - intros H. destruct (IH H) as (before & after & -> & H1 & H2).
    exists (y :: before), after. split; [reflexivity |]. split; [| exact H2].
    intros z [<- | Hz]; [exact F | exact (H1 z Hz)].
Qed.

Lemma find_node_first (pm : ParticipantToNodesMap) (name namespace_ : string)
    (node : msg.NodeEntitiesInfo) :
  __find_node pm name namespace_ = Some node ->
  first_matching_node pm name namespace_ node.
Proof.
  unfold first_matching_node.
  induction pm as [| p pm IH]; simpl; [discriminate |].
  destruct (find (node_matches name namespace_) (node_entities_info_seq (snd p)))
    as [n |] eqn:F.
  - intros H. inversion H; subst n.
    destruct (find_first _ _ F) as (before & after & E & H1 & H2).
    exists [], p, pm, before, after. split; [reflexivity |].
    split; [intros ? ? [] |]. auto.
  - intros H.
    destruct (IH H) as (earlier & q & later & before & after & E & H1 & H2 & H3 & H4).
    exists (p :: earlier), q, later, before, after. rewrite E.
    split; [reflexivity |]. split; [| auto].
    intros other n [<- | Ho] Hn; [exact (find_none _ _ F n Hn) | exact (H1 other n Ho Hn)].
Qed.

(** C7.  With a valid allocator and a zero-initialised output,
    [get_writer_names_and_types_by_node] and
    [get_reader_names_and_types_by_node] called with a name and
    namespace that match no node of any participant return
    RMW_RET_NODE_NAME_NON_EXISTENT and hand the output back as it was,
    allocator included.  When some node of some participant matches, a
    node is found: the first that matches, in the order of the
    participants map and of the participant's list of nodes.  The call
    then returns RMW_RET_OK or RMW_RET_BAD_ALLOC (OK whenever the
    allocator serves every request); on OK the output is built only from
    the writer (respectively reader) gid list of the node found: a type
    is listed under a topic exactly when they are the C strings of the
    demangled type and of the non-empty demangled topic name of an
    endpoint of the writer (respectively reader) map whose gid is in
    that list, which for names that hold no NUL octet are the demangled
    type and topic name themselves; on failure the output is the zero
    structure. *)
Theorem names_and_types_by_node_result
    (is_reader : bool) (gc : GraphCache) (name namespace_ : string)
    (demangle_topic demangle_type : string -> string)
    (a : rcutils_allocator_t) (valid : is_valid a = true) :
  let query :=
    get_names_and_types_by_node is_reader name namespace_ demangle_topic demangle_type
      (Some a) (Some rmw_get_zero_initialized_names_and_types) gc in
  ((forall participant node,
      In participant (participants_ gc) ->
      In node (node_entities_info_seq (snd participant)) ->
      node_matches name namespace_ node = false) ->
   query = (RMW_RET_NODE_NAME_NON_EXISTENT, Some a,
            Some rmw_get_zero_initialized_names_and_types))
  /\ (forall participant node,
        In participant (participants_ gc) ->
        In node (node_entities_info_seq (snd participant)) ->
        node_matches name namespace_ node = true ->
        exists found ret a' out,
          first_matching_node (participants_ gc) name namespace_ found
          /\ query = (ret, Some a', Some out)
          /\ (ret = RMW_RET_OK \/ ret = RMW_RET_BAD_ALLOC)
          /\ (requests a = [] -> ret = RMW_RET_OK)
          /\ (ret = RMW_RET_OK ->
              forall topic type,
                listed (entries out) topic type
                <-> exists t ty,
                      from_gid_list (entities_of is_reader gc)
                        demangle_topic demangle_type (node_gids is_reader found) t ty
                      /\ c_str t = topic /\ c_str ty = type)
          /\ (ret = RMW_RET_OK ->
              (forall gid info,
                 In (gid, info) (entities_of is_reader gc) ->
                 free_of Byte.x00 (demangle_topic (topic_name info)) = true
                 /\ free_of Byte.x00 (demangle_type (topic_type info)) = true) ->
              forall topic type,
                listed (entries out) topic type
                <-> from_gid_list (entities_of is_reader gc)
                      demangle_topic demangle_type (node_gids is_reader found) topic type)
          /\ (ret <> RMW_RET_OK -> out = rmw_get_zero_initialized_names_and_types)).
Proof.
  cbv zeta.
  assert (Q : get_names_and_types_by_node is_reader name namespace_ demangle_topic
                demangle_type (Some a) (Some rmw_get_zero_initialized_names_and_types) gc
              = match __find_node (participants_ gc) name namespace_ with
                | None => (RMW_RET_NODE_NAME_NON_EXISTENT, Some a,
                           Some rmw_get_zero_initialized_names_and_types)
                | Some node =>
                  let '(ret, a', out') :=
                    __populate_rmw_names_and_types
                      (__get_names_and_types_from_gids (entities_of is_reader gc)
                         (node_gids is_reader node) demangle_topic demangle_type)
                      a rmw_get_zero_initialized_names_and_types in
                  (ret, Some a', Some out')
                end).
  { destruct is_reader;
      unfold get_names_and_types_by_node, get_reader_names_and_types_by_node,
        get_writer_names_and_types_by_node, __get_names_and_types_by_node;
      rewrite valid; reflexivity. }
  rewrite Q. clear Q. split.
  - intros H. apply find_node_none in H. rewrite H. reflexivity.
  - intros participant node Hp Hn M.
    destruct (__find_node (participants_ gc) name namespace_) as [found |] eqn:F.
    2: { rewrite find_node_none in F. rewrite (F participant node Hp Hn) in M.
         discriminate M. }
    destruct (__populate_rmw_names_and_types
                (__get_names_and_types_from_gids (entities_of is_reader gc)
                   (node_gids is_reader found) demangle_topic demangle_type)
                a rmw_get_zero_initialized_names_and_types)
      as [[ret a'] out'] eqn:R.
    exists found, ret, a', out'.
    split; [apply find_node_first; exact F |]. split; [reflexivity |].
    apply populate_rmw_names_and_types_result in R. destruct R as (R1 & R2 & R3 & R4).
    split; [exact R1 |]. split; [exact R2 |].
    assert (I : ret = RMW_RET_OK ->
                forall topic type,
                  listed (entries out') topic type
                  <-> exists t ty,
                        from_gid_list (entities_of is_reader gc)
                          demangle_topic demangle_type (node_gids is_reader found) t ty
                        /\ c_str t = topic /\ c_str ty = type).
    { intros O topic type. rewrite (R3 O), listed_c_items.
      unfold __get_names_and_types_from_gids. split.
      + intros (t & ty & L & E1 & E2). exists t, ty. split; [| auto].
        apply names_and_types_from_gids_listed in L.
        destruct L as [(tys & [] & _) | L]. exact L.
      + intros (t & ty & L & E1 & E2). exists t, ty. split; [| auto].
        apply names_and_types_from_gids_listed. right. exact L. }
    split; [exact I |]. split; [| exact R4].
    intros O Z topic type. rewrite (I O).
    assert (C : forall t ty,
              from_gid_list (entities_of is_reader gc) demangle_topic demangle_type
                (node_gids is_reader found) t ty ->
              c_str t = t /\ c_str ty = ty).
    { intros t ty (gid & info & _ & G & <- & _ & <-).
      apply map_find_In in G. destruct G as (k & G).
      destruct (Z k info G) as [Z1 Z2].
      split; apply c_str_without_nul; assumption. }
    split.
    + intros (t & ty & L & <- & <-). destruct (C t ty L) as [-> ->]. exact L.
    + intros L. exists topic, type. split; [exact L |]. exact (C topic type L).
Qed.

Lemma names_and_types_by_node_result_witness :
  is_valid rcutils_get_default_allocator = true
  /\ (get_names_and_types_by_node false "listener" "" (fun t => t) (fun t => t)
        (Some rcutils_get_default_allocator)
        (Some rmw_get_zero_initialized_names_and_types) talker_cache
      = (RMW_RET_NODE_NAME_NON_EXISTENT, Some rcutils_get_default_allocator,
         Some rmw_get_zero_initialized_names_and_types))
  /\ (exists found ret a' out,
        first_matching_node (participants_ talker_cache) "talker" "" found
        /\ get_names_and_types_by_node false "talker" "" (fun t => t) (fun t => t)
             (Some rcutils_get_default_allocator)
             (Some rmw_get_zero_initialized_names_and_types) talker_cache
           = (ret, Some a', Some out)
        /\ (ret = RMW_RET_OK \/ ret = RMW_RET_BAD_ALLOC)
        /\ (requests rcutils_get_default_allocator = [] -> ret = RMW_RET_OK)
        /\ (ret = RMW_RET_OK ->
            forall topic type,
              listed (entries out) topic type
              <-> exists t ty,
                    from_gid_list (entities_of false talker_cache)
                      (fun t => t) (fun t => t) (node_gids false found) t ty
                    /\ c_str t = topic /\ c_str ty = type)
        /\ (ret = RMW_RET_OK ->
            (forall gid info,
               In (gid, info) (entities_of false talker_cache) ->
               free_of Byte.x00 (topic_name info) = true
               /\ free_of Byte.x00 (topic_type info) = true) ->
            forall topic type,
              listed (entries out) topic type
              <-> from_gid_list (entities_of false talker_cache)
                    (fun t => t) (fun t => t) (node_gids false found) topic type)
        /\ (ret <> RMW_RET_OK -> out = rmw_get_zero_initialized_names_and_types)).
Proof.
  split; [reflexivity |]. split.
  - apply (proj1 (@names_and_types_by_node_result false talker_cache "listener" ""
                    (fun t => t) (fun t => t) rcutils_get_default_allocator eq_refl)).
    intros participant node Hp Hn.
    destruct Hp as [<- | []]. destruct Hn as [<- | []]. reflexivity.
  - apply (proj2 (@names_and_types_by_node_result false talker_cache "talker" ""
                    (fun t => t) (fun t => t) rcutils_get_default_allocator eq_refl)
             (G1, mk_ParticipantInfo
                    [msg.mk_NodeEntitiesInfo "" "talker" [] [convert_gid_to_msg W1]]
                    "encA")
             (msg.mk_NodeEntitiesInfo "" "talker" [] [convert_gid_to_msg W1])).
    + left. reflexivity.
    + left. reflexivity.
    + reflexivity.
Defined.

(** The node talker is known: its one writer is reported. *)
Example names_and_types_of_talker :
  get_writer_names_and_types_by_node "talker" "" (fun t => t) (fun t => t)
    (Some rcutils_get_default_allocator)
    (Some rmw_get_zero_initialized_names_and_types) talker_cache
  = (RMW_RET_OK, Some rcutils_get_default_allocator,
     Some {| names := ["/chatter"]; types := [["std/String"]] |}).
Proof. reflexivity. Qed.

(* ===================================================================== *)
(** * Part XI.  Properties of the type-hash codec                         *)
(* ===================================================================== *)

















(** User data with other keys around the hash, and without the key. *)
Example type_hash_among_other_keys :
  @parse_type_hash_from_user_data rihs01
    (Some (list_byte_of_string
             ("foo=bar;"
              ++ snd (@encode_type_hash_for_user_data_qos rihs01 sample_type_hash "")
              ++ "baz=qux;")))
    rosidl_get_zero_initialized_type_hash
  = (RMW_RET_OK, sample_type_hash)
  /\ @parse_type_hash_from_user_data rihs01
       (Some (list_byte_of_string "foo=bar;baz=qux;")) sample_type_hash
     = (RMW_RET_OK, rosidl_get_zero_initialized_type_hash).
Proof. split; vm_compute; reflexivity. Qed.

(* ===================================================================== *)
(** * Part XII.  Properties of the time clamp                             *)
(* ===================================================================== *)

Lemma uint64_sub_exact (a b : N) :
  (b <= a)%N -> (a < UINT64_MODULUS)%N -> uint64_sub a b = (a - b)%N.
Proof.
  intros Hb Ha. unfold uint64_sub.
  rewrite (N.mod_small a) by exact Ha.
  rewrite (N.mod_small b) by lia.
  replace (a + (UINT64_MODULUS - b))%N with ((a - b) + 1 * UINT64_MODULUS)%N by lia.
  rewrite N.Div0.mod_add. apply N.mod_small. lia.
Qed.

Lemma uint64_add_exact (a b : N) :
  (a + b < UINT64_MODULUS)%N -> uint64_add a b = (a + b)%N.
Proof. intros H. unfold uint64_add. apply N.mod_small. exact H. Qed.

Lemma uint64_mul_exact (a b : N) :
  (a * b < UINT64_MODULUS)%N -> uint64_mul a b = (a * b)%N.
Proof. intros H. unfold uint64_mul. apply N.mod_small. exact H. Qed.

Lemma int_max_below_modulus : (INT_MAX < UINT64_MODULUS)%N.
Proof. reflexivity. Qed.

(** The clamp by cases, without machine arithmetic. *)
Lemma clamp_rmw_time_to_dds_time_cases (t : rmw_time_t) :
  clamp_rmw_time_to_dds_time t
  = if (sec t + nsec t / 1000000000 <=? INT_MAX)%N
    then {| sec := sec t + nsec t / 1000000000; nsec := nsec t mod 1000000000 |}
    else {| sec := INT_MAX; nsec := 999999999 |}.
Proof.
  unfold clamp_rmw_time_to_dds_time. cbv zeta.
  pose proof int_max_below_modulus as M.
  assert (V : INT_MAX = 2147483647%N) by reflexivity.
  assert (U : UINT64_MODULUS = 18446744073709551616%N) by reflexivity.
  pose proof (N.div_mod (nsec t) 1000000000 ltac:(lia)) as D.
  pose proof (N.mod_lt (nsec t) 1000000000 ltac:(lia)) as R.
  set (q := (nsec t / 1000000000)%N) in *.
  set (r := (nsec t mod 1000000000)%N) in *.
  clearbody q r.
  assert (One : uint64_sub 1000000000 1 = 999999999%N) by reflexivity.
  destruct (INT_MAX <? q)%N eqn:Oq.
  - apply N.ltb_lt in Oq. simpl orb. cbv iota.
    rewrite One.
    destruct (sec t + q <=? INT_MAX)%N eqn:L; [apply N.leb_le in L; lia |].
    change (uint64_sub INT_MAX INT_MAX) with 0%N.
    destruct (0 <? sec t)%N eqn:Os; [reflexivity |].
    apply N.ltb_ge in Os. replace (sec t) with 0%N by lia. reflexivity.
  - apply N.ltb_ge in Oq.
    rewrite (uint64_sub_exact Oq M).
    destruct (INT_MAX - q <? sec t)%N eqn:Os.
    + apply N.ltb_lt in Os. simpl orb. cbv iota. rewrite One.
      destruct (sec t + q <=? INT_MAX)%N eqn:L; [apply N.leb_le in L; lia |].
      reflexivity.
    + apply N.ltb_ge in Os. simpl orb. cbv iota.
      destruct (sec t + q <=? INT_MAX)%N eqn:L; [| apply N.leb_gt in L; lia].
      apply N.leb_le in L.
      rewrite uint64_add_exact by lia.
      rewrite uint64_mul_exact by lia.
      rewrite uint64_sub_exact by lia.
      f_equal. lia.
Qed.

Lemma total_nanoseconds_split (t : rmw_time_t) :
  total_nanoseconds t
  = ((sec t + nsec t / 1000000000) * 1000000000 + nsec t mod 1000000000)%N.
Proof.
  unfold total_nanoseconds.
  pose proof (N.div_mod (nsec t) 1000000000 ltac:(lia)) as D. lia.
Qed.

Lemma clamp_total (t : rmw_time_t) :
  total_nanoseconds (clamp_rmw_time_to_dds_time t)
  = N.min (total_nanoseconds t) (total_nanoseconds dds_time_max).
Proof.
  rewrite clamp_rmw_time_to_dds_time_cases, (total_nanoseconds_split t).
  pose proof (N.mod_lt (nsec t) 1000000000 ltac:(lia)) as R.
  set (q := (sec t + nsec t / 1000000000)%N) in *.
  set (r := (nsec t mod 1000000000)%N) in *. clearbody q r.
  assert (V : INT_MAX = 2147483647%N) by reflexivity.
  assert (C : total_nanoseconds dds_time_max = 2147483647999999999%N) by reflexivity.
  rewrite C.
  destruct (q <=? INT_MAX)%N eqn:L.
  - apply N.leb_le in L. unfold total_nanoseconds; simpl. lia.
  - apply N.leb_gt in L.
    change (total_nanoseconds {| sec := INT_MAX; nsec := 999999999 |})
      with 2147483647999999999%N.
    lia.
Qed.

(** X1.  Whatever the two 64-bit fields hold, the result of
    [clamp_rmw_time_to_dds_time] fits the DDS representation: its
    seconds are at most [INT_MAX] and its nanoseconds below 10^9. *)
Theorem clamp_rmw_time_in_dds_range (t : rmw_time_t) :
  (sec (clamp_rmw_time_to_dds_time t) <= INT_MAX)%N
  /\ (nsec (clamp_rmw_time_to_dds_time t) < 1000000000)%N.
Proof.
  rewrite clamp_rmw_time_to_dds_time_cases.
  destruct (sec t + nsec t / 1000000000 <=? INT_MAX)%N eqn:L; simpl.
  - apply N.leb_le in L. split; [exact L |]. apply N.mod_lt. lia.
  - split; [apply N.le_refl | reflexivity].
Qed.

(** X2.  [clamp_rmw_time_to_dds_time] keeps the length of a duration
    that DDS can represent and cuts a longer one to the longest DDS
    duration: in nanoseconds the result is the minimum of the input and
    of [INT_MAX] s + (10^9 - 1) ns; and it saturates to exactly that
    value when the seconds, after carrying whole seconds out of the
    nanoseconds, exceed [INT_MAX]. *)
Theorem clamp_rmw_time_is_minimum (t : rmw_time_t) :
  total_nanoseconds (clamp_rmw_time_to_dds_time t)
  = N.min (total_nanoseconds t) (total_nanoseconds dds_time_max)
  /\ ((INT_MAX < sec t + nsec t / 1000000000)%N <->
      (total_nanoseconds dds_time_max < total_nanoseconds t)%N)
  /\ ((INT_MAX < sec t + nsec t / 1000000000)%N ->
      clamp_rmw_time_to_dds_time t = dds_time_max).
Proof.
  rewrite clamp_rmw_time_to_dds_time_cases, (total_nanoseconds_split t).
  pose proof (N.mod_lt (nsec t) 1000000000 ltac:(lia)) as R.
  set (q := (sec t + nsec t / 1000000000)%N) in *.
  set (r := (nsec t mod 1000000000)%N) in *. clearbody q r.
  assert (V : INT_MAX = 2147483647%N) by reflexivity.
  assert (C : total_nanoseconds dds_time_max = 2147483647999999999%N) by reflexivity.
  rewrite C.
  destruct (q <=? INT_MAX)%N eqn:L.
  - apply N.leb_le in L. unfold total_nanoseconds; simpl. repeat split; lia.
  - apply N.leb_gt in L.
    change (total_nanoseconds {| sec := INT_MAX; nsec := 999999999 |})
      with 2147483647999999999%N.
    split; [lia |]. split; [split; lia | intros _; reflexivity].
Qed.

(** X3.  [clamp_rmw_time_to_dds_time] is the identity on a duration
    already in DDS form (seconds at most [INT_MAX], nanoseconds below
    10^9); hence clamping twice is clamping once. *)
Theorem clamp_rmw_time_idempotent (t : rmw_time_t) :
  ((sec t <= INT_MAX)%N -> (nsec t < 1000000000)%N -> clamp_rmw_time_to_dds_time t = t)
  /\ clamp_rmw_time_to_dds_time (clamp_rmw_time_to_dds_time t)
     = clamp_rmw_time_to_dds_time t.
Proof.
  assert (I : forall u, (sec u <= INT_MAX)%N -> (nsec u < 1000000000)%N ->
                        clamp_rmw_time_to_dds_time u = u).
  { intros u Hs Hn. rewrite clamp_rmw_time_to_dds_time_cases.
    rewrite (N.div_small _ _ Hn), (N.mod_small _ _ Hn), N.add_0_r.
    apply N.leb_le in Hs. rewrite Hs. destruct u; reflexivity. }
  split; [apply I |].
  rewrite (clamp_rmw_time_to_dds_time_cases t).
  destruct (sec t + nsec t / 1000000000 <=? INT_MAX)%N eqn:L.
  - apply N.leb_le in L. apply I; simpl; [exact L | apply N.mod_lt; lia].
  - apply I; simpl; [apply N.le_refl | reflexivity].
Qed.

(** X4.  [clamp_rmw_time_to_dds_time] never lengthens a duration and
    keeps the order of durations: of two inputs, the longer one (in
    nanoseconds) never comes out shorter. *)
Theorem clamp_rmw_time_monotone (t1 t2 : rmw_time_t)
    (ordered : (total_nanoseconds t1 <= total_nanoseconds t2)%N) :
  (total_nanoseconds (clamp_rmw_time_to_dds_time t1)
   <= total_nanoseconds (clamp_rmw_time_to_dds_time t2))%N
  /\ (total_nanoseconds (clamp_rmw_time_to_dds_time t1) <= total_nanoseconds t1)%N.
Proof.
  rewrite (clamp_total t1), (clamp_total t2). lia.
Qed.

Lemma clamp_rmw_time_monotone_witness :
  (total_nanoseconds {| sec := 1; nsec := 5000000000 |}
   <= total_nanoseconds {| sec := 4294967296; nsec := 0 |})%N
  /\ clamp_rmw_time_to_dds_time {| sec := 1; nsec := 5000000000 |}
     = {| sec := 6; nsec := 0 |}
  /\ clamp_rmw_time_to_dds_time {| sec := 4294967296; nsec := 0 |} = dds_time_max
  /\ (total_nanoseconds (clamp_rmw_time_to_dds_time {| sec := 1; nsec := 5000000000 |})
      <= total_nanoseconds
           (clamp_rmw_time_to_dds_time {| sec := 4294967296; nsec := 0 |}))%N.
Proof.
  split; [vm_compute; discriminate |].
  split; [reflexivity |]. split; [reflexivity |].
  apply (clamp_rmw_time_monotone {| sec := 1; nsec := 5000000000 |}
           {| sec := 4294967296; nsec := 0 |}).
  vm_compute. discriminate.
Defined.

(* ===================================================================== *)
(** * Part XIII.  Properties of the security files                        *)
(* ===================================================================== *)

Lemma unordered_find_assign_same (key value : string) (m : unordered_map) :
  unordered_find key (unordered_assign key value m) = Some value.
Proof.
  induction m as [| [k v] m IH]; simpl.
  - rewrite String.eqb_refl. reflexivity.
  - destruct (k =? key)%string eqn:E; simpl; rewrite E; [reflexivity | exact IH].
Qed.

Lemma unordered_find_assign_other (key key' value : string) (m : unordered_map) :
  key' <> key ->
  unordered_find key' (unordered_assign key value m) = unordered_find key' m.
Proof.
  intros N. induction m as [| [k v] m IH]; simpl.
  - destruct (key =? key')%string eqn:E; [| reflexivity].
    apply String.eqb_eq in E. congruence.
  - destruct (k =? key)%string eqn:E; simpl.
    + apply String.eqb_eq in E. subst k.
      destruct (key =? key')%string eqn:E'; [| reflexivity].
      apply String.eqb_eq in E'. congruence.
    + destruct (k =? key')%string; [reflexivity | exact IH].
Qed.

Section SecurityFacts.
Context {F : rcpputils_fs}.
Variables prefix secure_root : string.

(** The entry [get_security_files] stores for a file name. *)
Let stored (file : string) : string := prefix ++ path_append secure_root file.

Let present (el : string * string) : bool :=
  is_regular_file (path_append secure_root (snd el)).

Let assign_all (files : list (string * string)) (result : unordered_map) : unordered_map :=
  fold_left (fun r el => unordered_assign (fst el) (stored (snd el)) r) files result.

Lemma required_loop_result (files : list (string * string)) :
  forall result,
    required_loop prefix secure_root files result
    = if forallb present files then (true, assign_all files result) else (false, []).
Proof.
  induction files as [| el rest IH]; simpl; intros result; [reflexivity |].
  unfold present at 1. destruct (is_regular_file _); simpl; [apply IH | reflexivity].
Qed.

Lemma assign_all_other (files : list (string * string)) (key : string) :
  ~ In key (map fst files) ->
  forall result, unordered_find key (assign_all files result) = unordered_find key result.
Proof.
  induction files as [| el rest IH]; simpl; intros N result; [reflexivity |].
  unfold assign_all in *. simpl. rewrite IH by tauto.
  apply unordered_find_assign_other. intros E. apply N. left. congruence.
Qed.

Lemma assign_all_stored (files : list (string * string)) (key file : string) :
  NoDup (map fst files) -> In (key, file) files ->
  forall result, unordered_find key (assign_all files result) = Some (stored file).
Proof.
  induction files as [| el rest IH]; simpl; intros D H result; [contradiction |].
  inversion D as [| k ks Hk Hks]; subst.
  unfold assign_all in *. simpl. destruct H as [-> | H].
  - simpl. rewrite (assign_all_other rest key Hk).
    apply unordered_find_assign_same.
  - apply IH; assumption.
Qed.

Lemma optional_loop_other (files : list (string * string)) (key : string) :
  ~ In key (map fst files) ->
  forall result,
    unordered_find key (optional_loop prefix secure_root files result)
    = unordered_find key result.
Proof.
  induction files as [| el rest IH]; simpl; intros N result; [reflexivity |].
  destruct (is_regular_file _); rewrite IH by tauto; [| reflexivity].
  apply unordered_find_assign_other. intros E. apply N. left. congruence.
Qed.

Lemma optional_loop_stored (files : list (string * string)) (key file : string) :
  NoDup (map fst files) -> In (key, file) files ->
  forall result,
    unordered_find key (optional_loop prefix secure_root files result)
    = if is_regular_file (path_append secure_root file) then Some (stored file)
      else unordered_find key result.
Proof.
  induction files as [| el rest IH]; simpl; intros D H result; [contradiction |].
  inversion D as [| k ks Hk Hks]; subst.
  destruct H as [-> | H].
  - simpl in *.
    destruct (is_regular_file _); rewrite (optional_loop_other rest key Hk);
      [apply unordered_find_assign_same | reflexivity].
  - destruct (is_regular_file (path_append secure_root (snd el))) eqn:Eel;
      rewrite (IH Hks H); [| reflexivity].
    destruct (is_regular_file (path_append secure_root file)); [reflexivity |].
    apply unordered_find_assign_other. intros E. apply Hk.
    rewrite <- E. change key with (fst (key, file)). apply in_map. exact H.
Qed.

Lemma required_names_distinct : NoDup (map fst required_files).
Proof.
  simpl. repeat constructor; simpl; intuition discriminate.
Qed.

Lemma optional_names_distinct : NoDup (map fst optional_files).
Proof. simpl. repeat constructor; simpl; intuition discriminate. Qed.

Lemma permuted_names_distinct (l l' : list (string * string)) :
  Permutation l' l -> NoDup (map fst l) -> NoDup (map fst l').
Proof.
  intros P D. eapply Permutation_NoDup; [| exact D].
  apply Permutation_map, Permutation_sym, P.
Qed.

Lemma permuted_forallb (l l' : list (string * string)) (p : string * string -> bool) :
  Permutation l' l -> forallb p l' = forallb p l.
Proof.
  intros P. destruct (forallb p l) eqn:E.
  - rewrite forallb_forall in *. intros x H. apply E. eapply Permutation_in; eassumption.
  - destruct (forallb p l') eqn:E'; [| reflexivity].
    rewrite <- E. symmetry. rewrite forallb_forall in *. intros x H. apply E'.
    eapply Permutation_in; [apply Permutation_sym |]; eassumption.
Qed.

(** The outcome of [get_security_files], whatever the traversal orders. *)
Lemma get_security_files_outcome
    (required_order optional_order : list (string * string)) (result : unordered_map) :
  Permutation required_order required_files ->
  Permutation optional_order optional_files ->
  let out := get_security_files prefix secure_root required_order optional_order result in
  (fst out = true <-> forall name file, In (name, file) required_files ->
                        is_regular_file (path_append secure_root file) = true)
  /\ (fst out = false -> snd out = [])
  /\ (fst out = true ->
      (forall name file, In (name, file) required_files ->
         unordered_find name (snd out) = Some (stored file))
      /\ (forall name file, In (name, file) optional_files ->
            unordered_find name (snd out)
            = if is_regular_file (path_append secure_root file) then Some (stored file)
              else unordered_find name result)
      /\ (forall key, ~ In key (map fst required_files) ->
                      ~ In key (map fst optional_files) ->
                      unordered_find key (snd out) = unordered_find key result)).
Proof.
  intros PR PO. cbv zeta. unfold get_security_files.
  rewrite required_loop_result, (permuted_forallb present PR).
  assert (A : forallb present required_files = true
              <-> forall name file, In (name, file) required_files ->
                    is_regular_file (path_append secure_root file) = true).
  { rewrite forallb_forall. split.
    - intros H name file I. apply (H (name, file) I).
    - intros H [name file] I. apply (H name file I). }
  pose proof (permuted_names_distinct PR required_names_distinct) as DR.
  pose proof (permuted_names_distinct PO optional_names_distinct) as DO.
  assert (KR : forall key, In key (map fst required_order)
                           <-> In key (map fst required_files)).
  { intros key. split; apply Permutation_in; [| apply Permutation_sym];
      apply Permutation_map; exact PR. }
  assert (KO : forall key, In key (map fst optional_order)
                           <-> In key (map fst optional_files)).
  { intros key. split; apply Permutation_in; [| apply Permutation_sym];
      apply Permutation_map; exact PO. }
  destruct (forallb present required_files); cbn [fst snd].
  - split; [split; [intros _; apply A; reflexivity | reflexivity] |].
    split; [discriminate |]. intros _. split; [| split].
    + intros name file I.
      rewrite optional_loop_other.
      * apply assign_all_stored; [exact DR |].
        eapply Permutation_in; [apply Permutation_sym, PR | exact I].
      * rewrite KO. intros O. revert I O. clear. simpl. intuition congruence.
    + intros name file I.
      rewrite (optional_loop_stored optional_order name file DO).
      * rewrite assign_all_other; [reflexivity |].
        rewrite KR. revert I. clear. simpl. intuition congruence.
      * eapply Permutation_in; [apply Permutation_sym, PO | exact I].
    + intros key NR NO.
      rewrite optional_loop_other by (rewrite KO; exact NO).
      apply assign_all_other. rewrite KR. exact NR.
  - split; [split; [discriminate | intros H; exact (proj2 A H)] |].
    split; [reflexivity | discriminate].
Qed.

End SecurityFacts.

(** X5.  [get_security_files] is all or nothing on the required files,
    in whatever order the two unordered maps are traversed: it returns
    true exactly when each of the six required files is a regular file
    under the secure root, and when it returns false the result map is
    empty, whatever it held on entry. *)
Theorem get_security_files_all_or_nothing
    (F : rcpputils_fs) (prefix secure_root : string)
    (required_order optional_order : list (string * string)) (result : unordered_map)
    (required_permuted : Permutation required_order required_files)
    (optional_permuted : Permutation optional_order optional_files) :
  let out := get_security_files prefix secure_root required_order optional_order result in
  (fst out = true <-> forall name file, In (name, file) required_files ->
                        is_regular_file (path_append secure_root file) = true)
  /\ (fst out = false -> snd out = []).
Proof.
  destruct (get_security_files_outcome prefix secure_root result
              required_permuted optional_permuted) as (H1 & H2 & _).
  split; assumption.
Qed.

Lemma get_security_files_all_or_nothing_witness :
  Permutation (rev required_files) required_files
  /\ fst (@get_security_files sample_fs "file:" "/enclave" (rev required_files)
            optional_files [("STALE", "x")]) = true.
Proof.
  split; [apply Permutation_sym, Permutation_rev |].
  apply (proj1 (@get_security_files_all_or_nothing sample_fs "file:" "/enclave"
                  (rev required_files) optional_files [("STALE", "x")]
                  (Permutation_sym (Permutation_rev required_files))
                  (Permutation_refl optional_files))).
  intros name file H. simpl in H.
  repeat (destruct H as [H | H]; [inversion H; reflexivity |]). contradiction.
Defined.

(** X6.  When [get_security_files] returns true, the result map binds
    each of the six friendly names to the prefix followed by the path of
    its file under the secure root; it binds CRL likewise if crl.pem is
    a regular file and otherwise leaves CRL as the caller's map had it;
    and every other key keeps the binding the caller's map had: a
    successful call does not clear the map. *)
Theorem get_security_files_bindings
    (F : rcpputils_fs) (prefix secure_root : string)
    (required_order optional_order : list (string * string)) (result : unordered_map)
    (required_permuted : Permutation required_order required_files)
    (optional_permuted : Permutation optional_order optional_files) :
  let out := get_security_files prefix secure_root required_order optional_order result in
  fst out = true ->
  (forall name file, In (name, file) required_files ->
     unordered_find name (snd out) = Some (prefix ++ path_append secure_root file))
  /\ (unordered_find "CRL" (snd out)
      = if is_regular_file (path_append secure_root "crl.pem")
        then Some (prefix ++ path_append secure_root "crl.pem")
        else unordered_find "CRL" result)
  /\ (forall key, ~ In key (map fst required_files) -> key <> "CRL" ->
                  unordered_find key (snd out) = unordered_find key result).
Proof.
  destruct (get_security_files_outcome prefix secure_root result
              required_permuted optional_permuted) as (_ & _ & H).
  cbv zeta in *. intros T. destruct (H T) as (H1 & H2 & H3).
  split; [exact H1 |]. split.
  - apply (H2 "CRL" "crl.pem"). left. reflexivity.
  - intros key NR NC. apply H3; [exact NR |]. simpl. intuition congruence.
Qed.

Lemma get_security_files_bindings_witness :
  let out := @get_security_files sample_fs "file:" "/enclave" required_files
               optional_files [("STALE", "x")] in
  fst out = true
  /\ unordered_find "PRIVATE_KEY" (snd out) = Some "file:/enclave/key.pem"
  /\ unordered_find "CRL" (snd out) = None
  /\ unordered_find "STALE" (snd out) = Some "x".
Proof.
  cbv zeta.
  pose proof (@get_security_files_bindings sample_fs "file:" "/enclave" required_files
                optional_files [("STALE", "x")]
                (Permutation_refl required_files) (Permutation_refl optional_files)
                eq_refl) as (H1 & H2 & H3).
  split; [reflexivity |]. split; [| split].
  - apply (H1 "PRIVATE_KEY" "key.pem"). simpl. tauto.
  - exact H2.
  - apply H3; [simpl; intuition discriminate | discriminate].
Defined.

(* ===================================================================== *)
(** * Part XIV.  The order of the maps of the graph cache                 *)
(* ===================================================================== *)

Lemma lexicographical_compare_trans (a : list Byte.byte) :
  forall b c,
    lexicographical_compare a b = true -> lexicographical_compare b c = true ->
    lexicographical_compare a c = true.
Proof.
  induction a as [| x a IH]; intros [| y b] [| z c]; simpl; try discriminate; auto.
  destruct (N.ltb_spec (Byte.to_N x) (Byte.to_N y)),
           (N.ltb_spec (Byte.to_N y) (Byte.to_N x)),
           (N.ltb_spec (Byte.to_N y) (Byte.to_N z)),
           (N.ltb_spec (Byte.to_N z) (Byte.to_N y)),
           (N.ltb_spec (Byte.to_N x) (Byte.to_N z)),
           (N.ltb_spec (Byte.to_N z) (Byte.to_N x));
    try discriminate; try reflexivity; try lia; intros; try lia.
  eapply IH; eassumption.
Qed.

Lemma Compare_rmw_gid_t_trans (a b c : rmw_gid_t) :
  Compare_rmw_gid_t a b = true -> Compare_rmw_gid_t b c = true ->
  Compare_rmw_gid_t a c = true.
Proof. apply lexicographical_compare_trans. Qed.

Section OrderedMaps.
Variables K V : Type.
Variable less : K -> K -> bool.
Hypothesis less_trans : forall a b c, less a b = true -> less b c = true -> less a c = true.

Lemma map_insert_keys (k : K) (v : V) (m : std_map K V) (x : K) :
  In x (map fst (map_insert less k v m)) <-> x = k \/ In x (map fst m).
Proof.
  induction m as [| [k' v'] m IH]; simpl.
  - intuition.
  - destruct (less k k'); simpl; [intuition |]. rewrite IH. intuition.
Qed.

Lemma map_insert_ordered (k : K) (v : V) (m : std_map K V) :
  map_find less k m = None -> map_ordered less m = true ->
  map_ordered less (map_insert less k v m) = true.
Proof.
  unfold map_ordered. induction m as [| [k' v'] m IH]; simpl; [reflexivity |].
  destruct (equivalent less k k') eqn:E; [discriminate |].
  intros F O. apply andb_true_iff in O. destruct O as [O1 O2].
  destruct (less k k') eqn:L; simpl.
  - rewrite L, O1, O2. simpl. rewrite andb_true_r.
    apply forallb_forall. intros x Hx.
    rewrite forallb_forall in O1. eapply less_trans; [exact L | apply O1, Hx].
  - rewrite (IH F O2), andb_true_r.
    apply forallb_forall. intros x Hx. apply map_insert_keys in Hx.
    destruct Hx as [-> | Hx].
    + unfold equivalent in E. rewrite L in E. simpl in E.
      destruct (less k' k); [reflexivity | discriminate].
    + rewrite forallb_forall in O1. apply O1, Hx.
Qed.

Lemma map_erase_keys (k : K) (m : std_map K V) (x : K) :
  In x (map fst (fst (map_erase less k m))) -> In x (map fst m).
Proof.
  induction m as [| [k' v'] m IH]; simpl; [tauto |].
  destruct (map_erase less k m) as [rest n]. simpl in IH.
  destruct (equivalent less k k'); simpl; intuition.
Qed.

Lemma map_erase_ordered (k : K) (m : std_map K V) :
  map_ordered less m = true -> map_ordered less (fst (map_erase less k m)) = true.
Proof.
  unfold map_ordered. induction m as [| [k' v'] m IH]; simpl; [reflexivity |].
  intros O. apply andb_true_iff in O. destruct O as [O1 O2].
  pose proof (map_erase_keys k m) as S.
  destruct (map_erase less k m) as [rest n]. simpl in *.
  destruct (equivalent less k k'); simpl; [apply IH, O2 |].
  rewrite (IH O2), andb_true_r. apply forallb_forall. intros x Hx.
  rewrite forallb_forall in O1. apply O1, S, Hx.
Qed.

Lemma map_update_keys (k : K) (f : V -> V) (m : std_map K V) :
  map fst (map_update less k f m) = map fst m.
Proof.
  induction m as [| [k' v'] m IH]; simpl; [reflexivity |].
  destruct (equivalent less k k'); simpl; [reflexivity | rewrite IH; reflexivity].
Qed.

Lemma map_update_ordered (k : K) (f : V -> V) (m : std_map K V) :
  map_ordered less (map_update less k f m) = map_ordered less m.
Proof. unfold map_ordered. rewrite map_update_keys. reflexivity. Qed.

Lemma map_emplace_ordered (k : K) (v : V) (m : std_map K V) :
  map_ordered less m = true -> map_ordered less (fst (map_emplace less k v m)) = true.
Proof.
  intros O. unfold map_emplace. destruct (map_find less k m) eqn:F; simpl;
    [exact O | apply map_insert_ordered; assumption].
Qed.

End OrderedMaps.

Abbreviation gid_ordered := (map_ordered Compare_rmw_gid_t).

Lemma cache_ordered_parts (gc : GraphCache) :
  cache_ordered gc = true
  <-> gid_ordered (data_writers_ gc) = true
      /\ gid_ordered (data_readers_ gc) = true
      /\ gid_ordered (participants_ gc) = true.
Proof. unfold cache_ordered. rewrite !andb_true_iff. tauto. Qed.

Lemma find_or_emplace_participant_ordered (gid : rmw_gid_t) (m : ParticipantToNodesMap) :
  gid_ordered m = true -> gid_ordered (find_or_emplace_participant gid m) = true.
Proof.
  intros O. unfold find_or_emplace_participant.
  destruct (find_gid gid m); [exact O |].
  apply map_emplace_ordered; [exact Compare_rmw_gid_t_trans | exact O].
Qed.

Lemma run_keeps_order (op : operation) (gc gc' : GraphCache) (calls' : list callback) :
  cache_ordered gc = true -> run op gc = Some (gc', calls') -> cache_ordered gc' = true.
Proof.
  rewrite !cache_ordered_parts. intros (W & R & P).
  destruct op as [g t ty h p q | g t ty h p q | g | g | p e | p | m
                  | p n ns | p n ns | w p n ns | w p n ns | r p n ns | r p n ns];
    simpl; intros H.
  - inversion H; subst; simpl. repeat split; auto.
    apply map_emplace_ordered; [exact Compare_rmw_gid_t_trans | exact W].
  - inversion H; subst; simpl. repeat split; auto.
    apply map_emplace_ordered; [exact Compare_rmw_gid_t_trans | exact R].
  - inversion H; subst; simpl. repeat split; auto. apply map_erase_ordered. exact W.
  - inversion H; subst; simpl. repeat split; auto. apply map_erase_ordered. exact R.
  - inversion H; subst; simpl. repeat split; auto.
    rewrite map_update_ordered. apply find_or_emplace_participant_ordered. exact P.
  - inversion H; subst; simpl. repeat split; auto. apply map_erase_ordered. exact P.
  - inversion H; subst; simpl. repeat split; auto.
    rewrite map_update_ordered. apply find_or_emplace_participant_ordered. exact P.
  - unfold add_node in H. destruct (find_gid p (participants_ gc)); [| discriminate].
    inversion H; subst; simpl. repeat split; auto. rewrite map_update_ordered. exact P.
  - unfold remove_node in H. destruct (find_gid p (participants_ gc)); [| discriminate].
    destruct (erase_first _ _); [| discriminate].
    inversion H; subst; simpl. repeat split; auto. rewrite map_update_ordered. exact P.
  - unfold associate_writer, modify_and_notify, __modify_node_info in H.
    destruct (find_gid p (participants_ gc)); [| discriminate].
    destruct (modify_first _ _ _); [| discriminate].
    inversion H; subst; simpl. repeat split; auto. rewrite map_update_ordered. exact P.
  - unfold dissociate_writer, modify_and_notify, __modify_node_info in H.
    destruct (find_gid p (participants_ gc)); [| discriminate].
    destruct (modify_first _ _ _); [| discriminate].
    inversion H; subst; simpl. repeat split; auto. rewrite map_update_ordered. exact P.
  - unfold associate_reader, modify_and_notify, __modify_node_info in H.
    destruct (find_gid p (participants_ gc)); [| discriminate].
    destruct (modify_first _ _ _); [| discriminate].
    inversion H; subst; simpl. repeat split; auto. rewrite map_update_ordered. exact P.
  - unfold dissociate_reader, modify_and_notify, __modify_node_info in H.
    destruct (find_gid p (participants_ gc)); [| discriminate].
    destruct (modify_first _ _ _); [| discriminate].
    inversion H; subst; simpl. repeat split; auto. rewrite map_update_ordered. exact P.
Qed.

Lemma keys_ascending_NoDup (K : Type) (less : K -> K -> bool) (keys : list K) :
  (forall k, less k k = false) -> keys_ascending less keys = true -> NoDup keys.
Proof.
  intros I. induction keys as [| k rest IH]; simpl; intros O; constructor.
  - apply andb_true_iff in O. destruct O as [O _].
    rewrite forallb_forall in O. intros H. specialize (O k H). rewrite I in O.
    discriminate.
  - apply IH. apply andb_true_iff in O. tauto.
Qed.

Lemma Compare_rmw_gid_t_irrefl (g : rmw_gid_t) : Compare_rmw_gid_t g g = false.
Proof. apply lexicographical_compare_irrefl. Qed.

(** X7.  Every mutating method keeps the three maps of the cache in
    strictly ascending gid order: a cache reached from an ordered one,
    the empty cache in particular, by any sequence of methods that
    complete is ordered, so no gid is a key twice in any of its maps
    and the introspection methods meet the entries in gid order. *)
Theorem reachable_cache_ordered (gc0 gc : GraphCache)
    (ordered : cache_ordered gc0 = true) (reached : reaches gc0 gc) :
  cache_ordered gc = true
  /\ NoDup (map fst (data_writers_ gc))
  /\ NoDup (map fst (data_readers_ gc))
  /\ NoDup (map fst (participants_ gc)).
Proof.
  assert (O : cache_ordered gc = true).
  { induction reached as [| op gc' gc'' calls' _ IH H]; [exact ordered |].
    eapply run_keeps_order; eassumption. }
  split; [exact O |].
  apply cache_ordered_parts in O. destruct O as (W & R & P).
  repeat split; eapply keys_ascending_NoDup; try eassumption;
    apply Compare_rmw_gid_t_irrefl.
Qed.

Lemma reachable_cache_ordered_witness :
  reaches GraphCache_empty
    (cache (add_writer W1 "/chatter" "std/String" rosidl_get_zero_initialized_type_hash
              G1 QOS_R_V (cache (add_participant G1 "encA" GraphCache_empty))))
  /\ NoDup (map fst (data_writers_
       (cache (add_writer W1 "/chatter" "std/String"
                 rosidl_get_zero_initialized_type_hash G1 QOS_R_V
                 (cache (add_participant G1 "encA" GraphCache_empty)))))).
Proof.
  assert (R : reaches GraphCache_empty
                (cache (add_writer W1 "/chatter" "std/String"
                          rosidl_get_zero_initialized_type_hash G1 QOS_R_V
                          (cache (add_participant G1 "encA" GraphCache_empty))))).
  { eapply (reaches_step
              (op_add_writer W1 "/chatter" "std/String"
                 rosidl_get_zero_initialized_type_hash G1 QOS_R_V)
              (calls' := [])).
    - eapply (reaches_step (op_add_participant G1 "encA") (calls' := []));
        [apply reaches_here | reflexivity].
    - reflexivity. }
  split; [exact R |].
  exact (proj1 (proj2 (@reachable_cache_ordered GraphCache_empty _ eq_refl R))).
Defined.

(* ===================================================================== *)
(** * Part XV.  Properties of the introspection of the graph cache        *)
(* ===================================================================== *)

(** X8.  [get_writer_count] and [get_reader_count] refuse a null count
    with RMW_RET_INVALID_ARGUMENT and otherwise return RMW_RET_OK with
    the number of entities of the map whose topic name is the given
    one; that number is the length of the array a successful
    [get_writers_info_by_topic] (respectively readers) returns, and when
    it is zero the by-topic query returns RMW_RET_OK without touching
    the array or the allocator. *)
Theorem entity_count_agrees_with_info
    (is_reader : bool) (topic : string) (gc : GraphCache) (previous : nat) :
  get_entity_count is_reader topic None gc = (RMW_RET_INVALID_ARGUMENT, None)
  /\ exists n,
       get_entity_count is_reader topic (Some previous) gc = (RMW_RET_OK, Some n)
       /\ n = List.length (on_topic topic (entities_of is_reader gc))
       /\ (forall demangle_type allocator endpoints_info,
             n = 0 ->
             get_entities_info_by_topic is_reader topic demangle_type allocator
               endpoints_info gc
             = (RMW_RET_OK, allocator, endpoints_info))
       /\ (forall demangle_type allocator endpoints_info allocator' infos,
             n <> 0 ->
             get_entities_info_by_topic is_reader topic demangle_type allocator
               endpoints_info gc
             = (RMW_RET_OK, allocator', infos) ->
             List.length infos = n).
Proof.
  split; [destruct is_reader; reflexivity |].
  exists (List.length (on_topic topic (entities_of is_reader gc))).
  split; [destruct is_reader; reflexivity |]. split; [reflexivity |].
  assert (G : forall dt a out,
            get_entities_info_by_topic is_reader topic dt a out gc
            = __get_entities_info_by_topic (entities_of is_reader gc) (participants_ gc)
                topic dt is_reader a out)
    by (destruct is_reader; reflexivity).
  split.
  - intros dt a out Z. rewrite G. unfold __get_entities_info_by_topic.
    destruct (Nat.eqb (List.length (entities_of is_reader gc)) 0); [reflexivity |].
    cbv zeta. unfold __get_count. fold (on_topic topic (entities_of is_reader gc)).
    rewrite Z. reflexivity.
  - intros dt a out a' infos NZ H. rewrite G in H.
    apply get_entities_info_by_topic_result in H. destruct H as (_ & H & _).
    rewrite H; [apply length_map | | reflexivity].
    intros E. rewrite E in NZ. apply NZ. reflexivity.
Qed.

Section CountFacts.
Variables K V : Type.
Variable less : K -> K -> bool.
Hypothesis equivalent_eq : forall a b : K, equivalent less a b = true <-> a = b.

Lemma map_find_absent_key (k : K) (m : std_map K V) :
  map_find less k m = None -> ~ In k (map fst m).
Proof.
  induction m as [| [k' v'] m IH]; simpl; [tauto |].
  destruct (equivalent less k k') eqn:E; [discriminate |].
  intros F [H | H]; [| exact (IH F H)].
  subst k'. assert (T : equivalent less k k = true) by (apply equivalent_eq; reflexivity).
  congruence.
Qed.

Lemma map_erase_absent_key (k : K) (m : std_map K V) :
  ~ In k (map fst m) -> fst (map_erase less k m) = m.
Proof.
  induction m as [| [k' v'] m IH]; simpl; [reflexivity |].
  intros N. destruct (map_erase less k m) as [rest n]. simpl in IH.
  destruct (equivalent less k k') eqn:E.
  - apply equivalent_eq in E. subst k'. contradiction N. left. reflexivity.
  - simpl. rewrite IH by tauto. reflexivity.
Qed.

Variable p : V -> bool.

Let count (m : std_map K V) : nat := List.length (filter (fun elem => p (snd elem)) m).

Lemma count_map_insert (k : K) (v : V) (m : std_map K V) :
  count (map_insert less k v m) = (if p v then 1 else 0) + count m.
Proof.
  unfold count. induction m as [| [k' v'] m IH]; simpl.
  - destruct (p v); reflexivity.
  - destruct (less k k'); simpl.
    + destruct (p v); reflexivity.
    + destruct (p v'); simpl; rewrite IH; destruct (p v); simpl; lia.
Qed.

Lemma count_map_erase (k : K) (v : V) (m : std_map K V) :
  NoDup (map fst m) -> map_find less k m = Some v ->
  count (fst (map_erase less k m)) + (if p v then 1 else 0) = count m.
Proof.
  unfold count. induction m as [| [k' v'] m IH]; simpl; [discriminate |].
  intros D F. inversion D as [| x xs Hx Hxs]; subst.
  pose proof (map_erase_absent_key k m) as A.
  destruct (map_erase less k m) as [rest n]. simpl in *.
  destruct (equivalent less k k') eqn:E.
  - inversion F; subst v'. apply equivalent_eq in E. subst k'. simpl.
    rewrite (A Hx). destruct (p v); simpl; lia.
  - simpl. destruct (p v'); simpl; rewrite <- (IH Hxs F); lia.
Qed.

End CountFacts.

Lemma entities_of_add_entity (is_reader : bool) (gid : rmw_gid_t) (t ty : string)
    (h : rosidl_type_hash_t) (p : rmw_gid_t) (q : rmw_qos_profile_t) (gc : GraphCache) :
  entities_of is_reader (cache (add_entity gid t ty h p q is_reader gc))
  = fst (map_emplace Compare_rmw_gid_t gid (mk_EntityInfo t ty h p q)
           (entities_of is_reader gc)).
Proof. destruct is_reader; reflexivity. Qed.

Lemma entities_of_remove_entity (is_reader : bool) (gid : rmw_gid_t) (gc : GraphCache) :
  entities_of is_reader (cache (remove_entity gid is_reader gc))
  = fst (map_erase Compare_rmw_gid_t gid (entities_of is_reader gc)).
Proof. destruct is_reader; reflexivity. Qed.

(** X9.  How the counts follow the discovery plane.  The count a query
    reports is [count_of].  Adding an endpoint under a gid the map does
    not hold raises the count of its topic by one and leaves the count
    of every other topic; adding under a gid already held changes no
    count.  In a cache whose maps are ordered, removing a gid that is
    held lowers the count of the topic it was on by one and leaves the
    others; removing a gid that is not held changes no count. *)
Theorem counts_follow_discovery
    (is_reader : bool) (topic : string) (gc : GraphCache) (gid : rmw_gid_t) :
  (forall previous,
     get_entity_count is_reader topic (Some previous) gc
     = (RMW_RET_OK, Some (count_of is_reader topic gc)))
  /\ (forall t ty h p q,
        find_gid gid (entities_of is_reader gc) = None ->
        count_of is_reader topic (cache (add_entity gid t ty h p q is_reader gc))
        = on_this_topic topic t + count_of is_reader topic gc)
  /\ (forall t ty h p q,
        find_gid gid (entities_of is_reader gc) <> None ->
        count_of is_reader topic (cache (add_entity gid t ty h p q is_reader gc))
        = count_of is_reader topic gc)
  /\ (forall info,
        cache_ordered gc = true ->
        find_gid gid (entities_of is_reader gc) = Some info ->
        count_of is_reader topic (cache (remove_entity gid is_reader gc))
        + on_this_topic topic (topic_name info)
        = count_of is_reader topic gc)
  /\ (find_gid gid (entities_of is_reader gc) = None ->
      count_of is_reader topic (cache (remove_entity gid is_reader gc))
      = count_of is_reader topic gc).
Proof.
  split; [intros previous; destruct is_reader; reflexivity |].
  unfold count_of, __get_count, on_this_topic.
  split; [| split; [| split]].
  - intros t ty h p q F. rewrite entities_of_add_entity. unfold map_emplace.
    rewrite F. simpl fst.
    apply (@count_map_insert _ _ Compare_rmw_gid_t
             (fun info => (topic_name info =? topic)%string)).
  - intros t ty h p q F. rewrite entities_of_add_entity. unfold map_emplace.
    destruct (find_gid gid (entities_of is_reader gc)); [reflexivity |].
    contradiction F. reflexivity.
  - intros info O F. rewrite entities_of_remove_entity.
    apply (@count_map_erase _ _ Compare_rmw_gid_t Compare_rmw_gid_t_equivalent
             (fun i => (topic_name i =? topic)%string) gid info); [| exact F].
    apply cache_ordered_parts in O. destruct O as (W & R & _).
    apply (@keys_ascending_NoDup _ Compare_rmw_gid_t _ Compare_rmw_gid_t_irrefl).
    destruct is_reader; assumption.
  - intros F. rewrite entities_of_remove_entity.
    rewrite (@map_erase_absent_key _ _ Compare_rmw_gid_t Compare_rmw_gid_t_equivalent
               gid (entities_of is_reader gc)); [reflexivity |].
    apply (@map_find_absent_key _ _ Compare_rmw_gid_t Compare_rmw_gid_t_equivalent).
    exact F.
Qed.

Lemma counts_follow_discovery_witness :
  find_gid W2 (entities_of false talker_cache) = None
  /\ count_of false "/chatter" talker_cache = 1
  /\ count_of false "/chatter"
       (cache (add_entity W2 "/chatter" "std/String"
                 rosidl_get_zero_initialized_type_hash G1 QOS_R_V false talker_cache))
     = on_this_topic "/chatter" "/chatter" + count_of false "/chatter" talker_cache.
Proof.
  split; [reflexivity |]. split; [reflexivity |].
  apply (proj1 (proj2 (@counts_follow_discovery false "/chatter" talker_cache W2))).
  reflexivity.
Defined.

(* ===================================================================== *)
(** * Part XVI.  Properties of the participant and local-node planes      *)
(* ===================================================================== *)

(** X10.  [remove_participant] returns true exactly when the gid was a
    key of the participants map; afterwards the gid is not a key, every
    other participant is as before, and both endpoint maps are
    untouched: the endpoints the participant created stay in the cache,
    and a by-topic query reports each of them from then on under the
    placeholder _CREATED_BY_BARE_DDS_APP_. *)
Theorem remove_participant_keeps_endpoints (p : rmw_gid_t) (gc : GraphCache) :
  let o := remove_participant p gc in
  (returned o = true <-> find_gid p (participants_ gc) <> None)
  /\ find_gid p (participants_ (cache o)) = None
  /\ (forall g, g <> p ->
        find_gid g (participants_ (cache o)) = find_gid g (participants_ gc))
  /\ data_writers_ (cache o) = data_writers_ gc
  /\ data_readers_ (cache o) = data_readers_ gc
  /\ (forall demangle_type is_reader entity,
        participant_gid (snd entity) = p ->
        let info := endpoint_of (participants_ (cache o)) demangle_type is_reader entity in
        endpoint.node_name info = Some "_CREATED_BY_BARE_DDS_APP_"
        /\ endpoint.node_namespace info = Some "_CREATED_BY_BARE_DDS_APP_").
Proof.
  cbv zeta. unfold remove_participant. simpl.
  assert (A : find_gid p (fst (map_erase Compare_rmw_gid_t p (participants_ gc))) = None)
    by apply map_find_erase_same.
  split; [| split; [exact A | split; [| split; [reflexivity | split; [reflexivity |]]]]].
  - rewrite Nat.ltb_lt. split.
    + intros H F. rewrite (map_erase_absent _ _ _ F) in H. simpl in H. lia.
    + intros H. destruct (find_gid p (participants_ gc)) as [info |] eqn:F;
        [| contradiction H; reflexivity].
      eapply map_erase_present. exact F.
  - intros g N.
    apply (@map_find_erase_other _ _ _ Compare_rmw_gid_t_equivalent). exact N.
  - intros dt r entity E. unfold endpoint_of, __find_name_and_namespace_from_entity_gid.
    rewrite E, A. simpl. split; reflexivity.
Qed.

Lemma find_or_emplace_then_update (gid : rmw_gid_t)
    (f : ParticipantInfo -> ParticipantInfo) (m : ParticipantToNodesMap) :
  find_or_emplace_participant gid
    (map_update Compare_rmw_gid_t gid f (find_or_emplace_participant gid m))
  = map_update Compare_rmw_gid_t gid f (find_or_emplace_participant gid m).
Proof.
  unfold find_or_emplace_participant at 1.
  rewrite map_find_update_same, find_or_emplace_participant_same.
  destruct (find_gid gid m); reflexivity.
Qed.

(** X11.  [add_participant] leaves an entry for the gid that holds the
    given enclave and the node list the entry had (none if it was
    created), and touches nothing else.  Enclave and node list arrive
    independently: [add_participant] followed by
    [update_participant_entities] for the same gid leaves the same cache
    as the two in the other order, with the enclave of the one and the
    node list of the other. *)
Theorem add_participant_sets_enclave
    (p : rmw_gid_t) (enclave_name : string) (gc : GraphCache) :
  let gc' := cache (add_participant p enclave_name gc) in
  find_gid p (participants_ gc')
  = Some {| node_entities_info_seq :=
              match find_gid p (participants_ gc) with
              | Some info => node_entities_info_seq info
              | None => []
              end;
            enclave := enclave_name |}
  /\ (forall g, g <> p -> find_gid g (participants_ gc') = find_gid g (participants_ gc))
  /\ data_writers_ gc' = data_writers_ gc
  /\ data_readers_ gc' = data_readers_ gc
  /\ (forall m, convert_msg_to_gid (msg.gid m) = p ->
        cache (update_participant_entities m gc')
        = cache (add_participant p enclave_name (cache (update_participant_entities m gc)))
        /\ find_gid p (participants_ (cache (update_participant_entities m gc')))
           = Some {| node_entities_info_seq := msg.node_entities_info_seq m;
                     enclave := enclave_name |}).
Proof.
  cbv zeta. unfold add_participant. simpl.
  split; [| split; [| split; [reflexivity | split; [reflexivity |]]]].
  - rewrite map_find_update_same, find_or_emplace_participant_same.
    destruct (find_gid p (participants_ gc)); reflexivity.
  - intros g N.
    rewrite (@map_find_update_other _ _ _ Compare_rmw_gid_t_equivalent) by exact N.
    apply find_or_emplace_participant_other. exact N.
  - intros m E. unfold update_participant_entities. simpl. rewrite E.
    rewrite !find_or_emplace_then_update, !map_update_update. split.
    + unfold with_participants. simpl. f_equal.
    + rewrite map_find_update_same, find_or_emplace_participant_same.
      destruct (find_gid p (participants_ gc)); reflexivity.
Qed.

Lemma erase_first_app_last (A : Type) (p : A -> bool) (l : list A) (x : A) :
  existsb p l = false -> p x = true -> erase_first p (l ++ [x]) = Some l.
Proof.
  intros N T. induction l as [| y l IH]; simpl in *.
  - rewrite T. reflexivity.
  - apply orb_false_iff in N. destruct N as [N1 N2]. rewrite N1, (IH N2). reflexivity.
Qed.

Lemma modify_first_round_trip (A : Type) (p : A -> bool) (f g : A -> A) (l : list A)
    (x : A) :
  find p l = Some x -> p (f x) = true -> g (f x) = x ->
  exists l1, modify_first p f l = Some l1 /\ modify_first p g l1 = Some l.
Proof.
  intros F T R. induction l as [| y l IH]; simpl in *; [discriminate |].
  destruct (p y) eqn:Py.
  - inversion F; subst y. exists (f x :: l). split; [reflexivity |].
    simpl. rewrite T, R. reflexivity.
  - destruct (IH F) as (l1 & H1 & H2). exists (y :: l1). rewrite H1. split; [reflexivity |].
    simpl. rewrite Py, H2. reflexivity.
Qed.

Lemma with_participants_restore (gc : GraphCache) (m : ParticipantToNodesMap) :
  with_participants (with_participants gc m) (participants_ gc) = gc.
Proof. destruct gc; reflexivity. Qed.

Lemma put_nodes_twice (p : rmw_gid_t) (info : ParticipantInfo)
    (nodes : list msg.NodeEntitiesInfo) (m : ParticipantToNodesMap) :
  find_gid p m = Some info ->
  map_update Compare_rmw_gid_t p
    (fun i => mk_ParticipantInfo (node_entities_info_seq info) (enclave i))
    (map_update Compare_rmw_gid_t p (fun i => mk_ParticipantInfo nodes (enclave i)) m)
  = m.
Proof.
  intros F. rewrite map_update_update. apply map_update_fixed.
  intros v Fv. rewrite F in Fv. inversion Fv; subst v. destruct info; reflexivity.
Qed.

(** X12.  [add_node] followed by [remove_node] of the same name and
    namespace, on a participant that has no node of that name and
    namespace yet, gives the cache back as it was: [add_node] puts the
    new, empty node last in the participant's list (as its message
    shows) and [remove_node] takes that very node out. *)
Theorem add_node_then_remove_node
    (p : rmw_gid_t) (n ns : string) (gc : GraphCache) (info : ParticipantInfo)
    (known : find_gid p (participants_ gc) = Some info)
    (fresh : existsb (node_matches n ns) (node_entities_info_seq info) = false) :
  exists o1,
    add_node p n ns gc = Some o1
    /\ msg.node_entities_info_seq (returned o1)
       = (node_entities_info_seq info ++ [msg.mk_NodeEntitiesInfo ns n [] []])%list
    /\ exists o2,
         remove_node p n ns (cache o1) = Some o2
         /\ cache o2 = gc
         /\ msg.node_entities_info_seq (returned o2) = node_entities_info_seq info.
Proof.
  unfold add_node. rewrite known. eexists. split; [reflexivity |].
  split; [reflexivity |].
  unfold remove_node. cbn [cache participants_ with_participants].
  rewrite map_find_update_same, known. cbn [option_map node_entities_info_seq].
  rewrite (erase_first_app_last _ _ _ fresh).
  - eexists. split; [reflexivity |]. split; [| reflexivity].
    cbn [cache]. unfold with_participants at 1.
    cbn [data_writers_ data_readers_ participants_ on_change_callback_ with_participants].
    erewrite put_nodes_twice by exact known. destruct gc; reflexivity.
  - unfold node_matches. simpl. rewrite !String.eqb_refl. reflexivity.
Qed.

Lemma add_node_then_remove_node_witness :
  find_gid G1 (participants_ talker_cache)
  = Some {| node_entities_info_seq :=
              [msg.mk_NodeEntitiesInfo "" "talker" [] [convert_gid_to_msg W1]];
            enclave := "encA" |}
  /\ exists o1,
       add_node G1 "listener" "" talker_cache = Some o1
       /\ exists o2, remove_node G1 "listener" "" (cache o1) = Some o2
                     /\ cache o2 = talker_cache.
Proof.
  split; [reflexivity |].
  destruct (@add_node_then_remove_node G1 "listener" "" talker_cache _ eq_refl eq_refl)
    as (o1 & H1 & _ & o2 & H2 & H3 & _).
  exists o1. split; [exact H1 |]. exists o2. split; [exact H2 | exact H3].
Defined.

Lemma modify_and_notify_round_trip (p : rmw_gid_t) (n ns : string)
    (f g : msg.NodeEntitiesInfo -> msg.NodeEntitiesInfo) (gc : GraphCache)
    (info : ParticipantInfo) (node : msg.NodeEntitiesInfo) :
  find_gid p (participants_ gc) = Some info ->
  find (node_matches n ns) (node_entities_info_seq info) = Some node ->
  node_matches n ns (f node) = true -> g (f node) = node ->
  exists o1,
    modify_and_notify p n ns f gc = Some o1
    /\ exists o2, modify_and_notify p n ns g (cache o1) = Some o2 /\ cache o2 = gc.
Proof.
  intros K F T R.
  destruct (modify_first_round_trip _ f g _ F T R) as (l1 & H1 & H2).
  unfold modify_and_notify, __modify_node_info. rewrite K, H1.
  eexists. split; [reflexivity |].
  cbn [cache participants_ with_participants].
  rewrite map_find_update_same, K. cbn [option_map node_entities_info_seq].
  rewrite H2. eexists. split; [reflexivity |].
  cbn [cache]. unfold with_participants at 1.
  cbn [data_writers_ data_readers_ participants_ on_change_callback_ with_participants].
  erewrite put_nodes_twice by exact K. destruct gc; reflexivity.
Qed.

Lemma erase_gid_appended (g : msg.Gid) (gids : GidSeq) :
  ~ In g gids -> erase_gid g (gids ++ [g])%list = gids.
Proof.
  intros N. unfold erase_gid. rewrite erase_first_app_last; [reflexivity | |].
  - destruct (existsb (fun gid => msg_gid_eq gid g) gids) eqn:E; [| reflexivity].
    apply existsb_exists in E. destruct E as (x & Hx & E).
    apply memcmp_is_zero_eq in E. destruct x, g; simpl in E. subst. contradiction.
  - apply memcmp_is_zero_eq. reflexivity.
Qed.

(** X13.  [associate_writer] followed by [dissociate_writer] of the same
    gid on the same node gives the cache back as it was, provided the
    node found (the first of the participant with that name and
    namespace) did not list the gid among its writers before; likewise
    [associate_reader] and [dissociate_reader] with its readers. *)
Theorem associate_then_dissociate
    (gid p : rmw_gid_t) (n ns : string) (gc : GraphCache)
    (info : ParticipantInfo) (node : msg.NodeEntitiesInfo)
    (known : find_gid p (participants_ gc) = Some info)
    (found : find (node_matches n ns) (node_entities_info_seq info) = Some node) :
  (~ In (convert_gid_to_msg gid) (msg.writer_gid_seq node) ->
   exists o1,
     associate_writer gid p n ns gc = Some o1
     /\ exists o2, dissociate_writer gid p n ns (cache o1) = Some o2 /\ cache o2 = gc)
  /\ (~ In (convert_gid_to_msg gid) (msg.reader_gid_seq node) ->
      exists o1,
        associate_reader gid p n ns gc = Some o1
        /\ exists o2, dissociate_reader gid p n ns (cache o1) = Some o2 /\ cache o2 = gc).
Proof.
  assert (M : node_matches n ns node = true) by (apply find_some in found; tauto).
  split; intros N.
  - eapply modify_and_notify_round_trip; [exact known | exact found | exact M |].
    unfold delete_writer_gid, add_writer_gid. simpl.
    rewrite erase_gid_appended by exact N. destruct node; reflexivity.
  - eapply modify_and_notify_round_trip; [exact known | exact found | exact M |].
    unfold delete_reader_gid, add_reader_gid. simpl.
    rewrite erase_gid_appended by exact N. destruct node; reflexivity.
Qed.

Lemma associate_then_dissociate_witness :
  find (node_matches "talker" "")
    [msg.mk_NodeEntitiesInfo "" "talker" [] [convert_gid_to_msg W1]]
  = Some (msg.mk_NodeEntitiesInfo "" "talker" [] [convert_gid_to_msg W1])
  /\ exists o1,
       associate_writer W2 G1 "talker" "" talker_cache = Some o1
       /\ exists o2, dissociate_writer W2 G1 "talker" "" (cache o1) = Some o2
                     /\ cache o2 = talker_cache.
Proof.
  split; [reflexivity |].
  apply (proj1 (@associate_then_dissociate W2 G1 "talker" "" talker_cache _ _
                  eq_refl eq_refl)).
  simpl. intros [H | []]. discriminate H.
Defined.

Lemma convert_gid_round_trip (g : rmw_gid_t) :
  convert_msg_to_gid (convert_gid_to_msg g) = g.
Proof. destruct g; reflexivity. Qed.

Lemma update_participant_entities_nodes (m : msg.ParticipantEntitiesInfo)
    (gc : GraphCache) :
  option_map node_entities_info_seq
    (find_gid (convert_msg_to_gid (msg.gid m))
       (participants_ (cache (update_participant_entities m gc))))
  = Some (msg.node_entities_info_seq m).
Proof.
  unfold update_participant_entities. simpl.
  rewrite map_find_update_same, find_or_emplace_participant_same.
  destruct (find_gid _ (participants_ gc)); reflexivity.
Qed.

Lemma local_message_of_put (p : rmw_gid_t) (nodes : list msg.NodeEntitiesInfo)
    (gc : GraphCache) (info : ParticipantInfo) :
  find_gid p (participants_ gc) = Some info ->
  find_gid p
    (map_update Compare_rmw_gid_t p (fun i => mk_ParticipantInfo nodes (enclave i))
       (participants_ gc))
  = Some {| node_entities_info_seq := nodes; enclave := enclave info |}.
Proof. intros K. rewrite map_find_update_same, K. reflexivity. Qed.

(** X14.  The message a local-node method returns carries the gid of
    the participant and the node list the participant has in the cache
    once the method is done (the enclave of the entry is kept); so a
    cache that receives the message through
    [update_participant_entities] ends with the same node list for that
    participant. *)
Theorem local_message_synchronises
    (p : rmw_gid_t) (n ns : string) (gc : GraphCache)
    (o : outcome msg.ParticipantEntitiesInfo)
    (completed :
       add_node p n ns gc = Some o \/ remove_node p n ns gc = Some o
       \/ exists g,
            associate_writer g p n ns gc = Some o \/ dissociate_writer g p n ns gc = Some o
            \/ associate_reader g p n ns gc = Some o
            \/ dissociate_reader g p n ns gc = Some o) :
  msg.gid (returned o) = convert_gid_to_msg p
  /\ option_map node_entities_info_seq (find_gid p (participants_ (cache o)))
     = Some (msg.node_entities_info_seq (returned o))
  /\ option_map enclave (find_gid p (participants_ (cache o)))
     = option_map enclave (find_gid p (participants_ gc))
  /\ forall remote,
       option_map node_entities_info_seq
         (find_gid p (participants_ (cache (update_participant_entities (returned o)
                                              remote))))
       = Some (msg.node_entities_info_seq (returned o)).
Proof.
  assert (S : exists info nodes,
            find_gid p (participants_ gc) = Some info
            /\ returned o = __create_participant_info_message p nodes
            /\ participants_ (cache o)
               = map_update Compare_rmw_gid_t p
                   (fun i => mk_ParticipantInfo nodes (enclave i)) (participants_ gc)).
  { assert (M : forall func, modify_and_notify p n ns func gc = Some o ->
                  exists info nodes,
                    find_gid p (participants_ gc) = Some info
                    /\ returned o = __create_participant_info_message p nodes
                    /\ participants_ (cache o)
                       = map_update Compare_rmw_gid_t p
                           (fun i => mk_ParticipantInfo nodes (enclave i))
                           (participants_ gc)).
    { intros func H. unfold modify_and_notify, __modify_node_info in H.
      destruct (find_gid p (participants_ gc)) as [info |]; [| discriminate].
      destruct (modify_first _ _ _) as [nodes |]; [| discriminate].
      inversion H; subst. exists info, nodes. auto. }
    destruct completed as [H | [H | (g & [H | [H | [H | H]]])]];
      try (eapply M; exact H).
    - unfold add_node in H.
      destruct (find_gid p (participants_ gc)) as [info |]; [| discriminate].
      inversion H; subst. exists info. eexists.
      split; [reflexivity | split; reflexivity].
    - unfold remove_node in H.
      destruct (find_gid p (participants_ gc)) as [info |]; [| discriminate].
      destruct (erase_first _ _) as [nodes |]; [| discriminate].
      inversion H; subst. exists info, nodes. auto. }
  destruct S as (info & nodes & K & R & P). rewrite R, P.
  rewrite (@local_message_of_put p nodes gc info K), K. simpl.
  split; [reflexivity |]. split; [reflexivity |]. split; [reflexivity |].
  intros remote.
  pose proof (update_participant_entities_nodes
                (__create_participant_info_message p nodes) remote) as U.
  cbn [__create_participant_info_message msg.gid msg.node_entities_info_seq] in U.
  rewrite convert_gid_round_trip in U. exact U.
Qed.

Lemma local_message_synchronises_witness :
  exists o,
    add_node G1 "listener" "" talker_cache = Some o
    /\ forall remote,
         option_map node_entities_info_seq
           (find_gid G1 (participants_ (cache (update_participant_entities (returned o)
                                                 remote))))
         = Some (msg.node_entities_info_seq (returned o)).
Proof.
  eexists. split; [reflexivity |].
  apply (@local_message_synchronises G1 "listener" "" talker_cache).
  left. reflexivity.
Defined.

(* ===================================================================== *)
(** * Part XVII.  Properties of the node queries                          *)
(* ===================================================================== *)

Lemma get_number_of_nodes_sum (m : ParticipantToNodesMap) :
  __get_number_of_nodes m
  = list_sum (map (fun elem => List.length (node_entities_info_seq (snd elem))) m).
Proof.
  unfold __get_number_of_nodes.
  assert (G : forall l acc,
            fold_left (fun n (elem : rmw_gid_t * ParticipantInfo) =>
                         n + List.length (node_entities_info_seq (snd elem))) l acc
            = acc + list_sum (map (fun elem =>
                                     List.length (node_entities_info_seq (snd elem))) l)).
  { induction l as [| e l IH]; simpl; intros acc; [lia | rewrite IH; lia]. }
  apply (G m 0).
Qed.

Lemma get_number_of_nodes_rows (m : ParticipantToNodesMap) :
  __get_number_of_nodes m = List.length (node_rows m).
Proof.
  rewrite get_number_of_nodes_sum. unfold node_rows.
  induction m as [| e m IH]; simpl; [reflexivity |].
  rewrite length_app, length_map, IH. reflexivity.
Qed.

Lemma number_of_nodes_update (p : rmw_gid_t) (f : ParticipantInfo -> ParticipantInfo)
    (m : ParticipantToNodesMap) (info : ParticipantInfo) :
  find_gid p m = Some info ->
  __get_number_of_nodes (map_update Compare_rmw_gid_t p f m)
  + List.length (node_entities_info_seq info)
  = __get_number_of_nodes m + List.length (node_entities_info_seq (f info)).
Proof.
  rewrite !get_number_of_nodes_sum.
  induction m as [| [k v] m IH]; simpl; [discriminate |].
  destruct (equivalent Compare_rmw_gid_t p k); simpl.
  - intros H. inversion H; subst v. lia.
  - intros H. specialize (IH H). lia.
Qed.

Lemma number_of_nodes_insert (p : rmw_gid_t) (v : ParticipantInfo)
    (m : ParticipantToNodesMap) :
  __get_number_of_nodes (map_insert Compare_rmw_gid_t p v m)
  = __get_number_of_nodes m + List.length (node_entities_info_seq v).
Proof.
  rewrite !get_number_of_nodes_sum.
  induction m as [| [k w] m IH]; simpl; [lia |].
  destruct (Compare_rmw_gid_t p k); simpl; lia.
Qed.

Lemma number_of_nodes_find_or_emplace (p : rmw_gid_t) (m : ParticipantToNodesMap) :
  __get_number_of_nodes (find_or_emplace_participant p m) = __get_number_of_nodes m.
Proof.
  unfold find_or_emplace_participant, map_emplace.
  destruct (find_gid p m); simpl; [reflexivity |].
  rewrite number_of_nodes_insert. simpl. lia.
Qed.

Lemma number_of_nodes_erase (p : rmw_gid_t) (m : ParticipantToNodesMap)
    (info : ParticipantInfo) :
  NoDup (map fst m) -> find_gid p m = Some info ->
  __get_number_of_nodes (fst (map_erase Compare_rmw_gid_t p m))
  + List.length (node_entities_info_seq info)
  = __get_number_of_nodes m.
Proof.
  rewrite !get_number_of_nodes_sum.
  induction m as [| [k v] m IH]; simpl; [discriminate |].
  intros D F. inversion D as [| x xs Hx Hxs]; subst.
  pose proof (@map_erase_absent_key _ _ _ Compare_rmw_gid_t_equivalent p m) as A.
  destruct (map_erase Compare_rmw_gid_t p m) as [rest c]. simpl in *.
  destruct (equivalent Compare_rmw_gid_t p k) eqn:E.
  - inversion F; subst v. apply Compare_rmw_gid_t_equivalent in E. subst k.
    simpl. rewrite (A Hx). lia.
  - simpl. specialize (IH Hxs F). lia.
Qed.

Lemma modify_first_length (A : Type) (p : A -> bool) (f : A -> A) (l l' : list A) :
  modify_first p f l = Some l' -> List.length l' = List.length l.
Proof.
  revert l'. induction l as [| x l IH]; simpl; intros l' H; [discriminate |].
  destruct (p x).
  - inversion H. reflexivity.
  - destruct (modify_first p f l) as [r |]; [| discriminate].
    inversion H. simpl. rewrite (IH r eq_refl). reflexivity.
Qed.

Lemma erase_first_length (A : Type) (p : A -> bool) (l l' : list A) :
  erase_first p l = Some l' -> S (List.length l') = List.length l.
Proof.
  revert l'. induction l as [| x l IH]; simpl; intros l' H; [discriminate |].
  destruct (p x).
  - inversion H. reflexivity.
  - destruct (erase_first p l) as [r |]; [| discriminate].
    inversion H. simpl. rewrite (IH r eq_refl). reflexivity.
Qed.

(** X15.  How [get_number_of_nodes] follows the methods that complete:
    [add_node] raises it by one and [remove_node] lowers it by one; the
    four association methods and [add_participant] leave it;
    [update_participant_entities] replaces the share of the message's
    participant by the length of the message's node list; and, in a
    cache whose maps are ordered, [remove_participant] takes the share
    of the participant away. *)
Theorem number_of_nodes_follows_methods (gc : GraphCache) :
  (forall p n ns o,
     add_node p n ns gc = Some o ->
     get_number_of_nodes (cache o) = S (get_number_of_nodes gc))
  /\ (forall p n ns o,
        remove_node p n ns gc = Some o ->
        S (get_number_of_nodes (cache o)) = get_number_of_nodes gc)
  /\ (forall g p n ns o,
        associate_writer g p n ns gc = Some o \/ dissociate_writer g p n ns gc = Some o
        \/ associate_reader g p n ns gc = Some o \/ dissociate_reader g p n ns gc = Some o ->
        get_number_of_nodes (cache o) = get_number_of_nodes gc)
  /\ (forall p e,
        get_number_of_nodes (cache (add_participant p e gc)) = get_number_of_nodes gc)
  /\ (forall m,
        get_number_of_nodes (cache (update_participant_entities m gc))
        + nodes_of_participant (convert_msg_to_gid (msg.gid m)) gc
        = get_number_of_nodes gc + List.length (msg.node_entities_info_seq m))
  /\ (forall p,
        cache_ordered gc = true ->
        get_number_of_nodes (cache (remove_participant p gc)) + nodes_of_participant p gc
        = get_number_of_nodes gc).
Proof.
  unfold get_number_of_nodes, nodes_of_participant.
  split; [| split; [| split; [| split; [| split]]]].
  - intros p n ns o H. unfold add_node in H.
    destruct (find_gid p (participants_ gc)) as [info |] eqn:K; [| discriminate].
    inversion H; subst; simpl.
    pose proof (number_of_nodes_update p
                  (fun i => mk_ParticipantInfo
                              (node_entities_info_seq info
                               ++ [msg.mk_NodeEntitiesInfo ns n [] []])%list (enclave i))
                  (participants_ gc) K) as U.
    simpl in U. rewrite length_app in U. simpl in U. lia.
  - intros p n ns o H. unfold remove_node in H.
    destruct (find_gid p (participants_ gc)) as [info |] eqn:K; [| discriminate].
    destruct (erase_first _ _) as [nodes |] eqn:E; [| discriminate].
    inversion H; subst; simpl. apply erase_first_length in E.
    pose proof (number_of_nodes_update p
                  (fun i => mk_ParticipantInfo nodes (enclave i)) (participants_ gc) K) as U.
    simpl in U. lia.
  - assert (M : forall p n ns func o,
              modify_and_notify p n ns func gc = Some o ->
              __get_number_of_nodes (participants_ (cache o))
              = __get_number_of_nodes (participants_ gc)).
    { intros p n ns func o H. unfold modify_and_notify, __modify_node_info in H.
      destruct (find_gid p (participants_ gc)) as [info |] eqn:K; [| discriminate].
      destruct (modify_first _ _ _) as [nodes |] eqn:E; [| discriminate].
      inversion H; subst; simpl. apply modify_first_length in E.
      pose proof (number_of_nodes_update p
                    (fun i => mk_ParticipantInfo nodes (enclave i)) (participants_ gc) K)
        as U.
      simpl in U. lia. }
    intros g p n ns o [H | [H | [H | H]]]; eapply M; exact H.
  - intros p e. unfold add_participant. simpl.
    destruct (find_gid p (find_or_emplace_participant p (participants_ gc)))
      as [info |] eqn:K.
    + pose proof (number_of_nodes_update p
                    (fun i => mk_ParticipantInfo (node_entities_info_seq i) e) _ K) as U.
      simpl in U. rewrite number_of_nodes_find_or_emplace in U. lia.
    + rewrite find_or_emplace_participant_same in K. discriminate.
  - intros m. unfold update_participant_entities. simpl.
    set (p := convert_msg_to_gid (msg.gid m)).
    pose proof (find_or_emplace_participant_same p (participants_ gc)) as K.
    pose proof (number_of_nodes_update p
                  (fun i => mk_ParticipantInfo (msg.node_entities_info_seq m) (enclave i))
                  _ K) as U.
    simpl in U. rewrite number_of_nodes_find_or_emplace in U.
    destruct (find_gid p (participants_ gc)); simpl in U; lia.
  - intros p O. unfold remove_participant. simpl.
    destruct (find_gid p (participants_ gc)) as [info |] eqn:K.
    + apply number_of_nodes_erase; [| exact K].
      apply cache_ordered_parts in O. destruct O as (_ & _ & P).
      apply (@keys_ascending_NoDup _ Compare_rmw_gid_t _ Compare_rmw_gid_t_irrefl).
      exact P.
    + rewrite (map_erase_absent _ _ _ K). simpl. lia.
Qed.

Lemma copy_nodes_next (with_enclaves : bool) (e : string)
    (nodes : list msg.NodeEntitiesInfo) :
  forall a a' rows,
    copy_nodes with_enclaves e nodes a = (Next rows, a') ->
    rows = map (fun node => mk_node_row (c_str (msg.node_name node))
                              (c_str (msg.node_namespace node))
                              (if with_enclaves then Some (c_str e) else None)) nodes.
Proof.
  induction nodes as [| node nodes IH]; simpl; intros a a' rows H.
  - inversion H. reflexivity.
  - apply seq_next in H. destruct H as (n1 & s1 & H1 & H).
    apply seq_next in H. destruct H as (n2 & s2 & H2 & H).
    apply seq_next in H. destruct H as (n3 & s3 & H3 & H).
    apply seq_next in H. destruct H as (rs & s4 & H4 & H).
    apply strdup_next in H1, H2. apply IH in H4. inversion H; subst.
    rewrite !c_str_idempotent. f_equal. f_equal. destruct with_enclaves.
    + apply seq_next in H3. destruct H3 as (x & s5 & H5 & H6).
      apply strdup_next in H5. inversion H6. rewrite c_str_idempotent in H5. congruence.
    + inversion H3. reflexivity.
Qed.

Lemma copy_nodes_leaves (with_enclaves : bool) (e : string)
    (nodes : list msg.NodeEntitiesInfo) :
  forall a a' r, copy_nodes with_enclaves e nodes a = (Leave r, a') -> r = RMW_RET_BAD_ALLOC.
Proof.
  induction nodes as [| node nodes IH]; simpl; intros a a' r H; [discriminate |].
  apply seq_leaves in H. destruct H as [H | (n1 & s1 & _ & H)];
    [eapply strdup_leaves; exact H |].
  apply seq_leaves in H. destruct H as [H | (n2 & s2 & _ & H)];
    [eapply strdup_leaves; exact H |].
  apply seq_leaves in H. destruct H as [H | (n3 & s3 & _ & H)].
  - destruct with_enclaves; [| discriminate].
    apply seq_leaves in H. destruct H as [H | (x & s5 & _ & H)];
      [eapply strdup_leaves; exact H | discriminate].
  - apply seq_leaves in H. destruct H as [H | (rs & s4 & _ & H)]; [eauto | discriminate].
Qed.

Lemma copy_nodes_unlimited (with_enclaves : bool) (e : string)
    (nodes : list msg.NodeEntitiesInfo) (a : rcutils_allocator_t) :
  requests a = [] -> exists rows, copy_nodes with_enclaves e nodes a = (Next rows, a).
Proof.
  intros R. induction nodes as [| node nodes IH]; simpl; [eexists; reflexivity |].
  destruct IH as (rows & IH). unfold seq at 1 2.
  rewrite !(strdup_unlimited _ a R).
  destruct with_enclaves; unfold seq, pure; rewrite ?(strdup_unlimited _ a R), IH;
    eexists; reflexivity.
Qed.

Lemma copy_participants_next (with_enclaves : bool) (m : ParticipantToNodesMap) :
  forall a a' rows,
    copy_participants with_enclaves m a = (Next rows, a') ->
    map (fun r => (row_name r, row_namespace r)) rows
    = map fst (node_rows m)
    /\ (with_enclaves = true ->
        map (fun r => match row_enclave r with Some e => e | None => ""%string end) rows
        = map snd (node_rows m)).
Proof.
  induction m as [| elem m IH]; simpl; intros a a' rows H.
  - inversion H. split; reflexivity.
  - apply seq_next in H. destruct H as (r1 & s1 & H1 & H).
    apply seq_next in H. destruct H as (r2 & s2 & H2 & H).
    inversion H; subst. apply copy_nodes_next in H1. apply IH in H2.
    destruct H2 as [I1 I2]. unfold node_rows in *. simpl.
    rewrite !map_app, I1. split.
    + f_equal. subst r1. rewrite !map_map. reflexivity.
    + intros W. rewrite (I2 W). f_equal. subst r1 with_enclaves.
      rewrite !map_map. reflexivity.
Qed.

Lemma copy_participants_leaves (with_enclaves : bool) (m : ParticipantToNodesMap) :
  forall a a' r,
    copy_participants with_enclaves m a = (Leave r, a') -> r = RMW_RET_BAD_ALLOC.
Proof.
  induction m as [| elem m IH]; simpl; intros a a' r H; [discriminate |].
  apply seq_leaves in H. destruct H as [H | (r1 & s1 & _ & H)];
    [eapply copy_nodes_leaves; exact H |].
  apply seq_leaves in H. destruct H as [H | (r2 & s2 & _ & H)]; [eauto | discriminate].
Qed.

Lemma copy_participants_unlimited (with_enclaves : bool) (m : ParticipantToNodesMap)
    (a : rcutils_allocator_t) :
  requests a = [] -> exists rows, copy_participants with_enclaves m a = (Next rows, a).
Proof.
  intros R. induction m as [| elem m IH]; simpl; [eexists; reflexivity |].
  destruct IH as (rows & IH).
  destruct (copy_nodes_unlimited with_enclaves (enclave (snd elem))
              (node_entities_info_seq (snd elem)) a R) as (r1 & H1).
  unfold seq. rewrite H1, IH. eexists. reflexivity.
Qed.

(** X16.  [get_node_names] returns RMW_RET_INVALID_ARGUMENT and hands
    everything back as it was unless names and namespaces are
    zero-initialised arrays, the enclaves a zero-initialised array or
    null, and the allocator valid.  Otherwise it returns RMW_RET_OK or
    RMW_RET_BAD_ALLOC, OK whenever the allocator serves every request.
    On OK the arrays are parallel, one entry per node, ordered by
    participant in map order and then by the participant's node list:
    the name and namespace of the node and, if enclaves were asked for,
    the enclave of its participant, each as a C string (up to its first
    NUL octet); there are [get_number_of_nodes] entries.  On failure the
    arrays are empty again. *)
Theorem get_node_names_result
    (node_names node_namespaces enclaves : option rcutils_string_array_t)
    (allocator : option rcutils_allocator_t) (gc : GraphCache) :
  let r := get_node_names node_names node_namespaces enclaves allocator gc in
  let rows := node_rows (participants_ gc) in
  (node_names_arguments_valid node_names node_namespaces enclaves allocator = false ->
   r = mk_node_names_result RMW_RET_INVALID_ARGUMENT allocator node_names node_namespaces
         enclaves)
  /\ (node_names_arguments_valid node_names node_namespaces enclaves allocator = true ->
      (node_names_ret r = RMW_RET_OK \/ node_names_ret r = RMW_RET_BAD_ALLOC)
      /\ (forall a, allocator = Some a -> requests a = [] -> node_names_ret r = RMW_RET_OK)
      /\ (node_names_ret r = RMW_RET_OK ->
          node_names_out r = Some (map (fun row => fst (fst row)) rows)
          /\ node_namespaces_out r = Some (map (fun row => snd (fst row)) rows)
          /\ enclaves_out r = match enclaves with
                              | Some _ => Some (map snd rows)
                              | None => None
                              end
          /\ List.length rows = get_number_of_nodes gc)
      /\ (node_names_ret r = RMW_RET_BAD_ALLOC ->
          node_names_out r = Some [] /\ node_namespaces_out r = Some []
          /\ enclaves_out r = match enclaves with
                              | Some _ => Some []
                              | None => None
                              end)).
Proof.
  cbv zeta. unfold node_names_arguments_valid, get_node_names. split.
  - intros V.
    destruct (string_array_is_zero node_names); [| reflexivity].
    destruct (string_array_is_zero node_namespaces); [| reflexivity].
    simpl in V |- *.
    destruct enclaves as [e |].
    + destruct (string_array_is_zero (Some e)); [| reflexivity]. simpl in V |- *.
      destruct allocator as [a |]; [| reflexivity]. rewrite V. reflexivity.
    + simpl in V |- *. destruct allocator as [a |]; [| reflexivity].
      rewrite V. reflexivity.
  - intros V. rewrite !andb_true_iff in V. destruct V as (((V1 & V2) & V3) & V4).
    rewrite V1, V2. simpl negb. cbv iota.
    destruct allocator as [a |]; [| discriminate]. rewrite V4.
    assert (E : match enclaves with
                | Some _ => negb (string_array_is_zero enclaves)
                | None => false
                end = false).
    { destruct enclaves; [rewrite V3 |]; reflexivity. }
    rewrite E. simpl negb. cbv iota.
    set (with_enclaves := match enclaves with Some _ => true | None => false end).
    set (body := seq allocate_or_return _).
    assert (W : forall X (x : X),
              (if with_enclaves then Some x else None)
              = match enclaves with Some _ => Some x | None => None end)
      by (intros; destruct enclaves; reflexivity).
    destruct (body a) as [[rows | ret] a'] eqn:B; simpl.
    + assert (C : exists s, copy_participants with_enclaves (participants_ gc) s
                            = (Next rows, a')).
      { unfold body in B.
        apply seq_next in B. destruct B as (u1 & s1 & _ & B).
        apply seq_next in B. destruct B as (u2 & s2 & _ & B).
        apply seq_next in B. destruct B as (u3 & s3 & _ & B). eauto. }
      destruct C as (s & C). apply copy_participants_next in C. destruct C as [C1 C2].
      split; [left; reflexivity |]. split; [reflexivity |].
      split; [| discriminate]. intros _.
      rewrite <- !(map_map fst), <- C1, !map_map. simpl.
      split; [reflexivity |]. split; [reflexivity |]. split.
      * clear W B body. unfold with_enclaves in *. destruct enclaves; [| reflexivity].
        rewrite (C2 eq_refl). reflexivity.
      * unfold get_number_of_nodes. symmetry. apply get_number_of_nodes_rows.
    + split; [right; reflexivity |]. split; [| split; [discriminate |]].
      * intros a0 A0 R. inversion A0; subst a0. exfalso.
        destruct (copy_participants_unlimited with_enclaves (participants_ gc) a R)
          as (rows & C).
        unfold body, seq in B. rewrite !(allocate_unlimited a R) in B.
        destruct with_enclaves; unfold pure in B;
          rewrite ?(allocate_unlimited a R), C in B; discriminate B.
      * intros _. split; [reflexivity |]. split; [reflexivity |]. apply W.
Qed.

Lemma get_node_names_result_witness :
  node_names_arguments_valid (Some []) (Some []) (Some [])
    (Some rcutils_get_default_allocator) = true
  /\ get_node_names (Some []) (Some []) (Some []) (Some rcutils_get_default_allocator)
       talker_cache
     = mk_node_names_result RMW_RET_OK (Some rcutils_get_default_allocator)
         (Some ["talker"]) (Some [""]) (Some ["encA"])
  /\ node_names_ret
       (get_node_names (Some []) (Some []) (Some []) (Some rcutils_get_default_allocator)
          talker_cache) = RMW_RET_OK.
Proof.
  split; [reflexivity |]. split; [reflexivity |].
  apply (proj1 (proj2 (proj2 (@get_node_names_result (Some []) (Some []) (Some [])
                                 (Some rcutils_get_default_allocator) talker_cache)
                               eq_refl))
           rcutils_get_default_allocator eq_refl eq_refl).
Defined.

(** A node whose name holds a NUL octet is listed up to that octet. *)
Example get_node_names_name_with_nul :
  let name := String "t" (String "a" (String "l" (String zero "ker"))) in
  let gc :=
    cache (update_participant_entities
             (msg.mk_ParticipantEntitiesInfo (convert_gid_to_msg G1)
                [msg.mk_NodeEntitiesInfo "/ns" name [] []])
             talker_cache) in
  get_node_names (Some []) (Some []) (Some []) (Some rcutils_get_default_allocator) gc
  = mk_node_names_result RMW_RET_OK (Some rcutils_get_default_allocator)
      (Some ["tal"]) (Some ["/ns"]) (Some ["encA"]).
Proof. vm_compute. reflexivity. Qed.

(* ===================================================================== *)
(** * Part XVIII.  Properties of the names and types of the graph         *)
(* ===================================================================== *)

Lemma get_names_and_types_listed (entities : EntityGidToInfo) (dt dty : string -> string) :
  forall (topics : NamesAndTypes) (topic y : string),
    listed (__get_names_and_types entities dt dty topics) topic y
    <-> listed topics topic y \/ from_entities entities dt dty topic y.
Proof.
  unfold __get_names_and_types.
  induction entities as [| [gid info] entities IH]; simpl; intros topics topic y.
  - split; [auto |]. intros [H | (g & i & [] & _)]. exact H.
  - rewrite IH. destruct (dt (topic_name info) =? "")%string eqn:Z; simpl.
    + apply String.eqb_eq in Z. split.
      * intros [H | (g & i & H1 & H2)]; [auto |]. right. exists g, i. simpl. tauto.
      * intros [H | (g & i & [H1 | H1] & H2 & H3 & H4)]; [auto | |].
        -- inversion H1; subst. congruence.
        -- right. exists g, i. auto.
    + apply String.eqb_neq in Z. rewrite names_and_types_insert_listed. split.
      * intros [[[-> ->] | H] | (g & i & H1 & H2)]; [| auto |].
        -- right. exists gid, info. simpl. auto.
        -- right. exists g, i. simpl. tauto.
      * intros [H | (g & i & [H1 | H1] & H2 & H3 & H4)]; [auto | |].
        -- inversion H1; subst. left. left. auto.
        -- right. exists g, i. auto.
Qed.

(** X17.  [get_names_and_types] returns RMW_RET_INVALID_ARGUMENT and
    hands its arguments back unless the allocator is valid and the
    output zero-initialised.  Otherwise it returns RMW_RET_OK or
    RMW_RET_BAD_ALLOC (OK whenever the allocator serves every request);
    on OK a type is listed under a topic exactly when they are the C
    strings (the text up to its first NUL octet) of the demangled type
    and of the demangled topic name of some data reader or data writer
    of the cache, the demangled topic name not being empty; on failure
    the output is the zero structure. *)
Theorem get_names_and_types_result
    (demangle_topic demangle_type : string -> string)
    (allocator : option rcutils_allocator_t)
    (topic_names_and_types : option rmw_names_and_types_t) (gc : GraphCache) :
  let query :=
    get_names_and_types demangle_topic demangle_type allocator topic_names_and_types gc in
  let valid :=
    match allocator with Some a => is_valid a | None => false end
    && names_and_types_is_zero topic_names_and_types in
  (valid = false -> query = (RMW_RET_INVALID_ARGUMENT, allocator, topic_names_and_types))
  /\ (valid = true ->
      exists ret a' out,
        query = (ret, Some a', Some out)
        /\ (ret = RMW_RET_OK \/ ret = RMW_RET_BAD_ALLOC)
        /\ (forall a, allocator = Some a -> requests a = [] -> ret = RMW_RET_OK)
        /\ (ret = RMW_RET_OK ->
            forall topic type,
              listed (entries out) topic type
              <-> exists t ty,
                    (from_entities (data_readers_ gc) demangle_topic demangle_type t ty
                     \/ from_entities (data_writers_ gc) demangle_topic demangle_type
                          t ty)
                    /\ c_str t = topic /\ c_str ty = type)
        /\ (ret <> RMW_RET_OK -> out = rmw_get_zero_initialized_names_and_types)).
Proof.
  cbv zeta. unfold get_names_and_types. split.
  - intros V. destruct allocator as [a |]; [| reflexivity].
    simpl in V. destruct (is_valid a); [| reflexivity]. simpl in V |- *.
    destruct topic_names_and_types as [out |]; [| reflexivity].
    rewrite V. reflexivity.
  - intros V. apply andb_true_iff in V. destruct V as [V1 V2].
    destruct allocator as [a |]; [| discriminate]. rewrite V1. simpl negb. cbv iota.
    destruct topic_names_and_types as [out |]; [| discriminate].
    rewrite V2. simpl negb. cbv iota.
    assert (Z : out = rmw_get_zero_initialized_names_and_types).
    { destruct out as [[| x xs] [| y ys]]; try discriminate. reflexivity. }
    subst out.
    destruct (__populate_rmw_names_and_types _ a rmw_get_zero_initialized_names_and_types)
      as [[ret a'] out'] eqn:R.
    exists ret, a', out'. split; [reflexivity |].
    apply populate_rmw_names_and_types_result in R. destruct R as (R1 & R2 & R3 & R4).
    split; [exact R1 |]. split; [| split; [| exact R4]].
    + intros a0 A0. inversion A0; subst a0. exact R2.
    + intros O topic type. rewrite (R3 O), listed_c_items. split.
      * intros (t & ty & L & E1 & E2). exists t, ty. split; [| auto].
        rewrite !get_names_and_types_listed in L.
        destruct L as [[(tys & [] & _) | H] | H]; auto.
      * intros (t & ty & L & E1 & E2). exists t, ty. split; [| auto].
        rewrite !get_names_and_types_listed. destruct L as [H | H]; auto.
Qed.

Lemma get_names_and_types_result_witness :
  get_names_and_types (fun t => t) (fun t => t) (Some rcutils_get_default_allocator)
    (Some rmw_get_zero_initialized_names_and_types) talker_cache
  = (RMW_RET_OK, Some rcutils_get_default_allocator,
     Some {| names := ["/chatter"]; types := [["std/String"]] |})
  /\ exists ret a' out,
       get_names_and_types (fun t => t) (fun t => t) (Some rcutils_get_default_allocator)
         (Some rmw_get_zero_initialized_names_and_types) talker_cache
       = (ret, Some a', Some out)
       /\ (ret = RMW_RET_OK \/ ret = RMW_RET_BAD_ALLOC).
Proof.
  split; [reflexivity |].
  destruct (proj2 (@get_names_and_types_result (fun t => t) (fun t => t)
                     (Some rcutils_get_default_allocator)
                     (Some rmw_get_zero_initialized_names_and_types) talker_cache)
              eq_refl) as (ret & a' & out & H1 & H2 & _).
  exists ret, a', out. split; assumption.
Defined.

(** Topic names that hold a NUL octet are keys of their own in the map
    and are listed up to that octet: an empty name, and the name /a
    twice. *)
Example names_and_types_with_nul :
  let gc :=
    cache (add_writer (gid_of Byte.x13) (String zero "x") "T3"
             rosidl_get_zero_initialized_type_hash G1 QOS_R_V
    (cache (add_writer W2 (String "/" (String "a" (String zero "b"))) "T2"
             rosidl_get_zero_initialized_type_hash G1 QOS_R_V
    (cache (add_writer W1 "/a" "T1"
             rosidl_get_zero_initialized_type_hash G1 QOS_R_V GraphCache_empty))))) in
  get_names_and_types (fun t => t) (fun t => t) (Some rcutils_get_default_allocator)
    (Some rmw_get_zero_initialized_names_and_types) gc
  = (RMW_RET_OK, Some rcutils_get_default_allocator,
     Some {| names := [""; "/a"; "/a"]; types := [["T3"]; ["T1"]; ["T2"]] |}).
Proof. vm_compute. reflexivity. Qed.

Lemma names_and_types_by_node_ok
    (is_reader : bool) (gc : GraphCache) (name namespace_ : string)
    (dt dty : string -> string) (a : rcutils_allocator_t)
    (a' : option rcutils_allocator_t) (out : rmw_names_and_types_t) :
  get_names_and_types_by_node is_reader name namespace_ dt dty (Some a)
    (Some rmw_get_zero_initialized_names_and_types) gc
  = (RMW_RET_OK, a', Some out) ->
  exists node,
    __find_node (participants_ gc) name namespace_ = Some node
    /\ entries out
       = c_items (__get_names_and_types_from_gids (entities_of is_reader gc)
                    (node_gids is_reader node) dt dty).
Proof.
  intros H.
  assert (Q : __get_names_and_types_by_node (participants_ gc) (entities_of is_reader gc)
                name namespace_ dt dty (node_gids is_reader)
                (Some a) (Some rmw_get_zero_initialized_names_and_types)
              = (RMW_RET_OK, a', Some out))
    by (destruct is_reader; exact H).
  clear H. unfold __get_names_and_types_by_node in Q.
  destruct (negb (is_valid a)); [discriminate |]. simpl in Q.
  destruct (__find_node (participants_ gc) name namespace_) as [node |];
    [| discriminate].
  exists node. split; [reflexivity |].
  destruct (__populate_rmw_names_and_types _ a rmw_get_zero_initialized_names_and_types)
    as [[ret a1] out1] eqn:R.
  inversion Q; subst.
  apply populate_rmw_names_and_types_result in R. destruct R as (_ & _ & R & _).
  apply R. reflexivity.
Qed.

Lemma get_names_and_types_ok
    (gc : GraphCache) (dt dty : string -> string) (a : rcutils_allocator_t)
    (a' : option rcutils_allocator_t) (out : rmw_names_and_types_t) :
  get_names_and_types dt dty (Some a) (Some rmw_get_zero_initialized_names_and_types) gc
  = (RMW_RET_OK, a', Some out) ->
  entries out
  = c_items (__get_names_and_types (data_writers_ gc) dt dty
               (__get_names_and_types (data_readers_ gc) dt dty [])).
Proof.
  unfold get_names_and_types.
  destruct (negb (is_valid a)); [discriminate |]. simpl.
  destruct (__populate_rmw_names_and_types _ a rmw_get_zero_initialized_names_and_types)
    as [[ret a1] out1] eqn:R.
  intros Q. inversion Q; subst.
  apply populate_rmw_names_and_types_result in R. destruct R as (_ & _ & R & _).
  apply R. reflexivity.
Qed.

(** X18.  The by-node queries agree with the graph query: whatever a
    successful [get_writer_names_and_types_by_node] or
    [get_reader_names_and_types_by_node] lists for a node, a successful
    [get_names_and_types] with the same demangling functions lists for
    the graph. *)
Theorem names_and_types_of_node_within_graph
    (is_reader : bool) (gc : GraphCache) (name namespace_ : string)
    (demangle_topic demangle_type : string -> string)
    (a b : rcutils_allocator_t) (a' b' : option rcutils_allocator_t)
    (of_node of_graph : rmw_names_and_types_t)
    (node_query :
       get_names_and_types_by_node is_reader name namespace_ demangle_topic demangle_type
         (Some a) (Some rmw_get_zero_initialized_names_and_types) gc
       = (RMW_RET_OK, a', Some of_node))
    (graph_query :
       get_names_and_types demangle_topic demangle_type (Some b)
         (Some rmw_get_zero_initialized_names_and_types) gc
       = (RMW_RET_OK, b', Some of_graph)) :
  forall topic type,
    listed (entries of_node) topic type -> listed (entries of_graph) topic type.
Proof.
  intros topic type L.
  apply names_and_types_by_node_ok in node_query.
  destruct node_query as (node & _ & E).
  apply get_names_and_types_ok in graph_query.
  rewrite E in L. rewrite graph_query.
  apply listed_c_items in L. destruct L as (t & ty & L & E1 & E2).
  apply listed_c_items. exists t, ty. split; [| auto].
  unfold __get_names_and_types_from_gids in L.
  apply names_and_types_from_gids_listed in L.
  destruct L as [(tys & [] & _) | (gid & info & _ & F & T & N & Y)].
  apply map_find_In in F. destruct F as (k & I).
  rewrite !get_names_and_types_listed.
  destruct is_reader; [left; right | right]; exists k, info; auto.
Qed.

Lemma names_and_types_of_node_within_graph_witness :
  listed [("/chatter", ["std/String"])] "/chatter" "std/String"
  /\ listed
       (entries {| names := ["/chatter"]; types := [["std/String"]] |})
       "/chatter" "std/String".
Proof.
  assert (L : listed [("/chatter", ["std/String"])] "/chatter" "std/String").
  { exists ["std/String"]. split; left; reflexivity. }
  split; [exact L |].
  exact (@names_and_types_of_node_within_graph false talker_cache "talker" ""
           (fun t => t) (fun t => t)
           rcutils_get_default_allocator rcutils_get_default_allocator
           (Some rcutils_get_default_allocator) (Some rcutils_get_default_allocator)
           {| names := ["/chatter"]; types := [["std/String"]] |}
           {| names := ["/chatter"]; types := [["std/String"]] |}
           eq_refl eq_refl "/chatter" "std/String" L).
Defined.

(* ===================================================================== *)
(** * Part XIX.  Resolution against the peers                             *)
(* ===================================================================== *)

Lemma filter_all_length (A : Type) (f : A -> bool) (l : list A) :
  Nat.eqb (List.length (filter f l)) (List.length l) = forallb f l.
Proof.
  induction l as [| x l IH]; simpl; [reflexivity |].
  destruct (f x); simpl; [exact IH |].
  pose proof (filter_length_le f l) as L.
  apply Nat.eqb_neq. lia.
Qed.

Lemma time_lt_antisym (a b : rmw_time_t) :
  time_lt a b = false -> time_lt b a = false -> a = b.
Proof.
  rewrite !time_lt_false_spec. intros H1 H2.
  destruct a as [sa na], b as [sb nb]; simpl in *.
  assert (sa = sb) by lia. assert (na = nb) by lia. subst. reflexivity.
Qed.

Lemma time_zero_least (t : rmw_time_t) : time_lt t (mk_time 0 0) = false.
Proof. apply time_lt_false_spec. simpl. lia. Qed.

Section SubscriptionTally.
Context {E : rmw_externals}.

Lemma subscription_tally_counts (infos : rmw_topic_endpoint_info_array_t) :
  forall t,
    let t' := fold_left subscription_tally_step infos t in
    number_of_reliable t'
    = number_of_reliable t
      + List.length (filter (fun info => reliability_eqb RMW_QOS_POLICY_RELIABILITY_RELIABLE
                                           (reliability (endpoint.qos_profile info))) infos)
    /\ number_of_transient_local t'
       = number_of_transient_local t
         + List.length (filter (fun info =>
                                  durability_eqb RMW_QOS_POLICY_DURABILITY_TRANSIENT_LOCAL
                                    (durability (endpoint.qos_profile info))) infos)
    /\ number_of_manual_by_topic t'
       = number_of_manual_by_topic t
         + List.length (filter (fun info =>
                                  liveliness_eqb RMW_QOS_POLICY_LIVELINESS_MANUAL_BY_TOPIC
                                    (liveliness (endpoint.qos_profile info))) infos).
Proof.
  induction infos as [| info infos IH]; intros t; cbn [fold_left filter].
  - simpl. repeat split; lia.
  - destruct (IH (subscription_tally_step t info)) as (H1 & H2 & H3).
    cbv zeta in *. rewrite H1, H2, H3. unfold subscription_tally_step.
    cbn [number_of_reliable number_of_transient_local number_of_manual_by_topic].
    destruct (reliability_eqb _ _), (durability_eqb _ _), (liveliness_eqb _ _);
      simpl; repeat split; lia.
Qed.

Lemma subscription_tally_use_default (infos : rmw_topic_endpoint_info_array_t) :
  forall t,
    let t' := fold_left subscription_tally_step infos t in
    sub_use_default_deadline t'
    = sub_use_default_deadline t
      && match observed_deadlines infos with [] => true | _ :: _ => false end
    /\ sub_use_default_liveliness_lease_duration t'
       = sub_use_default_liveliness_lease_duration t
         && match observed_leases infos with [] => true | _ :: _ => false end.
Proof.
  induction infos as [| info infos IH]; intros t; cbn [fold_left].
  - simpl. rewrite !andb_true_r. split; reflexivity.
  - destruct (IH (subscription_tally_step t info)) as (H1 & H2).
    cbv zeta in *. rewrite H1, H2. unfold observed_deadlines, observed_leases. simpl.
    destruct (time_ne (deadline (endpoint.qos_profile info)) deadline_default),
             (time_ne (liveliness_lease_duration (endpoint.qos_profile info))
                      liveliness_lease_duration_default);
      simpl; rewrite ?andb_false_r; split; reflexivity.
Qed.

Lemma greatest_of_skip (m0 d r : rmw_time_t) (l : list rmw_time_t) :
  greatest_of (m0 :: l) r -> time_lt m0 d = false -> greatest_of (m0 :: d :: l) r.
Proof.
  intros [Hin Hle] Hd. split.
  - destruct Hin as [-> | Hin]; [left; reflexivity | right; right; exact Hin].
  - intros t [<- | [<- | Ht]].
    + apply Hle. left; reflexivity.
    + apply (time_lt_false_trans d m0 r); [exact Hd | apply Hle; left; reflexivity].
    + apply Hle. right; exact Ht.
Qed.

Lemma greatest_of_take (m0 d r : rmw_time_t) (l : list rmw_time_t) :
  greatest_of (d :: l) r -> time_lt m0 d = true -> greatest_of (m0 :: d :: l) r.
Proof.
  intros [Hin Hle] Hd. split.
  - right; exact Hin.
  - intros t [<- | Ht].
    + apply (time_lt_false_trans m0 d r);
        [apply time_lt_asym; exact Hd | apply Hle; left; reflexivity].
    + apply Hle; exact Ht.
Qed.

Lemma subscription_tally_largest_deadline (infos : rmw_topic_endpoint_info_array_t) :
  forall t,
    greatest_of (largest_deadline t :: observed_deadlines infos)
                (largest_deadline (fold_left subscription_tally_step infos t)).
Proof.
  induction infos as [| info infos IH]; intros t.
  - simpl. split; [left; reflexivity |].
    intros x [<- | []]. apply time_lt_irrefl.
  - simpl fold_left. specialize (IH (subscription_tally_step t info)).
    unfold observed_deadlines in *. simpl in *.
    destruct (time_ne (deadline (endpoint.qos_profile info)) deadline_default); simpl.
    + destruct (time_lt (largest_deadline t) (deadline (endpoint.qos_profile info))) eqn:L.
      * apply greatest_of_take; assumption.
      * apply greatest_of_skip; assumption.
    + exact IH.
Qed.

Lemma subscription_tally_largest_lease (infos : rmw_topic_endpoint_info_array_t) :
  forall t,
    greatest_of (largest_liveliness_lease_duration t :: observed_leases infos)
                (largest_liveliness_lease_duration
                   (fold_left subscription_tally_step infos t)).
Proof.
  induction infos as [| info infos IH]; intros t.
  - simpl. split; [left; reflexivity |].
    intros x [<- | []]. apply time_lt_irrefl.
  - simpl fold_left. specialize (IH (subscription_tally_step t info)).
    unfold observed_leases in *. simpl in *.
    destruct (time_ne (liveliness_lease_duration (endpoint.qos_profile info))
                      liveliness_lease_duration_default); simpl.
    + destruct (time_lt (largest_liveliness_lease_duration t)
                        (liveliness_lease_duration (endpoint.qos_profile info))) eqn:L.
      * apply greatest_of_take; assumption.
      * apply greatest_of_skip; assumption.
    + exact IH.
Qed.

(** From the zero duration the loop starts with, the greatest element
    found is one of the values observed, if there is any. *)
Lemma greatest_from_zero (l : list rmw_time_t) (r : rmw_time_t) :
  l <> [] -> greatest_of (mk_time 0 0 :: l) r -> greatest_of l r.
Proof.
  intros N [Hin Hle]. split; [| intros t Ht; apply Hle; right; exact Ht].
  destruct Hin as [<- | Hin]; [| exact Hin].
  destruct l as [| x l]; [contradiction N; reflexivity |].
  assert (X : x = mk_time 0 0).
  { apply time_lt_antisym; [apply time_zero_least | apply Hle; right; left; reflexivity]. }
  left. exact X.
Qed.

End SubscriptionTally.

Section SubscriptionResolution.
Context {E : rmw_externals}.

(** The profile a subscription is resolved to, policy by policy. *)
Lemma best_available_for_subscription_fields
    (publishers : rmw_topic_endpoint_info_array_t) (p : rmw_qos_profile_t) :
  exists p',
    qos_profile_get_best_available_for_subscription (Some publishers) (Some p)
    = (RMW_RET_OK, Some p')
    /\ reliability p'
       = (if reliability_eqb RMW_QOS_POLICY_RELIABILITY_BEST_AVAILABLE (reliability p)
          then if all_reliable publishers then RMW_QOS_POLICY_RELIABILITY_RELIABLE
               else RMW_QOS_POLICY_RELIABILITY_BEST_EFFORT
          else reliability p)
    /\ durability p'
       = (if durability_eqb RMW_QOS_POLICY_DURABILITY_BEST_AVAILABLE (durability p)
          then if all_transient_local publishers
               then RMW_QOS_POLICY_DURABILITY_TRANSIENT_LOCAL
               else RMW_QOS_POLICY_DURABILITY_VOLATILE
          else durability p)
    /\ liveliness p'
       = (if liveliness_eqb RMW_QOS_POLICY_LIVELINESS_BEST_AVAILABLE (liveliness p)
          then if all_manual_by_topic publishers
               then RMW_QOS_POLICY_LIVELINESS_MANUAL_BY_TOPIC
               else RMW_QOS_POLICY_LIVELINESS_AUTOMATIC
          else liveliness p)
    /\ (time_eq RMW_QOS_DEADLINE_BEST_AVAILABLE (deadline p) = false ->
        deadline p' = deadline p)
    /\ (time_eq RMW_QOS_DEADLINE_BEST_AVAILABLE (deadline p) = true ->
        observed_deadlines publishers = [] ->
        deadline p' = RMW_QOS_DEADLINE_DEFAULT)
    /\ (time_eq RMW_QOS_DEADLINE_BEST_AVAILABLE (deadline p) = true ->
        observed_deadlines publishers <> [] ->
        greatest_of (observed_deadlines publishers) (deadline p'))
    /\ (time_eq RMW_QOS_LIVELINESS_LEASE_DURATION_BEST_AVAILABLE
                (liveliness_lease_duration p) = false ->
        liveliness_lease_duration p' = liveliness_lease_duration p)
    /\ (time_eq RMW_QOS_LIVELINESS_LEASE_DURATION_BEST_AVAILABLE
                (liveliness_lease_duration p) = true ->
        observed_leases publishers = [] ->
        liveliness_lease_duration p' = RMW_QOS_LIVELINESS_LEASE_DURATION_DEFAULT)
    /\ (time_eq RMW_QOS_LIVELINESS_LEASE_DURATION_BEST_AVAILABLE
                (liveliness_lease_duration p) = true ->
        observed_leases publishers <> [] ->
        greatest_of (observed_leases publishers) (liveliness_lease_duration p'))
    /\ history p' = history p /\ depth p' = depth p /\ lifespan p' = lifespan p.
Proof.
  eexists. split; [apply best_available_for_subscription_unfold |].
  cbv zeta.
  set (t := fold_left subscription_tally_step publishers subscription_tally_init).
  destruct (subscription_tally_counts publishers subscription_tally_init)
    as (C1 & C2 & C3).
  destruct (subscription_tally_use_default publishers subscription_tally_init)
    as (U1 & U2).
  pose proof (subscription_tally_largest_deadline publishers subscription_tally_init) as G1.
  pose proof (subscription_tally_largest_lease publishers subscription_tally_init) as G2.
  cbv zeta in *. fold t in C1, C2, C3, U1, U2, G1, G2.
  simpl in C1, C2, C3, U1, U2, G1, G2.
  rewrite C1, C2, C3, !filter_all_length, U1, U2.
  fold (all_reliable publishers) (all_transient_local publishers)
       (all_manual_by_topic publishers).
  match goal with
  | |- context [resolve_lease ?ld (resolve_deadline ?dl (resolve_liveliness ?l
                  (resolve_durability ?d (resolve_reliability ?r p))))] =>
    destruct (resolve_all_fields r d l dl ld p) as (F1 & F2 & F3 & F4 & F5 & F6)
  end.
  cbv zeta in F1, F2, F3, F4, F5, F6.
  split; [exact F1 |]. split; [exact F2 |]. split; [exact F3 |].
  split; [intros B; rewrite F4, B; reflexivity |].
  split; [intros B O; rewrite F4, B, O; reflexivity |].
  split.
  { intros B O. rewrite F4, B.
    destruct (observed_deadlines publishers) eqn:Obs; [contradiction O; reflexivity |].
    rewrite <- Obs in *. apply greatest_from_zero; assumption. }
  split; [intros B; rewrite F5, B; reflexivity |].
  split; [intros B O; rewrite F5, B, O; reflexivity |].
  split.
  { intros B O. rewrite F5, B.
    destruct (observed_leases publishers) eqn:Obs; [contradiction O; reflexivity |].
    rewrite <- Obs in *. apply greatest_from_zero; assumption. }
  unfold same_fixed_fields in F6. tauto.
Qed.

(** X19.  For every publisher-info array,
    [qos_profile_get_best_available_for_subscription] succeeds; it
    replaces a BEST_AVAILABLE reliability with RELIABLE if every
    publisher is RELIABLE and with BEST_EFFORT otherwise, a
    BEST_AVAILABLE durability with TRANSIENT_LOCAL if every publisher
    is TRANSIENT_LOCAL and with VOLATILE otherwise, a BEST_AVAILABLE
    liveliness with MANUAL_BY_TOPIC if every publisher is
    MANUAL_BY_TOPIC and with AUTOMATIC otherwise; a BEST_AVAILABLE
    deadline (and lease) with DEFAULT if every publisher's is DEFAULT
    and otherwise with the greatest of the non-default values observed.
    A policy that is not BEST_AVAILABLE, and history, depth and
    lifespan, are unchanged. *)
Theorem best_available_for_subscription_resolution
    (publishers : rmw_topic_endpoint_info_array_t) (p : rmw_qos_profile_t) :
  exists p',
    qos_profile_get_best_available_for_subscription (Some publishers) (Some p)
    = (RMW_RET_OK, Some p')
    /\ reliability p'
       = (if reliability_eqb RMW_QOS_POLICY_RELIABILITY_BEST_AVAILABLE (reliability p)
          then if all_reliable publishers then RMW_QOS_POLICY_RELIABILITY_RELIABLE
               else RMW_QOS_POLICY_RELIABILITY_BEST_EFFORT
          else reliability p)
    /\ durability p'
       = (if durability_eqb RMW_QOS_POLICY_DURABILITY_BEST_AVAILABLE (durability p)
          then if all_transient_local publishers
               then RMW_QOS_POLICY_DURABILITY_TRANSIENT_LOCAL
               else RMW_QOS_POLICY_DURABILITY_VOLATILE
          else durability p)
    /\ liveliness p'
       = (if liveliness_eqb RMW_QOS_POLICY_LIVELINESS_BEST_AVAILABLE (liveliness p)
          then if all_manual_by_topic publishers
               then RMW_QOS_POLICY_LIVELINESS_MANUAL_BY_TOPIC
               else RMW_QOS_POLICY_LIVELINESS_AUTOMATIC
          else liveliness p)
    /\ (time_eq RMW_QOS_DEADLINE_BEST_AVAILABLE (deadline p) = false ->
        deadline p' = deadline p)
    /\ (time_eq RMW_QOS_DEADLINE_BEST_AVAILABLE (deadline p) = true ->
        observed_deadlines publishers = [] ->
        deadline p' = RMW_QOS_DEADLINE_DEFAULT)
    /\ (time_eq RMW_QOS_DEADLINE_BEST_AVAILABLE (deadline p) = true ->
        observed_deadlines publishers <> [] ->
        greatest_of (observed_deadlines publishers) (deadline p'))
    /\ (time_eq RMW_QOS_LIVELINESS_LEASE_DURATION_BEST_AVAILABLE
                (liveliness_lease_duration p) = false ->
        liveliness_lease_duration p' = liveliness_lease_duration p)
    /\ (time_eq RMW_QOS_LIVELINESS_LEASE_DURATION_BEST_AVAILABLE
                (liveliness_lease_duration p) = true ->
        observed_leases publishers = [] ->
        liveliness_lease_duration p' = RMW_QOS_LIVELINESS_LEASE_DURATION_DEFAULT)
    /\ (time_eq RMW_QOS_LIVELINESS_LEASE_DURATION_BEST_AVAILABLE
                (liveliness_lease_duration p) = true ->
        observed_leases publishers <> [] ->
        greatest_of (observed_leases publishers) (liveliness_lease_duration p'))
    /\ history p' = history p /\ depth p' = depth p /\ lifespan p' = lifespan p.
Proof.
  eexists. split; [apply best_available_for_subscription_unfold |].
  cbv zeta.
  set (t := fold_left subscription_tally_step publishers subscription_tally_init).
  destruct (subscription_tally_counts publishers subscription_tally_init)
    as (C1 & C2 & C3).
  destruct (subscription_tally_use_default publishers subscription_tally_init)
    as (U1 & U2).
  pose proof (subscription_tally_largest_deadline publishers subscription_tally_init) as G1.
  pose proof (subscription_tally_largest_lease publishers subscription_tally_init) as G2.
  cbv zeta in *. fold t in C1, C2, C3, U1, U2, G1, G2.
  simpl in C1, C2, C3, U1, U2, G1, G2.
  rewrite C1, C2, C3, !filter_all_length, U1, U2.
  fold (all_reliable publishers) (all_transient_local publishers)
       (all_manual_by_topic publishers).
  match goal with
  | |- context [resolve_lease ?ld (resolve_deadline ?dl (resolve_liveliness ?l
                  (resolve_durability ?d (resolve_reliability ?r p))))] =>
    destruct (resolve_all_fields r d l dl ld p) as (F1 & F2 & F3 & F4 & F5 & F6)
  end.
  cbv zeta in F1, F2, F3, F4, F5, F6.
  split; [exact F1 |]. split; [exact F2 |]. split; [exact F3 |].
  split; [intros B; rewrite F4, B; reflexivity |].
  split; [intros B O; rewrite F4, B, O; reflexivity |].
  split.
  { intros B O. rewrite F4, B.
    destruct (observed_deadlines publishers) eqn:Obs; [contradiction O; reflexivity |].
    rewrite <- Obs in *. apply greatest_from_zero; assumption. }
  split; [intros B; rewrite F5, B; reflexivity |].
  split; [intros B O; rewrite F5, B, O; reflexivity |].
  split.
  { intros B O. rewrite F5, B.
    destruct (observed_leases publishers) eqn:Obs; [contradiction O; reflexivity |].
    rewrite <- Obs in *. apply greatest_from_zero; assumption. }
  unfold same_fixed_fields in F6. tauto.
Qed.

End SubscriptionResolution.

Section PeerCompatibility.
Context {E : rmw_externals}.

Lemma best_available_for_publisher_fields
    (subscriptions : rmw_topic_endpoint_info_array_t) (p : rmw_qos_profile_t) :
  exists p',
    qos_profile_get_best_available_for_publisher (Some subscriptions) (Some p)
    = (RMW_RET_OK, Some p')
    /\ reliability p'
       = (if reliability_eqb RMW_QOS_POLICY_RELIABILITY_BEST_AVAILABLE (reliability p)
          then RMW_QOS_POLICY_RELIABILITY_RELIABLE else reliability p)
    /\ durability p'
       = (if durability_eqb RMW_QOS_POLICY_DURABILITY_BEST_AVAILABLE (durability p)
          then RMW_QOS_POLICY_DURABILITY_TRANSIENT_LOCAL else durability p)
    /\ liveliness p'
       = (if liveliness_eqb RMW_QOS_POLICY_LIVELINESS_BEST_AVAILABLE (liveliness p)
          then if existsb (fun info =>
                             liveliness_eqb RMW_QOS_POLICY_LIVELINESS_MANUAL_BY_TOPIC
                               (liveliness (endpoint.qos_profile info))) subscriptions
               then RMW_QOS_POLICY_LIVELINESS_MANUAL_BY_TOPIC
               else RMW_QOS_POLICY_LIVELINESS_AUTOMATIC
          else liveliness p)
    /\ (time_eq RMW_QOS_DEADLINE_BEST_AVAILABLE (deadline p) = false ->
        deadline p' = deadline p)
    /\ (time_eq RMW_QOS_DEADLINE_BEST_AVAILABLE (deadline p) = true ->
        observed_deadlines subscriptions = [] ->
        deadline p' = RMW_QOS_DEADLINE_DEFAULT)
    /\ (time_eq RMW_QOS_DEADLINE_BEST_AVAILABLE (deadline p) = true ->
        observed_deadlines subscriptions <> [] ->
        least_of (RMW_DURATION_INFINITE :: observed_deadlines subscriptions) (deadline p'))
    /\ (time_eq RMW_QOS_LIVELINESS_LEASE_DURATION_BEST_AVAILABLE
                (liveliness_lease_duration p) = false ->
        liveliness_lease_duration p' = liveliness_lease_duration p)
    /\ (time_eq RMW_QOS_LIVELINESS_LEASE_DURATION_BEST_AVAILABLE
                (liveliness_lease_duration p) = true ->
        observed_leases subscriptions = [] ->
        liveliness_lease_duration p' = RMW_QOS_LIVELINESS_LEASE_DURATION_DEFAULT)
    /\ (time_eq RMW_QOS_LIVELINESS_LEASE_DURATION_BEST_AVAILABLE
                (liveliness_lease_duration p) = true ->
        observed_leases subscriptions <> [] ->
        least_of (RMW_DURATION_INFINITE :: observed_leases subscriptions)
                 (liveliness_lease_duration p'))
    /\ history p' = history p /\ depth p' = depth p /\ lifespan p' = lifespan p.
Proof.
  eexists. split; [apply best_available_for_publisher_unfold |].
  pose proof (publisher_tally_manual_by_topic subscriptions publisher_tally_init) as HM.
  pose proof (publisher_tally_use_default_deadline subscriptions publisher_tally_init) as HD.
  pose proof (publisher_tally_use_default_lease subscriptions publisher_tally_init) as HL.
  pose proof (publisher_tally_smallest_deadline subscriptions publisher_tally_init) as SD.
  pose proof (publisher_tally_smallest_lease subscriptions publisher_tally_init) as SL.
  cbn [publisher_tally_init use_manual_by_topic pub_use_default_deadline
       pub_use_default_liveliness_lease_duration smallest_deadline
       smallest_liveliness_lease_duration orb andb] in HM, HD, HL, SD, SL.
  set (t := fold_left publisher_tally_step subscriptions publisher_tally_init) in *.
  clearbody t.
  match goal with
  | |- context [resolve_lease ?ld (resolve_deadline ?dl (resolve_liveliness ?l
                  (resolve_durability ?d (resolve_reliability ?r p))))] =>
    destruct (resolve_all_fields r d l dl ld p) as (R1 & R2 & R3 & R4 & R5 & R6 & R7 & R8 & _)
  end.
  rewrite R1, R2, R3, R4, R5, R6, R7, R8, HM, HD, HL.
  repeat match goal with |- _ /\ _ => split end; intros; try reflexivity.
  - match goal with H : _ = false |- _ => rewrite H end. reflexivity.
  - match goal with H : time_eq _ _ = true, H' : _ = [] |- _ => rewrite H, H' end.
    reflexivity.
  - match goal with H : time_eq _ _ = true |- _ => rewrite H end.
    destruct (observed_deadlines subscriptions); [congruence | exact SD].
  - match goal with H : _ = false |- _ => rewrite H end. reflexivity.
  - match goal with H : time_eq _ _ = true, H' : _ = [] |- _ => rewrite H, H' end.
    reflexivity.
  - match goal with H : time_eq _ _ = true |- _ => rewrite H end.
    destruct (observed_leases subscriptions); [congruence | exact SL].
Qed.

Lemma check_compatible_table_verdict
    (pub sub : rmw_qos_profile_t) (c0 : rmw_qos_compatibility_type_t)
    (reason_ptr : option string) (reason_size : nat) :
  (reason_ptr = None -> reason_size = 0) ->
  snd (fst (qos_profile_check_compatible pub sub (Some c0) reason_ptr reason_size))
  = Some (table_verdict pub sub).
Proof.
  intros valid. unfold qos_profile_check_compatible.
  assert (B : forall s, compatibility s = RMW_QOS_COMPATIBILITY_OK ->
              compatibility (snd (check_compatible_body pub sub reason_size s))
              = table_verdict pub sub).
  { intros s Hs. fold (verdict_after (check_compatible_body pub sub reason_size) s).
    rewrite check_compatible_body_verdict, Hs.
    unfold after_rows, table_verdict, table_yields_error.
    destruct (existsb (fun row => row) (error_rows pub sub)); reflexivity. }
  destruct reason_ptr as [text |], reason_size as [| n];
    try (specialize (valid eq_refl); discriminate);
    match goal with
    | |- context [check_compatible_body pub sub ?n ?s] =>
      specialize (B s eq_refl);
      destruct (check_compatible_body pub sub n s) as [f out]
    end; simpl in *; rewrite B; reflexivity.
Qed.

Lemma table_verdict_not_error (pub sub : rmw_qos_profile_t) :
  table_yields_error pub sub = false ->
  table_verdict pub sub <> RMW_QOS_COMPATIBILITY_ERROR.
Proof.
  unfold table_verdict. intros ->.
  destruct (table_yields_warning pub sub); discriminate.
Qed.

End PeerCompatibility.

Lemma least_rows (def inf : rmw_time_t) (ts : list rmw_time_t) (x r : rmw_time_t) :
  In x ts ->
  (filter (fun t => time_ne t def) ts = [] -> r = def) ->
  (filter (fun t => time_ne t def) ts <> [] ->
   least_of (inf :: filter (fun t => time_ne t def) ts) r) ->
  time_eq inf def = false ->
  time_eq r def && time_ne x def = false
  /\ (time_ne r def && time_ne x def) && time_lt x r = false.
Proof.
  intros I Z L F. destruct (time_ne x def) eqn:X.
  - assert (O : In x (filter (fun t => time_ne t def) ts))
      by (apply filter_In; split; assumption).
    assert (N : filter (fun t => time_ne t def) ts <> [])
      by (intros Q; rewrite Q in O; exact O).
    destruct (L N) as [Rin Rle].
    assert (R : time_eq r def = false).
    { destruct Rin as [<- | Rin]; [exact F |].
      apply filter_In in Rin. destruct Rin as [_ Rne].
      unfold time_ne in Rne. apply negb_true_iff in Rne. exact Rne. }
    rewrite R, (Rle x (or_intror O)). simpl. rewrite andb_false_r. split; reflexivity.
  - rewrite !andb_false_r. split; reflexivity.
Qed.

Lemma greatest_rows (def : rmw_time_t) (ts : list rmw_time_t) (x r : rmw_time_t) :
  In x ts ->
  (filter (fun t => time_ne t def) ts = [] -> r = def) ->
  (filter (fun t => time_ne t def) ts <> [] ->
   greatest_of (filter (fun t => time_ne t def) ts) r) ->
  forallb (fun t => time_eq t def) ts || forallb (fun t => time_ne t def) ts = true ->
  time_eq x def && time_ne r def = false
  /\ (time_ne x def && time_ne r def) && time_lt r x = false.
Proof.
  intros I Z G U. apply orb_true_iff in U. destruct U as [U | U].
  - assert (O : filter (fun t => time_ne t def) ts = []).
    { clear - U. induction ts as [| t ts IH]; simpl in *; [reflexivity |].
      apply andb_true_iff in U. destruct U as [U1 U2].
      unfold time_ne. rewrite U1. simpl. apply IH, U2. }
    rewrite (Z O). unfold time_ne.
    assert (D : time_eq def def = true) by (apply time_eq_true_iff; reflexivity).
    rewrite D. simpl. rewrite !andb_false_r. split; reflexivity.
  - rewrite forallb_forall in U. pose proof (U x I) as X.
    assert (O : In x (filter (fun t => time_ne t def) ts))
      by (apply filter_In; split; assumption).
    assert (N : filter (fun t => time_ne t def) ts <> [])
      by (intros Q; rewrite Q in O; exact O).
    destruct (G N) as [_ Gle]. rewrite (Gle x O), andb_false_r.
    unfold time_ne in X. apply negb_true_iff in X. rewrite X. split; reflexivity.
Qed.

Lemma reliability_eqb_eq (a b : rmw_qos_reliability_policy_t) :
  reliability_eqb a b = true <-> a = b.
Proof. destruct a, b; simpl; split; intros H; try discriminate; reflexivity. Qed.

Lemma durability_eqb_eq (a b : rmw_qos_durability_policy_t) :
  durability_eqb a b = true <-> a = b.
Proof. destruct a, b; simpl; split; intros H; try discriminate; reflexivity. Qed.

Lemma liveliness_eqb_eq (a b : rmw_qos_liveliness_policy_t) :
  liveliness_eqb a b = true <-> a = b.
Proof. destruct a, b; simpl; split; intros H; try discriminate; reflexivity. Qed.

Lemma forallb_map (A B : Type) (f : A -> B) (p : B -> bool) (l : list A) :
  forallb p (map f l) = forallb (fun a => p (f a)) l.
Proof. induction l as [| a l IH]; simpl; [reflexivity | rewrite IH; reflexivity]. Qed.

Section PeerGuarantees.
Context {E : rmw_externals}.

Lemma fully_best_available_parts (p : rmw_qos_profile_t) :
  fully_best_available p = true ->
  reliability_eqb RMW_QOS_POLICY_RELIABILITY_BEST_AVAILABLE (reliability p) = true
  /\ durability_eqb RMW_QOS_POLICY_DURABILITY_BEST_AVAILABLE (durability p) = true
  /\ liveliness_eqb RMW_QOS_POLICY_LIVELINESS_BEST_AVAILABLE (liveliness p) = true
  /\ time_eq RMW_QOS_DEADLINE_BEST_AVAILABLE (deadline p) = true
  /\ time_eq RMW_QOS_LIVELINESS_LEASE_DURATION_BEST_AVAILABLE
       (liveliness_lease_duration p) = true.
Proof. unfold fully_best_available. rewrite !andb_true_iff. tauto. Qed.

(** X20.  The profile [qos_profile_get_best_available_for_publisher]
    resolves a fully BEST_AVAILABLE publisher profile to is compatible
    with every subscription it was resolved against: no ERROR row of the
    table holds for any of them, so [qos_profile_check_compatible] never
    answers ERROR for the pair.  (RMW_DURATION_INFINITE, where the
    search for the smallest duration starts, must differ from the two
    DEFAULT durations, as it does in rmw.) *)
Theorem publisher_resolution_suits_every_subscription
    (subscriptions : rmw_topic_endpoint_info_array_t) (p : rmw_qos_profile_t)
    (full : fully_best_available p = true)
    (infinite_deadline : time_eq RMW_DURATION_INFINITE RMW_QOS_DEADLINE_DEFAULT = false)
    (infinite_lease :
       time_eq RMW_DURATION_INFINITE RMW_QOS_LIVELINESS_LEASE_DURATION_DEFAULT = false) :
  exists p',
    qos_profile_get_best_available_for_publisher (Some subscriptions) (Some p)
    = (RMW_RET_OK, Some p')
    /\ forall subscription,
         In subscription subscriptions ->
         table_yields_error p' (endpoint.qos_profile subscription) = false
         /\ forall c0,
              snd (fst (qos_profile_check_compatible p'
                          (endpoint.qos_profile subscription) (Some c0) None 0))
              <> Some RMW_QOS_COMPATIBILITY_ERROR.
Proof.
  destruct (fully_best_available_parts p full) as (B1 & B2 & B3 & B4 & B5).
  destruct (best_available_for_publisher_fields subscriptions p)
    as (p' & R & F1 & F2 & F3 & _ & D1 & D2 & _ & L1 & L2 & _).
  rewrite B1 in F1. rewrite B2 in F2. rewrite B3 in F3.
  exists p'. split; [exact R |]. intros sub I.
  assert (T : table_yields_error p' (endpoint.qos_profile sub) = false).
  { unfold table_yields_error, error_rows. cbn [existsb].
    rewrite F1, F2, F3. cbn [reliability_eqb durability_eqb andb orb].
    destruct (@least_rows RMW_QOS_DEADLINE_DEFAULT RMW_DURATION_INFINITE
                (map (fun info => deadline (endpoint.qos_profile info)) subscriptions)
                (deadline (endpoint.qos_profile sub)) (deadline p')
                (in_map _ _ _ I) (D1 B4) (D2 B4) infinite_deadline) as (R3 & R4).
    destruct (@least_rows RMW_QOS_LIVELINESS_LEASE_DURATION_DEFAULT RMW_DURATION_INFINITE
                (map (fun info => liveliness_lease_duration (endpoint.qos_profile info))
                     subscriptions)
                (liveliness_lease_duration (endpoint.qos_profile sub))
                (liveliness_lease_duration p')
                (in_map _ _ _ I) (L1 B5) (L2 B5) infinite_lease) as (R6 & R7).
    unfold time_ne in R3, R4, R6, R7. rewrite R3, R4, R6, R7. cbn [orb].
    rewrite orb_false_r.
    destruct (liveliness_eqb (liveliness (endpoint.qos_profile sub))
                RMW_QOS_POLICY_LIVELINESS_MANUAL_BY_TOPIC) eqn:M;
      [| apply andb_false_r].
    apply liveliness_eqb_eq in M.
    assert (X : existsb (fun info =>
                           liveliness_eqb RMW_QOS_POLICY_LIVELINESS_MANUAL_BY_TOPIC
                             (liveliness (endpoint.qos_profile info))) subscriptions = true).
    { apply existsb_exists. exists sub. split; [exact I |]. rewrite M. reflexivity. }
    rewrite X. reflexivity. }
  split; [exact T |]. intros c0.
  rewrite check_compatible_table_verdict by reflexivity.
  intros Q. inversion Q as [V]. revert V. apply table_verdict_not_error. exact T.
Qed.

End PeerGuarantees.

Lemma publisher_resolution_suits_every_subscription_witness :
  @fully_best_available rmw_defaults rmw_qos_profile_best_available = true
  /\ exists p',
       @qos_profile_get_best_available_for_publisher rmw_defaults
         (Some [endpoint_with_qos
                  (profile_of RMW_QOS_POLICY_RELIABILITY_BEST_EFFORT
                     RMW_QOS_POLICY_DURABILITY_VOLATILE
                     RMW_QOS_POLICY_LIVELINESS_MANUAL_BY_TOPIC
                     (mk_time 5 0) (mk_time 0 0))])
         (Some rmw_qos_profile_best_available)
       = (RMW_RET_OK, Some p')
       /\ @table_yields_error rmw_defaults p'
            (profile_of RMW_QOS_POLICY_RELIABILITY_BEST_EFFORT
               RMW_QOS_POLICY_DURABILITY_VOLATILE
               RMW_QOS_POLICY_LIVELINESS_MANUAL_BY_TOPIC
               (mk_time 5 0) (mk_time 0 0)) = false.
Proof.
  split; [reflexivity |].
  destruct (@publisher_resolution_suits_every_subscription rmw_defaults
              [endpoint_with_qos
                 (profile_of RMW_QOS_POLICY_RELIABILITY_BEST_EFFORT
                    RMW_QOS_POLICY_DURABILITY_VOLATILE
                    RMW_QOS_POLICY_LIVELINESS_MANUAL_BY_TOPIC
                    (mk_time 5 0) (mk_time 0 0))]
              rmw_qos_profile_best_available eq_refl eq_refl eq_refl)
    as (p' & R & H).
  exists p'. split; [exact R |].
  exact (proj1 (H _ (or_introl eq_refl))).
Defined.

Section PeerGuaranteesSubscription.
Context {E : rmw_externals}.

(** X21.  The profile [qos_profile_get_best_available_for_subscription]
    resolves a fully BEST_AVAILABLE subscription profile to never meets
    the reliability, durability or liveliness ERROR rows with any of the
    publishers it was resolved against.  If moreover the publishers
    agree on having a deadline and on having a lease duration (all or
    none), no ERROR row holds at all and
    [qos_profile_check_compatible] never answers ERROR for the pair. *)
Theorem subscription_resolution_suits_publishers
    (publishers : rmw_topic_endpoint_info_array_t) (p : rmw_qos_profile_t)
    (full : fully_best_available p = true) :
  exists p',
    qos_profile_get_best_available_for_subscription (Some publishers) (Some p)
    = (RMW_RET_OK, Some p')
    /\ forall publisher,
         In publisher publishers ->
         (exists r3 r4 r6 r7,
            error_rows (endpoint.qos_profile publisher) p'
            = [false; false; r3; r4; false; r6; r7])
         /\ (uniform_deadlines publishers = true -> uniform_leases publishers = true ->
             table_yields_error (endpoint.qos_profile publisher) p' = false
             /\ forall c0,
                  snd (fst (qos_profile_check_compatible
                              (endpoint.qos_profile publisher) p' (Some c0) None 0))
                  <> Some RMW_QOS_COMPATIBILITY_ERROR).
Proof.
  destruct (fully_best_available_parts p full) as (B1 & B2 & B3 & B4 & B5).
  destruct (best_available_for_subscription_fields publishers p)
    as (p' & R & F1 & F2 & F3 & _ & D1 & D2 & _ & L1 & L2 & _).
  rewrite B1 in F1. rewrite B2 in F2. rewrite B3 in F3.
  exists p'. split; [exact R |]. intros pub I.
  assert (R1 : reliability_eqb (reliability (endpoint.qos_profile pub))
                 RMW_QOS_POLICY_RELIABILITY_BEST_EFFORT
               && reliability_eqb (reliability p') RMW_QOS_POLICY_RELIABILITY_RELIABLE
               = false).
  { rewrite F1. destruct (all_reliable publishers) eqn:A; [| apply andb_false_r].
    unfold all_reliable in A. rewrite forallb_forall in A. specialize (A pub I).
    apply reliability_eqb_eq in A. rewrite <- A. reflexivity. }
  assert (R2 : durability_eqb (durability (endpoint.qos_profile pub))
                 RMW_QOS_POLICY_DURABILITY_VOLATILE
               && durability_eqb (durability p') RMW_QOS_POLICY_DURABILITY_TRANSIENT_LOCAL
               = false).
  { rewrite F2. destruct (all_transient_local publishers) eqn:A; [| apply andb_false_r].
    unfold all_transient_local in A. rewrite forallb_forall in A. specialize (A pub I).
    apply durability_eqb_eq in A. rewrite <- A. reflexivity. }
  assert (R5 : liveliness_eqb (liveliness (endpoint.qos_profile pub))
                 RMW_QOS_POLICY_LIVELINESS_AUTOMATIC
               && liveliness_eqb (liveliness p') RMW_QOS_POLICY_LIVELINESS_MANUAL_BY_TOPIC
               = false).
  { rewrite F3. destruct (all_manual_by_topic publishers) eqn:A; [| apply andb_false_r].
    unfold all_manual_by_topic in A. rewrite forallb_forall in A. specialize (A pub I).
    apply liveliness_eqb_eq in A. rewrite <- A. reflexivity. }
  split.
  - unfold error_rows. rewrite R1, R2, R5. eexists. eexists. eexists. eexists.
    reflexivity.
  - intros UD UL.
    assert (T : table_yields_error (endpoint.qos_profile pub) p' = false).
    { unfold table_yields_error, error_rows. cbn [existsb]. rewrite R1, R2, R5.
      unfold uniform_deadlines in UD. unfold uniform_leases in UL.
      rewrite <- !(forallb_map (fun info => deadline (endpoint.qos_profile info))
                     (fun t => time_eq t RMW_QOS_DEADLINE_DEFAULT)) in UD.
      rewrite <- !(forallb_map (fun info => deadline (endpoint.qos_profile info))
                     (fun t => time_ne t RMW_QOS_DEADLINE_DEFAULT)) in UD.
      rewrite <- !(forallb_map
                     (fun info => liveliness_lease_duration (endpoint.qos_profile info))
                     (fun t => time_eq t RMW_QOS_LIVELINESS_LEASE_DURATION_DEFAULT)) in UL.
      rewrite <- !(forallb_map
                     (fun info => liveliness_lease_duration (endpoint.qos_profile info))
                     (fun t => time_ne t RMW_QOS_LIVELINESS_LEASE_DURATION_DEFAULT)) in UL.
      destruct (@greatest_rows RMW_QOS_DEADLINE_DEFAULT
                  (map (fun info => deadline (endpoint.qos_profile info)) publishers)
                  (deadline (endpoint.qos_profile pub)) (deadline p')
                  (in_map _ _ _ I) (D1 B4) (D2 B4) UD) as (R3 & R4).
      destruct (@greatest_rows RMW_QOS_LIVELINESS_LEASE_DURATION_DEFAULT
                  (map (fun info => liveliness_lease_duration (endpoint.qos_profile info))
                       publishers)
                  (liveliness_lease_duration (endpoint.qos_profile pub))
                  (liveliness_lease_duration p')
                  (in_map _ _ _ I) (L1 B5) (L2 B5) UL) as (R6 & R7).
      unfold time_ne in R3, R4, R6, R7. rewrite R3, R4, R6, R7. reflexivity. }
    split; [exact T |]. intros c0.
    rewrite check_compatible_table_verdict by reflexivity.
    intros Q. inversion Q as [V]. revert V. apply table_verdict_not_error. exact T.
Qed.

End PeerGuaranteesSubscription.

Lemma subscription_resolution_suits_publishers_witness :
  @fully_best_available rmw_defaults rmw_qos_profile_best_available = true
  /\ exists p',
       @qos_profile_get_best_available_for_subscription rmw_defaults
         (Some [endpoint_with_qos
                  (profile_of RMW_QOS_POLICY_RELIABILITY_BEST_EFFORT
                     RMW_QOS_POLICY_DURABILITY_VOLATILE
                     RMW_QOS_POLICY_LIVELINESS_AUTOMATIC
                     (mk_time 5 0) (mk_time 0 0))])
         (Some rmw_qos_profile_best_available)
       = (RMW_RET_OK, Some p')
       /\ @table_yields_error rmw_defaults
            (profile_of RMW_QOS_POLICY_RELIABILITY_BEST_EFFORT
               RMW_QOS_POLICY_DURABILITY_VOLATILE
               RMW_QOS_POLICY_LIVELINESS_AUTOMATIC
               (mk_time 5 0) (mk_time 0 0)) p' = false.
Proof.
  split; [reflexivity |].
  destruct (@subscription_resolution_suits_publishers rmw_defaults
              [endpoint_with_qos
                 (profile_of RMW_QOS_POLICY_RELIABILITY_BEST_EFFORT
                    RMW_QOS_POLICY_DURABILITY_VOLATILE
                    RMW_QOS_POLICY_LIVELINESS_AUTOMATIC
                    (mk_time 5 0) (mk_time 0 0))]
              rmw_qos_profile_best_available eq_refl)
    as (p' & R & H).
  exists p'. split; [exact R |].
  exact (proj1 (proj2 (H _ (or_introl eq_refl)) eq_refl eq_refl)).
Defined.

(** With mixed publishers the deadline row cannot be avoided: against a
    publisher without deadline and one with a deadline, the resolved
    subscription has a deadline and so is in ERROR with the first. *)
Example subscription_resolution_mixed_deadlines :
  let without := profile_of RMW_QOS_POLICY_RELIABILITY_RELIABLE
                   RMW_QOS_POLICY_DURABILITY_VOLATILE RMW_QOS_POLICY_LIVELINESS_AUTOMATIC
                   (mk_time 0 0) (mk_time 0 0) in
  let with_one := profile_of RMW_QOS_POLICY_RELIABILITY_RELIABLE
                    RMW_QOS_POLICY_DURABILITY_VOLATILE RMW_QOS_POLICY_LIVELINESS_AUTOMATIC
                    (mk_time 5 0) (mk_time 0 0) in
  exists p',
    @qos_profile_get_best_available_for_subscription rmw_defaults
      (Some [endpoint_with_qos without; endpoint_with_qos with_one])
      (Some rmw_qos_profile_best_available)
    = (RMW_RET_OK, Some p')
    /\ deadline p' = mk_time 5 0
    /\ @table_yields_error rmw_defaults without p' = true.
Proof. eexists. split; [reflexivity |]. split; reflexivity. Qed.

(* ===================================================================== *)
(** * Part XX.  Topic-driven resolution and services                      *)
(* ===================================================================== *)

Section TopicResolution.
Context {E : rmw_externals} {P : rmw_profile_externals}.

Lemma has_best_available_policy_false (p : rmw_qos_profile_t) :
  _qos_profile_has_best_available_policy p = false
  <-> reliability_eqb RMW_QOS_POLICY_RELIABILITY_BEST_AVAILABLE (reliability p) = false
      /\ durability_eqb RMW_QOS_POLICY_DURABILITY_BEST_AVAILABLE (durability p) = false
      /\ liveliness_eqb RMW_QOS_POLICY_LIVELINESS_BEST_AVAILABLE (liveliness p) = false
      /\ time_eq RMW_QOS_DEADLINE_BEST_AVAILABLE (deadline p) = false
      /\ time_eq RMW_QOS_LIVELINESS_LEASE_DURATION_BEST_AVAILABLE
           (liveliness_lease_duration p) = false.
Proof.
  unfold _qos_profile_has_best_available_policy, deadline_best_available,
    liveliness_lease_duration_best_available.
  destruct (reliability_eqb _ _), (durability_eqb _ _), (liveliness_eqb _ _),
    (time_eq RMW_QOS_DEADLINE_BEST_AVAILABLE _),
    (time_eq RMW_QOS_LIVELINESS_LEASE_DURATION_BEST_AVAILABLE _);
    split; intros H; try discriminate; try reflexivity; try tauto;
    destruct H as (H1 & H2 & H3 & H4 & H5); discriminate.
Qed.

(** X22.  The two topic functions.  A null node, topic name or profile
    gives RMW_RET_INVALID_ARGUMENT.  A profile without any
    BEST_AVAILABLE policy comes back unchanged with RMW_RET_OK, whatever
    the enumerator would answer: it is not consulted.  Otherwise the
    enumerator is called with the allocator of the node, [no_mangle]
    false and an empty array; its failure is returned with the profile
    untouched; on its success the profile is resolved against the
    endpoints it gave (as a subscription, respectively as a publisher)
    and the status is that of [rmw_topic_endpoint_info_array_fini], the
    profile being resolved even when that status is a failure. *)
Theorem topic_resolution
    (node : option rmw_node_t) (topic_name : option string)
    (qos_profile : option rmw_qos_profile_t)
    (get_endpoint_info : GetEndpointInfoByTopicFunction) :
  let for_subscription :=
    qos_profile_get_best_available_for_topic_subscription node topic_name qos_profile
      get_endpoint_info in
  let for_publisher :=
    qos_profile_get_best_available_for_topic_publisher node topic_name qos_profile
      get_endpoint_info in
  (node = None \/ topic_name = None \/ qos_profile = None ->
   for_subscription = (RMW_RET_INVALID_ARGUMENT, qos_profile)
   /\ for_publisher = (RMW_RET_INVALID_ARGUMENT, qos_profile))
  /\ forall n t p,
       node = Some n -> topic_name = Some t -> qos_profile = Some p ->
       (_qos_profile_has_best_available_policy p = false ->
        for_subscription = (RMW_RET_OK, Some p) /\ for_publisher = (RMW_RET_OK, Some p))
       /\ (_qos_profile_has_best_available_policy p = true ->
           forall ret allocator infos,
             get_endpoint_info n (node_allocator n) t false [] = (ret, allocator, infos) ->
             (ret <> RMW_RET_OK ->
              for_subscription = (ret, Some p) /\ for_publisher = (ret, Some p))
             /\ (ret = RMW_RET_OK ->
                 for_subscription
                 = (fst (rmw_topic_endpoint_info_array_fini infos allocator),
                    snd (qos_profile_get_best_available_for_subscription
                           (Some infos) (Some p)))
                 /\ for_publisher
                    = (fst (rmw_topic_endpoint_info_array_fini infos allocator),
                       snd (qos_profile_get_best_available_for_publisher
                              (Some infos) (Some p))))).
Proof.
  cbv zeta. split.
  - intros [-> | [-> | ->]]; unfold qos_profile_get_best_available_for_topic_subscription,
      qos_profile_get_best_available_for_topic_publisher.
    + split; reflexivity.
    + destruct node; split; reflexivity.
    + destruct node, topic_name; split; reflexivity.
  - intros n t p -> -> ->.
    unfold qos_profile_get_best_available_for_topic_subscription,
      qos_profile_get_best_available_for_topic_publisher,
      rmw_get_zero_initialized_topic_endpoint_info_array.
    split.
    + intros H. rewrite H. split; reflexivity.
    + intros H ret a infos G. rewrite H, G. split.
      * intros N. destruct ret; try (contradiction N; reflexivity); split; reflexivity.
      * intros ->. cbn [ret_not_ok].
        rewrite best_available_for_subscription_unfold,
          best_available_for_publisher_unfold.
        cbv zeta. cbn [snd].
        destruct (rmw_topic_endpoint_info_array_fini infos a) as [[| | | |] a'];
          split; reflexivity.
Qed.

End TopicResolution.

Section Completeness.
Context {E : rmw_externals} {P : rmw_profile_externals}.

Lemma resolve_nothing (r : rmw_qos_reliability_policy_t) (d : rmw_qos_durability_policy_t)
    (l : rmw_qos_liveliness_policy_t) (dl ld : rmw_time_t) (p : rmw_qos_profile_t) :
  _qos_profile_has_best_available_policy p = false ->
  resolve_lease ld (resolve_deadline dl (resolve_liveliness l
    (resolve_durability d (resolve_reliability r p)))) = p.
Proof.
  intros H. apply has_best_available_policy_false in H.
  destruct H as (H1 & H2 & H3 & H4 & H5).
  unfold resolve_reliability. rewrite H1.
  unfold resolve_durability. rewrite H2.
  unfold resolve_liveliness. rewrite H3.
  unfold resolve_deadline, deadline_best_available. rewrite H4.
  unfold resolve_lease, liveliness_lease_duration_best_available. rewrite H5.
  reflexivity.
Qed.

Lemma observed_not_sentinel (sentinel def : rmw_time_t) (ts : list rmw_time_t)
    (x : rmw_time_t) :
  forallb (fun t => negb (time_eq sentinel t)) ts = true ->
  In x (filter (fun t => time_ne t def) ts) -> time_eq sentinel x = false.
Proof.
  intros A I. apply filter_In in I. destruct I as [I _].
  rewrite forallb_forall in A. specialize (A x I). apply negb_true_iff in A. exact A.
Qed.

Lemma sentinels_apart_parts (infos : rmw_topic_endpoint_info_array_t) :
  sentinels_apart infos = true ->
  time_eq RMW_QOS_DEADLINE_BEST_AVAILABLE RMW_QOS_DEADLINE_DEFAULT = false
  /\ time_eq RMW_QOS_DEADLINE_BEST_AVAILABLE RMW_DURATION_INFINITE = false
  /\ time_eq RMW_QOS_LIVELINESS_LEASE_DURATION_BEST_AVAILABLE
       RMW_QOS_LIVELINESS_LEASE_DURATION_DEFAULT = false
  /\ time_eq RMW_QOS_LIVELINESS_LEASE_DURATION_BEST_AVAILABLE RMW_DURATION_INFINITE = false
  /\ forallb (fun t => negb (time_eq RMW_QOS_DEADLINE_BEST_AVAILABLE t))
       (map (fun info => deadline (endpoint.qos_profile info)) infos) = true
  /\ forallb (fun t => negb (time_eq RMW_QOS_LIVELINESS_LEASE_DURATION_BEST_AVAILABLE t))
       (map (fun info => liveliness_lease_duration (endpoint.qos_profile info)) infos)
     = true.
Proof.
  unfold sentinels_apart. rewrite !andb_true_iff, !negb_true_iff.
  intros ((((H1 & H2) & H3) & H4) & H5).
  repeat (split; [assumption |]).
  rewrite !forallb_map, !forallb_forall. rewrite forallb_forall in H5.
  split; intros x I; specialize (H5 x I); apply andb_true_iff in H5; tauto.
Qed.

(** X23.  Resolution is complete.  If no endpoint advertises the
    BEST_AVAILABLE sentinel as its deadline or lease duration, and the
    sentinel is neither DEFAULT nor RMW_DURATION_INFINITE, then the
    profile resolved by [qos_profile_get_best_available_for_subscription]
    or by [qos_profile_get_best_available_for_publisher] holds no
    BEST_AVAILABLE policy any more; and a profile that holds none is
    returned unchanged by both functions, against any endpoints. *)
Theorem resolution_leaves_no_best_available
    (infos : rmw_topic_endpoint_info_array_t) (p : rmw_qos_profile_t)
    (apart : sentinels_apart infos = true) :
  (forall p',
     snd (qos_profile_get_best_available_for_subscription (Some infos) (Some p)) = Some p'
     \/ snd (qos_profile_get_best_available_for_publisher (Some infos) (Some p)) = Some p' ->
     _qos_profile_has_best_available_policy p' = false)
  /\ (forall q others,
        _qos_profile_has_best_available_policy q = false ->
        qos_profile_get_best_available_for_subscription (Some others) (Some q)
        = (RMW_RET_OK, Some q)
        /\ qos_profile_get_best_available_for_publisher (Some others) (Some q)
           = (RMW_RET_OK, Some q)).
Proof.
  destruct (sentinels_apart_parts infos apart) as (S1 & S2 & S3 & S4 & S5 & S6).
  split.
  - intros p' H. apply has_best_available_policy_false.
    assert (T : forall (obs : list rmw_time_t) (sentinel def inf x y : rmw_time_t)
                  (b : bool),
              (b = false -> x = y) -> time_eq sentinel y = b ->
              time_eq sentinel def = false -> time_eq sentinel inf = false ->
              (forall t, In t obs -> time_eq sentinel t = false) ->
              (b = true -> obs = [] -> x = def) ->
              (b = true -> obs <> [] -> In x (inf :: obs)) ->
              time_eq sentinel x = false).
    { intros obs sentinel def inf x y b K B D I O Z N. destruct b.
      - destruct obs as [| o obs'] eqn:Obs.
        + rewrite (Z eq_refl eq_refl). exact D.
        + destruct (N eq_refl ltac:(discriminate)) as [<- | X]; [exact I |].
          apply O. exact X.
      - rewrite (K eq_refl). exact B. }
    destruct H as [H | H].
    + destruct (best_available_for_subscription_fields infos p)
        as (q & R & F1 & F2 & F3 & D0 & D1 & D2 & L0 & L1 & L2 & _).
      rewrite R in H. inversion H; subst q. rewrite F1, F2, F3.
      split; [destruct (reliability_eqb _ (reliability p)) eqn:B;
              [destruct (all_reliable infos); reflexivity | exact B] |].
      split; [destruct (durability_eqb _ (durability p)) eqn:B;
              [destruct (all_transient_local infos); reflexivity | exact B] |].
      split; [destruct (liveliness_eqb _ (liveliness p)) eqn:B;
              [destruct (all_manual_by_topic infos); reflexivity | exact B] |].
      split.
      * apply (T (observed_deadlines infos) _ RMW_QOS_DEADLINE_DEFAULT
                 RMW_DURATION_INFINITE _ (deadline p)
                 (time_eq RMW_QOS_DEADLINE_BEST_AVAILABLE (deadline p)));
          auto.
        -- intros t I. eapply observed_not_sentinel; [exact S5 | exact I].
        -- intros B N. right. apply (D2 B N).
      * apply (T (observed_leases infos) _ RMW_QOS_LIVELINESS_LEASE_DURATION_DEFAULT
                 RMW_DURATION_INFINITE _ (liveliness_lease_duration p)
                 (time_eq RMW_QOS_LIVELINESS_LEASE_DURATION_BEST_AVAILABLE
                    (liveliness_lease_duration p)));
          auto.
        -- intros t I. eapply observed_not_sentinel; [exact S6 | exact I].
        -- intros B N. right. apply (L2 B N).
    + destruct (best_available_for_publisher_fields infos p)
        as (q & R & F1 & F2 & F3 & D0 & D1 & D2 & L0 & L1 & L2 & _).
      rewrite R in H. inversion H; subst q. rewrite F1, F2, F3.
      split; [destruct (reliability_eqb _ (reliability p)) eqn:B;
              [reflexivity | exact B] |].
      split; [destruct (durability_eqb _ (durability p)) eqn:B;
              [reflexivity | exact B] |].
      split; [destruct (liveliness_eqb _ (liveliness p)) eqn:B;
              [destruct (existsb _ infos); reflexivity | exact B] |].
      split.
      * apply (T (observed_deadlines infos) _ RMW_QOS_DEADLINE_DEFAULT
                 RMW_DURATION_INFINITE _ (deadline p)
                 (time_eq RMW_QOS_DEADLINE_BEST_AVAILABLE (deadline p)));
          auto.
        -- intros t I. eapply observed_not_sentinel; [exact S5 | exact I].
        -- intros B N. apply (D2 B N).
      * apply (T (observed_leases infos) _ RMW_QOS_LIVELINESS_LEASE_DURATION_DEFAULT
                 RMW_DURATION_INFINITE _ (liveliness_lease_duration p)
                 (time_eq RMW_QOS_LIVELINESS_LEASE_DURATION_BEST_AVAILABLE
                    (liveliness_lease_duration p)));
          auto.
        -- intros t I. eapply observed_not_sentinel; [exact S6 | exact I].
        -- intros B N. apply (L2 B N).
  - intros q others H.
    rewrite best_available_for_subscription_unfold, best_available_for_publisher_unfold.
    cbv zeta. rewrite !resolve_nothing by exact H. split; reflexivity.
Qed.

End Completeness.

Lemma resolution_leaves_no_best_available_witness :
  @sentinels_apart rmw_defaults
    [endpoint_with_qos
       (profile_of RMW_QOS_POLICY_RELIABILITY_RELIABLE RMW_QOS_POLICY_DURABILITY_VOLATILE
          RMW_QOS_POLICY_LIVELINESS_AUTOMATIC (mk_time 5 0) (mk_time 0 0))] = true
  /\ @_qos_profile_has_best_available_policy rmw_defaults rmw_qos_profile_best_available
     = true
  /\ forall p',
       snd (@qos_profile_get_best_available_for_subscription rmw_defaults
              (Some [endpoint_with_qos
                       (profile_of RMW_QOS_POLICY_RELIABILITY_RELIABLE
                          RMW_QOS_POLICY_DURABILITY_VOLATILE
                          RMW_QOS_POLICY_LIVELINESS_AUTOMATIC (mk_time 5 0) (mk_time 0 0))])
              (Some rmw_qos_profile_best_available)) = Some p' ->
       @_qos_profile_has_best_available_policy rmw_defaults p' = false.
Proof.
  split; [reflexivity |]. split; [reflexivity |].
  intros p' H.
  apply (proj1 (@resolution_leaves_no_best_available rmw_defaults
                  [endpoint_with_qos
                     (profile_of RMW_QOS_POLICY_RELIABILITY_RELIABLE
                        RMW_QOS_POLICY_DURABILITY_VOLATILE
                        RMW_QOS_POLICY_LIVELINESS_AUTOMATIC (mk_time 5 0) (mk_time 0 0))]
                  rmw_qos_profile_best_available eq_refl) p').
  left. exact H.
Defined.

Section Services.
Context {E : rmw_externals} {P : rmw_profile_externals}.

(** X24.  [qos_profile_update_best_available_for_services] replaces each
    policy that is BEST_AVAILABLE by that of
    [rmw_qos_profile_services_default] and changes nothing else; a
    profile without BEST_AVAILABLE policy is returned as it is; and when
    the services default itself has no BEST_AVAILABLE policy the result
    has none, so updating twice is updating once. *)
Theorem update_best_available_for_services_result (p : rmw_qos_profile_t) :
  let result := qos_profile_update_best_available_for_services p in
  let default := rmw_qos_profile_services_default in
  reliability result
  = (if reliability_eqb RMW_QOS_POLICY_RELIABILITY_BEST_AVAILABLE (reliability p)
     then reliability default else reliability p)
  /\ durability result
     = (if durability_eqb RMW_QOS_POLICY_DURABILITY_BEST_AVAILABLE (durability p)
        then durability default else durability p)
  /\ liveliness result
     = (if liveliness_eqb RMW_QOS_POLICY_LIVELINESS_BEST_AVAILABLE (liveliness p)
        then liveliness default else liveliness p)
  /\ deadline result
     = (if time_eq RMW_QOS_DEADLINE_BEST_AVAILABLE (deadline p)
        then deadline default else deadline p)
  /\ liveliness_lease_duration result
     = (if time_eq RMW_QOS_LIVELINESS_LEASE_DURATION_BEST_AVAILABLE
                   (liveliness_lease_duration p)
        then liveliness_lease_duration default else liveliness_lease_duration p)
  /\ same_fixed_fields p result
  /\ (_qos_profile_has_best_available_policy p = false -> result = p)
  /\ (_qos_profile_has_best_available_policy default = false ->
      _qos_profile_has_best_available_policy result = false
      /\ qos_profile_update_best_available_for_services result = result).
Proof.
  cbv zeta.
  assert (U : forall q,
            qos_profile_update_best_available_for_services q
            = resolve_lease (liveliness_lease_duration rmw_qos_profile_services_default)
                (resolve_deadline (deadline rmw_qos_profile_services_default)
                   (resolve_liveliness (liveliness rmw_qos_profile_services_default)
                      (resolve_durability (durability rmw_qos_profile_services_default)
                         (resolve_reliability
                            (reliability rmw_qos_profile_services_default) q)))))
    by reflexivity.
  rewrite !U.
  destruct (resolve_all_fields (reliability rmw_qos_profile_services_default)
              (durability rmw_qos_profile_services_default)
              (liveliness rmw_qos_profile_services_default)
              (deadline rmw_qos_profile_services_default)
              (liveliness_lease_duration rmw_qos_profile_services_default) p)
    as (F1 & F2 & F3 & F4 & F5 & F6).
  cbv zeta in F1, F2, F3, F4, F5, F6.
  split; [exact F1 |]. split; [exact F2 |]. split; [exact F3 |]. split; [exact F4 |].
  split; [exact F5 |]. split; [exact F6 |].
  split; [intros H; apply resolve_nothing; exact H |].
  intros D.
  assert (N : _qos_profile_has_best_available_policy
                (resolve_lease (liveliness_lease_duration rmw_qos_profile_services_default)
                   (resolve_deadline (deadline rmw_qos_profile_services_default)
                      (resolve_liveliness (liveliness rmw_qos_profile_services_default)
                         (resolve_durability (durability rmw_qos_profile_services_default)
                            (resolve_reliability
                               (reliability rmw_qos_profile_services_default) p)))))
              = false).
  { apply has_best_available_policy_false in D. destruct D as (D1 & D2 & D3 & D4 & D5).
    apply has_best_available_policy_false. rewrite F1, F2, F3, F4, F5.
    split; [destruct (reliability_eqb _ (reliability p)) eqn:B; [exact D1 | exact B] |].
    split; [destruct (durability_eqb _ (durability p)) eqn:B; [exact D2 | exact B] |].
    split; [destruct (liveliness_eqb _ (liveliness p)) eqn:B; [exact D3 | exact B] |].
    split; [destruct (time_eq _ (deadline p)) eqn:B; [exact D4 | exact B] |].
    destruct (time_eq _ (liveliness_lease_duration p)) eqn:B; [exact D5 | exact B]. }
  split; [exact N |]. apply resolve_nothing. exact N.
Qed.

End Services.

Example services_resolution_of_best_available :
  @qos_profile_update_best_available_for_services rmw_defaults rmw_profile_defaults
    rmw_qos_profile_best_available
  = profile_of RMW_QOS_POLICY_RELIABILITY_RELIABLE RMW_QOS_POLICY_DURABILITY_VOLATILE
      RMW_QOS_POLICY_LIVELINESS_SYSTEM_DEFAULT (mk_time 0 0) (mk_time 0 0).
Proof. reflexivity. Qed.

(* ===================================================================== *)
(** * Part XXI.  Status and reason of the compatibility check             *)
(* ===================================================================== *)

Section CheckCompatibleStatus.
Context {E : rmw_externals}.

Lemma idle_set_append (v : rmw_qos_compatibility_type_t) (n : nat) (message : string) :
  idle (set_compatibility v ;; append_or_return n message)%stmt true.
Proof. intros H. discriminate H. Qed.

Lemma idle_skip : idle skip false.
Proof. intros _ s. reflexivity. Qed.

Lemma idle_when (c : stmt check_out unit) (b b' : bool) :
  idle c b' -> idle (when b c) (b && b').
Proof.
  intros H F s. destruct b; simpl in *; [apply H; exact F | reflexivity].
Qed.

Lemma idle_if (c1 c2 : stmt check_out unit) (b b1 b2 : bool) :
  idle c1 b1 -> idle c2 b2 -> idle (if b then c1 else c2) (if b then b1 else b2).
Proof. destruct b; auto. Qed.

Lemma idle_seq (c1 c2 : stmt check_out unit) (b1 b2 : bool) :
  idle c1 b1 -> idle c2 b2 -> idle (c1 ;; c2)%stmt (b1 || b2).
Proof.
  intros H1 H2 F s. apply orb_false_iff in F. destruct F as [F1 F2].
  unfold seq. rewrite (H1 F1 s). apply (H2 F2).
Qed.

Lemma idle_warnings (k : stmt check_out unit) (w : bool) :
  idle k w ->
  idle (seq get_compatibility
          (fun current => when (compatibility_eqb RMW_QOS_COMPATIBILITY_OK current) k)) w.
Proof.
  intros H F s. unfold seq, get_compatibility.
  destruct (compatibility_eqb RMW_QOS_COMPATIBILITY_OK (compatibility s)); simpl;
    [apply H; exact F | reflexivity].
Qed.

Lemma warning_chain_last (u1 u2 a b : bool) :
  (if u1 && u2 then true else if u1 && a then true else b && u2)
  = u1 && (u2 || a) || b && u2.
Proof. destruct u1, u2, a, b; reflexivity. Qed.

(** With no row of the table holding, the body writes nothing. *)
Lemma check_compatible_body_idle (pub sub : rmw_qos_profile_t) (n : nat) :
  table_yields_error pub sub = false -> table_yields_warning pub sub = false ->
  forall s, check_compatible_body pub sub n s = (Next tt, s).
Proof.
  intros He Hw.
  evar (b : bool).
  assert (I : idle (check_compatible_body pub sub n) b).
  { subst b. unfold check_compatible_body. cbv zeta.
    repeat first [ apply idle_set_append | apply idle_skip | apply idle_when
                 | apply idle_if | apply idle_seq | apply idle_warnings ]. }
  apply I. subst b. clear I.
  unfold table_yields_error, error_rows in He. cbn [existsb] in He.
  unfold table_yields_warning, warning_rows in Hw. cbn [existsb] in Hw.
  unfold deadline_default, liveliness_lease_duration_default.
  rewrite ?andb_true_r, !warning_chain_last. unfold time_ne in *.
  repeat match goal with
         | H : (_ || _)%bool = false |- _ => apply orb_false_iff in H; destruct H
         end.
  repeat match goal with
         | H : ?x = false |- _ => rewrite H; clear H
         end.
  reflexivity.
Qed.

Lemma quiet_set_append (v : rmw_qos_compatibility_type_t) (n : nat) (message : string) :
  quiet (set_compatibility v ;; append_or_return n message)%stmt.
Proof.
  intros s H. unfold seq, set_compatibility, append_or_return, _append_to_buffer.
  cbn [reason compatibility].
  destruct (reason s) as [text |] eqn:R.
  - destruct H as [H | H]; [discriminate |].
    destruct (Nat.eqb n 0); [eexists; split; [reflexivity | discriminate] |].
    pose proof (H (n - Nat.min (String.length text) n) message) as F.
    destruct (rcutils_vsnprintf _ message) as [ret stored]. simpl in F.
    destruct (ret <? 0)%Z eqn:L; [apply Z.ltb_lt in L; lia |].
    eexists. split; [reflexivity | discriminate].
  - eexists. split; [reflexivity |]. intros _. reflexivity.
Qed.

Lemma quiet_skip : quiet skip.
Proof. intros s _. exists s. split; [reflexivity | auto]. Qed.

Lemma quiet_when (c : stmt check_out unit) (b : bool) : quiet c -> quiet (when b c).
Proof. intros H. destruct b; simpl; [exact H | apply quiet_skip]. Qed.

Lemma quiet_if (c1 c2 : stmt check_out unit) (b : bool) :
  quiet c1 -> quiet c2 -> quiet (if b then c1 else c2).
Proof. destruct b; auto. Qed.

Lemma quiet_seq (c1 c2 : stmt check_out unit) :
  quiet c1 -> quiet c2 -> quiet (c1 ;; c2)%stmt.
Proof.
  intros H1 H2 s H. destruct (H1 s H) as (s1 & R1 & N1).
  assert (H' : reason s1 = None \/ formatter_never_fails).
  { destruct H as [H | H]; [left; apply N1, H | right; exact H]. }
  destruct (H2 s1 H') as (s2 & R2 & N2).
  exists s2. unfold seq. rewrite R1. split; [exact R2 | auto].
Qed.

Lemma quiet_warnings (k : stmt check_out unit) :
  quiet k ->
  quiet (seq get_compatibility
           (fun current => when (compatibility_eqb RMW_QOS_COMPATIBILITY_OK current) k)).
Proof.
  intros H s Hs. unfold seq, get_compatibility.
  destruct (compatibility_eqb RMW_QOS_COMPATIBILITY_OK (compatibility s)); simpl;
    [apply H; exact Hs | exists s; split; [reflexivity | auto]].
Qed.

Lemma check_compatible_body_quiet (pub sub : rmw_qos_profile_t) (n : nat) :
  quiet (check_compatible_body pub sub n).
Proof.
  unfold check_compatible_body. cbv zeta.
  repeat first [ apply quiet_set_append | apply quiet_skip | apply quiet_when
               | apply quiet_if | apply quiet_seq | apply quiet_warnings ].
Qed.

End CheckCompatibleStatus.

Section CheckCompatibleResults.
Context {E : rmw_externals}.

(** X25.  Arguments and status of [qos_profile_check_compatible].  A
    null compatibility pointer, or a null reason with a non-zero size,
    gives RMW_RET_INVALID_ARGUMENT and nothing is written.  Called
    without a reason buffer (null, size zero) the function cannot fail:
    it returns RMW_RET_OK with the verdict of the table.  With a buffer
    it returns RMW_RET_OK whenever the formatter does not fail. *)
Theorem check_compatible_arguments_and_status
    (pub sub : rmw_qos_profile_t) (c0 : rmw_qos_compatibility_type_t)
    (reason_ptr : option string) (reason_size : nat) :
  qos_profile_check_compatible pub sub None reason_ptr reason_size
  = (RMW_RET_INVALID_ARGUMENT, None, reason_ptr)
  /\ (reason_size <> 0 ->
      qos_profile_check_compatible pub sub (Some c0) None reason_size
      = (RMW_RET_INVALID_ARGUMENT, Some c0, None))
  /\ qos_profile_check_compatible pub sub (Some c0) None 0
     = (RMW_RET_OK, Some (table_verdict pub sub), None)
  /\ (formatter_never_fails ->
      forall text,
        fst (fst (qos_profile_check_compatible pub sub (Some c0) (Some text) reason_size))
        = RMW_RET_OK).
Proof.
  split; [reflexivity |]. split; [| split].
  - intros N. destruct reason_size; [contradiction N; reflexivity | reflexivity].
  - pose proof (@check_compatible_table_verdict E pub sub c0 None 0
                  (fun _ => eq_refl)) as V.
    unfold qos_profile_check_compatible in *.
    destruct (check_compatible_body_quiet pub sub 0
                {| compatibility := RMW_QOS_COMPATIBILITY_OK; reason := None |}
                (or_introl eq_refl)) as (s' & R & N).
    rewrite R in *. simpl in *. rewrite (N eq_refl). inversion V as [V']. rewrite V'.
    reflexivity.
  - intros F text. unfold qos_profile_check_compatible.
    destruct reason_size as [| n].
    + destruct (check_compatible_body_quiet pub sub 0
                  {| compatibility := RMW_QOS_COMPATIBILITY_OK; reason := Some text |}
                  (or_intror F)) as (s' & R & _).
      rewrite R. reflexivity.
    + destruct (check_compatible_body_quiet pub sub (S n)
                  {| compatibility := RMW_QOS_COMPATIBILITY_OK; reason := Some "" |}
                  (or_intror F)) as (s' & R & _).
      rewrite R. reflexivity.
Qed.

(** X26.  When no row of the table holds, neither ERROR nor WARNING,
    [qos_profile_check_compatible] returns RMW_RET_OK with the verdict
    OK and an empty reason: the buffer, if there is one of non-zero
    size, holds the empty string, and is otherwise as it was. *)
Theorem check_compatible_ok_has_no_reason
    (pub sub : rmw_qos_profile_t) (c0 : rmw_qos_compatibility_type_t)
    (reason_ptr : option string) (reason_size : nat)
    (valid : reason_ptr = None -> reason_size = 0)
    (no_error : table_yields_error pub sub = false)
    (no_warning : table_yields_warning pub sub = false) :
  qos_profile_check_compatible pub sub (Some c0) reason_ptr reason_size
  = (RMW_RET_OK, Some RMW_QOS_COMPATIBILITY_OK,
     match reason_ptr, reason_size with
     | Some _, S _ => Some ""
     | _, _ => reason_ptr
     end).
Proof.
  unfold qos_profile_check_compatible.
  destruct reason_ptr as [text |], reason_size as [| n];
    try (specialize (valid eq_refl); discriminate);
    rewrite (check_compatible_body_idle pub sub _ no_error no_warning); reflexivity.
Qed.

End CheckCompatibleResults.

Lemma check_compatible_ok_has_no_reason_witness :
  (Some "stale" = None -> 64 = 0)
  /\ @qos_profile_check_compatible rmw_defaults QOS_R_V QOS_R_V
       (Some RMW_QOS_COMPATIBILITY_ERROR) (Some "stale") 64
     = (RMW_RET_OK, Some RMW_QOS_COMPATIBILITY_OK, Some "").
Proof.
  split; [discriminate |].
  apply (@check_compatible_ok_has_no_reason rmw_defaults QOS_R_V QOS_R_V
           RMW_QOS_COMPATIBILITY_ERROR (Some "stale") 64);
    [discriminate | reflexivity | reflexivity].
Defined.

Section SelfCompatibility.
Context {E : rmw_externals}.

(** X27.  Endpoints that share one profile are never incompatible: for
    a publisher and a subscription with the same profile no ERROR row
    holds, and [qos_profile_check_compatible] answers WARNING if some
    policy of the profile is SYSTEM_DEFAULT or UNKNOWN and OK
    otherwise. *)
Theorem same_profile_is_compatible
    (p : rmw_qos_profile_t) (c0 : rmw_qos_compatibility_type_t) :
  table_yields_error p p = false
  /\ table_yields_warning p p = has_unknown_policy p
  /\ qos_profile_check_compatible p p (Some c0) None 0
     = (RMW_RET_OK,
        Some (if has_unknown_policy p then RMW_QOS_COMPATIBILITY_WARNING
              else RMW_QOS_COMPATIBILITY_OK),
        None).
Proof.
  assert (T : table_yields_error p p = false).
  { unfold table_yields_error, error_rows, time_ne. cbn [existsb].
    rewrite !time_lt_irrefl, !andb_negb_r, !andb_false_r.
    destruct (reliability p), (durability p), (liveliness p); reflexivity. }
  assert (W : table_yields_warning p p = has_unknown_policy p).
  { unfold table_yields_warning, warning_rows, has_unknown_policy. cbn [existsb].
    destruct (reliability p), (durability p), (liveliness p); reflexivity. }
  split; [exact T |]. split; [exact W |].
  pose proof (@check_compatible_table_verdict E p p c0 None 0 (fun _ => eq_refl)) as V.
  unfold qos_profile_check_compatible in *.
  destruct (check_compatible_body_quiet p p 0
              {| compatibility := RMW_QOS_COMPATIBILITY_OK; reason := None |}
              (or_introl eq_refl)) as (s' & R & N).
  rewrite R in *. simpl in *. rewrite (N eq_refl). inversion V as [V']. rewrite V'.
  unfold table_verdict. rewrite T, W. reflexivity.
Qed.

End SelfCompatibility.

(* ===================================================================== *)
(** * Part XXII.  The two orders: durations and gids                      *)
(* ===================================================================== *)

(** X28.  The comparison operators of [rmw_time_t] in qos.cpp:
    [operator<] is a strict total order (irreflexive, transitive, and
    of two durations exactly one is less or they are [==]);
    [operator==] holds exactly for equal fields and [operator!=] is its
    negation.  The order is that of the fields, seconds first; it is the
    order of the lengths in nanoseconds for durations whose nanoseconds
    are below 10^9. *)
Theorem time_operators_order (a b c : rmw_time_t) :
  time_lt a a = false
  /\ (time_lt a b = true -> time_lt b c = true -> time_lt a c = true)
  /\ (time_lt a b = true /\ time_eq a b = false /\ time_lt b a = false
      \/ time_lt a b = false /\ time_eq a b = true /\ time_lt b a = false
      \/ time_lt a b = false /\ time_eq a b = false /\ time_lt b a = true)
  /\ (time_eq a b = true <-> a = b)
  /\ time_ne a b = negb (time_eq a b)
  /\ (normalised a -> normalised b ->
      (time_lt a b = true <-> (total_nanoseconds a < total_nanoseconds b)%N)).
Proof.
  split; [apply time_lt_irrefl |]. split; [| split; [| split; [| split]]].
  - rewrite !time_lt_spec. lia.
  - destruct (time_lt a b) eqn:L1, (time_lt b a) eqn:L2, (time_eq a b) eqn:Q;
      try rewrite time_lt_spec in *; try rewrite time_lt_false_spec in *;
      try (apply time_eq_true_iff in Q; subst b);
      try (exfalso; lia); auto.
    + exfalso. assert (X : a = b).
      { destruct a as [sa na], b as [sb nb]; simpl in *.
        assert (sa = sb) by lia. assert (na = nb) by lia. subst. reflexivity. }
      apply time_eq_true_iff in X. congruence.
  - apply time_eq_true_iff.
  - reflexivity.
  - unfold normalised, total_nanoseconds. intros Na Nb. rewrite time_lt_spec. nia.
Qed.

(** X29.  [Compare_rmw_gid_t] is a strict total order on the octets of
    gids: it is irreflexive, transitive and asymmetric, and neither of
    two gids is less than the other exactly when their [data] are the
    same, which is what makes a gid the key of at most one entry of a
    map.  [operator==] holds exactly for gids with the same [data], so
    it agrees with the equivalence of the order; and the conversion to
    the message form and back keeps the [data], as it keeps the order
    and the equality. *)
Theorem gid_order_and_equality (a b c : rmw_gid_t) :
  Compare_rmw_gid_t a a = false
  /\ (Compare_rmw_gid_t a b = true -> Compare_rmw_gid_t b c = true ->
      Compare_rmw_gid_t a c = true)
  /\ (Compare_rmw_gid_t a b = true -> Compare_rmw_gid_t b a = false)
  /\ (equivalent Compare_rmw_gid_t a b = true <-> data a = data b)
  /\ (gid_eq a b = true <-> data a = data b)
  /\ gid_eq a b = equivalent Compare_rmw_gid_t a b
  /\ data (convert_msg_to_gid (convert_gid_to_msg a)) = data a
  /\ Compare_rmw_gid_t (convert_msg_to_gid (convert_gid_to_msg a))
                       (convert_msg_to_gid (convert_gid_to_msg b))
     = Compare_rmw_gid_t a b
  /\ msg_gid_eq (convert_gid_to_msg a) (convert_gid_to_msg b) = gid_eq a b.
Proof.
  assert (Q : equivalent Compare_rmw_gid_t a b = true <-> data a = data b).
  { rewrite Compare_rmw_gid_t_equivalent. destruct a, b; simpl.
    split; intros H; [inversion H; reflexivity | subst; reflexivity]. }
  assert (G : gid_eq a b = true <-> data a = data b).
  { unfold gid_eq. apply memcmp_is_zero_eq. }
  split; [apply Compare_rmw_gid_t_irrefl |].
  split; [apply Compare_rmw_gid_t_trans |].
  split.
  { intros L. destruct (Compare_rmw_gid_t b a) eqn:L'; [| reflexivity].
    pose proof (Compare_rmw_gid_t_trans a b a L L') as X.
    rewrite Compare_rmw_gid_t_irrefl in X. discriminate. }
  split; [exact Q |]. split; [exact G |].
  split.
  { destruct (gid_eq a b) eqn:F, (equivalent Compare_rmw_gid_t a b) eqn:F';
      try reflexivity.
    - pose proof (proj2 Q (proj1 G eq_refl)). congruence.
    - pose proof (proj2 G (proj1 Q eq_refl)). congruence. }
  split; [reflexivity |]. split; reflexivity.
Qed.
